(* ===== verification/_CoqProject ===== *)
-Q . S2P
Prelude.v
GoTime.v
GoStrings.v
Notification.v
Jitter.v
Table.v
Schema.v
Store.v
StoreSpec.v
Migrations.v
StoreRefine.v
Samples.v
StoreTypes.v
StoreProps.v
IntakeStoreProps.v
OutboxStoreProps.v
RetryStoreProps.v
Limiter.v
GoText.v
Destination.v
Aliasing.v
Hash.v
Intake.v
Sender.v
Delivery.v
OutboxService.v
System.v
Liveness.v
HttpApi.v
Config.v
Services.v
Rabbit.v
Worker.v
Supervisor.v
Observability.v
Bootstrap.v
Json.v
JsonGrammar.v
JsonCanon.v
Payload.v
Router.v
Api.v
Columns.v
Process.v
ProcessProps.v
Participant.v
