(* ===== verification/Prelude.v ===== *)
(** * Reliable HTTP notification service: verification library

    The program accepts notifications over HTTP, stores each with a snapshot
    of its destination, and delivers it at least once: a transactional outbox
    feeds a message queue, workers claim tasks under a lease and send them, a
    scheduler retries and recovers, administrators replay what died, and a
    retention job removes what is finished.  This library models its Go code
    and its SQL statements as executable definitions and proves what makes
    them correct.  Paths below are relative to [src/internal].

    ** How the parts interact

<<
      HttpApi --> Intake ----\                      /--> Limiter
                  Query -----+--> Store <-- Delivery ---> Sender --> the world
      Services (retry,  -----/      |          ^
        retention)                  v          | Worker
                              OutboxService --> Rabbit (queue)

      Bootstrap (main, RunConfigured) --> Config, Destination, Store, Rabbit
            |--> Supervisor (app.Run) --> the services of the role
            |--> Observability (health endpoint, redacted log)
>>

    All state that survives a process is in the two tables of the store; the
    processes interact only through them and through the queue.  Inside a
    worker process the goroutines share the limiter, and in a process of
    several roles the services share one registry of destinations.

    ** Files

    Shared:
    - this file: Go errors as the inductive [error] ([errors.Is],
      [errors.As], [%w] wrapping), the sum [result], the monad [M] of stateful
      code that can fail and keeps its effects when it does, loops, automation
      and lemmas on lists;
    - [GoTime.v], [GoStrings.v], [GoText.v]: what the program uses of Go's
      standard library: [int64] durations that wrap, byte strings with UTF-8
      decoding, [strings], [strconv], header keys, IP addresses;
    - [Json.v], [JsonGrammar.v], [JsonCanon.v]: encoding/json, its reader and
      its encoder, the grammar of RFC 8259 that they agree with, and values up
      to the order of members;
    - [Table.v]: SQL tables as finite maps, with selection, update and
      deletion by predicate and [ORDER BY ... LIMIT ... FOR UPDATE SKIP
      LOCKED].

    Components:
    - [Notification.v]: notification/model.go, state.go, retry.go, query.go.
      Statuses, tasks, [ClassifyResult], [CanTransition], [NextAttempt], the
      query and replay services over the class [QueryRepository];
    - [Jitter.v]: notification/jitter.go with its binary64 arithmetic, over
      [Float64] of [math/rand];
    - [Hash.v]: notification/hash.go, [RequestHash], for any JSON decoder and
      encoder;
    - [Schema.v]: the tables with their constraints; [Migrations.v]:
      migrations/, the four scripts and the command that runs them;
    - [Store.v]: store/postgres, one definition per method of [Store], each
      method a transition of the database with a result; [Columns.v]: the JSON
      texts of the header and delay columns, written by [CreateNotification]
      and read by [ClaimDelivery];
    - [Limiter.v]: delivery/limiter.go, goroutines as threads of a step
      relation;
    - [Sender.v]: delivery/http_sender.go, [Send], [sanitize],
      [parseRetryAfter]; what the client sends for one call: redirects, and
      requests that its transport repeats;
    - [Delivery.v]: delivery/service.go, [Handle];
    - [OutboxService.v]: outbox/service.go, [RunOnce] and [Run];
    - [Services.v]: retry/service.go and retention/service.go;
    - [Destination.v]: destination/config.go, validate.go, resolver.go, with
      copies as values; [Aliasing.v]: the memory behind the destinations, the
      copies of [NewRegistry] and [Get], which are deep but for the user
      information of a URL, and clients that write to whatever they hold;
    - [Intake.v]: intake/service.go, [Create];
    - [HttpApi.v]: transport/httpapi, authentication and the handlers;
      [Router.v]: its mux and the text of its responses;
    - [Payload.v]: the JSON that the program reads and writes: the payloads of
      [RequestHash], the bodies of create requests, the messages of the queue;
    - [Config.v]: config/config.go, [LoadRuntime];
    - [Rabbit.v]: messaging/rabbitmq, publisher.go and topology.go (opening
      with its declarations and clean-up, confirmations, closing, health) and
      the bodies of consumer.go;
    - [Worker.v]: the goroutine of [Consume] in consumer.go and the worker
      loop of app/bootstrap.go that it feeds, as a process over the deliveries
      of the broker;
    - [Supervisor.v]: app/app.go, [Run] as a step relation of the caller, the
      goroutines of the services and their surroundings;
    - [Observability.v]: observability, the health handlers, the redaction of
      log records through derived handlers, the counters;
    - [Bootstrap.v]: app/bootstrap.go and cmd/notifier/main.go, the
      acquisition of resources, the goroutines of a role, the deferred
      releases, the exit status and [newID];
    - [Process.v]: the constructors of the services with their observers and
      default observers, the wiring of app/bootstrap.go for any
      [surroundings], and a process in which all of them run on one store and
      one set of counters.

    Specifications and proofs about several components:
    - [StoreSpec.v]: the abstract steps [store_step] of the store and the
      invariant [db_inv] that they preserve;
    - [StoreRefine.v]: every method implements these steps;
    - [StoreProps.v], [IntakeStoreProps.v], [OutboxStoreProps.v],
      [RetryStoreProps.v]: what callers may rely on;
    - [StoreTypes.v]: a small program logic for the methods, by which they
      keep the schema and are all or nothing whatever their arguments;
    - [System.v]: the transition system of store, publishers, queue and
      workers, with the mishaps that lose a message for good (the broker drops
      what came back too often; a confirmation is taken for that of another
      message); [Liveness.v]: its infinite behaviours and their fairness;
      [Participant.v]: the wiring of [Process.v] and the client of [Rabbit.v]
      on the database and queue of that system, and the proof that the code
      takes its steps only;
    - [Api.v]: create, query and replay requests over mux, authentication,
      handler, service and store;
    - [ProcessProps.v]: the counters of a process against what happened;
    - [Samples.v]: concrete requests and histories for the examples.

    ** State and operations

    A row of [notification_tasks] is a [task_row] in [tasks d], its immutable
    columns a [task_fixed]; a row of [outbox_events] is an [event_row] in
    [outbox d].  A method of [Store] takes a [fault] first: the connection
    holds, breaks before anything happened, or breaks after the commit, so
    that the caller sees an error although the change is there.  The methods
    that say [FOR UPDATE SKIP LOCKED] take the rows locked by others.  [now()]
    of the database is an argument.  A text parameter that PostgreSQL cannot
    take (a zero byte, bytes that are not UTF-8: [texts]) is an error of the
    statement, whether or not it would touch a row.

    The classes [QueryRepository], [IntakeRepository], [DeliveryRepository],
    [DeliverySender], [CapacityLimiter], [OutboxRepository], [Publisher],
    [RetryRepository], [RetentionRepository], [Creator], [Querier],
    [Replayer], [Amqp] and [Handler] are the Go interfaces of the same (or the
    unqualified) names; services are defined against them.  The store is an
    instance of each repository.  For [Delivery.v] and [OutboxService.v] the
    instances run a script: the answers of the outside world and what other
    processes do between two calls are arguments, so that a theorem for every
    script is one about every environment.

    ** What is shown

    - The whole system ([System.v]): in every reachable state each unfinished
      task has something that moves it on (an unpublished event, a message in
      the queue, a lease, a time of its next attempt), unless its message is
      among those that a mishap lost; attempts never exceed the policy plus
      what replays grant.  In every infinite behaviour in
      which publishers, workers and scheduler complete a round now and then,
      the clock advances and no message is lost ([fair], [Liveness.v]) each
      task is seen delivered
      or dead: batches take the oldest rows first, so that no task starves.
      And the program is such a system ([Participant.v]): whatever a process
      does in whatever order, with other processes (and other goroutines of
      its own, which count as others) taking steps before each of its calls,
      changes database and queue by steps of the system only.
    - The store ([StoreProps.v] and the three after it): refinement of the
      abstract steps with the invariant; the schema is kept by every method,
      which is all or nothing, for all arguments ([StoreTypes.v]); what a
      worker reads in the JSON columns is what was accepted ([Columns.v]);
      permitted transitions; a claimed task
      is not acquired again, a worker without the lease changes nothing;
      requests are idempotent through any later history; contents, order,
      bounds and exclusion of the batches of outbox and scheduler;
      publication as a compare and swap; replay on every branch; retention
      deletes only what is finished, old and published.
    - Delivery ([Delivery.v], [Limiter.v], [Sender.v]): the order of a
      worker's effects and its answer to the queue for every script; the end
      to end effect of a delivery on the row; lost leases; permits granted
      exactly below the limits and no lost wake-up; which request leaves the
      process, where redirects and connections can take it, and what every
      answer becomes.
    - Publishing and consuming ([OutboxService.v], [Rabbit.v], [Worker.v]):
      an event is marked only after its message is in the queue, whatever
      fails; a smooth round publishes its batch in order; what a confirmed
      publish means; a client that cannot be opened leaves nothing open; a
      worker process settles every message it was given or leaves it with the
      broker, and acknowledges none before the store has answered for it.
    - The process ([Supervisor.v], [Bootstrap.v], [Observability.v]): [Run]
      returns within a bounded number of steps, after it has stopped and
      cancelled every role, with nil, the error of a role or an exceeded drain
      as the roles allow; what was opened is released exactly once on every
      path; which services a role runs and what its exit status says; when the
      process is ready; what a log line shows of sensitive attributes;
      identifiers are the hexadecimal text of the random bytes; the counters
      of a process never exceed what its calls changed, and equal it when no
      answer was lost ([ProcessProps.v]).
    - Intake, configuration and API ([Api.v], [Intake.v], [Router.v],
      [HttpApi.v], [Destination.v]): a create request from its bytes to its
      rows and the bytes of the response, a query and a replay likewise;
      accepted, repeated and conflicting requests; which requests
      reach which handler; destinations that pass
      validation are safe to deliver to, and nothing else is in a loaded
      registry; no client of the registry can change what it answers
      ([Aliasing.v], for URLs without user information, as all of a
      configuration are); the refused networks; no service without a token, and no
      caller sees another's notification.
    - JSON ([Payload.v], [JsonGrammar.v]): the reader accepts exactly the texts
      of the grammar, with enough fuel for every text; the digest depends on
      the value of the payload and on nothing else; which bodies are accepted;
      messages and responses are read back as they were written.
    - Policy ([Notification.v], [Jitter.v]): the exact condition and instant of
      the next attempt, the bounds of the jitter.

    Some theorems state behaviour that the code does not intend: a truncated
    diagnostic that makes the store refuse a result
    ([diagnostic_defeats_delivery]), the overflow of a large [Retry-After]
    ([retry_after_seconds]), confirmations that outlive their call
    ([publish_success]), a task whose message the queue has dropped after too
    many database failures and that nothing delivers any more
    ([delivery_limit_strands]), user information that copies of a destination
    share ([userinfo_shared]), a worker that exits with status 0 when the broker
    closes its connection ([broker_loss_exits_zero]), secrets that pass the
    redaction of the log inside groups and [LogValuer]s
    ([redaction_bypassed]), and the replay that leaves no event
    ([ReplayDead_without_event], a method the services do not use).

    ** Bounds and fuel

    Integers that the code keeps in [int64] wrap where it does arithmetic on
    them ([wrap64]); columns carry the bounds of their SQL type.  Loops over
    batches, delays and headers recurse on the list.  The reader of JSON takes
    the fuel [parse_fuel], of which it never runs out ([parse_fuel_enough]).
    The polling loops [OutboxService.Run] and [Services.retry_Run], which run
    until the process is told to stop, take the number of their rounds as
    fuel; [Float64] of [Jitter.v] takes the number of its draws, and any fuel
    that reaches a draw which does not round to 1 is enough; a run of [n + m]
    rounds goes on where one of [n] rounds stopped ([Run_add],
    [retry_Run_add]).  [Services.cleaner_loop] recurses on the list of its
    ticks; [Supervisor.v] and [Worker.v] are step relations, and a decreasing
    measure bounds the steps of the supervisor.

    ** Parameters and simplifications

    Code outside the repository is a parameter of the definitions that use
    it: SHA-256, [url.Parse], [net.ParseIP],
    [time.ParseDuration], [http.ParseTime], Unicode folding, the environment,
    the HTTP client, the AMQP channels, how PostgreSQL normalises [jsonb] and
    the order of the rows of [RETURNING].  Each statement or transaction of
    the store is one atomic step; times have nanoseconds where PostgreSQL
    rounds to microseconds; [ORDER BY] compares text by bytes (collation C);
    the rows of [Schema.v] keep headers and delays typed, [Columns.v] models
    the texts that stand for them and justifies this.  Maps, headers and
    slices are values except in [Aliasing.v] and where [Observability.v] shows
    what a caller's group is left with.  A process draws identifiers from
    [newID], which the system takes to be new: [participant_refines] says so
    with the flag [t_fresh].  In the component files
    services report to their observers through their interfaces; [Process.v]
    connects them to the counters.  The log is modelled on its own.

    ** Not modelled

    The tickers of the polling loops (a tick is a round), the delivery of
    signals, the HTTP server's own goroutines, the exposition format of the
    counters, the format of times in responses, the streaming of bodies, the
    indexes of the tables, test support, tests, and deployment but for the
    command that runs the migrations.

    Two refinements are left out on purpose.  How timestamps are rounded on
    their way to the database is decided by its driver; here a row holds the
    instant that the code passed, and theorems about instants are about that.  The statements of a transaction as separate steps would need
    the locking rules of PostgreSQL, which are not code of this repository;
    what the methods ask of them is that a transaction is atomic and that
    [SKIP LOCKED] leaves out rows held by others. *)

From Stdlib Require Export ZArith Lia ZifyBool Ascii.
From stdpp Require Export base tactics option list sorting strings pretty gmap fin_maps decidable.

#[global] Open Scope Z_scope.

(** ** Go errors

    The sentinels are the package-level [errors.New] values of the program,
    one constructor per variable (the two packages that both declare an
    [ErrIdempotencyConflict] have two), and the standard-library values the
    code compares with. *)
Inductive sentinel : Set :=
| ErrTaskNotFound | ErrNotDead                          (* notification *)
| ErrNotFound | ErrIdempotencyConflict | ErrGenerationConflict (* postgres *)
| IntakeErrIdempotencyConflict | ErrUnknownDestination  (* intake *)
| ErrConfirmLost                                        (* outbox *)
| errDestinationNotAllowed | errRedirectNotAllowed      (* delivery *)
| ContextCanceled | ContextDeadlineExceeded | IoEOF.

#[global] Instance sentinel_eq_dec : EqDecision sentinel.
Proof. solve_decision. Defined.

(** A Go [error] value: a sentinel, [fmt.Errorf("ctx: %w", err)],
    [errors.Join], a plain message, the [*pgconn.PgError] of a violated
    constraint, and [*http.MaxBytesError]. *)
Inductive error : Set :=
| Sentinel (s : sentinel)
| Wrapped (ctx : string) (inner : error)
| Joined (e1 e2 : error)
| Message (text : string)
| PgError (ConstraintName : string)
| MaxBytesError.

#[global] Instance error_eq_dec : EqDecision error.
Proof. solve_decision. Defined.

(** [errors.Is] walks the chain of wrapped errors. *)
Fixpoint errors_Is (e : error) (target : sentinel) : bool :=
  match e with
  | Sentinel s => bool_decide (s = target)
  | Wrapped _ inner => errors_Is inner target
  | Joined e1 e2 => errors_Is e1 target || errors_Is e2 target
  | Message _ | PgError _ | MaxBytesError => false
  end.

(** [errors.As] with a [*pgconn.PgError] target: the first one of the chain. *)
Fixpoint errors_As_PgError (e : error) : option string :=
  match e with
  | PgError c => Some c
  | Wrapped _ inner => errors_As_PgError inner
  | Joined e1 e2 =>
      match errors_As_PgError e1 with
      | Some c => Some c
      | None => errors_As_PgError e2
      end
  | Sentinel _ | Message _ | MaxBytesError => None
  end.

(** [errors.As] with a [*http.MaxBytesError] target. *)
Fixpoint errors_As_MaxBytes (e : error) : bool :=
  match e with
  | MaxBytesError => true
  | Wrapped _ inner => errors_As_MaxBytes inner
  | Joined e1 e2 => errors_As_MaxBytes e1 || errors_As_MaxBytes e2
  | Sentinel _ | Message _ | PgError _ => false
  end.

(** ** Results and the state-and-error monad *)

(** A Go pair [(value, error)] whose value is only used when the error is nil. *)
Inductive result (A : Type) : Type :=
| Ok (a : A)
| Err (e : error).
Arguments Ok {A} a.
Arguments Err {A} e.

#[global] Instance result_ret : MRet result := fun A a => Ok a.
#[global] Instance result_bind : MBind result := fun A B f m =>
  match m with Ok a => f a | Err e => Err e end.

Definition is_Ok {A} (r : result A) : bool :=
  match r with Ok _ => true | Err _ => false end.

(** [fmt.Errorf("ctx: %w", err)] on the error of a call. *)
Definition wrap {A} (ctx : string) (r : result A) : result A :=
  match r with Ok a => Ok a | Err e => Err (Wrapped ctx e) end.

(** A stateful call that may fail; the state survives the failure. *)
Definition M (S A : Type) : Type := S -> result A * S.

#[global] Instance M_ret {S} : MRet (M S) := fun A a s => (Ok a, s).
#[global] Instance M_bind {S} : MBind (M S) := fun A B f m s =>
  match m s with
  | (Ok a, s') => f a s'
  | (Err e, s') => (Err e, s')
  end.

Definition throw {S A} (e : error) : M S A := fun s => (Err e, s).
Definition modify {S} (f : S -> S) : M S () := fun s => (Ok (), f s).
Definition gets {S A} (f : S -> A) : M S A := fun s => (Ok (f s), s).
Definition lift {S A} (r : result A) : M S A := fun s => (r, s).
Definition wrapM {S A} (ctx : string) (m : M S A) : M S A := fun s =>
  let '(r, s') := m s in (wrap ctx r, s').

Declare Scope go_scope.
Delimit Scope go_scope with go.

(** [if c { return err }] in front of the rest of a function body. *)
Notation "'return_if' c 'with' e ; k" := (if c then Err e else k)
  (at level 10, c at level 99, e at level 99, k at level 200,
   format "'[v' 'return_if'  c  'with'  e ; '/' k ']'") : go_scope.

(** The same in a stateful body. *)
Notation "'throw_if' c 'with' e ; k" := (if c then throw e else k)
  (at level 10, c at level 99, e at level 99, k at level 200,
   format "'[v' 'throw_if'  c  'with'  e ; '/' k ']'") : go_scope.

#[global] Open Scope go_scope.

(** [for _, x := range l { ... }] with an accumulator; the first error leaves
    the loop, keeping the state reached. *)
Fixpoint for_each {S A B} (body : B -> A -> M S B) (acc : B) (l : list A) : M S B :=
  match l with
  | [] => mret acc
  | x :: l' => acc' ← body acc x; for_each body acc' l'
  end.

(** The same loop over a pure body. *)
Fixpoint for_range {A B} (body : B -> A -> result B) (acc : B) (l : list A) : result B :=
  match l with
  | [] => Ok acc
  | x :: l' => acc' ← body acc x; for_range body acc' l'
  end.

(** ** Automation *)

Create HintDb notifier discriminated.
#[export] Hint Constants Transparent : notifier.

(** Turn boolean guards of the code into propositions, wherever they occur. *)
Ltac reflect_bools :=
  repeat match goal with
  | H : _ && _ = true |- _ => apply andb_true_iff in H as [? ?]
  | H : _ || _ = false |- _ => apply orb_false_iff in H as [? ?]
  | H : negb _ = true |- _ => apply negb_true_iff in H
  | H : negb _ = false |- _ => apply negb_false_iff in H
  | H : bool_decide _ = true |- _ => apply bool_decide_eq_true_1 in H
  | H : bool_decide _ = false |- _ => apply bool_decide_eq_false_1 in H
  | H : (_ <? _) = true |- _ => apply Z.ltb_lt in H
  | H : (_ <? _) = false |- _ => apply Z.ltb_ge in H
  | H : (_ <=? _) = true |- _ => apply Z.leb_le in H
  | H : (_ <=? _) = false |- _ => apply Z.leb_gt in H
  | H : (_ =? _) = true |- _ => apply Z.eqb_eq in H
  | H : (_ =? _) = false |- _ => apply Z.eqb_neq in H
  end.

(** Split every [match]/[if] of the goal and clean up. *)
Ltac split_matches := repeat (case_match; simplify_eq/=); reflect_bools.

(** The same for the matches of a hypothesis. *)
Ltac split_matches_in H :=
  repeat match type of H with
  | context [match ?x with _ => _ end] => destruct x eqn:?; simplify_eq/=
  end; reflect_bools.

(** Run the primitive calls of the monad. *)
Ltac unfold_run := unfold mret, M_ret, gets, throw, modify, lift in *.

(** ** Lemmas about the monads *)

Lemma wrap_Ok {A} ctx (r : result A) a : wrap ctx r = Ok a <-> r = Ok a.
Proof. destruct r; simpl; split; congruence. Qed.

Lemma errors_Is_wrap {A} ctx (r : result A) e s :
  wrap ctx r = Err e -> errors_Is e s = true ->
  exists e', r = Err e' /\ errors_Is e' s = true.
Proof. destruct r as [|e0]; simpl; intros; simplify_eq. by exists e0. Qed.

Lemma M_bind_Ok {S A B} (m : M S A) (f : A -> M S B) s b s' :
  (m ≫= f) s = (Ok b, s') <->
  exists a s1, m s = (Ok a, s1) /\ f a s1 = (Ok b, s').
Proof.
  unfold mbind, M_bind. destruct (m s) as [[a|e] s1]; split.
  - intros Hf. by exists a, s1.
  - by intros (a' & s1' & [= <- <-] & Hf).
  - done.
  - by intros (a' & s1' & ? & _).
Qed.

(** Loop rule: an invariant of the state and the accumulator that the body
    preserves when it succeeds holds after a loop that succeeds; [I] may
    mention the elements done and still to do. *)
Lemma for_each_Ok {S A B} (body : B -> A -> M S B) (I : list A -> list A -> B -> S -> Prop)
    l acc s acc' s' :
  for_each body acc l s = (Ok acc', s') ->
  I [] l acc s ->
  (forall done x rest b t b' t',
     l = done ++ x :: rest -> I done (x :: rest) b t ->
     body b x t = (Ok b', t') -> I (done ++ [x]) rest b' t') ->
  I l [] acc' s'.
Proof.
  intros Hrun H0 Hstep.
  cut (forall rest done b t, l = done ++ rest -> I done rest b t ->
         for_each body b rest t = (Ok acc', s') -> I l [] acc' s').
  { intros Hcut. by apply (Hcut l [] acc s). }
  clear H0 Hrun acc s. induction rest as [|x rest IH]; intros done b t Hl HI Hrun.
  - rewrite app_nil_r in Hl. subst. by injection Hrun as <- <-.
  - simpl in Hrun. apply M_bind_Ok in Hrun as (b1 & t1 & Hb & Hrest).
    apply (IH (done ++ [x]) b1 t1); [|by eapply Hstep|done].
    by rewrite <- app_assoc.
Qed.

(** The same rule for a loop over a pure body. *)
Lemma for_range_Ok {A B} (body : B -> A -> result B) (I : list A -> B -> Prop) l acc acc' :
  for_range body acc l = Ok acc' ->
  I [] acc ->
  (forall done x rest b b', l = done ++ x :: rest -> I done b -> body b x = Ok b' ->
     I (done ++ [x]) b') ->
  I l acc'.
Proof.
  intros Hrun H0 Hstep.
  cut (forall rest done b, l = done ++ rest -> I done b -> for_range body b rest = Ok acc' -> I l acc').
  { intros Hcut. by apply (Hcut l [] acc). }
  clear H0 Hrun acc. induction rest as [|x rest IH]; intros done b Hl HI Hrun.
  - rewrite app_nil_r in Hl. subst. by injection Hrun as <-.
  - simpl in Hrun. destruct (body b x) as [b1|e] eqn:Hb; [|done].
    apply (IH (done ++ [x]) b1); [by rewrite <- app_assoc|by eapply Hstep|done].
Qed.

(** A state invariant that the body preserves, whether it fails or not. *)
Lemma for_each_state {S A B} (body : B -> A -> M S B) (I : S -> Prop) l acc s :
  I s ->
  (forall b x t, x ∈ l -> I t -> I (snd (body b x t))) ->
  I (snd (for_each body acc l s)).
Proof.
  revert acc s. induction l as [|x l IH]; intros acc s HI Hstep; [done|].
  simpl. unfold mbind, M_bind.
  pose proof (Hstep acc x s ltac:(set_solver) HI) as Hx.
  destruct (body acc x s) as [[b|e] t]; simpl in *; [|done].
  apply IH; [done|]. intros. apply Hstep; set_solver.
Qed.

(** ** Lemmas about options and lists *)

Lemma from_option_is_Some {A} (P : A -> bool) (o : option A) :
  from_option P false o = true <-> exists a, o = Some a /\ P a = true.
Proof.
  destruct o as [a|]; simpl; split; [eauto|by intros (? & [= <-] & ?)|done|].
  by intros (? & ? & _).
Qed.

Lemma take_elem_of {A} (x : A) n l : x ∈ take n l -> x ∈ l.
Proof. intros Hx. rewrite <- (take_drop n l). apply elem_of_app. by left. Qed.

Lemma NoDup_take_prefix {A} (l : list A) n : NoDup l -> NoDup (take n l).
Proof. intros Hl. eapply sublist_NoDup; [exact Hl|apply sublist_take]. Qed.

#[export] Hint Resolve take_elem_of NoDup_take_prefix : notifier.
