(* ===== verification/GoTime.v ===== *)
(** * Go's fixed-width integers and the parts of package [time] the program uses

    [time.Duration] is an [int64] of nanoseconds; its arithmetic wraps.
    [time.Time] is an instant, counted in nanoseconds from the zero
    [time.Time] (January 1 of year 1, UTC).  Its seconds are an [int64], so a
    sum with a [Duration] is exact for every instant the program meets. *)

From S2P Require Import Prelude.

Abbreviation duration := Z (only parsing).
Abbreviation time := Z (only parsing).

Definition int64_min : Z := - 2 ^ 63.
Definition int64_max : Z := 2 ^ 63 - 1.

(** Two's complement wrap-around of an [int64] (and of [int] on 64-bit targets). *)
Definition wrap64 (z : Z) : Z := (z + 2 ^ 63) mod 2 ^ 64 - 2 ^ 63.

Definition int64_ok (z : Z) : bool := (int64_min <=? z) && (z <=? int64_max).

(** An [INTEGER] column of PostgreSQL. *)
Definition int4_ok (z : Z) : bool := (- 2 ^ 31 <=? z) && (z <=? 2 ^ 31 - 1).

Definition Nanosecond : duration := 1.
Definition Microsecond : duration := 1000 * Nanosecond.
Definition Millisecond : duration := 1000 * Microsecond.
Definition Second : duration := 1000 * Millisecond.
Definition Minute : duration := 60 * Second.
Definition Hour : duration := 60 * Minute.

(** [t.Add(d)], [t.Sub(u)] (which saturates), [t.After(u)], [t.Before(u)]. *)
Definition time_Add (t : time) (d : duration) : time := t + d.
Definition time_Sub (t u : time) : duration :=
  Z.max int64_min (Z.min int64_max (t - u)).
Definition time_After (t u : time) : bool := u <? t.
Definition time_Before (t u : time) : bool := t <? u.

Lemma wrap64_id z : int64_min <= z <= int64_max -> wrap64 z = z.
Proof.
  unfold wrap64, int64_min, int64_max. intros H. rewrite Z.mod_small; lia.
Qed.

Lemma wrap64_range z : int64_min <= wrap64 z <= int64_max.
Proof.
  unfold wrap64, int64_min, int64_max.
  pose proof (Z.mod_pos_bound (z + 2 ^ 63) (2 ^ 64)). lia.
Qed.

Lemma int64_ok_iff z : int64_ok z = true <-> int64_min <= z <= int64_max.
Proof. unfold int64_ok. rewrite andb_true_iff, !Z.leb_le. done. Qed.

(** [Sub] tells whether an instant is within a duration, saturation included. *)
Lemma time_Sub_le t u d :
  int64_min <= d < int64_max -> (time_Sub t u <= d <-> t - u <= d).
Proof. unfold time_Sub, int64_min, int64_max. lia. Qed.

#[export] Hint Resolve wrap64_range : notifier.
