(* ===== verification/GoStrings.v ===== *)
(** * Go strings: bytes, UTF-8 and the functions of package [strings] in use

    A Go string is a sequence of bytes; it is a [string] of 8-bit characters
    here.  [range], [strings.Map], [strings.TrimSpace] and PostgreSQL's text
    input look at it as UTF-8, decoded as Go's [unicode/utf8] does: a byte that
    does not start a well-formed sequence stands for itself as one invalid unit
    of width one. *)

From S2P Require Import Prelude.

(** ** Bytes *)

Definition byte_val (c : ascii) : Z := Z.of_N (N_of_ascii c).
Definition byte_of (z : Z) : ascii := ascii_of_N (Z.to_N z).

Fixpoint bytes (s : string) : list Z :=
  match s with
  | EmptyString => []
  | String c s' => byte_val c :: bytes s'
  end.

Fixpoint of_bytes (l : list Z) : string :=
  match l with
  | [] => EmptyString
  | z :: l' => String (byte_of z) (of_bytes l')
  end.

(** [len(s)]. *)
Definition len (s : string) : Z := Z.of_nat (String.length s).

(** ** UTF-8 *)

(** Continuation byte, and the second byte that a given first byte allows. *)
Definition cont (b : Z) : bool := (128 <=? b) && (b <=? 191).

Definition second2 (b0 b1 : Z) : bool := (194 <=? b0) && (b0 <=? 223) && cont b1.

Definition second3 (b0 b1 : Z) : bool :=
  ((b0 =? 224) && (160 <=? b1) && (b1 <=? 191)) ||
  ((((225 <=? b0) && (b0 <=? 236)) || (b0 =? 238) || (b0 =? 239)) && cont b1) ||
  ((b0 =? 237) && (128 <=? b1) && (b1 <=? 159)).

Definition second4 (b0 b1 : Z) : bool :=
  ((b0 =? 240) && (144 <=? b1) && (b1 <=? 191)) ||
  ((241 <=? b0) && (b0 <=? 243) && cont b1) ||
  ((b0 =? 244) && (128 <=? b1) && (b1 <=? 143)).

(** Decoded units with their bytes: [Some r] for a rune, [None] for an invalid
    byte. *)
Fixpoint units (l : list Z) : list (option Z * list Z) :=
  match l with
  | [] => []
  | b0 :: l0 =>
    if b0 <? 128 then (Some b0, [b0]) :: units l0
    else match l0 with
    | b1 :: l1 =>
      if second2 b0 b1 then (Some ((b0 - 192) * 64 + (b1 - 128)), [b0; b1]) :: units l1
      else match l1 with
      | b2 :: l2 =>
        if second3 b0 b1 && cont b2
        then (Some (((b0 - 224) * 64 + (b1 - 128)) * 64 + (b2 - 128)), [b0; b1; b2]) :: units l2
        else match l2 with
        | b3 :: l3 =>
          if second4 b0 b1 && cont b2 && cont b3
          then (Some ((((b0 - 240) * 64 + (b1 - 128)) * 64 + (b2 - 128)) * 64 + (b3 - 128)),
                [b0; b1; b2; b3]) :: units l3
          else (None, [b0]) :: units l0
        | [] => (None, [b0]) :: units l0
        end
      | [] => (None, [b0]) :: units l0
      end
    | [] => (None, [b0]) :: units l0
    end
  end.

Definition decode (l : list Z) : list (option Z) := (units l).*1.

(** A Unicode scalar value. *)
Definition scalar (r : Z) : bool :=
  ((0 <=? r) && (r <? 55296)) || ((57344 <=? r) && (r <=? 1114111)).

Definition RuneError : Z := 65533.

(** [utf8.EncodeRune]; anything that is not a scalar value is [RuneError]. *)
Definition encode_rune (r0 : Z) : list Z :=
  let r := if scalar r0 then r0 else RuneError in
  if r <? 128 then [r]
  else if r <? 2048 then [192 + r / 64; 128 + r mod 64]
  else if r <? 65536 then [224 + r / 4096; 128 + r / 64 mod 64; 128 + r mod 64]
  else [240 + r / 262144; 128 + r / 4096 mod 64; 128 + r / 64 mod 64; 128 + r mod 64].

Definition valid_utf8 (s : string) : bool :=
  forallb (fun u => if u is Some _ then true else false) (decode (bytes s)).

(** Number of characters of valid text, PostgreSQL's [length(text)]. *)
Definition char_length (s : string) : Z := Z.of_nat (length (decode (bytes s))).

(** What [range] and [strings.Map] hand to the mapping: [RuneError] for an
    invalid byte. *)
Definition runes (s : string) : list Z := default RuneError <$> decode (bytes s).

(** [strings.Map(mapping, s)] for a mapping that never drops a rune.  When no
    unit is changed or invalid the string itself is returned, which is what
    re-encoding gives, too. *)
Definition strings_Map (mapping : Z -> Z) (s : string) : string :=
  of_bytes (concat ((fun r => encode_rune (mapping r)) <$> runes s)).

(** [s[:n]] on bytes, for [0 <= n]. *)
Definition byte_prefix (n : Z) (s : string) : string := String.substring 0 (Z.to_nat n) s.

(** ** [strings.TrimSpace] *)

(** [unicode.IsSpace]. *)
Definition is_space (r : Z) : bool :=
  bool_decide (r ∈ [9; 10; 11; 12; 13; 32; 133; 160; 5760; 8232; 8233; 8239; 8287; 12288])
  || ((8192 <=? r) && (r <=? 8202)).

Definition unit_is_space (u : option Z * list Z) : bool :=
  match u.1 with Some r => is_space r | None => false end.

Fixpoint drop_while {A} (p : A -> bool) (l : list A) : list A :=
  match l with
  | [] => []
  | x :: l' => if p x then drop_while p l' else l
  end.

Definition strings_TrimSpace (s : string) : string :=
  let l := drop_while unit_is_space (units (bytes s)) in
  of_bytes (concat (snd <$> rev (drop_while unit_is_space (rev l)))).

(** ** Facts about bytes *)

Definition is_byte (z : Z) : Prop := 0 <= z < 256.

Lemma byte_val_range c : is_byte (byte_val c).
Proof. unfold is_byte, byte_val. pose proof (N_ascii_bounded c). lia. Qed.

Lemma byte_of_val c : byte_of (byte_val c) = c.
Proof. unfold byte_of, byte_val. by rewrite N2Z.id, ascii_N_embedding. Qed.

Lemma byte_val_of z : is_byte z -> byte_val (byte_of z) = z.
Proof.
  unfold is_byte, byte_val, byte_of. intros Hz. rewrite N_ascii_embedding; lia.
Qed.

Lemma bytes_range s : Forall is_byte (bytes s).
Proof. induction s; simpl; constructor; auto using byte_val_range. Qed.

Lemma of_bytes_bytes s : of_bytes (bytes s) = s.
Proof. induction s as [|c s IH]; simpl; [done|]. by rewrite byte_of_val, IH. Qed.

Lemma bytes_of_bytes l : Forall is_byte l -> bytes (of_bytes l) = l.
Proof.
  induction 1 as [|z l Hz _ IH]; simpl; [done|]. by rewrite byte_val_of, IH.
Qed.

Lemma bytes_length s : length (bytes s) = String.length s.
Proof. induction s; simpl; auto. Qed.

Lemma of_bytes_length l : String.length (of_bytes l) = length l.
Proof. induction l; simpl; auto. Qed.

Lemma bytes_inj s1 s2 : bytes s1 = bytes s2 -> s1 = s2.
Proof. intros H. by rewrite <- (of_bytes_bytes s1), H, of_bytes_bytes. Qed.

Lemma bytes_byte_prefix n s : bytes (byte_prefix n s) = take (Z.to_nat n) (bytes s).
Proof.
  unfold byte_prefix. generalize (Z.to_nat n) as k. induction s as [|c s IH]; intros [|k];
    simpl; [done..|]. by rewrite IH.
Qed.

Lemma bytes_app s1 s2 : bytes (s1 +:+ s2) = bytes s1 ++ bytes s2.
Proof. induction s1; simpl; [done|]. by f_equal. Qed.

#[export] Hint Resolve bytes_range byte_val_range : notifier.
Create Rewrite HintDb go_strings.
#[export] Hint Rewrite of_bytes_bytes bytes_length of_bytes_length bytes_byte_prefix
  bytes_app : go_strings.

(** ** Facts about UTF-8 *)

Lemma scalar_RuneError : scalar RuneError = true.
Proof. done. Qed.

(** The unit that a rune is encoded to. *)
Definition normal_rune (r : Z) : Z := if scalar r then r else RuneError.

Lemma normal_rune_scalar r : scalar (normal_rune r) = true.
Proof. unfold normal_rune. by destruct (scalar r) eqn:?. Qed.

Lemma encode_rune_normal r : encode_rune r = encode_rune (normal_rune r).
Proof.
  unfold encode_rune, normal_rune. destruct (scalar r) eqn:H; [by rewrite H|done].
Qed.

Ltac div_facts r :=
  pose proof (Z.div_mod r 64 ltac:(lia)); pose proof (Z.mod_pos_bound r 64 ltac:(lia));
  pose proof (Z.div_mod (r / 64) 64 ltac:(lia));
  pose proof (Z.mod_pos_bound (r / 64) 64 ltac:(lia));
  pose proof (Z.div_mod (r / 4096) 64 ltac:(lia));
  pose proof (Z.mod_pos_bound (r / 4096) 64 ltac:(lia));
  assert (r / 4096 = r / 64 / 64) by (rewrite Z.div_div; [done|lia|lia]);
  assert (r / 262144 = r / 4096 / 64) by (rewrite Z.div_div; [done|lia|lia]).

(** Decoding undoes the encoding of a rune and leaves what follows alone. *)
Lemma units_encode_rune r l :
  units (encode_rune r ++ l) = (Some (normal_rune r), encode_rune r) :: units l.
Proof.
  rewrite (encode_rune_normal r). pose proof (normal_rune_scalar r) as Hs.
  generalize dependent (normal_rune r). clear r. intros r Hs.
  unfold encode_rune. rewrite Hs. unfold scalar in Hs. div_facts r.
  destruct (Z.ltb_spec r 128).
  { simpl. by rewrite (proj2 (Z.ltb_lt r 128)). }
  destruct (Z.ltb_spec r 2048); [|destruct (Z.ltb_spec r 65536)]; cbn [app units].
  - rewrite (proj2 (Z.ltb_ge (192 + r / 64) 128)) by lia.
    replace (second2 _ _) with true by (unfold second2, cont; lia).
    do 3 f_equal; lia.
  - rewrite (proj2 (Z.ltb_ge (224 + r / 4096) 128)) by lia.
    replace (second2 _ _) with false by (unfold second2, cont; lia).
    replace (second3 _ _ && cont _) with true by (unfold second3, cont; lia).
    do 3 f_equal; lia.
  - rewrite (proj2 (Z.ltb_ge (240 + r / 262144) 128)) by lia.
    replace (second2 _ _) with false by (unfold second2, cont; lia).
    replace (second3 _ _ && cont _) with false by (unfold second3, cont; lia).
    replace (second4 _ _ && cont _ && cont _) with true by (unfold second4, cont; lia).
    do 3 f_equal; lia.
Qed.

(** Well-formed sequences of two, three and four bytes are the encodings of
    the scalar values they decode to. *)
Lemma encode_rune_2 b0 b1 :
  second2 b0 b1 = true ->
  let r := (b0 - 192) * 64 + (b1 - 128) in scalar r = true /\ [b0; b1] = encode_rune r.
Proof.
  intros H r. unfold second2, cont in H.
  assert (Hs : scalar r = true) by (unfold scalar; lia). split; [done|].
  unfold encode_rune. rewrite Hs. subst r. set (r := _ + _).
  assert (Hq : r / 64 = b0 - 192) by (symmetry; apply (Z.div_unique _ _ _ (b1 - 128)); lia).
  assert (Hm : r mod 64 = b1 - 128) by (symmetry; apply (Z.mod_unique _ _ (b0 - 192)); lia).
  rewrite (proj2 (Z.ltb_ge r 128)), (proj2 (Z.ltb_lt r 2048)), Hq, Hm by lia.
  repeat f_equal; lia.
Qed.

Lemma encode_rune_3 b0 b1 b2 :
  second3 b0 b1 && cont b2 = true ->
  let r := ((b0 - 224) * 64 + (b1 - 128)) * 64 + (b2 - 128) in
  scalar r = true /\ [b0; b1; b2] = encode_rune r.
Proof.
  intros H r. unfold second3, cont in H.
  assert (Hs : scalar r = true) by (unfold scalar; lia). split; [done|].
  unfold encode_rune. rewrite Hs. subst r. set (h := (b0 - 224) * 64 + _). set (r := _ + _).
  assert (Hq : r / 64 = h) by (symmetry; apply (Z.div_unique _ _ _ (b2 - 128)); lia).
  assert (Hm : r mod 64 = b2 - 128) by (symmetry; apply (Z.mod_unique _ _ h); lia).
  assert (Hhq : h / 64 = b0 - 224) by (symmetry; apply (Z.div_unique _ _ _ (b1 - 128)); lia).
  assert (Hhm : h mod 64 = b1 - 128) by (symmetry; apply (Z.mod_unique _ _ (b0 - 224)); lia).
  assert (Hqq : r / 4096 = h / 64) by (change 4096 with (64 * 64); by rewrite <- Z.div_div, Hq by lia).
  rewrite (proj2 (Z.ltb_ge r 128)), (proj2 (Z.ltb_ge r 2048)), (proj2 (Z.ltb_lt r 65536)) by lia.
  rewrite Hqq, Hhq, Hq, Hhm, Hm. repeat f_equal; lia.
Qed.

Lemma encode_rune_4 b0 b1 b2 b3 :
  second4 b0 b1 && cont b2 && cont b3 = true ->
  let r := (((b0 - 240) * 64 + (b1 - 128)) * 64 + (b2 - 128)) * 64 + (b3 - 128) in
  scalar r = true /\ [b0; b1; b2; b3] = encode_rune r.
Proof.
  intros H r. unfold second4, cont in H.
  assert (Hs : scalar r = true) by (unfold scalar; lia). split; [done|].
  unfold encode_rune. rewrite Hs. subst r.
  set (g := (b0 - 240) * 64 + _). set (h := g * 64 + _). set (r := h * 64 + _).
  assert (Hq : r / 64 = h) by (symmetry; apply (Z.div_unique _ _ _ (b3 - 128)); lia).
  assert (Hm : r mod 64 = b3 - 128) by (symmetry; apply (Z.mod_unique _ _ h); lia).
  assert (Hhq : h / 64 = g) by (symmetry; apply (Z.div_unique _ _ _ (b2 - 128)); lia).
  assert (Hhm : h mod 64 = b2 - 128) by (symmetry; apply (Z.mod_unique _ _ g); lia).
  assert (Hgq : g / 64 = b0 - 240) by (symmetry; apply (Z.div_unique _ _ _ (b1 - 128)); lia).
  assert (Hgm : g mod 64 = b1 - 128) by (symmetry; apply (Z.mod_unique _ _ (b0 - 240)); lia).
  assert (H12 : r / 4096 = g)
    by (change 4096 with (64 * 64); by rewrite <- Z.div_div, Hq by lia).
  assert (H18 : r / 262144 = b0 - 240)
    by (change 262144 with (4096 * 64); by rewrite <- Z.div_div, H12 by lia).
  rewrite (proj2 (Z.ltb_ge r 128)), (proj2 (Z.ltb_ge r 2048)), (proj2 (Z.ltb_ge r 65536)) by lia.
  rewrite H18, H12, Hgm, Hq, Hhm, Hm. repeat f_equal; lia.
Qed.

(** What one decoding step yields. *)
Definition unit_ok (u : option Z * list Z) : Prop :=
  match u.1 with
  | None => length u.2 = 1%nat
  | Some r => Forall is_byte u.2 -> scalar r = true /\ u.2 = encode_rune r
  end.

(** One decoding step: the first unit, its bytes and the rest. *)
Lemma units_step b0 l0 :
  exists u rest,
    b0 :: l0 = u.2 ++ rest /\ units (b0 :: l0) = u :: units rest /\ u.2 <> [] /\ unit_ok u.
Proof.
  assert (Hbad : exists u rest, b0 :: l0 = u.2 ++ rest /\
            (None, [b0]) :: units l0 = u :: units rest /\ u.2 <> [] /\ unit_ok u)
    by (by exists (None, [b0]), l0).
  cbn [units].
  destruct (b0 <? 128) eqn:H0.
  { exists (Some b0, [b0]), l0. do 3 (split; [done|]). intros HF. simpl in *.
    inversion_clear HF as [|?? Hb _]. unfold is_byte in Hb.
    assert (Hs : scalar b0 = true) by (unfold scalar; lia).
    split; [done|]. unfold encode_rune. by rewrite Hs, H0. }
  destruct l0 as [|b1 l1]; [exact Hbad|].
  destruct (second2 b0 b1) eqn:H2.
  { eexists (Some _, [b0; b1]), l1. do 3 (split; [done|]). intros _. by apply encode_rune_2. }
  destruct l1 as [|b2 l2]; [exact Hbad|].
  destruct (second3 b0 b1 && cont b2) eqn:H3.
  { eexists (Some _, [b0; b1; b2]), l2. do 3 (split; [done|]). intros _. by apply encode_rune_3. }
  destruct l2 as [|b3 l3]; [exact Hbad|].
  destruct (second4 b0 b1 && cont b2 && cont b3) eqn:H4; [|exact Hbad].
  eexists (Some _, [b0; b1; b2; b3]), l3. do 3 (split; [done|]). intros _. by apply encode_rune_4.
Qed.

(** Induction along the decoding. *)
Lemma units_ind (P : list Z -> Prop) :
  P [] ->
  (forall u rest, units (u.2 ++ rest) = u :: units rest -> unit_ok u -> u.2 <> [] ->
     P rest -> P (u.2 ++ rest)) ->
  forall l, P l.
Proof.
  intros H0 Hstep l. remember (length l) as n eqn:Hn. revert l Hn.
  induction (lt_wf n) as [n _ IH]. intros [|b0 l0] Hn; [done|].
  destruct (units_step b0 l0) as (u & rest & Heq & Hu & Hne & Hok).
  rewrite Heq in *. apply Hstep; [done..|].
  eapply IH; [|done]. rewrite Hn, length_app.
  destruct u as [r [|b bs]]; [done|]. simpl. lia.
Qed.

(** The units hold exactly the bytes of the string, in order. *)
Lemma units_concat l : concat (units l).*2 = l.
Proof.
  induction l as [|u rest Hu _ _ IH] using units_ind; [done|].
  rewrite Hu, fmap_cons. cbn [concat]. by rewrite IH.
Qed.

(** Re-encoding well-formed text gives the text back. *)
Lemma units_encode l :
  Forall is_byte l -> forallb (fun u => if u is Some _ then true else false) (decode l) = true ->
  concat ((fun u => encode_rune (default RuneError u)) <$> decode l) = l.
Proof.
  unfold decode. induction l as [|u rest Hu Hok _ IH] using units_ind; [done|].
  rewrite Hu, !fmap_cons. cbn [concat forallb]. intros HF Hv.
  apply Forall_app in HF as [HF1 HF2]. apply andb_true_iff in Hv as [Hv1 Hv2].
  rewrite IH by done.
  unfold unit_ok in Hok. destruct u as [[r|] bs]; [|done].
  simpl in *. by destruct (Hok HF1) as [_ <-].
Qed.

Lemma encode_rune_bytes r : Forall is_byte (encode_rune r).
Proof.
  rewrite encode_rune_normal. pose proof (normal_rune_scalar r) as Hs.
  generalize dependent (normal_rune r). clear r. intros r Hs.
  unfold encode_rune. rewrite Hs. unfold scalar in Hs. div_facts r. unfold is_byte.
  repeat case_match; reflect_bools; repeat constructor; lia.
Qed.

Lemma concat_encode_bytes rs : Forall is_byte (concat (encode_rune <$> rs)).
Proof.
  induction rs as [|r rs IH]; simpl; [constructor|].
  apply Forall_app. split; [apply encode_rune_bytes|done].
Qed.

Lemma decode_encode_runes rs :
  decode (concat (encode_rune <$> rs)) = (fun r => Some (normal_rune r)) <$> rs.
Proof.
  unfold decode. induction rs as [|r rs IH]; [done|].
  cbn [fmap list_fmap concat]. rewrite units_encode_rune. simpl. by f_equal.
Qed.

(** [strings.Map] always yields well-formed UTF-8. *)
Lemma strings_Map_runes f s : runes (strings_Map f s) = (fun r => normal_rune (f r)) <$> runes s.
Proof.
  unfold strings_Map. unfold runes at 1.
  rewrite (list_fmap_compose f encode_rune), bytes_of_bytes by apply concat_encode_bytes.
  rewrite decode_encode_runes, <- !list_fmap_compose. done.
Qed.

Lemma strings_Map_valid f s : valid_utf8 (strings_Map f s) = true.
Proof.
  unfold valid_utf8, strings_Map.
  rewrite (list_fmap_compose f encode_rune), bytes_of_bytes by apply concat_encode_bytes.
  rewrite decode_encode_runes. induction (f <$> runes s); simpl; done.
Qed.

(** On well-formed text a mapping that changes nothing is the identity. *)
Lemma strings_Map_id s : valid_utf8 s = true -> strings_Map (fun r => r) s = s.
Proof.
  intros Hv. unfold strings_Map, runes.
  rewrite <- list_fmap_compose. rewrite (list_fmap_ext _ (fun u => encode_rune (default RuneError u)))
    by done.
  rewrite units_encode by (auto using bytes_range). apply of_bytes_bytes.
Qed.

#[export] Hint Resolve strings_Map_valid : notifier.

(** ** ASCII text *)

Lemma decode_ascii l : Forall (fun b => b < 128) l -> decode l = Some <$> l.
Proof.
  unfold decode. induction 1 as [|b l Hb _ IH]; [done|].
  cbn [units]. apply Z.ltb_lt in Hb. rewrite Hb, !fmap_cons, IH. done.
Qed.

Lemma ascii_valid s : Forall (fun b => b < 128) (bytes s) -> valid_utf8 s = true.
Proof.
  unfold valid_utf8. intros H. rewrite decode_ascii by done. apply forallb_forall.
  intros u Hu. apply in_map_iff in Hu as (b & <- & _). done.
Qed.

Lemma ascii_char_length s : Forall (fun b => b < 128) (bytes s) -> char_length s = len s.
Proof.
  unfold char_length, len. intros H. rewrite decode_ascii by done.
  by rewrite length_fmap, bytes_length.
Qed.
