(* ===== verification/Notification.v ===== *)
(** * The notification domain (src/internal/notification)

    The data model ([model.go]), result classification and the transition
    table ([state.go]), the retry policy ([retry.go]), and the query and
    replay services ([query.go]), the latter against the [QueryRepository]
    interface that the store implements. *)

From S2P Require Import Prelude GoTime.

Implicit Types (now : time).

(** ** Data model *)

Inductive Status : Set :=
| StatusPending | StatusDelivering | StatusRetryWait | StatusDelivered | StatusDead.

#[global] Instance Status_eq_dec : EqDecision Status.
Proof. solve_decision. Defined.

Inductive Outcome : Set := Delivered | Retryable | Permanent.

#[global] Instance Outcome_eq_dec : EqDecision Outcome.
Proof. solve_decision. Defined.

Record RetryPolicy := mkRetryPolicy {
  MaxAttempts : Z;
  Lifetime : duration;
  Delays : list duration;
}.

(** [http.Header]; [None] is the nil map, which can be read but not written. *)
Abbreviation Header := (option (gmap string (list string))) (only parsing).

Record DeliverySnapshot := mkDeliverySnapshot {
  DestinationID : string;
  Method : string;
  URL : string;
  StaticHeaders : Header;
  SecretHeaders : gmap string string;
  Body : string;
  Timeout : duration;
  Retry : RetryPolicy;
  ConcurrencyLimit : Z;
  SnapshotIdempotencyKey : string;
}.

Record Task := mkTask {
  TaskID : string;
  CallerID : string;
  IdempotencyKey : string;
  RequestHash : string;
  Snapshot : DeliverySnapshot;
  TaskStatus : Status;
  AttemptCount : Z;
  Generation : Z;
  NextAttemptAt : option time;
  LeaseToken : string;
  LeaseUntil : option time;
  LastHTTPStatus : Z;
  LastErrorCode : string;
  LastError : string;
  CreatedAt : time;
  UpdatedAt : time;
  DeliveredAt : option time;
  DeadAt : option time;
}.

Record OutboxEvent := mkOutboxEvent {
  EventID : string;
  AggregateID : string;
  EventGeneration : Z;
  EventType : string;
  Payload : list (string * string);
  EventCreatedAt : time;
  PublishedAt : option time;
  ClaimToken : string;
  ClaimUntil : option time;
  PublishAttempts : Z;
}.

Record AttemptResult := mkAttemptResult {
  AttemptOutcome : Outcome;
  AttemptHTTPStatus : Z;
  AttemptErrorCode : string;
  AttemptErrorMessage : string;
  AttemptNextAttemptAt : option time;
  CompletedAt : time;
}.

(** [Claim{Task, Acquired}]: the task when it was acquired, [None] for the
    zero claim, whose task no caller reads. *)
Definition Claim : Type := option Task.

Record ScheduleResult := mkScheduleResult {
  Scheduled : Z;
  Dead : Z;
  RecoveredLeases : Z;
}.

(** ** state.go *)

(** [err] is the transport error, if any. *)
Definition ClassifyResult (status : Z) (err : option error) : Outcome :=
  match err with
  | Some _ => Retryable
  | None =>
      if (200 <=? status) && (status <? 300) then Delivered
      else if (status =? 408) || (status =? 425) || (status =? 429) then Retryable
      else if (500 <=? status) && (status <=? 599) then Retryable
      else Permanent
  end.

Definition CanTransition (from to : Status) : bool :=
  match from with
  | StatusPending => bool_decide (to = StatusDelivering)
  | StatusDelivering =>
      bool_decide (to = StatusDelivered) || bool_decide (to = StatusRetryWait)
      || bool_decide (to = StatusDead)
  | StatusRetryWait => bool_decide (to = StatusPending) || bool_decide (to = StatusDead)
  | StatusDead => bool_decide (to = StatusPending)
  | StatusDelivered => false
  end.

(** ** retry.go *)

(** The index of the configured delay: past the end, the last delay repeats. *)
Definition delay_index (attempt : Z) (delays : list duration) : nat :=
  let index := attempt - 1 in
  if Z.of_nat (length delays) <=? index
  then Nat.pred (length delays) else Z.to_nat index.

(** [jitter] is what [Jitter.Apply] computes in this call, [None] when the
    interface value is nil. *)
Definition NextAttempt (policy : RetryPolicy) (attempt : Z) (retryAfter : option time)
    (now : time) (jitter : option (duration -> duration)) : option time :=
  if (MaxAttempts policy <=? attempt) || (attempt <=? 0)
     || (Nat.eqb (length (Delays policy)) 0)
  then None
  else
    let by_delay :=
      let delay := default 0 (Delays policy !! delay_index attempt (Delays policy)) in
      let delay := match jitter with Some apply => apply delay | None => delay end in
      if (delay <? 0) || (Lifetime policy <? delay) then None
      else Some (time_Add now delay) in
    match retryAfter with
    | Some t =>
        if time_After t now
        then if Lifetime policy <? time_Sub t now then None else Some t
        else by_delay
    | None => by_delay
    end.

(** ** query.go *)

Record View := mkView {
  ViewID : string;
  ViewDestinationID : string;
  ViewStatus : Status;
  ViewAttemptCount : Z;
  ViewNextAttemptAt : option time;
  ViewLastHTTPStatus : Z;
  ViewLastErrorCode : string;
  ViewLastError : string;
  ViewCreatedAt : time;
  ViewUpdatedAt : time;
  ViewDeliveredAt : option time;
  ViewDeadAt : option time;
}.

(** The repository the two services consume, over a world [W] that holds the
    database and whatever else the calls act on. *)
Class QueryRepository (W : Type) := {
  GetForCaller : string -> string -> M W Task;
  ReplayDeadAtomic : string -> time -> string -> M W bool;
}.

(** The projection of a task that [Get] returns. *)
Definition view_of (task : Task) : View :=
  {| ViewID := TaskID task;
     ViewDestinationID := DestinationID (Snapshot task);
     ViewStatus := TaskStatus task;
     ViewAttemptCount := AttemptCount task;
     ViewNextAttemptAt := NextAttemptAt task;
     ViewLastHTTPStatus := LastHTTPStatus task;
     ViewLastErrorCode := LastErrorCode task;
     ViewLastError := LastError task;
     ViewCreatedAt := CreatedAt task;
     ViewUpdatedAt := UpdatedAt task;
     ViewDeliveredAt := DeliveredAt task;
     ViewDeadAt := DeadAt task |}.

Definition Get {W} `{QueryRepository W} (callerID notificationID : string) : M W View :=
  task ← GetForCaller callerID notificationID;
  mret (view_of task).

(** [now] and [newID] are the values the clock and the generator return. *)
Definition Replay {W} `{QueryRepository W} (now : time) (newID : string)
    (notificationID : string) : M W () :=
  applied ← wrapM "replay notification" (ReplayDeadAtomic notificationID now newID);
  if negb applied then throw (Sentinel ErrNotDead) else mret ().

(** ** Classification and transitions *)

Lemma ClassifyResult_transport_error status e :
  ClassifyResult status (Some e) = Retryable.
Proof. done. Qed.

(** The classification of HTTP responses is exactly the
    documented one, for every status code an HTTP response can carry:
    [2xx] is delivered, [408], [425], [429] and [5xx] are retryable, everything
    else is permanent; and every transport error is retryable. *)
Theorem ClassifyResult_spec status err :
  ClassifyResult status err =
    match err with
    | Some _ => Retryable
    | None =>
        if decide (status / 100 = 2) then Delivered
        else if decide (status = 408 \/ status = 425 \/ status = 429 \/ status / 100 = 5)
        then Retryable
        else Permanent
    end.
Proof.
  unfold ClassifyResult. destruct err as [e|]; [done|].
  pose proof (Z.div_mod status 100 ltac:(lia)).
  pose proof (Z.mod_pos_bound status 100 ltac:(lia)).
  repeat case_decide; repeat case_match; try done; exfalso; lia.
Qed.

(** ** The retry policy *)

Lemma delay_index_lt attempt delays :
  0 < attempt -> delays <> [] -> (delay_index attempt delays < length delays)%nat.
Proof.
  intros Ha Hd. destruct delays as [|d ds]; [done|].
  unfold delay_index. case_match; reflect_bools; simpl in *; lia.
Qed.

Lemma delay_index_lookup attempt delays :
  0 < attempt -> delays <> [] -> is_Some (delays !! delay_index attempt delays).
Proof. intros. by apply lookup_lt_is_Some, delay_index_lt. Qed.

(** When the policy asks for another attempt, and at which instant: the attempt
    number is positive and below the maximum, delays are configured, and the
    instant is a future [Retry-After] at most the lifetime away or, without
    one, comes the jittered delay of the attempt later (the last delay repeats),
    provided that this is between zero and the lifetime. *)
Definition retry_at (policy : RetryPolicy) (attempt : Z) (retryAfter : option time) (now : time)
    (jitter : option (duration -> duration)) (t : time) : Prop :=
  0 < attempt < MaxAttempts policy /\ Delays policy <> [] /\
  ((exists r, retryAfter = Some r /\ now < r <= now + Lifetime policy /\ t = r) \/
   ((forall r, retryAfter = Some r -> r <= now) /\
    exists d, Delays policy !! Nat.min (Z.to_nat (attempt - 1))
                                      (Nat.pred (length (Delays policy))) = Some d /\
      let d' := from_option (fun apply => apply d) d jitter in
      0 <= d' <= Lifetime policy /\ t = now + d')).

(** [NextAttempt] schedules another attempt exactly when the
    attempt number is positive and below the maximum and delays are
    configured, and then either at a future [Retry-After] that is at most the
    lifetime away, or, without one, at the jittered delay of the attempt (the
    last delay repeats), provided it is between zero and the lifetime. *)
Theorem NextAttempt_Some policy attempt retryAfter now jitter t :
  int64_min <= Lifetime policy < int64_max ->
  NextAttempt policy attempt retryAfter now jitter = Some t <->
  retry_at policy attempt retryAfter now jitter t.
Proof.
  intros Hlife. unfold NextAttempt, retry_at.
  destruct ((MaxAttempts policy <=? attempt) || (attempt <=? 0) || _) eqn:Hstop.
  { split; [done|]. intros (? & Hd & _).
    rewrite !orb_true_iff, Nat.eqb_eq in Hstop. destruct Hstop as [Hstop|Hlen]; [lia|].
    by apply length_zero_iff_nil in Hlen. }
  apply orb_false_iff in Hstop as [Hatt Hlen]. apply Nat.eqb_neq in Hlen.
  assert (Hne : Delays policy <> []) by (intros Heq; by rewrite Heq in Hlen).
  assert (Hidx : delay_index attempt (Delays policy) =
                 Nat.min (Z.to_nat (attempt - 1)) (Nat.pred (length (Delays policy)))).
  { unfold delay_index. case_match; lia. }
  destruct (delay_index_lookup attempt (Delays policy)) as [d Hd]; [lia|done|].
  rewrite <- Hidx, Hd. simpl.
  assert (Hdelay : forall P : Prop, P ->
    (let delay := match jitter with Some apply => apply d | None => d end in
     if (delay <? 0) || (Lifetime policy <? delay) then None
     else Some (time_Add now delay)) = Some t <->
    P /\ exists d0, Some d = Some d0 /\
      let d' := from_option (fun apply => apply d0) d0 jitter in
      0 <= d' <= Lifetime policy /\ t = now + d').
  { intros P HP. unfold time_Add. simpl.
    destruct jitter as [apply|]; simpl; case_match; split;
      try done; try (intros (_ & d0 & [= <-] & ? & ?); simpl in *; f_equal; lia);
      intros [= <-]; split; try done; exists d; repeat split; lia. }
  destruct retryAfter as [r|]; simpl.
  - unfold time_After. destruct (Z.ltb_spec now r) as [Hlt|Hge].
    + pose proof (time_Sub_le r now _ Hlife) as Hsub.
      destruct (Z.ltb_spec (Lifetime policy) (time_Sub r now)); split; try done.
      * intros (_ & _ & [(r' & [= <-] & ? & ->)|[Hno _]]); [lia|].
        specialize (Hno r eq_refl). lia.
      * intros [= <-].
        repeat split; try lia; try done. left. exists r. repeat split; lia.
      * intros (_ & _ & [(r' & [= <-] & ? & ->)|[Hno _]]); [done|].
        specialize (Hno r eq_refl). lia.
    + rewrite (Hdelay (forall r', Some r = Some r' -> r' <= now)) by (by intros r' [= <-]).
      split; [intros H; repeat split; [lia|lia|done|by right]|].
      by intros (_ & _ & [(r' & [= <-] & ? & _)|H]); [lia|].
  - rewrite (Hdelay (forall r, None = Some r -> r <= now)) by done.
    split; [intros H; repeat split; [lia|lia|done|by right]|].
    intros (_ & _ & [(r & Hr & _)|H]); [done|exact H].
Qed.

Lemma NextAttempt_Some_witness :
  NextAttempt (mkRetryPolicy 3 Hour [5 * Second; 30 * Second]) 2 None 1000
    (Some (fun d => d + 7)) = Some (1000 + 30 * Second + 7).
Proof.
  apply (NextAttempt_Some (mkRetryPolicy 3 Hour [5 * Second; 30 * Second]) 2 None 1000
           (Some (fun d => d + 7))); [vm_compute; done|].
  split; [simpl; lia|]. split; [done|]. right. split; [done|].
  exists (30 * Second). vm_compute. repeat split; done.
Defined.

(** A retry is never scheduled in the past nor further away than the lifetime. *)
Lemma NextAttempt_bounds policy attempt retryAfter now jitter t :
  int64_min <= Lifetime policy < int64_max ->
  NextAttempt policy attempt retryAfter now jitter = Some t ->
  now <= t <= now + Lifetime policy.
Proof.
  intros Hl. unfold NextAttempt, time_After, time_Add.
  case_match; [done|]. destruct retryAfter as [r|].
  - pose proof (time_Sub_le r now _ Hl). split_matches; intros [= <-]; lia.
  - split_matches; intros [= <-]; lia.
Qed.

Lemma NextAttempt_exhausted policy attempt retryAfter now jitter :
  MaxAttempts policy <= attempt ->
  NextAttempt policy attempt retryAfter now jitter = None.
Proof.
  intros H. unfold NextAttempt. by rewrite (proj2 (Z.leb_le _ _) H).
Qed.

#[export] Hint Resolve NextAttempt_exhausted : notifier.

Lemma retry_at_bounds policy attempt retryAfter now jitter t :
  retry_at policy attempt retryAfter now jitter t -> now <= t <= now + Lifetime policy.
Proof. intros (_ & _ & [(r & _ & ? & ->)|(_ & d & _ & ? & ->)]); lia. Qed.

(** ** Query and replay services *)

(** Outcome of a replay request: the error reported tells "not dead" apart
    from a store failure. *)
Lemma Replay_result {W} `{QueryRepository W} now newID id (w : W) :
  Replay now newID id w =
    let '(r, w') := ReplayDeadAtomic id now newID w in
    (match r with
     | Ok true => Ok ()
     | Ok false => Err (Sentinel ErrNotDead)
     | Err e => Err (Wrapped "replay notification" e)
     end, w').
Proof.
  unfold Replay, mbind, M_bind, wrapM.
  by destruct (ReplayDeadAtomic id now newID w) as [[[]|e] w'].
Qed.

Lemma Get_result {W} `{QueryRepository W} caller id (w : W) :
  Get caller id w =
    let '(r, w') := GetForCaller caller id w in
    (match r with Ok task => Ok (view_of task) | Err e => Err e end, w').
Proof.
  unfold Get, mbind, M_bind.
  by destruct (GetForCaller caller id w) as [[task|e] w'].
Qed.
