(* ===== verification/Jitter.v ===== *)
(** * Retry jitter (src/internal/notification/jitter.go)

    [BoundedJitter.Apply] computes with [float64].  The values involved are
    zero, or positive and between [2^-65] and [2^64], so no subnormal, infinity or
    overflow occurs, and a [float64] is an integer significand below [2^53]
    at some power of two.  Rounding to nearest, ties to even, commutes with
    the choice of the unit, so each operation is an exact integer operation
    followed by [round53]; the unit of each quantity is given next to it.

    The pseudo-random numbers are those of [math/rand] (not [math/rand/v2]):
    [Float64] divides an [Int63] by [2^63], and draws again when the conversion
    to [float64] has rounded up to 1.  The source behind [Int63] is a parameter;
    how often it makes [Float64] draw again is not bounded by anything but the
    source, so [Float64] has fuel, and the bounds below hold with any fuel that
    reaches a draw which does not round to 1 (one draw in [2^54] does). *)

From S2P Require Import Prelude GoTime.

(** Number of low bits to drop so that 53 significant bits remain. *)
Definition excess_bits (m : Z) : Z := Z.max 0 (Z.log2 m + 1 - 53).

(** Round a non-negative integer significand to 53 bits, half to even. *)
Definition round53 (m : Z) : Z :=
  let s := excess_bits m in
  let q := m / 2 ^ s in
  let r := m mod 2 ^ s in
  let half := 2 ^ s / 2 in
  let q' := if (half <? r) || ((half =? r) && (0 <? r) && Z.odd q) then q + 1 else q in
  q' * 2 ^ s.

(** The [float64] constants [0.8] (unit [2^-53]) and [0.4] (unit [2^-54]);
    both have the significand [0x1999999999999A]. *)
Definition float_0_8 : Z := 7205759403792794.
Definition float_0_4 : Z := 7205759403792794.

Section Jitter.

(** [math/rand]: the source made from a seed, and its method. *)
Context {Rand : Type} (NewSource : Z -> Rand) (Int63 : Rand -> Z * Rand).

(** Whether the compiler fuses [0.8 + x*0.4] into one rounding, which the Go
    specification leaves to the implementation. *)
Context (fused : bool).

(** Conversion of a [float64] outside the range of [int64], which the Go
    specification leaves to the implementation. *)
Context (int64_of_large : Z -> Z).

(** The struct without its mutex: calls are serialised, each a transition of [random]. *)
Record BoundedJitter := mkBoundedJitter { random : Rand }.

Fixpoint little_endian (bytes : list Z) : Z :=
  match bytes with
  | [] => 0
  | b :: rest => b + 256 * little_endian rest
  end.

(** [source] is what the reader still holds; [io.ReadFull] fails when it is
    shorter than the buffer. *)
Definition newBoundedJitter (source : list Z) : result BoundedJitter :=
  return_if (length source =? 0)%nat with Wrapped "seed retry jitter" (Sentinel IoEOF);
  return_if (length source <? 8)%nat with Wrapped "seed retry jitter" (Message "unexpected EOF");
  let seed := wrap64 (little_endian (take 8 source)) in
  Ok {| random := NewSource seed |}.

(** [Float64] of [math/rand], in units of [2^-63]. *)
Fixpoint Float64 (fuel : nat) (r : Rand) : option (Z * Rand) :=
  match fuel with
  | O => None
  | S fuel =>
      let '(n, r) := Int63 r in
      let f := round53 n in
      if f =? 2 ^ 63 then Float64 fuel r else Some (f, r)
  end.

(** [factor := 0.8 + jitter.random.Float64()*0.4], in units of [2^-117]. *)
Definition jitter_factor (k : Z) : Z :=
  let product := k * float_0_4 in
  if fused then round53 (float_0_8 * 2 ^ 64 + product)
  else round53 (float_0_8 * 2 ^ 64 + round53 product).

(** [time.Duration(x)] of a non-negative [float64] [x], in units of [2^-117]. *)
Definition int64_of_float (x : Z) : Z :=
  if x / 2 ^ 117 <? 2 ^ 63 then x / 2 ^ 117 else int64_of_large x.

Definition Apply (fuel : nat) (delay : duration) (jitter : BoundedJitter) : option (duration * BoundedJitter) :=
  if delay <=? 0 then Some (delay, jitter)
  else
    '(k, random') ← Float64 fuel (random jitter);
    let factor := jitter_factor k in
    let result := int64_of_float (round53 (round53 delay * factor)) in
    Some (if result <? Nanosecond then Nanosecond else result, {| random := random' |}).

(** The draw after [n] others. *)
Fixpoint nth_Int63 (n : nat) (r : Rand) : Z :=
  match n with
  | O => (Int63 r).1
  | S n => nth_Int63 n (Int63 r).2
  end.

End Jitter.

Arguments mkBoundedJitter {Rand}.
Arguments random {Rand}.

(** ** Rounding error *)

(** Rounding moves a significand by at most one part in [2^53]. *)
Lemma round53_error m : 0 <= m -> 2 ^ 53 * Z.abs (round53 m - m) <= m.
Proof.
  intros Hm. unfold round53, excess_bits.
  destruct (decide (m = 0)) as [->|Hm0]; [vm_compute; done|].
  pose proof (Z.log2_spec m ltac:(lia)) as [Hlo _]. pose proof (Z.log2_nonneg m).
  set (s := Z.max 0 (Z.log2 m + 1 - 53)).
  assert (Hs : 0 <= s) by lia.
  assert (Hp : 0 < 2 ^ s) by (apply Z.pow_pos_nonneg; lia).
  pose proof (Z.div_mod m (2 ^ s) ltac:(lia)) as Hdiv.
  pose proof (Z.mod_pos_bound m (2 ^ s) Hp) as Hmod.
  destruct (decide (s = 0)) as [Hs0|Hs0].
  { rewrite Hs0 in *. change (2 ^ 0) with 1 in *. rewrite Z.mod_1_r, Z.div_1_r in *.
    simpl. lia. }
  assert (Hbig : 2 ^ 52 * 2 ^ s <= m).
  { rewrite <- Z.pow_add_r by lia. etrans; [|exact Hlo].
    apply Z.pow_le_mono_r; lia. }
  assert (Heven : 2 ^ s = 2 * (2 ^ s / 2)).
  { replace s with (1 + (s - 1)) by lia. rewrite Z.pow_add_r by lia.
    change (2 ^ 1) with 2. rewrite Z.mul_comm, Z.div_mul by lia. lia. }
  set (h := 2 ^ s / 2) in *. set (r := m mod 2 ^ s) in *. set (q := m / 2 ^ s) in *.
  assert (Hr : exists e, (if (h <? r) || ((h =? r) && (0 <? r) && Z.odd q) then q + 1 else q)
                 * 2 ^ s - m = e /\ Z.abs e <= h).
  { eexists; split; [done|]. case_match; lia. }
  destruct Hr as (e & -> & He). lia.
Qed.

Lemma round53_nonneg m : 0 <= m -> 0 <= round53 m.
Proof. intros Hm. pose proof (round53_error m Hm). lia. Qed.

Section Jitter_facts.

Context {Rand : Type} (NewSource : Z -> Rand) (Int63 : Rand -> Z * Rand).
Context (fused : bool) (int64_of_large : Z -> Z).

(** [Int63] returns a non-negative 63-bit integer. *)
Hypothesis Int63_range : forall r, 0 <= (Int63 r).1 < 2 ^ 63.

(** A draw below [2^63 - 512] does not round to 1. *)
Lemma round53_below n : 0 <= n < 2 ^ 63 - 512 -> round53 n < 2 ^ 63.
Proof.
  intros Hn. destruct (decide (n < 2 ^ 62)) as [Hlow|Hhigh].
  { pose proof (round53_error n ltac:(lia)). lia. }
  assert (Hlog : Z.log2 n = 62) by (apply Z.log2_unique; lia).
  unfold round53, excess_bits. rewrite Hlog. change (Z.max 0 (62 + 1 - 53)) with 10.
  change (2 ^ 10) with 1024. change (1024 / 2) with 512.
  pose proof (Z.div_mod n 1024 ltac:(lia)). pose proof (Z.mod_pos_bound n 1024 ltac:(lia)).
  destruct (Z.ltb_spec 512 (n mod 1024)), (Z.eqb_spec 512 (n mod 1024)); cbn [orb andb]; try case_match; lia.
Qed.

Lemma round53_at_most n : 0 <= n < 2 ^ 63 -> 0 <= round53 n <= 2 ^ 63.
Proof.
  intros Hn. split; [apply round53_nonneg; lia|]. destruct (decide (n < 2 ^ 62)) as [Hlow|Hhigh].
  { pose proof (round53_error n ltac:(lia)). lia. }
  assert (Hlog : Z.log2 n = 62) by (apply Z.log2_unique; lia).
  unfold round53, excess_bits. rewrite Hlog. change (Z.max 0 (62 + 1 - 53)) with 10.
  change (2 ^ 10) with 1024.
  pose proof (Z.div_mod n 1024 ltac:(lia)). pose proof (Z.mod_pos_bound n 1024 ltac:(lia)).
  case_match; lia.
Qed.

(** [Float64] is in [0, 1), and returns once a draw does not round to 1. *)
Lemma Float64_range fuel r k r' : Float64 Int63 fuel r = Some (k, r') -> 0 <= k < 2 ^ 63.
Proof.
  revert r. induction fuel as [|fuel IH]; intros r; [done|]. cbn [Float64].
  pose proof (Int63_range r) as Hr. destruct (Int63 r) as [n r1]. cbn [fst] in Hr.
  pose proof (round53_at_most n Hr). destruct (Z.eqb_spec (round53 n) (2 ^ 63)); [apply IH|].
  intros [= <- <-]. lia.
Qed.

Lemma Float64_returns fuel n r :
  (n < fuel)%nat -> nth_Int63 Int63 n r < 2 ^ 63 - 512 -> is_Some (Float64 Int63 fuel r).
Proof.
  revert n r. induction fuel as [|fuel IH]; intros n r Hn Hdraw; [lia|]. cbn [Float64].
  pose proof (Int63_range r) as Hr. destruct n as [|n]; cbn [nth_Int63] in Hdraw.
  - destruct (Int63 r) as [m r1]. cbn [fst] in *. pose proof (round53_below m ltac:(lia)).
    rewrite (proj2 (Z.eqb_neq _ _)) by lia. done.
  - destruct (Int63 r) as [m r1]. cbn [fst snd] in *. destruct (_ =? _); [|done]. apply (IH n); [lia|done].
Qed.

(** The factor is within one part in [2^51] of [0.8, 1.2], in units of [2^-117]. *)
Lemma jitter_factor_bounds k :
  0 <= k < 2 ^ 63 ->
  4 * 2 ^ 117 * (2 ^ 53 - 1) <= 5 * 2 ^ 53 * jitter_factor fused k
  /\ 5 * 2 ^ 53 * jitter_factor fused k <= 6 * 2 ^ 117 * (2 ^ 53 + 3).
Proof.
  intros Hk. unfold jitter_factor, float_0_8, float_0_4.
  pose proof (round53_error (k * 7205759403792794) ltac:(lia)) as Hp.
  pose proof (round53_nonneg (k * 7205759403792794) ltac:(lia)) as Hp0.
  destruct fused.
  - pose proof (round53_error (7205759403792794 * 2 ^ 64 + k * 7205759403792794)
                  ltac:(lia)) as HS. lia.
  - pose proof (round53_error (7205759403792794 * 2 ^ 64 + round53 (k * 7205759403792794))
                  ltac:(lia)) as HS. lia.
Qed.

(** The product with the delay, before the conversion to an integer. *)
Lemma jittered_product_bounds delay k :
  0 < delay -> 0 <= k < 2 ^ 63 ->
  let x := round53 (round53 delay * jitter_factor fused k) in
  4 * 2 ^ 117 * delay * (2 ^ 50 - 1) <= 5 * 2 ^ 50 * x
  /\ 5 * 2 ^ 50 * x <= 6 * 2 ^ 117 * delay * (2 ^ 50 + 1).
Proof.
  intros Hd Hk x. subst x.
  pose proof (jitter_factor_bounds k Hk) as [Hlo Hhi].
  set (F := jitter_factor fused k) in *.
  pose proof (round53_error delay ltac:(lia)) as Hdelay.
  pose proof (round53_nonneg delay ltac:(lia)) as Hdelay0.
  set (D := round53 delay) in *.
  assert (HF0 : 0 < F) by lia.
  pose proof (round53_error (D * F) ltac:(nia)) as HX.
  set (X := round53 (D * F)) in *.
  (* bounds of [D * F] by [D], then by [delay] *)
  assert (Hlow : 4 * 2 ^ 117 * (2 ^ 53 - 1) * D <= 5 * 2 ^ 53 * (D * F)).
  { replace (5 * 2 ^ 53 * (D * F)) with ((5 * 2 ^ 53 * F) * D) by ring.
    by apply Z.mul_le_mono_nonneg_r. }
  assert (Hupp : 5 * 2 ^ 53 * (D * F) <= 6 * 2 ^ 117 * (2 ^ 53 + 3) * D).
  { replace (5 * 2 ^ 53 * (D * F)) with ((5 * 2 ^ 53 * F) * D) by ring.
    by apply Z.mul_le_mono_nonneg_r. }
  lia.
Qed.

(** C27 (bounds): for every source of 63-bit random integers, with or without a
    fused multiply-add, jitter keeps a positive delay positive and within 20
    percent of the configured value, up to the rounding of [float64]
    (relative error [2^-50]) and the truncation to whole nanoseconds; in
    particular the conversion back to [int64] does not overflow.  It returns as
    soon as the source draws a number that does not round up to 1. *)
Theorem Apply_bounds fuel n delay (jitter : BoundedJitter) :
  (n < fuel)%nat -> nth_Int63 Int63 n (random jitter) < 2 ^ 63 - 512 ->
  0 < delay <= 2 ^ 62 ->
  exists delay' jitter',
    Apply Int63 fused int64_of_large fuel delay jitter = Some (delay', jitter') /\
    1 <= delay' /\
    4 * delay * (2 ^ 50 - 1) <= 5 * 2 ^ 50 * (delay' + 1) /\
    5 * 2 ^ 50 * delay' <= 6 * delay * (2 ^ 50 + 1).
Proof.
  intros Hfuel Hdraw Hd. unfold Apply, int64_of_float, Nanosecond.
  rewrite (proj2 (Z.leb_gt _ _)) by lia.
  destruct (Float64_returns fuel n _ Hfuel Hdraw) as [[k random'] Hk]. rewrite Hk. cbn.
  eexists _, _. split; [done|].
  pose proof (jittered_product_bounds delay k ltac:(lia) (Float64_range _ _ _ _ Hk)) as [Hlo Hhi].
  set (x := round53 _) in *.
  pose proof (Z.div_mod x (2 ^ 117) ltac:(lia)).
  pose proof (Z.mod_pos_bound x (2 ^ 117) ltac:(lia)).
  set (m := x / 2 ^ 117) in *.
  rewrite (proj2 (Z.ltb_lt m (2 ^ 63))) by lia.
  destruct (Z.ltb_spec m 1); simpl; lia.
Qed.

End Jitter_facts.

(** A source that counts; its first draw here rounds to 1, so the second is
    used. *)
Definition sample_Int63 (r : Z) : Z * Z := (r mod 2 ^ 63, r + 1000).

Lemma Apply_bounds_witness :
  0 < 5 * Second <= 2 ^ 62 /\
  exists delay' jitter',
    Apply sample_Int63 false (fun _ => 0) 2 (5 * Second) (mkBoundedJitter (2 ^ 63 - 1)) = Some (delay', jitter') /\
    1 <= delay' /\
    4 * (5 * Second) * (2 ^ 50 - 1) <= 5 * 2 ^ 50 * (delay' + 1) /\
    5 * 2 ^ 50 * delay' <= 6 * (5 * Second) * (2 ^ 50 + 1).
Proof.
  split; [vm_compute; done|].
  apply (Apply_bounds sample_Int63 false (fun _ => 0)) with (n := 1%nat).
  - intros r. apply Z.mod_pos_bound. lia.
  - lia.
  - vm_compute. reflexivity.
  - vm_compute. done.
Defined.
