(* ===== verification/Table.v ===== *)
(** * SQL tables as finite maps

    A table with a text primary key is a [gmap] from the key to the other
    columns.  The statements of the store are built from selection, update and
    deletion by a predicate on key and row, and from [ORDER BY ... LIMIT]. *)

From S2P Require Import Prelude.

(** Bytewise order on text. *)
Lemma leb_String c1 s1 c2 s2 :
  String.leb (String c1 s1) (String c2 s2) = true <->
  (N_of_ascii c1 < N_of_ascii c2)%N \/ (c1 = c2 /\ String.leb s1 s2 = true).
Proof.
  unfold String.leb. simpl. unfold Ascii.compare.
  destruct (N.compare_spec (N_of_ascii c1) (N_of_ascii c2)) as [Heq|Hlt|Hgt].
  - assert (c1 = c2) as -> by (by rewrite <- (ascii_N_embedding c1), Heq, ascii_N_embedding).
    split; [by right|]. intros [?|[_ ?]]; [lia|done].
  - split; [by left|done].
  - split; [done|]. intros [?|[-> _]]; lia.
Qed.

Lemma leb_trans s1 s2 s3 :
  String.leb s1 s2 = true -> String.leb s2 s3 = true -> String.leb s1 s3 = true.
Proof.
  revert s2 s3. induction s1 as [|c1 s1 IH]; intros [|c2 s2] [|c3 s3]; try done.
  rewrite !leb_String. intros [?|[-> ?]] [?|[-> ?]]; [left; lia|by left|by left|].
  right. eauto.
Qed.

Section Table.
Context {R : Type}.
Implicit Types (m : gmap string R) (P : string -> R -> bool) (f : R -> R).

(** Rows that satisfy a [WHERE] clause, in no particular order. *)
Definition sql_select P m : list (string * R) :=
  filter (fun kr => P kr.1 kr.2 = true) (map_to_list m).

(** [UPDATE ... SET f WHERE P]. *)
Definition sql_update P f m : gmap string R :=
  map_imap (fun k r => Some (if P k r then f r else r)) m.

(** [DELETE ... WHERE P]. *)
Definition sql_delete P m : gmap string R :=
  filter (fun kr => P kr.1 kr.2 = false) m.

(** [RowsAffected()] of the two statements above. *)
Definition sql_affected P m : Z := Z.of_nat (length (sql_select P m)).

(** The predicate [WHERE id = k AND Q]. *)
Definition by_id (k : string) (Q : R -> bool) : string -> R -> bool :=
  fun k' r => bool_decide (k' = k) && Q r.

(** The predicate [FROM candidates WHERE id = candidates.id]. *)
Definition by_ids (ks : list string) : string -> R -> bool :=
  fun k' _ => bool_decide (k' ∈ ks).

(** [ORDER BY key, id]: instants first, then the text key, bytewise. *)
Definition order_key_le (k1 k2 : Z * string) : Prop :=
  k1.1 < k2.1 \/ (k1.1 = k2.1 /\ String.leb k1.2 k2.2 = true).

#[global] Instance order_key_le_dec k1 k2 : Decision (order_key_le k1 k2).
Proof. unfold order_key_le. apply _. Defined.

Definition row_order (key : R -> Z) (kr1 kr2 : string * R) : Prop :=
  order_key_le (key kr1.2, kr1.1) (key kr2.2, kr2.1).

#[global] Instance row_order_dec key kr1 kr2 : Decision (row_order key kr1 kr2).
Proof. unfold row_order. apply _. Defined.

#[global] Instance row_order_total key : Total (row_order key).
Proof.
  intros [k1 r1] [k2 r2]. unfold row_order, order_key_le. simpl.
  destruct (String.leb_total k1 k2); destruct (Z.lt_trichotomy (key r1) (key r2)) as [|[|]];
    auto.
Qed.

#[global] Instance row_order_trans key : Transitive (row_order key).
Proof.
  intros [k1 r1] [k2 r2] [k3 r3]. unfold row_order, order_key_le. simpl.
  intros [?|[? ?]] [?|[? ?]]; [left; lia..|]. right. split; [lia|]. by eapply leb_trans.
Qed.

(** [SELECT ... WHERE P ORDER BY key, id LIMIT limit]. *)
Definition sql_first (limit : Z) (key : R -> Z) P m : list (string * R) :=
  take (Z.to_nat limit) (merge_sort (row_order key) (sql_select P m)).

(** ** Facts *)

Lemma elem_of_sql_select P m k r :
  (k, r) ∈ sql_select P m <-> m !! k = Some r /\ P k r = true.
Proof.
  unfold sql_select. rewrite list_elem_of_filter, elem_of_map_to_list. simpl. tauto.
Qed.

Lemma sql_select_NoDup P m : NoDup (sql_select P m).*1.
Proof.
  unfold sql_select. eapply sublist_NoDup; [apply (NoDup_fst_map_to_list m)|].
  apply fmap_sublist, sublist_filter.
Qed.

Lemma lookup_sql_update P f m k :
  sql_update P f m !! k = (fun r => if P k r then f r else r) <$> m !! k.
Proof. unfold sql_update. rewrite map_lookup_imap. by destruct (m !! k). Qed.

Lemma lookup_sql_update_Some P f m k r' :
  sql_update P f m !! k = Some r' <->
  exists r, m !! k = Some r /\ r' = if P k r then f r else r.
Proof.
  rewrite lookup_sql_update, fmap_Some. naive_solver.
Qed.

Lemma dom_sql_update P f m k : is_Some (sql_update P f m !! k) <-> is_Some (m !! k).
Proof. by rewrite lookup_sql_update, fmap_is_Some. Qed.

Lemma lookup_sql_delete_Some P m k r :
  sql_delete P m !! k = Some r <-> m !! k = Some r /\ P k r = false.
Proof. unfold sql_delete. by rewrite map_lookup_filter_Some. Qed.

Lemma sql_update_none P f m :
  (forall k r, m !! k = Some r -> P k r = false) -> sql_update P f m = m.
Proof.
  intros H. apply map_eq. intros k. rewrite lookup_sql_update.
  destruct (m !! k) as [r|] eqn:Hk; simpl; [|done]. by rewrite (H k r Hk).
Qed.

Lemma sql_select_by_id k Q m :
  sql_select (by_id k Q) m =
    match m !! k with Some r => if Q r then [(k, r)] else [] | None => [] end.
Proof.
  assert (Hin : forall kr, kr ∈ sql_select (by_id k Q) m <->
            kr.1 = k /\ m !! k = Some kr.2 /\ Q kr.2 = true).
  { intros [k' r]. rewrite elem_of_sql_select. unfold by_id. simpl.
    rewrite andb_true_iff, bool_decide_eq_true. naive_solver. }
  pose proof (sql_select_NoDup (by_id k Q) m) as Hnd.
  destruct (m !! k) as [r|] eqn:Hk; [destruct (Q r) eqn:HQ|].
  - destruct (sql_select (by_id k Q) m) as [|[k1 r1] l].
    { exfalso. by apply (not_elem_of_nil (k, r)), Hin. }
    destruct (Hin (k1, r1)) as [H1 _]. destruct H1 as (Hk1 & Hr1 & _); [left|].
    simpl in *. simplify_eq. destruct l as [|[k2 r2] l]; [done|].
    destruct (Hin (k2, r2)) as [H2 _]. destruct H2 as (Hk2 & Hr2 & _); [right; left|].
    simpl in *. simplify_eq. apply list.NoDup_cons in Hnd as [Hnd _]. set_solver.
  - destruct (sql_select _ _) as [|kr l]; [done|].
    destruct (Hin kr) as [(_ & Hr & HQr) _]; [left|]. simplify_eq. congruence.
  - destruct (sql_select _ _) as [|kr l]; [done|].
    by destruct (Hin kr) as [(_ & Hr & _) _]; [left|].
Qed.

Lemma sql_affected_by_id k Q m :
  sql_affected (by_id k Q) m =
    match m !! k with Some r => if Q r then 1 else 0 | None => 0 end.
Proof.
  unfold sql_affected. rewrite sql_select_by_id. by repeat case_match.
Qed.

Lemma lookup_update_by_id k Q f m k' :
  sql_update (by_id k Q) f m !! k' =
    (fun r => if decide (k' = k) then if Q r then f r else r else r) <$> m !! k'.
Proof.
  rewrite lookup_sql_update. unfold by_id. destruct (m !! k'); simpl; [|done].
  by case_decide; [rewrite bool_decide_eq_true_2|rewrite bool_decide_eq_false_2].
Qed.

(** Updating one existing row that satisfies the condition is an insertion. *)
Lemma sql_update_by_id_insert k Q f m r :
  m !! k = Some r -> Q r = true -> sql_update (by_id k Q) f m = <[k := f r]> m.
Proof.
  intros Hk HQ. apply map_eq. intros k'. rewrite lookup_update_by_id, lookup_insert.
  destruct (decide (k' = k)) as [->|Hne].
  - rewrite Hk. simpl. by rewrite HQ, decide_True.
  - rewrite decide_False by done. by destruct (m !! k').
Qed.

Lemma sql_update_by_id_skip k Q f m :
  match m !! k with Some r => Q r = false | None => True end ->
  sql_update (by_id k Q) f m = m.
Proof.
  intros H. apply sql_update_none. intros k' r Hr. unfold by_id.
  destruct (decide (k' = k)) as [->|Hne]; [|by rewrite bool_decide_eq_false_2].
  rewrite Hr in H. by rewrite H, andb_false_r.
Qed.

Lemma sql_affected_by_ids_le ks m : sql_affected (by_ids ks) m <= Z.of_nat (length ks).
Proof.
  unfold sql_affected. rewrite <- (length_fmap fst).
  apply Nat2Z.inj_le, submseteq_length, NoDup_submseteq; [apply sql_select_NoDup|].
  intros k Hk. apply list_elem_of_fmap in Hk as ([k' r] & -> & Hin).
  apply elem_of_sql_select in Hin as [_ Hin]. by apply bool_decide_eq_true in Hin.
Qed.

(** The selected rows are ordered: no row left out precedes one taken. *)
Lemma sql_first_oldest limit key P m k1 r1 k2 r2 :
  (k1, r1) ∈ sql_first limit key P m ->
  m !! k2 = Some r2 -> P k2 r2 = true -> (k2, r2) ∉ sql_first limit key P m ->
  key r1 <= key r2.
Proof.
  unfold sql_first. intros H1 H2 HP Hout.
  assert (Hin : (k2, r2) ∈ merge_sort (row_order key) (sql_select P m)).
  { rewrite merge_sort_Permutation. by apply elem_of_sql_select. }
  rewrite <- (take_drop (Z.to_nat limit)) in Hin.
  apply elem_of_app in Hin as [Hin|Hin]; [done|].
  pose proof (StronglySorted_merge_sort (row_order key) (sql_select P m)) as Hs.
  rewrite <- (take_drop (Z.to_nat limit) (merge_sort _ _)) in Hs.
  pose proof (StronglySorted_app_1_elem_of _ _ _ _ _ Hs H1 Hin) as [Hlt|[Heq _]];
    simpl in *; lia.
Qed.

Lemma elem_of_sql_first limit key P m k r :
  (k, r) ∈ sql_first limit key P m -> m !! k = Some r /\ P k r = true.
Proof.
  intros H. apply take_elem_of in H. rewrite merge_sort_Permutation in H.
  by apply elem_of_sql_select in H.
Qed.

Lemma sql_first_NoDup limit key P m : NoDup (sql_first limit key P m).*1.
Proof.
  unfold sql_first. rewrite fmap_take. apply NoDup_take_prefix.
  rewrite (fmap_Permutation fst _ _ (merge_sort_Permutation _ _)).
  apply sql_select_NoDup.
Qed.

Lemma sql_first_length limit key P m :
  0 <= limit -> Z.of_nat (length (sql_first limit key P m)) <= limit.
Proof. intros H. unfold sql_first. rewrite length_take. lia. Qed.

(** A matching row is left out only when the limit is reached. *)
Lemma sql_first_full limit key P m k r :
  0 <= limit -> m !! k = Some r -> P k r = true -> (k, r) ∉ sql_first limit key P m ->
  Z.of_nat (length (sql_first limit key P m)) = limit.
Proof.
  intros Hl Hk HP Hout. unfold sql_first in *. rewrite length_take.
  destruct (decide (Z.to_nat limit <= length (merge_sort (row_order key) (sql_select P m)))%nat)
    as [Hle|Hgt]; [lia|].
  destruct Hout. rewrite take_ge by lia. rewrite merge_sort_Permutation.
  by apply elem_of_sql_select.
Qed.

(** With a large enough limit every matching row is selected. *)
Lemma sql_first_all limit key P m k r :
  Z.of_nat (size m) <= limit -> m !! k = Some r -> P k r = true ->
  (k, r) ∈ sql_first limit key P m.
Proof.
  intros Hlim Hk HP. unfold sql_first. rewrite take_ge.
  - rewrite merge_sort_Permutation. by apply elem_of_sql_select.
  - rewrite merge_sort_Permutation. unfold sql_select.
    etrans; [apply length_filter|]. rewrite length_map_to_list. lia.
Qed.

End Table.

#[export] Hint Resolve sql_select_NoDup sql_first_NoDup : notifier.
