(* ===== verification/Schema.v ===== *)
(** * The database schema (migrations/000001_initial.up.sql, 000002_concurrency_limit.up.sql)

    The two tables with their [CHECK], primary-key, [UNIQUE] and foreign-key
    constraints, the single-row statements, and the way a statement or a
    transaction can fail.

    The immutable columns of a task are one record, the ones that [UPDATE]
    statements touch are fields of the row.  [JSONB] columns that hold headers
    and delays are typed here: their texts are in [Columns.v].  Timestamps
    keep Go's nanoseconds where PostgreSQL keeps microseconds.  The column
    [outbox_events.last_error] is never written by the program and is left
    out. *)

From S2P Require Import Prelude GoTime GoStrings Notification Table.

(** ** notification_tasks *)

Record task_fixed := mkTaskFixed {
  caller_id : string;
  idempotency_key : string;
  request_hash : string;
  destination_id : string;
  method : string;
  url : string;
  static_headers : Header;
  secret_headers : gmap string string;
  body : string;
  timeout_ns : Z;
  max_attempts : Z;
  lifetime_ns : Z;
  retry_delays_ns : list Z;
  concurrency_limit : Z;
  created_at : time;
}.

Record task_row := mkTaskRow {
  fixed : task_fixed;
  status : Status;
  attempt_count : Z;
  generation : Z;
  next_attempt_at : option time;
  lease_token : option string;
  lease_until : option time;
  last_http_status : option Z;
  last_error_code : option string;
  last_error_message : option string;
  updated_at : time;
  delivered_at : option time;
  dead_at : option time;
}.

(** ** outbox_events *)

Record event_row := mkEventRow {
  aggregate_id : string;
  event_generation : Z;
  event_type : string;
  payload : list (string * string);
  event_created_at : time;
  published_at : option time;
  claim_token : option string;
  claim_until : option time;
  publish_attempts : Z;
}.

Record db := mkDb {
  tasks : gmap string task_row;
  outbox : gmap string event_row;
}.

Definition set_tasks (t : gmap string task_row) (d : db) : db :=
  {| tasks := t; outbox := outbox d |}.
Definition set_outbox (o : gmap string event_row) (d : db) : db :=
  {| tasks := tasks d; outbox := o |}.

(** ** Constraints *)

(** Text that PostgreSQL stores: well-formed UTF-8 without a zero byte. *)
Definition text_ok (s : string) : bool :=
  valid_utf8 s && forallb (fun b => negb (b =? 0)) (bytes s).

Definition text_between (lo hi : Z) (s : string) : bool :=
  text_ok s && (lo <=? char_length s) && (char_length s <=? hi).

Definition opt_ok {A} (p : A -> bool) (o : option A) : bool := from_option p true o.

Definition task_fixed_ok (r : task_fixed) : bool :=
  text_between 1 128 (caller_id r) && text_between 1 256 (idempotency_key r)
  && (len (request_hash r) =? 32) && text_between 1 128 (destination_id r)
  && bool_decide (method r ∈ ["POST"; "PUT"; "PATCH"]%string)
  && text_between 1 2048 (url r)
  && (0 <? timeout_ns r) && int64_ok (timeout_ns r)
  && (1 <=? max_attempts r) && (max_attempts r <=? 32)
  && (0 <? lifetime_ns r) && int64_ok (lifetime_ns r)
  && (0 <? concurrency_limit r) && int4_ok (concurrency_limit r).

(** The [CHECK] constraints and the ranges of the column types. *)
Definition task_row_ok (id : string) (r : task_row) : bool :=
  text_between 1 64 id && task_fixed_ok (fixed r)
  && (0 <=? attempt_count r) && int4_ok (attempt_count r)
  && (0 <=? generation r) && int4_ok (generation r)
  && opt_ok text_ok (lease_token r)
  && opt_ok int4_ok (last_http_status r)
  && opt_ok (text_between 0 128) (last_error_code r)
  && opt_ok (text_between 0 1024) (last_error_message r).

Definition event_row_ok (id : string) (r : event_row) : bool :=
  text_between 1 64 id && text_ok (aggregate_id r)
  && (0 <=? event_generation r) && int4_ok (event_generation r)
  && text_between 1 128 (event_type r)
  && opt_ok text_ok (claim_token r)
  && (0 <=? publish_attempts r) && int4_ok (publish_attempts r).

(** Rows that would violate a [UNIQUE] constraint with the given values. *)
Definition same_key (caller key : string) : string -> task_row -> bool := fun _ r =>
  bool_decide (caller_id (fixed r) = caller) && bool_decide (idempotency_key (fixed r) = key).

Definition same_generation (agg : string) (gen : Z) : string -> event_row -> bool := fun _ r =>
  bool_decide (aggregate_id r = agg) && (event_generation r =? gen).

Definition sql_exists {R} (P : string -> R -> bool) (m : gmap string R) : bool :=
  match sql_select P m with [] => false | _ :: _ => true end.

(** ** Statements *)

(** [INSERT INTO notification_tasks]: checks first, then the unique indexes
    in the order of their creation. *)
Definition insert_task (id : string) (r : task_row) : M db () := fun d =>
  if negb (task_row_ok id r) then (Err (PgError "notification_tasks_check"), d)
  else if bool_decide (is_Some (tasks d !! id)) then (Err (PgError "notification_tasks_pkey"), d)
  else if sql_exists (same_key (caller_id (fixed r)) (idempotency_key (fixed r))) (tasks d)
  then (Err (PgError "notification_tasks_caller_id_idempotency_key_key"), d)
  else (Ok (), set_tasks (<[id := r]> (tasks d)) d).

(** [INSERT INTO outbox_events]; the foreign key is checked last. *)
Definition insert_event (id : string) (r : event_row) : M db () := fun d =>
  if negb (event_row_ok id r) then (Err (PgError "outbox_events_check"), d)
  else if bool_decide (is_Some (outbox d !! id)) then (Err (PgError "outbox_events_pkey"), d)
  else if sql_exists (same_generation (aggregate_id r) (event_generation r)) (outbox d)
  then (Err (PgError "outbox_events_aggregate_id_generation_key"), d)
  else if bool_decide (is_Some (tasks d !! aggregate_id r))
  then (Ok (), set_outbox (<[id := r]> (outbox d)) d)
  else (Err (PgError "outbox_events_aggregate_id_fkey"), d).

(** [... ON CONFLICT (aggregate_id,generation) DO NOTHING]: the arbiter index
    is consulted first; a conflict on the primary key is still an error. *)
Definition insert_event_or_nothing (id : string) (r : event_row) : M db () := fun d =>
  if negb (event_row_ok id r) then (Err (PgError "outbox_events_check"), d)
  else if sql_exists (same_generation (aggregate_id r) (event_generation r)) (outbox d)
  then (Ok (), d)
  else insert_event id r d.

(** [UPDATE notification_tasks]: the number of rows, or an error when a new
    row violates a check. *)
Definition update_tasks (P : string -> task_row -> bool) (f : task_row -> task_row) : M db Z :=
  fun d =>
  if forallb (fun kr => task_row_ok kr.1 (f kr.2)) (sql_select P (tasks d))
  then (Ok (sql_affected P (tasks d)), set_tasks (sql_update P f (tasks d)) d)
  else (Err (PgError "notification_tasks_check"), d).

Definition update_events (P : string -> event_row -> bool) (f : event_row -> event_row) : M db Z :=
  fun d =>
  if forallb (fun kr => event_row_ok kr.1 (f kr.2)) (sql_select P (outbox d))
  then (Ok (sql_affected P (outbox d)), set_outbox (sql_update P f (outbox d)) d)
  else (Err (PgError "outbox_events_check"), d).

(** The parameters of a statement that are text reach it whether or not it
    finds a row: one that is not well-formed, or holds a zero byte, is an error
    of the statement, without the name of a constraint. *)
Definition bad_text : error := PgError "".

Definition texts (params : list string) : M db () := fun d =>
  if forallb text_ok params then (Ok (), d) else (Err bad_text, d).

(** An integer parameter of a column of type [INTEGER]. *)
Definition int4_param (z : Z) : M db () := fun d =>
  if int4_ok z then (Ok (), d) else (Err (Message "integer out of range"), d).

(** [DELETE FROM notification_tasks], with the cascade of the foreign key. *)
Definition delete_tasks (P : string -> task_row -> bool) : M db Z := fun d =>
  let kept := sql_delete P (tasks d) in
  (Ok (sql_affected P (tasks d)),
   {| tasks := kept;
      outbox := sql_delete (fun _ e => negb (bool_decide (is_Some (kept !! aggregate_id e))))
                  (outbox d) |}).

(** ** Failures

    A call may fail before anything is committed (no connection, cancelled
    context, a broken transaction), or after the commit, when the answer is
    lost.  A failing statement rolls its transaction back. *)
Inductive fault := NoFault | FailBefore | FailAfter.

Definition connection_error : error := Message "connection failure".

Definition atomically {A} (f : fault) (ctx : string) (body : M db A) : M db A := fun d =>
  match f with
  | FailBefore => (Err (Wrapped ctx connection_error), d)
  | NoFault =>
      match body d with
      | (Ok a, d') => (Ok a, d')
      | (Err e, _) => (Err e, d)
      end
  | FailAfter =>
      match body d with
      | (Ok _, d') => (Err (Wrapped ctx connection_error), d')
      | (Err e, _) => (Err e, d)
      end
  end.
