(* ===== verification/Store.v ===== *)
(** * The PostgreSQL store (src/internal/store/postgres)

    Every method of [Store], as a transition of the database with a result.
    Each method runs one statement or one transaction, which is one step here:
    rows that other transactions hold are given to the methods that use
    [FOR UPDATE SKIP LOCKED] as the set [locked].  The first argument of each
    method says whether and where the connection fails. *)

From S2P Require Import Prelude GoTime GoStrings Notification Table Schema.

(** ** Go zero values and NULL handling *)

Definition zero_RetryPolicy : RetryPolicy := mkRetryPolicy 0 0 [].

Definition zero_Snapshot : DeliverySnapshot :=
  mkDeliverySnapshot "" "" "" None ∅ "" 0 zero_RetryPolicy 0 "".

(** A [\[32\]byte] of zeros. *)
Definition zero_hash : string := of_bytes (replicate 32 0%Z).

(** [copy(task.RequestHash[:], hash)] into a zeroed array. *)
Definition copy_hash (hash : string) : string := byte_prefix 32 (hash +:+ zero_hash).

(** [NULLIF($n,0)], [NULLIF($n,'')] and the [COALESCE]s that read them back. *)
Definition nullif_zero (z : Z) : option Z := if z =? 0 then None else Some z.
Definition nullif_empty (s : string) : option string :=
  if bool_decide (s = ""%string) then None else Some s.

(** ** SQL predicates and assignments *)

Definition has_status (s : Status) (r : task_row) : bool := bool_decide (status r = s).

(** [SET status='delivering', lease_token=$2, lease_until=$3,
    attempt_count=attempt_count+1, updated_at=now()]. *)
Definition set_claimed (leaseToken : string) (leaseUntil db_now : time) (r : task_row) : task_row :=
  {| fixed := fixed r; status := StatusDelivering;
     attempt_count := attempt_count r + 1; generation := generation r;
     next_attempt_at := next_attempt_at r;
     lease_token := Some leaseToken; lease_until := Some leaseUntil;
     last_http_status := last_http_status r; last_error_code := last_error_code r;
     last_error_message := last_error_message r; updated_at := db_now;
     delivered_at := delivered_at r; dead_at := dead_at r |}.

(** The assignments of [ApplyDeliveryResult]'s [UPDATE], after its [switch]. *)
Definition set_result (result : AttemptResult) (r : task_row) : task_row :=
  let '(st, next, deliveredAt, deadAt) :=
    match AttemptOutcome result with
    | Delivered => (StatusDelivered, None, Some (CompletedAt result), None)
    | Retryable => (StatusRetryWait, AttemptNextAttemptAt result, None, None)
    | Permanent => (StatusDead, None, None, Some (CompletedAt result))
    end in
  {| fixed := fixed r; status := st;
     attempt_count := attempt_count r; generation := generation r;
     next_attempt_at := next; lease_token := None; lease_until := None;
     last_http_status := nullif_zero (AttemptHTTPStatus result);
     last_error_code := nullif_empty (AttemptErrorCode result);
     last_error_message := nullif_empty (AttemptErrorMessage result);
     updated_at := CompletedAt result;
     delivered_at := deliveredAt; dead_at := deadAt |}.

(** [SET status='pending', generation=generation+1, ..., dead_at=NULL] of the
    two replays. *)
Definition set_replayed (now : time) (r : task_row) : task_row :=
  {| fixed := fixed r; status := StatusPending;
     attempt_count := attempt_count r; generation := generation r + 1;
     next_attempt_at := None; lease_token := None; lease_until := None;
     last_http_status := last_http_status r; last_error_code := last_error_code r;
     last_error_message := last_error_message r; updated_at := now;
     delivered_at := delivered_at r; dead_at := None |}.

(** The two [UPDATE]s of [ScheduleDue]. *)
Definition set_exhausted (now : time) (r : task_row) : task_row :=
  {| fixed := fixed r; status := StatusDead;
     attempt_count := attempt_count r; generation := generation r;
     next_attempt_at := None; lease_token := None; lease_until := None;
     last_http_status := last_http_status r; last_error_code := last_error_code r;
     last_error_message := last_error_message r; updated_at := now;
     delivered_at := delivered_at r; dead_at := Some now |}.

Definition set_rescheduled (newGeneration : Z) (now : time) (errorCode : string)
    (r : task_row) : task_row :=
  {| fixed := fixed r; status := StatusPending;
     attempt_count := attempt_count r; generation := newGeneration;
     next_attempt_at := None; lease_token := None; lease_until := None;
     last_http_status := last_http_status r; last_error_code := nullif_empty errorCode;
     last_error_message := last_error_message r; updated_at := now;
     delivered_at := delivered_at r; dead_at := dead_at r |}.

(** [SET claim_token=$3, claim_until=$4, publish_attempts=publish_attempts+1]. *)
Definition set_event_claimed (token : string) (until : time) (e : event_row) : event_row :=
  {| aggregate_id := aggregate_id e; event_generation := event_generation e;
     event_type := event_type e; payload := payload e;
     event_created_at := event_created_at e; published_at := published_at e;
     claim_token := Some token; claim_until := Some until;
     publish_attempts := publish_attempts e + 1 |}.

(** [SET published_at=$3, claim_token=NULL, claim_until=NULL]. *)
Definition set_event_published (at_ : time) (e : event_row) : event_row :=
  {| aggregate_id := aggregate_id e; event_generation := event_generation e;
     event_type := event_type e; payload := payload e;
     event_created_at := event_created_at e; published_at := Some at_;
     claim_token := None; claim_until := None;
     publish_attempts := publish_attempts e |}.

(** [WHERE published_at IS NULL AND (claim_until IS NULL OR claim_until < $1)]. *)
Definition event_claimable (now : time) (e : event_row) : bool :=
  bool_decide (published_at e = None)
  && match claim_until e with None => true | Some u => u <? now end.

(** [WHERE (status='retry_wait' AND next_attempt_at <= $1)
    OR (status='delivering' AND lease_until < $1)]; a comparison with NULL
    does not hold. *)
Definition task_due (now : time) (r : task_row) : bool :=
  (has_status StatusRetryWait r
   && match next_attempt_at r with Some t => t <=? now | None => false end)
  || (has_status StatusDelivering r
      && match lease_until r with Some t => t <? now | None => false end).

(** [COALESCE(next_attempt_at,lease_until)]; rows with neither would sort last. *)
Definition due_key (r : task_row) : time :=
  match next_attempt_at r, lease_until r with
  | Some t, _ => t
  | None, Some t => t
  | None, None => 0
  end.

(** [status IN ('delivered','dead') AND updated_at < $1 AND NOT EXISTS
    (unpublished event)]. *)
Definition task_expired (cutoff : time) (o : gmap string event_row) (id : string)
    (r : task_row) : bool :=
  (has_status StatusDelivered r || has_status StatusDead r)
  && (updated_at r <? cutoff)
  && negb (sql_exists (fun _ e => bool_decide (aggregate_id e = id)
                                  && bool_decide (published_at e = None)) o).

(** ** Row and value conversions *)

Definition snapshot_of_row (r : task_fixed) : DeliverySnapshot :=
  {| DestinationID := destination_id r; Method := method r; URL := url r;
     StaticHeaders := static_headers r; SecretHeaders := secret_headers r;
     Body := body r; Timeout := timeout_ns r;
     Retry := {| MaxAttempts := max_attempts r; Lifetime := lifetime_ns r;
                 Delays := retry_delays_ns r |};
     ConcurrencyLimit := concurrency_limit r;
     SnapshotIdempotencyKey := idempotency_key r |}.

(** The task that [ClaimDelivery] scans; columns it does not return are zero. *)
Definition claimed_task (id : string) (r : task_row) (leaseToken : string)
    (leaseUntil : time) : Task :=
  {| TaskID := id; CallerID := caller_id (fixed r);
     IdempotencyKey := idempotency_key (fixed r); RequestHash := zero_hash;
     Snapshot := snapshot_of_row (fixed r); TaskStatus := status r;
     AttemptCount := attempt_count r; Generation := generation r;
     NextAttemptAt := None; LeaseToken := leaseToken; LeaseUntil := Some leaseUntil;
     LastHTTPStatus := 0; LastErrorCode := ""; LastError := "";
     CreatedAt := created_at (fixed r); UpdatedAt := updated_at r;
     DeliveredAt := None; DeadAt := None |}.

(** The task that [GetByCallerAndKey] scans. *)
Definition keyed_task (id : string) (r : task_row) : Task :=
  {| TaskID := id; CallerID := caller_id (fixed r);
     IdempotencyKey := idempotency_key (fixed r);
     RequestHash := copy_hash (request_hash (fixed r));
     Snapshot := zero_Snapshot; TaskStatus := status r;
     AttemptCount := attempt_count r; Generation := generation r;
     NextAttemptAt := None; LeaseToken := ""; LeaseUntil := None;
     LastHTTPStatus := 0; LastErrorCode := ""; LastError := "";
     CreatedAt := created_at (fixed r); UpdatedAt := updated_at r;
     DeliveredAt := None; DeadAt := None |}.

(** The task that [GetForCaller] scans. *)
Definition queried_task (id : string) (r : task_row) : Task :=
  {| TaskID := id; CallerID := caller_id (fixed r); IdempotencyKey := "";
     RequestHash := zero_hash;
     Snapshot := mkDeliverySnapshot (destination_id (fixed r)) "" "" None ∅ "" 0
                   zero_RetryPolicy 0 "";
     TaskStatus := status r; AttemptCount := attempt_count r; Generation := 0;
     NextAttemptAt := next_attempt_at r; LeaseToken := ""; LeaseUntil := None;
     LastHTTPStatus := default 0 (last_http_status r);
     LastErrorCode := default ""%string (last_error_code r);
     LastError := default ""%string (last_error_message r);
     CreatedAt := created_at (fixed r); UpdatedAt := updated_at r;
     DeliveredAt := delivered_at r; DeadAt := dead_at r |}.

Definition event_of_row (id : string) (e : event_row) : OutboxEvent :=
  {| EventID := id; AggregateID := aggregate_id e; EventGeneration := event_generation e;
     EventType := event_type e; Payload := payload e; EventCreatedAt := event_created_at e;
     PublishedAt := published_at e; ClaimToken := default ""%string (claim_token e);
     ClaimUntil := claim_until e; PublishAttempts := publish_attempts e |}.

(** The columns that [CreateNotification] inserts, [b] being what [JSONB]
    makes of the body; the others are NULL. *)
Definition row_of_task (task : Task) (b : string) : task_row :=
  {| fixed :=
       {| caller_id := CallerID task; idempotency_key := IdempotencyKey task;
          request_hash := RequestHash task;
          destination_id := DestinationID (Snapshot task);
          method := Method (Snapshot task); url := URL (Snapshot task);
          static_headers := StaticHeaders (Snapshot task);
          secret_headers := SecretHeaders (Snapshot task); body := b;
          timeout_ns := Timeout (Snapshot task);
          max_attempts := MaxAttempts (Retry (Snapshot task));
          lifetime_ns := Lifetime (Retry (Snapshot task));
          retry_delays_ns := Delays (Retry (Snapshot task));
          concurrency_limit := ConcurrencyLimit (Snapshot task);
          created_at := CreatedAt task |};
     status := TaskStatus task; attempt_count := AttemptCount task;
     generation := Generation task; next_attempt_at := None; lease_token := None;
     lease_until := None; last_http_status := None; last_error_code := None;
     last_error_message := None; updated_at := UpdatedAt task;
     delivered_at := None; dead_at := None |}.

Definition row_of_event (event : OutboxEvent) : event_row :=
  {| aggregate_id := AggregateID event; event_generation := EventGeneration event;
     event_type := EventType event; payload := Payload event;
     event_created_at := EventCreatedAt event; published_at := None;
     claim_token := None; claim_until := None; publish_attempts := 0 |}.

(** ** Operations *)

Section Store.

(** What PostgreSQL's [JSONB] makes of a JSON text: the text it prints back,
    or nothing when it rejects the input. *)
Context (jsonb : string -> option string).

(** [crypto/sha256], as 32 bytes. *)
Context (Sum256 : list Z -> list Z).

(** The order in which [UPDATE ... RETURNING] yields rows is not specified. *)
Context (returning_order : list OutboxEvent -> list OutboxEvent).

Definition statement {A} (f : fault) (ctx : string) (body : M db A) : M db A :=
  atomically f ctx (wrapM ctx body).

(** *** delivery.go *)

Definition ClaimDelivery (f : fault) (db_now : time) (id leaseToken : string)
    (leaseUntil : time) : M db Claim :=
  statement f "claim delivery" (
    _ ← texts [id; leaseToken];
    n ← update_tasks (by_id id (has_status StatusPending))
          (set_claimed leaseToken leaseUntil db_now);
    if n =? 0 then mret None
    else
      row ← gets (fun d => tasks d !! id);
      mret ((fun r => claimed_task id r leaseToken leaseUntil) <$> row)).

Definition owns_lease (leaseToken : string) (r : task_row) : bool :=
  has_status StatusDelivering r && bool_decide (lease_token r = Some leaseToken).

Definition ApplyDeliveryResult (f : fault) (id leaseToken : string)
    (result : AttemptResult) : M db bool :=
  statement f "apply delivery result" (
    _ ← texts [id; leaseToken; AttemptErrorCode result; AttemptErrorMessage result];
    _ ← int4_param (AttemptHTTPStatus result);
    n ← update_tasks (by_id id (owns_lease leaseToken)) (set_result result);
    mret (n =? 1)).

(** *** intake.go *)

Definition CreateNotification (task : Task) : M db () := fun d =>
  match jsonb (Body (Snapshot task)) with
  | None => (Err (Wrapped "insert notification" (Message "invalid input syntax for type json")), d)
  | Some b =>
      match insert_task (TaskID task) (row_of_task task b) d with
      | (Ok _, d') => (Ok (), d')
      | (Err e, d') =>
          if bool_decide (errors_As_PgError e =
               Some "notification_tasks_caller_id_idempotency_key_key"%string)
          then (Err (Sentinel ErrIdempotencyConflict), d')
          else (Err (Wrapped "insert notification" e), d')
      end
  end.

(** *** outbox.go *)

Definition InsertOutbox (event : OutboxEvent) : M db () := fun d =>
  match insert_event (EventID event) (row_of_event event) d with
  | (Ok _, d') => (Ok (), d')
  | (Err e, d') =>
      if bool_decide (errors_As_PgError e =
           Some "outbox_events_aggregate_id_generation_key"%string)
      then (Err (Sentinel ErrGenerationConflict), d')
      else (Err (Wrapped "insert outbox event" e), d')
  end.

Definition ClaimOutbox (f : fault) (locked : gset string) (now : time) (limit : Z)
    (token : string) (until : time) : M db (list OutboxEvent) :=
  statement f "claim outbox" (
    _ ← texts [token];
    if limit <? 0 then throw (Message "LIMIT must not be negative")
    else
      candidates ← gets (fun d => (sql_first limit event_created_at
        (fun id e => event_claimable now e && bool_decide (id ∉ locked)) (outbox d)).*1);
      _ ← update_events (by_ids candidates) (set_event_claimed token until);
      events ← gets (fun d => omap (fun id => event_of_row id <$> outbox d !! id) candidates);
      mret (returning_order events)).

Definition holds_claim (token : string) (e : event_row) : bool :=
  bool_decide (claim_token e = Some token) && bool_decide (published_at e = None).

Definition MarkPublished (f : fault) (eventID token : string) (at_ : time) : M db bool :=
  statement f "mark outbox published" (
    _ ← texts [eventID; token];
    n ← update_events (by_id eventID (holds_claim token)) (set_event_published at_);
    mret (n =? 1)).

(** *** query.go *)

Definition GetByCallerAndKey (f : fault) (callerID key : string) : M db Task :=
  statement f "get notification" (_ ← texts [callerID; key]; gets id) ≫= fun d =>
  match sql_select (same_key callerID key) (tasks d) with
  | [] => throw (Sentinel ErrNotFound)
  | (id, r) :: _ => mret (keyed_task id r)
  end.

Definition PgGetForCaller (f : fault) (callerID id : string) : M db Task :=
  statement f "get notification for caller"
    (_ ← texts [id; callerID]; gets (fun d => tasks d !! id)) ≫= fun row =>
  match row with
  | Some r =>
      if bool_decide (caller_id (fixed r) = callerID) then mret (queried_task id r)
      else throw (Sentinel ErrTaskNotFound)
  | None => throw (Sentinel ErrTaskNotFound)
  end.

(** The events that the scheduler and a replay insert. *)
Definition retry_event (id : string) (gen : Z) (now : time) : event_row :=
  {| aggregate_id := id; event_generation := gen; event_type := "notification.ready";
     payload := [("notification_id", id)]%string; event_created_at := now;
     published_at := None; claim_token := None; claim_until := None;
     publish_attempts := 0 |}.

Definition PgReplayDeadAtomic (f : fault) (id : string) (now : time) (eventID : string) : M db bool :=
  atomically f "replay transaction" (
    n ← wrapM "update replay task"
          (_ ← texts [id]; update_tasks (by_id id (has_status StatusDead)) (set_replayed now));
    if n =? 0 then mret false
    else
      gen ← gets (fun d => from_option generation 0 (tasks d !! id));
      _ ← wrapM "insert replay outbox" (insert_event eventID (retry_event id gen now));
      mret true).

(** CreateOrGet of intake.go; [WithTx] of tx.go is [atomically]. *)
Definition WithTx {A} (f : fault) (fn : M db A) : M db A := atomically f "transaction" fn.

Definition CreateOrGet (f f' : fault) (task : Task) (event : OutboxEvent) : M db (option Task) :=
  fun d =>
  match WithTx f (_ ← CreateNotification task; InsertOutbox event) d with
  | (Ok _, d') => (Ok None, d')
  | (Err e, d') =>
      if negb (errors_Is e ErrIdempotencyConflict) then (Err e, d')
      else
        match GetByCallerAndKey f' (CallerID task) (IdempotencyKey task) d' with
        | (Ok existing, d'') => (Ok (Some existing), d'')
        | (Err e', d'') => (Err e', d'')
        end
  end.

(** *** retry.go *)

Definition ScheduleRetry (f : fault) (id expectedLease : string) (next : time)
    (result : AttemptResult) : M db bool :=
  ApplyDeliveryResult f id expectedLease
    {| AttemptOutcome := AttemptOutcome result;
       AttemptHTTPStatus := AttemptHTTPStatus result;
       AttemptErrorCode := AttemptErrorCode result;
       AttemptErrorMessage := AttemptErrorMessage result;
       AttemptNextAttemptAt := Some next;
       CompletedAt := CompletedAt result |}.

Definition ReplayDead (f : fault) (id : string) (now : time) : M db bool :=
  statement f "replay dead task" (
    _ ← texts [id];
    n ← update_tasks (by_id id (has_status StatusDead)) (set_replayed now);
    mret (n =? 1)).

(** [item.attempts >= item.maxAttempts || !now.Before(item.created.Add(lifetime))]. *)
Definition exhausted (now : time) (r : task_row) : bool :=
  (max_attempts (fixed r) <=? attempt_count r)
  || negb (time_Before now (time_Add (created_at (fixed r)) (lifetime_ns (fixed r)))).

(** [hex.EncodeToString]. *)
Definition hex_digit (d : Z) : ascii := byte_of (if d <? 10 then 48 + d else 87 + d).
Definition hex_encode (l : list Z) : string :=
  foldr (fun b s => String (hex_digit (b / 16)) (String (hex_digit (b mod 16)) s)) EmptyString l.

Definition retry_event_id (id : string) (gen : Z) : string :=
  hex_encode (take 16 (Sum256 (bytes (id +:+ ":" +:+ pretty gen)))).

(** One iteration of the loop over the candidates, whose columns were read by
    the [SELECT]. *)
Definition schedule_one (now : time) (result : ScheduleResult) (item : string * task_row)
    : M db ScheduleResult :=
  let '(id, row) := item in
  if exhausted now row then
    _ ← update_tasks (by_id id (fun _ => true)) (set_exhausted now);
    mret (mkScheduleResult (Scheduled result) (Dead result + 1) (RecoveredLeases result))
  else
    let newGeneration := generation row + 1 in
    let recovered := has_status StatusDelivering row in
    let errorCode := if recovered then "delivery_lease_expired"%string else ""%string in
    _ ← update_tasks (by_id id (fun _ => true)) (set_rescheduled newGeneration now errorCode);
    _ ← insert_event_or_nothing (retry_event_id id newGeneration)
          (retry_event id newGeneration now);
    mret (mkScheduleResult (Scheduled result + 1) (Dead result)
            (RecoveredLeases result + if recovered then 1 else 0)).

Definition ScheduleDue (f : fault) (locked : gset string) (now : time) (limit : Z)
    : M db ScheduleResult :=
  atomically f "schedule transaction" (
    if limit <? 0 then throw (Wrapped "select due notifications"
                                (Message "LIMIT must not be negative"))
    else
      candidates ← gets (fun d => sql_first limit due_key
        (fun id r => task_due now r && bool_decide (id ∉ locked)) (tasks d));
      for_each (schedule_one now) (mkScheduleResult 0 0 0) candidates).

(** *** retention.go *)

Definition DeleteTerminalBefore (f : fault) (locked : gset string) (cutoff : time) (limit : Z)
    : M db Z :=
  statement f "delete terminal notifications" (
    if limit <? 0 then throw (Message "LIMIT must not be negative")
    else
      candidates ← gets (fun d => (sql_first limit updated_at
        (fun id r => task_expired cutoff (outbox d) id r && bool_decide (id ∉ locked))
        (tasks d)).*1);
      delete_tasks (by_ids candidates)).

End Store.
