(* ===== verification/StoreSpec.v ===== *)
(** * What the store promises: abstract steps and invariants

    [store_step] is the specification of the store: the changes a committed
    transaction may make to the two tables, each with its guard.  [db_inv] is
    the invariant that every step preserves: the constraints of the schema,
    the coherence of each row with its status, and the outbox log, which holds
    exactly one event for every generation of every task.  [StoreRefine.v]
    shows that the operations of [Store.v] only make such steps. *)

From S2P Require Import Prelude GoTime GoStrings Notification Table Schema Store.

(** ** Coherence of a row with its status *)

Definition null {A} (o : option A) : bool := match o with None => true | Some _ => false end.
Definition not_null {A} (o : option A) : bool := negb (null o).

Definition state_ok (r : task_row) : bool :=
  match status r with
  | StatusPending =>
      null (next_attempt_at r) && null (lease_token r) && null (lease_until r)
      && null (delivered_at r) && null (dead_at r)
  | StatusDelivering =>
      null (next_attempt_at r) && not_null (lease_token r) && not_null (lease_until r)
      && null (delivered_at r) && null (dead_at r)
  | StatusRetryWait =>
      not_null (next_attempt_at r) && null (lease_token r) && null (lease_until r)
      && null (delivered_at r) && null (dead_at r)
  | StatusDelivered =>
      null (next_attempt_at r) && null (lease_token r) && null (lease_until r)
      && not_null (delivered_at r) && null (dead_at r)
  | StatusDead =>
      null (next_attempt_at r) && null (lease_token r) && null (lease_until r)
      && null (delivered_at r) && not_null (dead_at r)
  end.

(** What the delivery service guarantees about the results it applies. *)
Definition attempt_ok (result : AttemptResult) : bool :=
  match AttemptOutcome result with
  | Retryable => not_null (AttemptNextAttemptAt result)
  | Delivered | Permanent => true
  end.

(** A task as the intake service inserts it. *)
Definition fresh_row (r : task_row) : bool :=
  has_status StatusPending r && (attempt_count r =? 0) && (generation r =? 0)
  && null (next_attempt_at r) && null (lease_token r) && null (lease_until r)
  && null (delivered_at r) && null (dead_at r).

Definition unpublished (e : event_row) : bool :=
  null (published_at e) && null (claim_token e) && null (claim_until e).

(** ** Abstract steps *)

Inductive store_step (d : db) : db -> Prop :=
| step_create id r eid e :
    task_row_ok id r = true -> event_row_ok eid e = true ->
    tasks d !! id = None -> outbox d !! eid = None ->
    sql_exists (same_key (caller_id (fixed r)) (idempotency_key (fixed r))) (tasks d) = false ->
    fresh_row r = true -> unpublished e = true ->
    aggregate_id e = id -> event_generation e = 0 ->
    store_step d {| tasks := <[id := r]> (tasks d); outbox := <[eid := e]> (outbox d) |}
| step_claim id r token until db_now :
    tasks d !! id = Some r -> status r = StatusPending ->
    task_row_ok id (set_claimed token until db_now r) = true ->
    store_step d (set_tasks (<[id := set_claimed token until db_now r]> (tasks d)) d)
| step_result id r token result :
    tasks d !! id = Some r -> status r = StatusDelivering -> lease_token r = Some token ->
    attempt_ok result = true ->
    task_row_ok id (set_result result r) = true ->
    store_step d (set_tasks (<[id := set_result result r]> (tasks d)) d)
| step_exhaust id r now :
    tasks d !! id = Some r -> task_due now r = true -> exhausted now r = true ->
    task_row_ok id (set_exhausted now r) = true ->
    store_step d (set_tasks (<[id := set_exhausted now r]> (tasks d)) d)
| step_reschedule id r now code eid :
    tasks d !! id = Some r -> task_due now r = true -> exhausted now r = false ->
    task_row_ok id (set_rescheduled (generation r + 1) now code r) = true ->
    event_row_ok eid (retry_event id (generation r + 1) now) = true ->
    outbox d !! eid = None ->
    store_step d
      {| tasks := <[id := set_rescheduled (generation r + 1) now code r]> (tasks d);
         outbox := <[eid := retry_event id (generation r + 1) now]> (outbox d) |}
| step_replay id r now eid :
    tasks d !! id = Some r -> status r = StatusDead ->
    task_row_ok id (set_replayed now r) = true ->
    event_row_ok eid (retry_event id (generation r + 1) now) = true ->
    outbox d !! eid = None ->
    store_step d
      {| tasks := <[id := set_replayed now r]> (tasks d);
         outbox := <[eid := retry_event id (generation r + 1) now]> (outbox d) |}
| step_claim_events ids now token until :
    (forall eid e, eid ∈ ids -> outbox d !! eid = Some e ->
       event_claimable now e = true /\ event_row_ok eid (set_event_claimed token until e) = true) ->
    store_step d
      (set_outbox (sql_update (by_ids ids) (set_event_claimed token until) (outbox d)) d)
| step_publish eid e token at_ :
    outbox d !! eid = Some e -> published_at e = None -> claim_token e = Some token ->
    event_row_ok eid (set_event_published at_ e) = true ->
    store_step d (set_outbox (<[eid := set_event_published at_ e]> (outbox d)) d)
| step_delete ids cutoff :
    (forall id r, id ∈ ids -> tasks d !! id = Some r ->
       task_expired cutoff (outbox d) id r = true) ->
    store_step d (snd (delete_tasks (by_ids ids) d)).

(** Nothing, or one step: what a call that runs one statement or transaction does. *)
Inductive optional_step (d : db) : db -> Prop :=
| no_step : optional_step d d
| one_step d' : store_step d d' -> optional_step d d'.

(** ** The invariant *)

Record schema_ok (d : db) : Prop := {
  sk_task_ok : forall id r, tasks d !! id = Some r -> task_row_ok id r = true;
  sk_event_ok : forall eid e, outbox d !! eid = Some e -> event_row_ok eid e = true;
  sk_keys : forall id1 id2 r1 r2,
    tasks d !! id1 = Some r1 -> tasks d !! id2 = Some r2 ->
    caller_id (fixed r1) = caller_id (fixed r2) ->
    idempotency_key (fixed r1) = idempotency_key (fixed r2) -> id1 = id2;
  sk_generations : forall eid1 eid2 e1 e2,
    outbox d !! eid1 = Some e1 -> outbox d !! eid2 = Some e2 ->
    aggregate_id e1 = aggregate_id e2 ->
    event_generation e1 = event_generation e2 -> eid1 = eid2;
  sk_foreign_key : forall eid e,
    outbox d !! eid = Some e -> is_Some (tasks d !! aggregate_id e);
}.

Definition states_ok (d : db) : Prop :=
  forall id r, tasks d !! id = Some r -> state_ok r = true.

(** No event is ahead of its task, and every generation up to the current one
    has its event. *)
Definition log_bounded (d : db) : Prop :=
  forall eid e r, outbox d !! eid = Some e -> tasks d !! aggregate_id e = Some r ->
    event_generation e <= generation r.

Definition log_complete (d : db) : Prop :=
  forall id r g, tasks d !! id = Some r -> 0 <= g <= generation r ->
    exists eid e, outbox d !! eid = Some e /\ aggregate_id e = id /\ event_generation e = g.

Record db_inv (d : db) : Prop := {
  inv_schema : schema_ok d;
  inv_states : states_ok d;
  inv_bounded : log_bounded d;
  inv_complete : log_complete d;
}.

Definition empty_db : db := {| tasks := ∅; outbox := ∅ |}.

(** ** Helper lemmas *)

Lemma sql_exists_false {R} (P : string -> R -> bool) m :
  sql_exists P m = false <-> forall k r, m !! k = Some r -> P k r = false.
Proof.
  unfold sql_exists. split.
  - intros H k r Hk. destruct (P k r) eqn:HP; [|done]. exfalso.
    assert (Hin : (k, r) ∈ sql_select P m) by (by apply elem_of_sql_select).
    destruct (sql_select P m); [by apply not_elem_of_nil in Hin|done].
  - intros H. destruct (sql_select P m) as [|[k r] l] eqn:Hs; [done|].
    assert (Hin : (k, r) ∈ sql_select P m) by (rewrite Hs; left).
    apply elem_of_sql_select in Hin as [Hk HP]. by rewrite (H k r Hk) in HP.
Qed.

Lemma sql_exists_true {R} (P : string -> R -> bool) m :
  sql_exists P m = true <-> exists k r, m !! k = Some r /\ P k r = true.
Proof.
  destruct (sql_exists P m) eqn:H.
  - split; [intros _|done]. unfold sql_exists in H.
    destruct (sql_select P m) as [|[k r] l] eqn:Hs; [done|]. exists k, r.
    apply elem_of_sql_select. rewrite Hs. left.
  - split; [done|]. intros (k & r & Hk & HP).
    rewrite sql_exists_false in H. by rewrite (H k r Hk) in HP.
Qed.

Lemma same_key_true caller key k r :
  same_key caller key k r = true <->
  caller_id (fixed r) = caller /\ idempotency_key (fixed r) = key.
Proof. unfold same_key. by rewrite andb_true_iff, !bool_decide_eq_true. Qed.

Lemma same_generation_true agg gen k e :
  same_generation agg gen k e = true <-> aggregate_id e = agg /\ event_generation e = gen.
Proof. unfold same_generation. by rewrite andb_true_iff, bool_decide_eq_true, Z.eqb_eq. Qed.

Lemma has_status_true s r : has_status s r = true <-> status r = s.
Proof. unfold has_status. apply bool_decide_eq_true. Qed.

Lemma fresh_row_state_ok r : fresh_row r = true -> state_ok r = true.
Proof.
  unfold fresh_row, state_ok. rewrite !andb_true_iff, has_status_true.
  intros (((((((-> & _) & _) & ?) & ?) & ?) & ?) & ?). by rewrite !andb_true_iff.
Qed.

Lemma fresh_row_facts r :
  fresh_row r = true -> status r = StatusPending /\ attempt_count r = 0 /\ generation r = 0.
Proof. unfold fresh_row. intros H. reflect_bools. rewrite has_status_true in *. done. Qed.

Lemma set_claimed_state_ok token until db_now r :
  status r = StatusPending -> state_ok r = true -> state_ok (set_claimed token until db_now r) = true.
Proof. unfold state_ok. intros ->. simpl. intros H. reflect_bools. by rewrite !andb_true_iff. Qed.

Lemma set_result_state_ok result r :
  attempt_ok result = true -> state_ok (set_result result r) = true.
Proof. unfold attempt_ok, state_ok, set_result. by destruct (AttemptOutcome result); simpl; intros H; rewrite ?H. Qed.

Lemma set_replayed_state_ok now r :
  status r = StatusDead -> state_ok r = true -> state_ok (set_replayed now r) = true.
Proof. unfold state_ok. intros ->. simpl. intros H. reflect_bools. by rewrite !andb_true_r. Qed.

Lemma task_due_status now r :
  task_due now r = true -> status r = StatusRetryWait \/ status r = StatusDelivering.
Proof.
  unfold task_due. rewrite orb_true_iff, !andb_true_iff, !has_status_true. naive_solver.
Qed.

Lemma set_exhausted_state_ok now t r :
  task_due t r = true -> state_ok r = true -> state_ok (set_exhausted now r) = true.
Proof.
  unfold state_ok. intros [->| ->]%task_due_status; simpl; intros H; reflect_bools;
    by rewrite !andb_true_r.
Qed.

Lemma set_rescheduled_state_ok gen now code t r :
  task_due t r = true -> state_ok r = true -> state_ok (set_rescheduled gen now code r) = true.
Proof.
  unfold state_ok. intros [->| ->]%task_due_status; simpl; intros H; reflect_bools;
    by rewrite !andb_true_iff.
Qed.

#[export] Hint Resolve fresh_row_state_ok set_claimed_state_ok set_result_state_ok
  set_replayed_state_ok set_exhausted_state_ok set_rescheduled_state_ok : notifier.

(** What the checks say of the counters of a row. *)
Lemma task_row_ok_counts id r :
  task_row_ok id r = true ->
  0 <= attempt_count r /\ 0 <= generation r /\ 1 <= max_attempts (fixed r) <= 32.
Proof. unfold task_row_ok, task_fixed_ok. rewrite !andb_true_iff, !Z.leb_le. tauto. Qed.

(** What they say of its texts. *)
Lemma text_between_utf8 lo hi s : text_between lo hi s = true -> valid_utf8 s = true.
Proof. unfold text_between, text_ok. rewrite !andb_true_iff. tauto. Qed.

Lemma opt_text_utf8 lo hi o : opt_ok (text_between lo hi) o = true -> valid_utf8 (default "" o) = true.
Proof. destruct o as [s|]; [|done]. apply text_between_utf8. Qed.

Lemma task_row_ok_texts id r :
  task_row_ok id r = true ->
  valid_utf8 id = true /\ valid_utf8 (destination_id (fixed r)) = true /\
  valid_utf8 (default "" (last_error_code r)) = true /\ valid_utf8 (default "" (last_error_message r)) = true.
Proof.
  unfold task_row_ok, task_fixed_ok. rewrite !andb_true_iff. intros H.
  split_and!; [eapply (text_between_utf8 1 64)|eapply (text_between_utf8 1 128)|
    apply (opt_text_utf8 0 128)|apply (opt_text_utf8 0 1024)]; tauto.
Qed.

(** Open a lookup in an updated table. *)
Ltac lookup_cases :=
  repeat match goal with
  | H : <[_ := _]> _ !! _ = Some _ |- _ => apply lookup_insert_Some in H as [[? ?]|[? ?]]
  | H : sql_update _ _ _ !! _ = Some _ |- _ => apply lookup_sql_update_Some in H as (? & ? & ?)
  | H : sql_delete _ _ !! _ = Some _ |- _ => apply lookup_sql_delete_Some in H as [? ?]
  end; simplify_eq/=.

(** ** Single changes to a table keep the schema *)

Section Schema_steps.
Implicit Types (d : db).

(** Changing the mutable columns of one task. *)
Lemma schema_set_task d id r r' :
  schema_ok d -> tasks d !! id = Some r -> fixed r' = fixed r -> task_row_ok id r' = true ->
  schema_ok (set_tasks (<[id := r']> (tasks d)) d).
Proof.
  intros [Ht He Hk Hg Hf] Hr Hfix Hok. split; simpl; try done.
  - intros. lookup_cases; eauto.
  - intros. lookup_cases; eauto; try (eapply Hk; eauto; congruence).
  - intros eid e Heid. rewrite lookup_insert_is_Some'. right. eauto.
Qed.

(** Inserting an event for an existing task and a new generation. *)
Lemma schema_insert_event d eid e :
  schema_ok d -> outbox d !! eid = None -> event_row_ok eid e = true ->
  is_Some (tasks d !! aggregate_id e) ->
  sql_exists (same_generation (aggregate_id e) (event_generation e)) (outbox d) = false ->
  schema_ok (set_outbox (<[eid := e]> (outbox d)) d).
Proof.
  intros [Ht He Hk Hg Hf] Hnone Hok Hagg Hnew. rewrite sql_exists_false in Hnew.
  assert (Hnew' : forall k e', outbox d !! k = Some e' -> aggregate_id e' = aggregate_id e ->
            event_generation e' = event_generation e -> False).
  { intros k e' Hke H1 H2. pose proof (Hnew k e' Hke) as Hc.
    by rewrite (proj2 (same_generation_true _ _ _ _) (conj H1 H2)) in Hc. }
  split; simpl; try done; intros; lookup_cases; eauto; exfalso; eauto.
Qed.

(** Changing the columns of events that identify nothing. *)
Lemma schema_set_events d P f :
  schema_ok d ->
  (forall e, aggregate_id (f e) = aggregate_id e /\ event_generation (f e) = event_generation e) ->
  (forall eid e, outbox d !! eid = Some e -> P eid e = true -> event_row_ok eid (f e) = true) ->
  schema_ok (set_outbox (sql_update P f (outbox d)) d).
Proof.
  intros [Ht He Hk Hg Hf] Hid Hok.
  assert (Hagg : forall eid e, aggregate_id (if P eid e then f e else e) = aggregate_id e)
    by (intros eid e; destruct (P eid e); [apply Hid|done]).
  assert (Hgen : forall eid e, event_generation (if P eid e then f e else e) = event_generation e)
    by (intros eid e; destruct (P eid e); [apply Hid|done]).
  split; simpl; try done; intros; lookup_cases.
  - case_match eqn:HP; eauto.
  - rewrite !Hagg, !Hgen in *. eauto.
  - rewrite Hagg. eauto.
Qed.

Lemma schema_create d id r :
  schema_ok d -> task_row_ok id r = true -> tasks d !! id = None ->
  sql_exists (same_key (caller_id (fixed r)) (idempotency_key (fixed r))) (tasks d) = false ->
  schema_ok (set_tasks (<[id := r]> (tasks d)) d).
Proof.
  intros [Ht He Hk Hg Hf] Hok Hnone Hnew. rewrite sql_exists_false in Hnew.
  assert (Hnew' : forall k r', tasks d !! k = Some r' -> caller_id (fixed r') = caller_id (fixed r) ->
            idempotency_key (fixed r') = idempotency_key (fixed r) -> False).
  { intros k r' Hkr H1 H2. pose proof (Hnew k r' Hkr) as Hc.
    by rewrite (proj2 (same_key_true _ _ _ _) (conj H1 H2)) in Hc. }
  split; simpl; try done; intros; lookup_cases; eauto; try (exfalso; eauto; fail).
  rewrite lookup_insert_is_Some'. right. eauto.
Qed.

Lemma schema_delete d P : schema_ok d -> schema_ok (snd (delete_tasks P d)).
Proof.
  intros [Ht He Hk Hg Hf]. split; simpl; intros; lookup_cases; eauto.
  reflect_bools. done.
Qed.

End Schema_steps.

(** ** The outbox log *)

Section Log.
Implicit Types (d : db).

Lemma log_set_task d id r r' :
  tasks d !! id = Some r -> generation r' = generation r ->
  log_bounded d /\ log_complete d ->
  log_bounded (set_tasks (<[id := r']> (tasks d)) d)
  /\ log_complete (set_tasks (<[id := r']> (tasks d)) d).
Proof.
  intros Hr Hgen [Hb Hc]. split.
  - intros eid e rr He Hrr. simpl in *. lookup_cases; [rewrite Hgen|]; eauto.
  - intros id' rr g Hrr Hg. simpl in *. lookup_cases; [rewrite Hgen in Hg|]; eauto.
Qed.

(** Starting a new generation together with its event. *)
Lemma log_new_generation d id r r' eid e :
  tasks d !! id = Some r -> generation r' = generation r + 1 ->
  outbox d !! eid = None -> aggregate_id e = id -> event_generation e = generation r' ->
  log_bounded d /\ log_complete d ->
  let d' := {| tasks := <[id := r']> (tasks d); outbox := <[eid := e]> (outbox d) |} in
  log_bounded d' /\ log_complete d'.
Proof.
  intros Hr Hgen Hnone Hagg Heg [Hb Hc] d'. split.
  - intros k e' rr He' Hrr. subst d'. simpl in *.
    apply lookup_insert_Some in He' as [[<- <-]|[_ He']].
    { rewrite Hagg, lookup_insert_eq in Hrr. simplify_eq. lia. }
    apply lookup_insert_Some in Hrr as [[Hid <-]|[_ Hrr]]; [|by eauto].
    rewrite Hid in Hr. pose proof (Hb _ _ _ He' Hr). lia.
  - intros id' rr g Hrr Hg. subst d'. simpl in *. lookup_cases.
    + destruct (decide (g = generation rr)) as [->|Hne].
      * exists eid, e. by rewrite lookup_insert_eq.
      * destruct (Hc _ _ g Hr) as (k & e' & Hk & ? & ?); [lia|]. exists k, e'.
        rewrite lookup_insert_ne; [done|]. intros ->. congruence.
    + destruct (Hc _ _ g ltac:(eassumption) Hg) as (k & e' & Hk & ? & ?). exists k, e'.
      rewrite lookup_insert_ne; [done|]. intros ->. congruence.
Qed.

Lemma log_new_task d id r eid e :
  schema_ok d -> tasks d !! id = None -> generation r = 0 ->
  outbox d !! eid = None -> aggregate_id e = id -> event_generation e = 0 ->
  log_bounded d /\ log_complete d ->
  let d' := {| tasks := <[id := r]> (tasks d); outbox := <[eid := e]> (outbox d) |} in
  log_bounded d' /\ log_complete d'.
Proof.
  intros Hs Hr Hgen Hnone Hagg Heg [Hb Hc] d'. split.
  - intros k e' rr He' Hrr. subst d'. simpl in *.
    apply lookup_insert_Some in He' as [[<- <-]|[_ He']].
    { rewrite Hagg, lookup_insert_eq in Hrr. simplify_eq. lia. }
    apply lookup_insert_Some in Hrr as [[Hid <-]|[_ Hrr]]; [|by eauto].
    exfalso. destruct (sk_foreign_key d Hs _ _ He'). congruence.
  - intros id' rr g Hrr Hg. subst d'. simpl in *. lookup_cases.
    + exists eid, e. rewrite lookup_insert_eq. split_and!; [done..|lia].
    + destruct (Hc _ _ g ltac:(eassumption) Hg) as (k & e' & Hk & ? & ?). exists k, e'.
      rewrite lookup_insert_ne; [done|]. intros ->. congruence.
Qed.

Lemma log_set_events d P f :
  (forall e, aggregate_id (f e) = aggregate_id e /\ event_generation (f e) = event_generation e) ->
  log_bounded d /\ log_complete d ->
  log_bounded (set_outbox (sql_update P f (outbox d)) d)
  /\ log_complete (set_outbox (sql_update P f (outbox d)) d).
Proof.
  intros Hid [Hb Hc].
  assert (Hagg : forall eid e, aggregate_id (if P eid e then f e else e) = aggregate_id e)
    by (intros eid e; destruct (P eid e); [apply Hid|done]).
  assert (Hgen : forall eid e, event_generation (if P eid e then f e else e) = event_generation e)
    by (intros eid e; destruct (P eid e); [apply Hid|done]).
  split.
  - intros eid e r He Hr. simpl in *. lookup_cases. rewrite Hagg in Hr. rewrite Hgen. eauto.
  - intros id r g Hr Hg. simpl in *. destruct (Hc _ _ g Hr Hg) as (k & e & Hk & <- & <-).
    exists k, (if P k e then f e else e). rewrite lookup_sql_update, Hk. simpl.
    by rewrite Hagg, Hgen.
Qed.

Lemma log_delete d P :
  log_bounded d /\ log_complete d ->
  log_bounded (snd (delete_tasks P d)) /\ log_complete (snd (delete_tasks P d)).
Proof.
  intros [Hb Hc]. split.
  - intros eid e r He Hr. simpl in *. lookup_cases. eauto.
  - intros id r g Hr Hg. simpl in *.
    pose proof Hr as Hr'. apply lookup_sql_delete_Some in Hr' as [Hr' _].
    destruct (Hc _ _ g Hr' Hg) as (k & e & Hk & <- & <-). exists k, e.
    repeat split. apply lookup_sql_delete_Some. split; [done|].
    rewrite Hr. by rewrite bool_decide_eq_true_2.
Qed.

End Log.

Lemma set_event_claimed_identity token until e :
  aggregate_id (set_event_claimed token until e) = aggregate_id e
  /\ event_generation (set_event_claimed token until e) = event_generation e.
Proof. done. Qed.

Lemma set_event_published_identity at_ e :
  aggregate_id (set_event_published at_ e) = aggregate_id e
  /\ event_generation (set_event_published at_ e) = event_generation e.
Proof. done. Qed.

(** A single updated event is an update by identifier. *)
Lemma insert_as_update {R} (m : gmap string R) k r f :
  m !! k = Some r -> <[k := f r]> m = sql_update (by_id k (fun _ => true)) f m.
Proof. intros Hk. symmetry. by apply sql_update_by_id_insert. Qed.

Lemma states_ok_insert d id r' :
  states_ok d -> state_ok r' = true -> states_ok (set_tasks (<[id := r']> (tasks d)) d).
Proof. intros Hs Hr id2 r2 H. simpl in *. lookup_cases; eauto. Qed.

(** With a complete log, the next generation has no event yet. *)
Lemma next_generation_free d id r :
  schema_ok d -> log_bounded d -> tasks d !! id = Some r ->
  sql_exists (same_generation id (generation r + 1)) (outbox d) = false.
Proof.
  intros Hs Hb Hr. apply sql_exists_false. intros k e Hk.
  destruct (same_generation _ _ _ _) eqn:Hsame; [|done].
  apply same_generation_true in Hsame as [Hagg Hgen]. rewrite <- Hagg in Hr.
  pose proof (Hb _ _ _ Hk Hr). lia.
Qed.

(** ** Every step preserves the invariant *)

Lemma set_result_fixed result r : fixed (set_result result r) = fixed r.
Proof. unfold set_result. by destruct (AttemptOutcome result). Qed.

Lemma set_result_generation result r : generation (set_result result r) = generation r.
Proof. unfold set_result. by destruct (AttemptOutcome result). Qed.

(** Steps that change one task and leave its generation alone. *)
Lemma db_inv_set_task d id r r' :
  db_inv d -> tasks d !! id = Some r -> fixed r' = fixed r -> generation r' = generation r ->
  task_row_ok id r' = true -> state_ok r' = true ->
  db_inv (set_tasks (<[id := r']> (tasks d)) d).
Proof.
  intros [Hs Hst Hb Hc] Hr Hfix Hgen Hok Hst'.
  destruct (log_set_task d id r r' Hr Hgen (conj Hb Hc)). split; try done.
  - by eapply schema_set_task.
  - by apply states_ok_insert.
Qed.

(** Steps that start a new generation of a task. *)
Lemma db_inv_new_generation d id r r' eid now :
  db_inv d -> tasks d !! id = Some r -> fixed r' = fixed r -> generation r' = generation r + 1 ->
  task_row_ok id r' = true -> state_ok r' = true ->
  event_row_ok eid (retry_event id (generation r + 1) now) = true -> outbox d !! eid = None ->
  db_inv {| tasks := <[id := r']> (tasks d);
            outbox := <[eid := retry_event id (generation r + 1) now]> (outbox d) |}.
Proof.
  intros [Hs Hst Hb Hc] Hr Hfix Hgen Hok Hst' Hev Hnone.
  destruct (log_new_generation d id r r' eid (retry_event id (generation r + 1) now) Hr Hgen
              Hnone eq_refl (eq_sym Hgen) (conj Hb Hc)).
  split; try done.
  - set (d1 := set_tasks (<[id := r']> (tasks d)) d).
    change (schema_ok (set_outbox (<[eid := retry_event id (generation r + 1) now]> (outbox d1)) d1)).
    apply schema_insert_event; try done.
    + by eapply schema_set_task.
    + simpl. rewrite lookup_insert_eq. eauto.
    + by apply (next_generation_free d id r).
  - by apply (states_ok_insert d id r').
Qed.

Lemma db_inv_create d id r eid e :
  db_inv d -> task_row_ok id r = true -> event_row_ok eid e = true ->
  tasks d !! id = None -> outbox d !! eid = None ->
  sql_exists (same_key (caller_id (fixed r)) (idempotency_key (fixed r))) (tasks d) = false ->
  fresh_row r = true -> aggregate_id e = id -> event_generation e = 0 ->
  db_inv {| tasks := <[id := r]> (tasks d); outbox := <[eid := e]> (outbox d) |}.
Proof.
  intros [Hs Hst Hb Hc] Hok Hev Hr Hnone Hkey Hfresh Hagg Hgen.
  pose proof (fresh_row_facts r Hfresh) as (_ & _ & Hgen0).
  destruct (log_new_task d id r eid e Hs Hr Hgen0 Hnone Hagg Hgen (conj Hb Hc)).
  split; try done.
  - set (d1 := set_tasks (<[id := r]> (tasks d)) d).
    change (schema_ok (set_outbox (<[eid := e]> (outbox d1)) d1)).
    apply schema_insert_event; try done.
    + by apply schema_create.
    + simpl. rewrite Hagg, lookup_insert_eq. eauto.
    + apply sql_exists_false. intros k e' Hk. simpl in *.
      destruct (same_generation _ _ _ _) eqn:Hsame; [|done].
      apply same_generation_true in Hsame as [Hagg' _].
      pose proof (sk_foreign_key d Hs _ _ Hk) as [r' Hr']. congruence.
  - apply (states_ok_insert d id r); auto with notifier.
Qed.

Lemma db_inv_set_events d P f :
  db_inv d ->
  (forall e, aggregate_id (f e) = aggregate_id e /\ event_generation (f e) = event_generation e) ->
  (forall eid e, outbox d !! eid = Some e -> P eid e = true -> event_row_ok eid (f e) = true) ->
  db_inv (set_outbox (sql_update P f (outbox d)) d).
Proof.
  intros [Hs Hst Hb Hc] Hid Hok.
  destruct (log_set_events d P f Hid (conj Hb Hc)). split; try done.
  by apply schema_set_events.
Qed.

Lemma db_inv_delete d P : db_inv d -> db_inv (snd (delete_tasks P d)).
Proof.
  intros [Hs Hst Hb Hc]. destruct (log_delete d P (conj Hb Hc)).
  split; try done; [by apply schema_delete|].
  intros id r Hr. simpl in *. lookup_cases. eauto.
Qed.

Lemma db_inv_empty : db_inv empty_db.
Proof.
  split; [split|..]; repeat intro; simpl in *;
    repeat match goal with H : (∅ : gmap _ _) !! _ = Some _ |- _ => by apply lookup_empty_Some in H end.
Qed.

Lemma store_step_preserves d d' : store_step d d' -> db_inv d -> db_inv d'.
Proof.
  intros Hstep Hinv. pose proof (inv_states d Hinv) as Hst. destruct Hstep; subst.
  - by apply db_inv_create.
  - eapply db_inv_set_task; eauto with notifier.
  - eapply db_inv_set_task; eauto using set_result_fixed, set_result_generation with notifier.
  - eapply db_inv_set_task; eauto with notifier.
  - eapply db_inv_new_generation; eauto with notifier.
  - eapply db_inv_new_generation; eauto with notifier.
  - apply db_inv_set_events; [done|apply set_event_claimed_identity|].
    intros eid e He Hin. apply bool_decide_eq_true in Hin. naive_solver.
  - rewrite (insert_as_update _ _ e) by done.
    apply db_inv_set_events; [done|apply set_event_published_identity|].
    intros eid' e' He' Hby. unfold by_id in Hby. reflect_bools. by simplify_eq.
  - by apply db_inv_delete.
Qed.

Lemma store_steps_preserve d d' : rtc store_step d d' -> db_inv d -> db_inv d'.
Proof. induction 1; eauto using store_step_preserves. Qed.

Lemma optional_step_rtc d d' : optional_step d d' -> rtc store_step d d'.
Proof. intros []; [done|by apply rtc_once]. Qed.

#[export] Hint Constructors optional_step : notifier.
#[export] Hint Resolve optional_step_rtc db_inv_empty store_step_preserves store_steps_preserve : notifier.
