(* ===== verification/Migrations.v ===== *)
(** * The migrations (migrations/)

    The four scripts on the state of the database: no tables, the tables of
    the first migration, or those of the second, which [Schema.v] describes.
    The indexes, which no statement can tell, are left out.

    The deployment runs the two [up] scripts at every start
    (deployments/compose.yaml), also over a database that is in use. *)

From S2P Require Import Prelude GoTime GoStrings Notification Table Schema StoreSpec.

#[local] Open Scope list_scope.
#[local] Open Scope Z_scope.

(** Rows before the second migration have no limit: it is kept as 0 in them. *)
Inductive installation :=
| NoTables
| Initial (d : db)
| WithLimit (d : db).

Definition set_limit (limit : Z) (r : task_fixed) : task_fixed :=
  {| caller_id := caller_id r; idempotency_key := idempotency_key r; request_hash := request_hash r;
     destination_id := destination_id r; method := method r; url := url r;
     static_headers := static_headers r; secret_headers := secret_headers r; body := body r;
     timeout_ns := timeout_ns r; max_attempts := max_attempts r; lifetime_ns := lifetime_ns r;
     retry_delays_ns := retry_delays_ns r; concurrency_limit := limit; created_at := created_at r |}.

Definition set_row_limit (limit : Z) (r : task_row) : task_row :=
  {| fixed := set_limit limit (fixed r); status := status r; attempt_count := attempt_count r;
     generation := generation r; next_attempt_at := next_attempt_at r; lease_token := lease_token r;
     lease_until := lease_until r; last_http_status := last_http_status r;
     last_error_code := last_error_code r; last_error_message := last_error_message r;
     updated_at := updated_at r; delivered_at := delivered_at r; dead_at := dead_at r |}.

(** Every row gets the limit; the outbox does not have the column. *)
Definition fill_limit (limit : Z) (d : db) : db := set_tasks (set_row_limit limit <$> tasks d) d.

(** [CREATE TABLE IF NOT EXISTS] of both tables. *)
Definition initial_up (i : installation) : installation :=
  match i with NoTables => Initial empty_db | _ => i end.

(** [ALTER TABLE ... ADD COLUMN IF NOT EXISTS ... DEFAULT 1]. *)
Definition concurrency_limit_up (i : installation) : result installation :=
  match i with
  | NoTables => Err (Message "relation does not exist")
  | Initial d => Ok (WithLimit (fill_limit 1 d))
  | WithLimit d => Ok (WithLimit d)
  end.

(** [ALTER TABLE ... DROP COLUMN]. *)
Definition concurrency_limit_down (i : installation) : result installation :=
  match i with
  | NoTables => Err (Message "relation does not exist")
  | Initial _ => Err (Message "column does not exist")
  | WithLimit d => Ok (Initial (fill_limit 0 d))
  end.

(** [DROP TABLE IF EXISTS] of both tables. *)
Definition initial_down (i : installation) : installation := NoTables.

(** The command of the service [migrate]; [ON_ERROR_STOP] ends it at the
    first error. *)
Definition migrate (i : installation) : result installation := concurrency_limit_up (initial_up i).

(** What an installation must satisfy: the rows are well typed once they have
    a limit. *)
Definition installation_ok (i : installation) : Prop :=
  match i with
  | NoTables => True
  | Initial d => d = fill_limit 0 d /\ schema_ok (fill_limit 1 d)
  | WithLimit d => schema_ok d
  end.

Lemma fill_limit_twice l1 l2 d : fill_limit l1 (fill_limit l2 d) = fill_limit l1 d.
Proof. unfold fill_limit, set_tasks. simpl. f_equal. by rewrite <- map_fmap_compose. Qed.

Lemma set_limit_ok limit r :
  0 < limit -> int4_ok limit = true -> task_fixed_ok r = true -> task_fixed_ok (set_limit limit r) = true.
Proof.
  intros Hpos Hint [[H _]%andb_true_iff _]%andb_true_iff. unfold task_fixed_ok.
  apply andb_true_iff. split; [|exact Hint]. apply andb_true_iff. split; [exact H|by apply Z.ltb_lt].
Qed.

Lemma set_row_limit_ok limit id r :
  0 < limit -> int4_ok limit = true -> task_row_ok id r = true -> task_row_ok id (set_row_limit limit r) = true.
Proof.
  intros Hpos Hint. unfold task_row_ok. cbn [fixed set_row_limit].
  destruct (task_fixed_ok (fixed r)) eqn:Hfix; [by rewrite set_limit_ok|].
  by rewrite !andb_false_r.
Qed.

Lemma fill_limit_ok limit d :
  0 < limit -> int4_ok limit = true -> schema_ok d -> schema_ok (fill_limit limit d).
Proof.
  intros Hpos Hint [Ht He Hk Hg Hf]. split; simpl; try done.
  - intros id r (r0 & <- & Hr)%lookup_fmap_Some. by apply set_row_limit_ok, Ht.
  - intros id1 id2 r1 r2 (q1 & <- & H1)%lookup_fmap_Some (q2 & <- & H2)%lookup_fmap_Some. simpl. eauto.
  - intros eid e Heid. rewrite lookup_fmap, fmap_is_Some. eauto.
Qed.

(** A start of the deployment, over any installation: the second schema, with
    the tasks that were there; over the second schema nothing happens. *)
Theorem migrate_ready i :
  installation_ok i ->
  exists d, migrate i = Ok (WithLimit d) /\ schema_ok d /\
    match i with
    | NoTables => d = empty_db
    | Initial d0 => d = fill_limit 1 d0
    | WithLimit d0 => d = d0
    end.
Proof.
  destruct i as [|d|d]; simpl.
  - intros _. exists (fill_limit 1 empty_db). split; [done|]. unfold fill_limit, set_tasks, empty_db. simpl.
    rewrite fmap_empty. split; [|done]. split; simpl; intros; simplify_map_eq.
  - intros [_ H]. by exists (fill_limit 1 d).
  - intros H. by exists d.
Qed.

(** The second migration undone and made again: the limits of the stored
    tasks are lost, everything else is kept. *)
Theorem limit_down_up d :
  (i ← concurrency_limit_down (WithLimit d); migrate i) = Ok (WithLimit (fill_limit 1 d)).
Proof. cbn -[fill_limit]. by rewrite fill_limit_twice. Qed.

(** Every script leads from an installation to one. *)
Theorem scripts_keep_installation i :
  installation_ok i ->
  installation_ok (initial_up i) /\ installation_ok (initial_down i) /\
  (forall i', concurrency_limit_up i = Ok i' -> installation_ok i') /\
  (forall i', concurrency_limit_down i = Ok i' -> installation_ok i').
Proof.
  intros Hi. split_and!; try done.
  - destruct i as [|d|d]; [|exact Hi|exact Hi]. simpl. unfold fill_limit, set_tasks, empty_db. simpl. rewrite !fmap_empty.
    split; [done|]. split; simpl; intros; simplify_map_eq.
  - destruct i; intros i' [= <-]; simpl in *; naive_solver.
  - destruct i as [| |d]; intros i' [= <-]. simpl in *. rewrite !fill_limit_twice.
    split; [done|]. by apply fill_limit_ok.
Qed.
