(* ===== verification/StoreRefine.v ===== *)
(** * The store operations implement the abstract steps

    For each operation of [Store.v]: the equation of its statement, the effect
    of a call (which is atomic: nothing, or one of the abstract steps of
    [StoreSpec.v]), and the result it reports. *)

From S2P Require Import Prelude GoTime GoStrings Notification Table Schema Store StoreSpec.

(** ** Transactions *)

Lemma atomically_effect {A} f ctx (body : M db A) d r d' :
  atomically f ctx body d = (r, d') -> d' = d \/ exists a, body d = (Ok a, d').
Proof.
  unfold atomically. intros H. destruct f; destruct (body d) as [[a|e] d1]; simplify_eq; eauto.
Qed.

Lemma atomically_Ok {A} f ctx (body : M db A) d a d' :
  atomically f ctx body d = (Ok a, d') <-> f = NoFault /\ body d = (Ok a, d').
Proof.
  unfold atomically. destruct f; destruct (body d) as [[a0|e] d1]; split; try done;
    try (by intros [= -> ->]); by intros [? [=]]; subst.
Qed.

Lemma wrapM_Ok {S A} ctx (m : M S A) s a s' :
  wrapM ctx m s = (Ok a, s') <-> m s = (Ok a, s').
Proof. unfold wrapM. destruct (m s) as [[a0|e] s1]; simpl; split; congruence. Qed.

Lemma statement_effect {A} f ctx (body : M db A) d r d' :
  statement f ctx body d = (r, d') -> d' = d \/ exists a, body d = (Ok a, d').
Proof.
  unfold statement. intros [->|[a Ha]]%atomically_effect; [by left|].
  apply wrapM_Ok in Ha. eauto.
Qed.

Lemma statement_Ok {A} f ctx (body : M db A) d a d' :
  statement f ctx body d = (Ok a, d') <-> f = NoFault /\ body d = (Ok a, d').
Proof. unfold statement. by rewrite atomically_Ok, wrapM_Ok. Qed.

Lemma texts_Ok params d u d' :
  texts params d = (Ok u, d') <-> forallb text_ok params = true /\ d' = d.
Proof. unfold texts. destruct u, (forallb _ _); split; try naive_solver congruence. Qed.

Lemma int4_param_Ok z d u d' : int4_param z d = (Ok u, d') <-> int4_ok z = true /\ d' = d.
Proof. unfold int4_param. destruct u, (int4_ok z); split; naive_solver congruence. Qed.

(** Past the checks of the parameters. *)
Lemma texts_then {A} params (body : M db A) d a d' :
  (_ ← texts params; body) d = (Ok a, d') -> forallb text_ok params = true /\ body d = (Ok a, d').
Proof. intros (u & d1 & [Ht ->]%texts_Ok & Hb)%M_bind_Ok. done. Qed.

Lemma int4_then {A} z (body : M db A) d a d' :
  (_ ← int4_param z; body) d = (Ok a, d') -> int4_ok z = true /\ body d = (Ok a, d').
Proof. intros (u & d1 & [Ht ->]%int4_param_Ok & Hb)%M_bind_Ok. done. Qed.

(** ** Statements on one row *)

Lemma set_tasks_id d : set_tasks (tasks d) d = d.
Proof. by destruct d. Qed.

Lemma set_outbox_id d : set_outbox (outbox d) d = d.
Proof. by destruct d. Qed.

Lemma update_task_by_id id Q f d :
  update_tasks (by_id id Q) f d =
    match tasks d !! id with
    | Some r =>
        if Q r then
          if task_row_ok id (f r) then (Ok 1, set_tasks (<[id := f r]> (tasks d)) d)
          else (Err (PgError "notification_tasks_check"), d)
        else (Ok 0, d)
    | None => (Ok 0, d)
    end.
Proof.
  unfold update_tasks. rewrite sql_affected_by_id, sql_select_by_id.
  destruct (tasks d !! id) as [r|] eqn:Hr; [destruct (Q r) eqn:HQ|].
  - simpl. rewrite andb_true_r. case_match; [|done]. by rewrite (sql_update_by_id_insert _ _ _ _ r).
  - simpl. rewrite sql_update_by_id_skip by (by rewrite Hr). by rewrite set_tasks_id.
  - simpl. rewrite sql_update_by_id_skip by (by rewrite Hr). by rewrite set_tasks_id.
Qed.

Lemma update_event_by_id eid Q f d :
  update_events (by_id eid Q) f d =
    match outbox d !! eid with
    | Some e =>
        if Q e then
          if event_row_ok eid (f e) then (Ok 1, set_outbox (<[eid := f e]> (outbox d)) d)
          else (Err (PgError "outbox_events_check"), d)
        else (Ok 0, d)
    | None => (Ok 0, d)
    end.
Proof.
  unfold update_events. rewrite sql_affected_by_id, sql_select_by_id.
  destruct (outbox d !! eid) as [e|] eqn:He; [destruct (Q e) eqn:HQ|].
  - simpl. rewrite andb_true_r. case_match; [|done]. by rewrite (sql_update_by_id_insert _ _ _ _ e).
  - simpl. rewrite sql_update_by_id_skip by (by rewrite He). by rewrite set_outbox_id.
  - simpl. rewrite sql_update_by_id_skip by (by rewrite He). by rewrite set_outbox_id.
Qed.

(** The two inserts, when they succeed. *)
Lemma insert_task_Ok id r d d' :
  insert_task id r d = (Ok (), d') <->
  task_row_ok id r = true /\ tasks d !! id = None /\
  sql_exists (same_key (caller_id (fixed r)) (idempotency_key (fixed r))) (tasks d) = false /\
  d' = set_tasks (<[id := r]> (tasks d)) d.
Proof.
  unfold insert_task. rewrite eq_None_not_Some.
  repeat case_match; reflect_bools; split; try (intros (? & ? & ? & ->)); try done; try congruence.
  intros [= <-]. by split_and!.
Qed.

Lemma insert_event_Ok eid e d d' :
  insert_event eid e d = (Ok (), d') <->
  event_row_ok eid e = true /\ outbox d !! eid = None /\
  sql_exists (same_generation (aggregate_id e) (event_generation e)) (outbox d) = false /\
  is_Some (tasks d !! aggregate_id e) /\ d' = set_outbox (<[eid := e]> (outbox d)) d.
Proof.
  unfold insert_event. rewrite eq_None_not_Some.
  repeat case_match; reflect_bools; split; try (intros (? & ? & ? & ? & ->)); try done;
    try congruence.
  intros [= <-]. by split_and!.
Qed.

(** ** Deliveries *)

Lemma ClaimDelivery_effect f db_now id token until d r d' :
  ClaimDelivery f db_now id token until d = (r, d') ->
  d' = d \/ exists row, tasks d !! id = Some row /\ status row = StatusPending /\
    task_row_ok id (set_claimed token until db_now row) = true /\
    d' = set_tasks (<[id := set_claimed token until db_now row]> (tasks d)) d.
Proof.
  unfold ClaimDelivery. intros [->|[c Hc]]%statement_effect; [by left|]. apply texts_then in Hc as [_ Hc].
  apply M_bind_Ok in Hc as (n & d1 & Hu & Hrest). rewrite update_task_by_id in Hu.
  destruct (tasks d !! id) as [row|] eqn:Hrow; [|left; unfold_run; by simplify_eq/=].
  destruct (has_status StatusPending row) eqn:Hst; [|left; unfold_run; by simplify_eq/=].
  destruct (task_row_ok _ _) eqn:Hok; [|done]. unfold_run. simplify_eq/=.
  unfold mbind, M_bind in Hrest. simplify_eq/=.
  right. apply has_status_true in Hst. by exists row.
Qed.

(** What a call without connection failure returns and does. *)
Lemma ClaimDelivery_NoFault db_now id token until d :
  ClaimDelivery NoFault db_now id token until d =
    if negb (forallb text_ok [id; token]) then (Err (Wrapped "claim delivery" bad_text), d) else
    match tasks d !! id with
    | Some r =>
        if has_status StatusPending r then
          let r' := set_claimed token until db_now r in
          if task_row_ok id r' then
            (Ok (Some (claimed_task id r' token until)), set_tasks (<[id := r']> (tasks d)) d)
          else (Err (Wrapped "claim delivery" (PgError "notification_tasks_check")), d)
        else (Ok None, d)
    | None => (Ok None, d)
    end.
Proof.
  unfold ClaimDelivery, statement, atomically, wrapM. unfold mbind, M_bind, texts.
  destruct (forallb text_ok [id; token]); [cbn [negb]|done]. rewrite update_task_by_id. destruct (tasks d !! id) as [r|] eqn:Hr; [|done].
  destruct (has_status StatusPending r); [|done].
  simpl. destruct (task_row_ok _ _); [|done]. simpl. by rewrite lookup_insert_eq.
Qed.

Lemma ApplyDeliveryResult_effect f id token result d r d' :
  ApplyDeliveryResult f id token result d = (r, d') ->
  d' = d \/ exists row, tasks d !! id = Some row /\ status row = StatusDelivering /\
    lease_token row = Some token /\ task_row_ok id (set_result result row) = true /\
    d' = set_tasks (<[id := set_result result row]> (tasks d)) d.
Proof.
  unfold ApplyDeliveryResult. intros [->|[c Hc]]%statement_effect; [by left|].
  apply texts_then in Hc as [_ Hc]. apply int4_then in Hc as [_ Hc].
  apply M_bind_Ok in Hc as (n & d1 & Hu & Hrest). rewrite update_task_by_id in Hu.
  destruct (tasks d !! id) as [row|] eqn:Hrow; [|left; unfold_run; by simplify_eq/=].
  destruct (owns_lease token row) eqn:Hown; [|left; unfold_run; by simplify_eq/=].
  destruct (task_row_ok _ _) eqn:Hok; [|done]. unfold_run. simplify_eq/=. right.
  unfold owns_lease in Hown. reflect_bools. rewrite has_status_true in *. by exists row.
Qed.

(** The values of a result that the statement can be given. *)
Definition storable_result (result : AttemptResult) : bool :=
  text_ok (AttemptErrorCode result) && text_ok (AttemptErrorMessage result)
  && int4_ok (AttemptHTTPStatus result).

Lemma ApplyDeliveryResult_NoFault id token result d :
  text_ok id = true -> text_ok token = true -> storable_result result = true ->
  ApplyDeliveryResult NoFault id token result d =
    match tasks d !! id with
    | Some r =>
        if owns_lease token r then
          if task_row_ok id (set_result result r) then
            (Ok true, set_tasks (<[id := set_result result r]> (tasks d)) d)
          else (Err (Wrapped "apply delivery result" (PgError "notification_tasks_check")), d)
        else (Ok false, d)
    | None => (Ok false, d)
    end.
Proof.
  unfold storable_result. intros Hid Htok Hres. reflect_bools.
  unfold ApplyDeliveryResult, statement, atomically, wrapM. unfold mbind, M_bind, texts, int4_param.
  cbn [forallb]. repeat match goal with H : _ = true |- _ => rewrite H; clear H end. cbn [andb].
  rewrite update_task_by_id. destruct (tasks d !! id) as [r|] eqn:Hr; [|done].
  destruct (owns_lease token r); [|done]. by destruct (task_row_ok _ _).
Qed.

(** An answer means that the connection held and the parameters were in order. *)
Lemma ApplyDeliveryResult_Ok f id token result d b d' :
  ApplyDeliveryResult f id token result d = (Ok b, d') ->
  f = NoFault /\ text_ok id = true /\ text_ok token = true /\ storable_result result = true.
Proof.
  intros [-> [Ht [Hi _]%int4_then]%texts_then]%statement_Ok. cbn [forallb] in Ht. unfold storable_result.
  rewrite Hi. reflect_bools. by repeat match goal with H : text_ok _ = true |- _ => rewrite H; clear H end.
Qed.

(** A result that cannot be stored is refused, whether or not there is a row. *)
Lemma ApplyDeliveryResult_refused f id token result d :
  storable_result result = false ->
  exists e, ApplyDeliveryResult f id token result d = (Err e, d).
Proof.
  intros Hbad. unfold ApplyDeliveryResult, statement, atomically, wrapM. unfold mbind, M_bind, texts, int4_param.
  destruct f; [|by eauto|];
    (destruct (forallb text_ok _) eqn:Ht; [|by eauto]; cbn [forallb] in Ht;
     destruct (int4_ok _) eqn:Hi; [|by eauto]; exfalso; unfold storable_result in Hbad; rewrite Hi in Hbad;
     reflect_bools; lia || congruence || (destruct (text_ok (AttemptErrorCode result)), (text_ok (AttemptErrorMessage result)); done)).
Qed.

(** The result of a row's own worker, when the new row is well-formed. *)
Lemma nullif_empty_ok p s : opt_ok (text_between 0 p) (nullif_empty s) = true -> text_ok s = true.
Proof.
  unfold nullif_empty. case_bool_decide as Hs; [by subst|]. simpl. unfold text_between.
  intros H. by reflect_bools.
Qed.

Lemma set_result_storable id result r :
  task_row_ok id (set_result result r) = true -> text_ok id = true /\ storable_result result = true.
Proof.
  intros Hok.
  assert (Hf : last_error_code (set_result result r) = nullif_empty (AttemptErrorCode result) /\
    last_error_message (set_result result r) = nullif_empty (AttemptErrorMessage result) /\
    last_http_status (set_result result r) = nullif_zero (AttemptHTTPStatus result))
    by (unfold set_result; by destruct (AttemptOutcome result)).
  destruct Hf as (Hc & Hm & Hh). unfold task_row_ok in Hok. rewrite Hc, Hm, Hh in Hok. reflect_bools. split.
  - match goal with H : text_between 1 64 id = true |- _ => unfold text_between in H end. by reflect_bools.
  - unfold storable_result. rewrite !andb_true_iff. split_and!; eauto using nullif_empty_ok.
    match goal with H : opt_ok int4_ok (nullif_zero ?z) = true |- _ =>
      unfold nullif_zero in H; destruct (Z.eqb_spec z 0) as [->|]; done end.
Qed.

Lemma ApplyDeliveryResult_owned id token result d r :
  tasks d !! id = Some r -> owns_lease token r = true -> text_ok token = true ->
  task_row_ok id (set_result result r) = true ->
  ApplyDeliveryResult NoFault id token result d =
    (Ok true, set_tasks (<[id := set_result result r]> (tasks d)) d).
Proof.
  intros Hr Hown Htok Hok. pose proof (set_result_storable _ _ _ Hok) as [Hid Hres].
  rewrite ApplyDeliveryResult_NoFault by done. by rewrite Hr, Hown, Hok.
Qed.

(** A pending row is claimed, when the new row is well-formed. *)
Lemma set_claimed_texts id token until db_now r :
  task_row_ok id (set_claimed token until db_now r) = true -> text_ok id = true /\ text_ok token = true.
Proof.
  intros Hok. unfold task_row_ok, text_between in Hok. reflect_bools. by split.
Qed.

Lemma event_row_ok_id eid e : event_row_ok eid e = true -> text_ok eid = true.
Proof. unfold event_row_ok, text_between. intros H. by reflect_bools. Qed.

Lemma ClaimDelivery_Ok f db_now id token until d r d' :
  ClaimDelivery f db_now id token until d = (Ok r, d') ->
  f = NoFault /\ text_ok id = true /\ text_ok token = true.
Proof.
  intros [-> [Ht _]%texts_then]%statement_Ok. cbn [forallb] in Ht. reflect_bools. by split_and!.
Qed.

Lemma ClaimDelivery_pending db_now id token until d r :
  tasks d !! id = Some r -> status r = StatusPending ->
  task_row_ok id (set_claimed token until db_now r) = true ->
  ClaimDelivery NoFault db_now id token until d =
    (Ok (Some (claimed_task id (set_claimed token until db_now r) token until)),
     set_tasks (<[id := set_claimed token until db_now r]> (tasks d)) d).
Proof.
  intros Hr Hst Hok. pose proof (set_claimed_texts _ _ _ _ _ Hok) as [Hid Htok].
  rewrite ClaimDelivery_NoFault. cbn [forallb]. rewrite Hid, Htok, Hr. cbn [andb negb].
  unfold has_status. by rewrite bool_decide_eq_true_2, Hok by done.
Qed.

(** ** Outbox *)

Lemma MarkPublished_effect f eid token at_ d r d' :
  MarkPublished f eid token at_ d = (r, d') ->
  d' = d \/ exists e, outbox d !! eid = Some e /\ published_at e = None /\
    claim_token e = Some token /\ event_row_ok eid (set_event_published at_ e) = true /\
    d' = set_outbox (<[eid := set_event_published at_ e]> (outbox d)) d.
Proof.
  unfold MarkPublished. intros [->|[c Hc]]%statement_effect; [by left|]. apply texts_then in Hc as [_ Hc].
  apply M_bind_Ok in Hc as (n & d1 & Hu & Hrest). rewrite update_event_by_id in Hu.
  destruct (outbox d !! eid) as [e|] eqn:He; [|left; unfold_run; by simplify_eq/=].
  destruct (holds_claim token e) eqn:Hown; [|left; unfold_run; by simplify_eq/=].
  destruct (event_row_ok _ _) eqn:Hok; [|done]. unfold_run. simplify_eq/=. right.
  unfold holds_claim in Hown. reflect_bools. by exists e.
Qed.

Lemma MarkPublished_NoFault eid token at_ d :
  MarkPublished NoFault eid token at_ d =
    if negb (forallb text_ok [eid; token]) then (Err (Wrapped "mark outbox published" bad_text), d) else
    match outbox d !! eid with
    | Some e =>
        if holds_claim token e then
          if event_row_ok eid (set_event_published at_ e) then
            (Ok true, set_outbox (<[eid := set_event_published at_ e]> (outbox d)) d)
          else (Err (Wrapped "mark outbox published" (PgError "outbox_events_check")), d)
        else (Ok false, d)
    | None => (Ok false, d)
    end.
Proof.
  unfold MarkPublished, statement, atomically, wrapM. unfold mbind, M_bind, texts.
  destruct (forallb text_ok [eid; token]); [cbn [negb]|done]. rewrite update_event_by_id. destruct (outbox d !! eid) as [e|] eqn:He; [|done].
  destruct (holds_claim token e); [|done]. by destruct (event_row_ok _ _).
Qed.

Lemma set_event_published_ok eid at_ e :
  event_row_ok eid e = true -> event_row_ok eid (set_event_published at_ e) = true.
Proof. unfold event_row_ok. rewrite !andb_true_iff. simpl. tauto. Qed.

(** The holder of the claim. *)
Lemma MarkPublished_held eid token at_ d e :
  outbox d !! eid = Some e -> event_row_ok eid e = true -> holds_claim token e = true ->
  MarkPublished NoFault eid token at_ d =
    (Ok true, set_outbox (<[eid := set_event_published at_ e]> (outbox d)) d).
Proof.
  intros He Hok Hheld. pose proof (event_row_ok_id _ _ Hok) as Hid.
  assert (Htok : text_ok token = true).
  { unfold holds_claim in Hheld. apply andb_true_iff in Hheld as [Htok%bool_decide_eq_true _].
    unfold event_row_ok in Hok. rewrite Htok in Hok. by reflect_bools. }
  rewrite MarkPublished_NoFault. cbn [forallb]. rewrite Hid, Htok, He, Hheld. cbn [andb negb].
  by rewrite set_event_published_ok.
Qed.

(** The batch of events a publisher claims. *)
Definition claim_candidates (locked : gset string) (now : time) (limit : Z) (d : db) : list string :=
  (sql_first limit event_created_at
     (fun id e => event_claimable now e && bool_decide (id ∉ locked)) (outbox d)).*1.

Lemma claim_candidates_spec locked now limit d id :
  id ∈ claim_candidates locked now limit d ->
  exists e, outbox d !! id = Some e /\ event_claimable now e = true /\ id ∉ locked.
Proof.
  unfold claim_candidates. intros Hid. apply list_elem_of_fmap in Hid as ([k e] & -> & Hin).
  apply elem_of_sql_first in Hin as [He HP]. reflect_bools. simpl. eauto.
Qed.

Lemma ClaimOutbox_body returning f locked now limit token until d r d' :
  ClaimOutbox returning f locked now limit token until d = (r, d') ->
  d' = d \/ (0 <= limit /\
    (forall id e, id ∈ claim_candidates locked now limit d -> outbox d !! id = Some e ->
       event_row_ok id (set_event_claimed token until e) = true) /\
    d' = set_outbox (sql_update (by_ids (claim_candidates locked now limit d))
                       (set_event_claimed token until) (outbox d)) d).
Proof.
  unfold ClaimOutbox. intros [->|[c Hc]]%statement_effect; [by left|]. apply texts_then in Hc as [_ Hc].
  case_match eqn:Hlim; [done|]. apply Z.ltb_ge in Hlim.
  apply M_bind_Ok in Hc as (ids & d1 & [= <- <-] & Hc).
  apply M_bind_Ok in Hc as (n & d2 & Hu & Hc).
  apply M_bind_Ok in Hc as (events & d3 & [= _ <-] & [= _ <-]).
  right. split; [done|]. unfold update_events in Hu.
  destruct (forallb _ _) eqn:Hall; [|done]. injection Hu as _ <-. split; [|done].
  intros id e Hid He. rewrite forallb_forall in Hall.
  apply (Hall (id, e)), list_elem_of_In, elem_of_sql_select. split; [done|].
  by apply bool_decide_eq_true.
Qed.

(** What a claim that succeeds returns. *)
Lemma ClaimOutbox_Ok returning f locked now limit token until d events d' :
  ClaimOutbox returning f locked now limit token until d = (Ok events, d') ->
  let ids := claim_candidates locked now limit d in
  0 <= limit /\
  d' = set_outbox (sql_update (by_ids ids) (set_event_claimed token until) (outbox d)) d /\
  events = returning (omap (fun id => event_of_row id <$> outbox d' !! id) ids).
Proof.
  unfold ClaimOutbox. intros Hc. apply statement_Ok in Hc as [-> Hc]. apply texts_then in Hc as [_ Hc].
  case_match eqn:Hlim; [done|]. apply Z.ltb_ge in Hlim.
  apply M_bind_Ok in Hc as (ids & d1 & [= <- <-] & Hc).
  apply M_bind_Ok in Hc as (n & d2 & Hu & Hc).
  apply M_bind_Ok in Hc as (evs & d3 & [= <- <-] & [= <- <-]).
  unfold update_events in Hu. destruct (forallb _ _); [|done]. by injection Hu as _ <-.
Qed.

Lemma claim_candidates_NoDup locked now limit d : NoDup (claim_candidates locked now limit d).
Proof. apply sql_first_NoDup. Qed.

Lemma lookup_claimed ids token until (o : gmap string event_row) id e :
  o !! id = Some e ->
  sql_update (by_ids ids) (set_event_claimed token until) o !! id =
    Some (if decide (id ∈ ids) then set_event_claimed token until e else e).
Proof.
  intros He. rewrite lookup_sql_update, He. simpl. unfold by_ids.
  by case_decide; [rewrite bool_decide_eq_true_2|rewrite bool_decide_eq_false_2].
Qed.

(** The returned events are the claimed rows. *)
Lemma claimed_events_spec locked now limit token until d event :
  let ids := claim_candidates locked now limit d in
  let o' := sql_update (by_ids ids) (set_event_claimed token until) (outbox d) in
  event ∈ omap (fun id => event_of_row id <$> o' !! id) ids <->
  exists id e, id ∈ ids /\ outbox d !! id = Some e /\
    event = event_of_row id (set_event_claimed token until e).
Proof.
  intros ids o'. rewrite list_elem_of_omap. split.
  - intros (id & Hid & Hev). pose proof (claim_candidates_spec _ _ _ _ _ Hid) as (e & He & _).
    exists id, e. split_and!; [done..|]. subst o'.
    rewrite (lookup_claimed _ _ _ _ _ _ He), decide_True in Hev by done. by simplify_eq/=.
  - intros (id & e & Hid & He & ->). exists id. split; [done|]. subst o'.
    by rewrite (lookup_claimed _ _ _ _ _ _ He), decide_True.
Qed.

Lemma ClaimOutbox_refines returning f locked now limit token until d :
  optional_step d (snd (ClaimOutbox returning f locked now limit token until d)).
Proof.
  destruct (ClaimOutbox _ _ _ _ _ _ _ d) as [r d'] eqn:H. simpl.
  apply ClaimOutbox_body in H as [->|(_ & Hok & ->)]; [by constructor|].
  apply one_step, (step_claim_events _ _ now). intros id e Hid He.
  split; [|by apply Hok].
  apply claim_candidates_spec in Hid as (e' & He' & ? & _). by simplify_eq.
Qed.

(** ** Intake *)

(** A task and its event as [Service.Create] makes them. *)
Definition fresh_request (task : Task) (event : OutboxEvent) : bool :=
  bool_decide (TaskStatus task = StatusPending) && (AttemptCount task =? 0)
  && (Generation task =? 0) && bool_decide (AggregateID event = TaskID task)
  && (EventGeneration event =? 0).

Lemma row_of_fresh_task task event b :
  fresh_request task event = true -> fresh_row (row_of_task task b) = true.
Proof.
  unfold fresh_request, fresh_row, has_status. simpl. rewrite !andb_true_iff. tauto.
Qed.

Lemma CreateNotification_Ok jsonb task d d' :
  CreateNotification jsonb task d = (Ok (), d') <->
  exists b, jsonb (Body (Snapshot task)) = Some b /\
    insert_task (TaskID task) (row_of_task task b) d = (Ok (), d').
Proof.
  unfold CreateNotification. destruct (jsonb _) as [b|]; [|naive_solver].
  destruct (insert_task _ _ d) as [[[]|e] d1] eqn:Hi; split.
  - intros [= <-]. eauto.
  - intros (b' & [= <-] & Hi'). rewrite Hi in Hi'. by simplify_eq.
  - by case_match.
  - intros (b' & [= <-] & Hi'). by rewrite Hi in Hi'.
Qed.

Lemma InsertOutbox_Ok event d d' :
  InsertOutbox event d = (Ok (), d') <->
  insert_event (EventID event) (row_of_event event) d = (Ok (), d').
Proof.
  unfold InsertOutbox. destruct (insert_event _ _ d) as [[[]|e] d1]; [done|].
  split; [by case_match|done].
Qed.

(** The transaction inserts both rows or none. *)
Lemma CreateOrGet_tx jsonb f task event d r d' :
  WithTx f (_ ← CreateNotification jsonb task; InsertOutbox event) d = (r, d') ->
  d' = d \/ exists b d1, jsonb (Body (Snapshot task)) = Some b /\
    insert_task (TaskID task) (row_of_task task b) d = (Ok (), d1) /\
    insert_event (EventID event) (row_of_event event) d1 = (Ok (), d').
Proof.
  unfold WithTx. intros [->|[[] Hc]]%atomically_effect; [by left|]. right.
  apply M_bind_Ok in Hc as ([] & d1 & H1 & H2).
  apply CreateNotification_Ok in H1 as (b & Hb & H1). apply InsertOutbox_Ok in H2. eauto.
Qed.

Lemma GetByCallerAndKey_NoFault caller key d :
  GetByCallerAndKey NoFault caller key d =
    (if negb (forallb text_ok [caller; key]) then Err (Wrapped "get notification" bad_text) else
     match sql_select (same_key caller key) (tasks d) with
     | [] => Err (Sentinel ErrNotFound)
     | (id, r) :: _ => Ok (keyed_task id r)
     end, d).
Proof.
  unfold GetByCallerAndKey, mbind, M_bind, statement, atomically, wrapM, gets, texts.
  destruct (forallb text_ok [caller; key]); simpl; [|done]. by destruct (sql_select _ _) as [|[id r] l].
Qed.

Lemma GetByCallerAndKey_db f caller key d : snd (GetByCallerAndKey f caller key d) = d.
Proof.
  destruct f; [by rewrite GetByCallerAndKey_NoFault|done|].
  unfold GetByCallerAndKey, mbind, M_bind, statement, atomically, wrapM, gets, texts.
  by destruct (forallb text_ok [caller; key]).
Qed.

Lemma CreateOrGet_db jsonb f f' task event d :
  snd (CreateOrGet jsonb f f' task event d) =
  snd (WithTx f (_ ← CreateNotification jsonb task; InsertOutbox event) d).
Proof.
  unfold CreateOrGet. destruct (WithTx _ _ d) as [[a|e] d1]; [done|].
  case_match; [done|]. pose proof (GetByCallerAndKey_db f' (CallerID task) (IdempotencyKey task) d1).
  by destruct (GetByCallerAndKey _ _ _ d1) as [[t|e'] d2].
Qed.

Lemma CreateOrGet_refines jsonb f f' task event d :
  fresh_request task event = true ->
  optional_step d (snd (CreateOrGet jsonb f f' task event d)).
Proof.
  intros Hfresh. rewrite CreateOrGet_db.
  destruct (WithTx _ _ d) as [r d'] eqn:H. simpl.
  apply CreateOrGet_tx in H as [->|(b & d1 & Hb & H1 & H2)]; [by constructor|].
  apply insert_task_Ok in H1 as (Hok & Hnone & Hkey & ->).
  apply insert_event_Ok in H2 as (Hev & Henone & Hgen & Hfk & ->). simpl in *.
  apply one_step. pose proof (row_of_fresh_task task event b Hfresh) as Hrow.
  unfold fresh_request in Hfresh. reflect_bools.
  apply (step_create d (TaskID task) (row_of_task task b) (EventID event)); done.
Qed.

(** The request a stored key belongs to. *)
Lemma select_same_key d id r :
  schema_ok d -> tasks d !! id = Some r ->
  sql_select (same_key (caller_id (fixed r)) (idempotency_key (fixed r))) (tasks d) = [(id, r)].
Proof.
  intros Hs Hr. set (P := same_key _ _).
  assert (Hin : forall k r', (k, r') ∈ sql_select P (tasks d) -> k = id /\ r' = r).
  { intros k r' [Hk HP]%elem_of_sql_select. apply same_key_true in HP as [H1 H2].
    assert (k = id) as -> by (by eapply (sk_keys d Hs)). by simplify_eq. }
  assert (Hself : (id, r) ∈ sql_select P (tasks d))
    by (apply elem_of_sql_select; split; [done|by apply same_key_true]).
  pose proof (sql_select_NoDup P (tasks d)) as Hnd.
  destruct (sql_select P (tasks d)) as [|[k1 r1] l]; [by apply not_elem_of_nil in Hself|].
  destruct (Hin k1 r1) as [-> ->]; [left|]. destruct l as [|[k2 r2] l]; [done|].
  destruct (Hin k2 r2) as [-> ->]; [right; left|]. simpl in Hnd.
  apply list.NoDup_cons in Hnd as [Hnd _]. set_solver.
Qed.

Lemma copy_hash_id h : len h = 32 -> copy_hash h = h.
Proof.
  unfold len, copy_hash. rewrite <- bytes_length. intros Hlen. apply bytes_inj.
  rewrite bytes_byte_prefix, bytes_app, take_app_le by (change (Z.to_nat 32) with 32%nat; lia).
  rewrite take_ge; [done|]. change (Z.to_nat 32) with 32%nat. lia.
Qed.

Lemma task_row_ok_hash id r : task_row_ok id r = true -> len (request_hash (fixed r)) = 32.
Proof. unfold task_row_ok, task_fixed_ok. intros H. by reflect_bools. Qed.

(** A request without connection failure whose row and event satisfy the
    constraints and whose identifiers are new. *)
Lemma CreateOrGet_NoFault jsonb task event d b :
  schema_ok d -> jsonb (Body (Snapshot task)) = Some b ->
  task_row_ok (TaskID task) (row_of_task task b) = true ->
  event_row_ok (EventID event) (row_of_event event) = true ->
  AggregateID event = TaskID task ->
  tasks d !! TaskID task = None -> outbox d !! EventID event = None ->
  CreateOrGet jsonb NoFault NoFault task event d =
    match sql_select (same_key (CallerID task) (IdempotencyKey task)) (tasks d) with
    | [] => (Ok None, {| tasks := <[TaskID task := row_of_task task b]> (tasks d);
                         outbox := <[EventID event := row_of_event event]> (outbox d) |})
    | (id, r) :: _ => (Ok (Some (keyed_task id r)), d)
    end.
Proof.
  intros Hs Hb Hok Hev Hagg Hnew Hevnew.
  set (d1 := set_tasks (<[TaskID task := row_of_task task b]> (tasks d)) d).
  unfold CreateOrGet, WithTx, atomically. unfold mbind at 1, M_bind at 1.
  unfold CreateNotification. rewrite Hb.
  destruct (sql_select _ _) as [|[id r] l] eqn:Hsel.
  - assert (Hins : insert_task (TaskID task) (row_of_task task b) d = (Ok (), d1)).
    { apply insert_task_Ok. split_and!; try done. unfold sql_exists. simpl. by rewrite Hsel. }
    rewrite Hins. simpl.
    assert (Hie : insert_event (EventID event) (row_of_event event) d1 =
                  (Ok (), set_outbox (<[EventID event := row_of_event event]> (outbox d1)) d1)).
    { apply insert_event_Ok. split_and!; try done; simpl.
      - apply sql_exists_false. intros k e Hk. destruct (same_generation _ _ _ _) eqn:Hg; [|done].
        apply same_generation_true in Hg as [Hg _].
        pose proof (sk_foreign_key d Hs _ _ Hk) as [r' Hr']. congruence.
      - rewrite Hagg, lookup_insert_eq. eauto. }
    unfold InsertOutbox. rewrite Hie. done.
  - unfold insert_task. rewrite Hok. simpl. rewrite Hnew, bool_decide_eq_false_2 by (by intros []).
    unfold sql_exists. simpl. rewrite Hsel. simpl.
    rewrite GetByCallerAndKey_NoFault, Hsel.
    unfold task_row_ok, task_fixed_ok, text_between in Hok. simpl in Hok. reflect_bools.
    cbn [forallb]. by repeat match goal with H : text_ok _ = true |- _ => rewrite H; clear H end.
Qed.

(** ** Replay *)

Lemma PgReplayDeadAtomic_effect f id now eid d r d' :
  PgReplayDeadAtomic f id now eid d = (r, d') ->
  d' = d \/ exists row, tasks d !! id = Some row /\ status row = StatusDead /\
    task_row_ok id (set_replayed now row) = true /\
    event_row_ok eid (retry_event id (generation row + 1) now) = true /\
    outbox d !! eid = None /\
    d' = {| tasks := <[id := set_replayed now row]> (tasks d);
            outbox := <[eid := retry_event id (generation row + 1) now]> (outbox d) |}.
Proof.
  unfold PgReplayDeadAtomic. intros [->|[c Hc]]%atomically_effect; [by left|].
  apply M_bind_Ok in Hc as (n & d1 & [_ Hu]%wrapM_Ok%texts_then & Hc). rewrite update_task_by_id in Hu.
  destruct (tasks d !! id) as [row|] eqn:Hrow; [|left; unfold_run; by simplify_eq/=].
  destruct (has_status StatusDead row) eqn:Hst; [|left; unfold_run; by simplify_eq/=].
  destruct (task_row_ok _ _) eqn:Hok; [|done]. injection Hu as <- <-. simpl in Hc.
  apply M_bind_Ok in Hc as (gen & d2 & [= <- <-] & Hc).
  apply M_bind_Ok in Hc as ([] & d3 & Hi%wrapM_Ok & Hc). injection Hc as <- <-.
  simpl in Hi. rewrite lookup_insert_eq in Hi.
  apply insert_event_Ok in Hi as (Hev & Hnone & _ & _ & ->).
  right. apply has_status_true in Hst. by exists row.
Qed.

(** ** Scheduling *)

(** The identifiers that [hex.EncodeToString] makes are storable. *)
Lemma hex_encode_bytes l :
  Forall is_byte l -> Forall (fun b => 0 < b < 128) (bytes (hex_encode l)) /\
  len (hex_encode l) = 2 * Z.of_nat (length l).
Proof.
  induction 1 as [|b l Hb _ [IH1 IH2]]; [done|].
  assert (Hd : forall x, 0 <= x < 16 -> 0 < byte_val (hex_digit x) < 128).
  { intros x Hx. unfold hex_digit. rewrite byte_val_of; unfold is_byte; case_match; lia. }
  unfold is_byte in Hb. split.
  - simpl. repeat constructor; try done; apply Hd;
      pose proof (Z.div_mod b 16); pose proof (Z.mod_pos_bound b 16); lia.
  - unfold len in *. simpl. lia.
Qed.

Lemma ascii_text_between lo hi s :
  Forall (fun b => 0 < b < 128) (bytes s) -> lo <= len s <= hi -> text_between lo hi s = true.
Proof.
  intros Hs Hl. assert (Hs' : Forall (fun b => b < 128) (bytes s)) by (rewrite Forall_forall in *; intros b Hb; specialize (Hs b Hb); lia).
  unfold text_between, text_ok. rewrite ascii_valid, ascii_char_length by done.
  assert (forallb (fun b => negb (b =? 0)) (bytes s) = true) as ->.
  { apply forallb_forall. intros b Hb. rewrite Forall_forall in Hs.
    specialize (Hs b Hb). lia. }
  lia.
Qed.

(** The row that the scheduler leaves in place of a due one. *)
Definition scheduled_row (now : time) (r : task_row) : task_row :=
  if exhausted now r then set_exhausted now r
  else set_rescheduled (generation r + 1) now
         (if has_status StatusDelivering r then "delivery_lease_expired" else "")%string r.

Lemma scheduled_row_fixed now r : fixed (scheduled_row now r) = fixed r.
Proof. unfold scheduled_row. by destruct (exhausted now r). Qed.

Section Schedule.
Context (Sum256 : list Z -> list Z).

Definition count_result (now : time) (acc : ScheduleResult) (r : task_row) : ScheduleResult :=
  if exhausted now r
  then mkScheduleResult (Scheduled acc) (Dead acc + 1) (RecoveredLeases acc)
  else mkScheduleResult (Scheduled acc + 1) (Dead acc)
         (RecoveredLeases acc + if has_status StatusDelivering r then 1 else 0).

(** The effect of one iteration on a due task that is still as it was read. *)
Lemma schedule_one_Ok now acc id r d acc' d' :
  schedule_one Sum256 now acc (id, r) d = (Ok acc', d') ->
  tasks d !! id = Some r -> task_due now r = true -> db_inv d ->
  acc' = count_result now acc r /\
  tasks d' = <[id := scheduled_row now r]> (tasks d) /\
  outbox d' = (if exhausted now r then outbox d
               else <[retry_event_id Sum256 id (generation r + 1) :=
                        retry_event id (generation r + 1) now]> (outbox d)) /\
  (exhausted now r = false -> outbox d !! retry_event_id Sum256 id (generation r + 1) = None) /\
  store_step d d'.
Proof.
  intros Hrun Hr Hdue Hinv. unfold schedule_one in Hrun. unfold count_result, scheduled_row.
  destruct (exhausted now r) eqn:Hex.
  - apply M_bind_Ok in Hrun as (n & d1 & Hu & [= <- <-]). rewrite update_task_by_id, Hr in Hu.
    destruct (task_row_ok _ _) eqn:Hok; [|done]. injection Hu as _ <-.
    split_and!; [done..|]. by eapply step_exhaust.
  - apply M_bind_Ok in Hrun as (n & d1 & Hu & Hrun). rewrite update_task_by_id, Hr in Hu.
    destruct (task_row_ok _ _) eqn:Hok; [|done]. injection Hu as _ <-.
    apply M_bind_Ok in Hrun as ([] & d2 & Hi & [= <- <-]).
    unfold insert_event_or_nothing in Hi. case_match; [done|]. simpl in Hi.
    rewrite (next_generation_free d id r) in Hi
      by (try apply inv_schema; try apply inv_bounded; done).
    apply insert_event_Ok in Hi as (Hev & Hnone & _ & _ & ->).
    split_and!; [done..|]. simpl in *. apply (step_reschedule d id r now); done.
Qed.

(** Candidates of a run, with the columns read by its [SELECT]. *)
Definition schedule_candidates (locked : gset string) (now : time) (limit : Z) (d : db)
    : list (string * task_row) :=
  sql_first limit due_key (fun id r => task_due now r && bool_decide (id ∉ locked)) (tasks d).

Lemma schedule_candidates_spec locked now limit d id r :
  (id, r) ∈ schedule_candidates locked now limit d ->
  tasks d !! id = Some r /\ task_due now r = true /\ id ∉ locked.
Proof.
  unfold schedule_candidates. intros [Hr HP]%elem_of_sql_first. reflect_bools. done.
Qed.

(** State of the loop after the candidates [done]: their rows are replaced,
    nothing else is touched, and the events only grow. *)
Definition schedule_progress (now : time) (d : db) (done todo : list (string * task_row))
    (acc : ScheduleResult) (d' : db) : Prop :=
  rtc store_step d d' /\
  acc = foldl (count_result now) (mkScheduleResult 0 0 0) done.*2 /\
  (forall id r, (id, r) ∈ done -> tasks d' !! id = Some (scheduled_row now r)) /\
  (forall id, id ∉ done.*1 -> tasks d' !! id = tasks d !! id) /\
  (forall id r, (id, r) ∈ done -> exhausted now r = false ->
     outbox d' !! retry_event_id Sum256 id (generation r + 1)
       = Some (retry_event id (generation r + 1) now)) /\
  outbox d ⊆ outbox d' /\
  (forall eid e, outbox d' !! eid = Some e -> outbox d !! eid = Some e \/ published_at e = None).

Lemma schedule_loop now d candidates acc d' :
  db_inv d -> NoDup candidates.*1 ->
  (forall id r, (id, r) ∈ candidates -> tasks d !! id = Some r /\ task_due now r = true) ->
  for_each (schedule_one Sum256 now) (mkScheduleResult 0 0 0) candidates d = (Ok acc, d') ->
  schedule_progress now d candidates [] acc d'.
Proof.
  intros Hinv Hnd Hc Hrun.
  apply (for_each_Ok _ (schedule_progress now d) _ _ _ _ _ Hrun).
  { unfold schedule_progress. simpl. split_and!; try done; try set_solver. }
  intros before [id r] rest acc1 d1 acc2 d2 Hl (Hsteps & Hacc & Hdone & Hkeep & Hev & Hsub & Hfrom) Hone.
  rewrite Hl, fmap_app, fmap_cons in Hnd. apply list.NoDup_app in Hnd as (_ & Hdisj & Hnd).
  assert (Hfresh : id ∉ before.*1).
  { intros Hin. apply (Hdisj id Hin). left. }
  destruct (Hc id r) as [Hr Hdue]; [rewrite Hl; set_solver|].
  apply schedule_one_Ok in Hone as (-> & Ht & Ho & Hnew & Hstep);
    [|by rewrite Hkeep|done|by eapply store_steps_preserve].
  assert (Hgrow : outbox d1 ⊆ outbox d2).
  { rewrite Ho. case_match; [done|]. by apply insert_subseteq, Hnew. }
  unfold schedule_progress. rewrite fmap_app. split_and!.
  - etrans; [exact Hsteps|by apply rtc_once].
  - by rewrite Hacc, foldl_app.
  - intros id' r' [Hin|[=-> ->]%list_elem_of_singleton]%elem_of_app; rewrite Ht.
    + rewrite lookup_insert_ne; [by apply Hdone|]. intros ->. apply Hfresh.
      by apply (list_elem_of_fmap_2 fst _ (id', r')).
    + by rewrite lookup_insert_eq.
  - intros id' Hni. simpl in Hni. rewrite Ht, lookup_insert_ne by set_solver. apply Hkeep.
    set_solver.
  - intros id' r' [Hin|[=-> ->]%list_elem_of_singleton]%elem_of_app Hex.
    + eapply lookup_weaken; [by apply Hev|done].
    + by rewrite Ho, Hex, lookup_insert_eq.
  - by etrans.
  - intros eid e He. rewrite Ho in He. destruct (exhausted now r); [by apply Hfrom|].
    apply lookup_insert_Some in He as [[_ <-]|[_ He]]; [by right|by apply Hfrom].
Qed.

(** The same iteration as a function of the database. *)
Definition scheduled_db (now : time) (d : db) (item : string * task_row) : db :=
  let '(id, r) := item in
  {| tasks := <[id := scheduled_row now r]> (tasks d);
     outbox := if exhausted now r then outbox d
               else <[retry_event_id Sum256 id (generation r + 1) :=
                        retry_event id (generation r + 1) now]> (outbox d) |}.

(** What lets every iteration succeed: digests of 32 bytes, generations within
    their column, and no collision of event identifiers. *)
Record schedulable (now : time) (d : db) (candidates : list (string * task_row)) : Prop := {
  sch_rows : forall id r, (id, r) ∈ candidates ->
    tasks d !! id = Some r /\ task_due now r = true /\ generation r < 2 ^ 31 - 1;
  sch_ids : NoDup candidates.*1;
  sch_event_ids : NoDup ((fun c => retry_event_id Sum256 c.1 (generation c.2 + 1)) <$> candidates);
  sch_events_new : forall id r, (id, r) ∈ candidates ->
    outbox d !! retry_event_id Sum256 id (generation r + 1) = None;
}.

Context (Sum256_bytes : forall l, Forall is_byte (Sum256 l) /\ length (Sum256 l) = 32%nat).

Lemma retry_event_ok id gen now :
  text_ok id = true -> 0 <= gen < 2 ^ 31 ->
  event_row_ok (retry_event_id Sum256 id gen) (retry_event id gen now) = true.
Proof.
  intros Hid Hgen. destruct (Sum256_bytes (bytes (id +:+ ":" +:+ pretty gen))) as [Hb Hl].
  destruct (hex_encode_bytes (take 16 (Sum256 (bytes (id +:+ ":" +:+ pretty gen))))) as [Hh Hlen];
    [by apply Forall_take|]. rewrite length_take, Hl in Hlen. simpl in Hlen.
  unfold event_row_ok. simpl. rewrite Hid.
  rewrite ascii_text_between by (done || (unfold retry_event_id; lia)).
  unfold int4_ok. assert (text_between 1 128 "notification.ready" = true) as -> by reflexivity. lia.
Qed.

Lemma task_row_ok_id id r : task_row_ok id r = true -> text_ok id = true.
Proof. unfold task_row_ok, text_between. intros H. by reflect_bools. Qed.

Lemma scheduled_row_ok now id r :
  generation r < 2 ^ 31 - 1 -> task_row_ok id r = true -> task_row_ok id (scheduled_row now r) = true.
Proof.
  unfold scheduled_row, task_row_ok, int4_ok. intros Hg.
  destruct (exhausted now r); simpl; rewrite !andb_true_iff; [tauto|].
  intros H. destruct (has_status _ _); simpl; split_and!; try tauto; try lia; reflexivity.
Qed.

Lemma schedule_one_run now acc id r rest d :
  db_inv d -> schedulable now d ((id, r) :: rest) ->
  schedule_one Sum256 now acc (id, r) d = (Ok (count_result now acc r), scheduled_db now d (id, r)).
Proof.
  intros Hinv Hs. destruct (sch_rows _ _ _ Hs id r) as (Hr & Hdue & Hg); [left|].
  pose proof (sch_events_new _ _ _ Hs id r ltac:(left)) as Hnew.
  pose proof (sk_task_ok d (inv_schema d Hinv) id r Hr) as Hok.
  pose proof (scheduled_row_ok now id r Hg Hok) as Hrow.
  assert (Hg0 : 0 <= generation r) by (unfold task_row_ok in Hok; reflect_bools; done).
  unfold schedule_one, count_result, scheduled_db, scheduled_row in *.
  destruct (exhausted now r) eqn:Hex.
  - unfold mbind, M_bind. rewrite update_task_by_id, Hr. by rewrite Hrow.
  - unfold mbind, M_bind. rewrite update_task_by_id, Hr, Hrow. simpl.
    unfold insert_event_or_nothing.
    rewrite retry_event_ok by (done || lia || by eapply task_row_ok_id). simpl.
    rewrite (next_generation_free d id r) by (done || by destruct Hinv).
    erewrite (proj2 (insert_event_Ok _ _ _ _)); [done|]. split_and!; try done; simpl.
    + by apply retry_event_ok; [eapply task_row_ok_id|lia].
    + by apply (next_generation_free d id r); [destruct Hinv..|].
    + rewrite lookup_insert_eq. eauto.
Qed.

Lemma schedulable_next now d id r rest :
  schedulable now d ((id, r) :: rest) -> schedulable now (scheduled_db now d (id, r)) rest.
Proof.
  intros [Hr Hi He Hn]. rewrite fmap_cons in Hi, He.
  apply list.NoDup_cons in Hi as [Hi1 Hi2], He as [He1 He2]. split; [|done|done|].
  - intros id' r' Hin. destruct (Hr id' r') as (Hr' & ?); [by right|]. split; [|done].
    simpl. rewrite lookup_insert_ne; [done|]. intros <-. apply Hi1.
    by apply (list_elem_of_fmap_2 fst _ (id, r')).
  - intros id' r' Hin. pose proof (Hn id' r' ltac:(by right)) as Hn'. simpl.
    destruct (exhausted now r); [done|]. rewrite lookup_insert_ne; [done|]. intros Heq.
    apply He1. simpl. rewrite Heq.
    by apply (list_elem_of_fmap_2 (fun c => retry_event_id Sum256 c.1 (generation c.2 + 1)) _ (id', r')).
Qed.

Lemma schedule_loop_run now candidates acc d :
  db_inv d -> schedulable now d candidates ->
  for_each (schedule_one Sum256 now) acc candidates d =
    (Ok (foldl (count_result now) acc candidates.*2), foldl (scheduled_db now) d candidates).
Proof.
  revert acc d. induction candidates as [|[id r] rest IH]; intros acc d Hinv Hs; [done|].
  pose proof (schedule_one_run now acc id r rest d Hinv Hs) as Hone. cbn [for_each].
  unfold mbind, M_bind. rewrite Hone. simpl. apply IH; [|by apply schedulable_next].
  destruct (sch_rows _ _ _ Hs id r) as (Hr & Hdue & _); [left|].
  apply schedule_one_Ok in Hone as (_ & _ & _ & _ & Hstep); [|done..].
  by eapply store_step_preserves.
Qed.

(** A run of the scheduler that succeeds. *)
Lemma ScheduleDue_Ok f locked now limit d acc d' :
  db_inv d ->
  ScheduleDue Sum256 f locked now limit d = (Ok acc, d') ->
  0 <= limit /\ schedule_progress now d (schedule_candidates locked now limit d) [] acc d'.
Proof.
  intros Hinv. unfold ScheduleDue. rewrite atomically_Ok. intros [-> Hc].
  case_match eqn:Hlim; [done|]. apply Z.ltb_ge in Hlim. split; [done|].
  apply M_bind_Ok in Hc as (cs & d1 & [= <- <-] & Hc).
  apply schedule_loop; [done|apply sql_first_NoDup| |done].
  intros id r Hin. by apply schedule_candidates_spec in Hin as (? & ? & _).
Qed.

Lemma ScheduleDue_refines f locked now limit d :
  db_inv d -> rtc store_step d (snd (ScheduleDue Sum256 f locked now limit d)).
Proof.
  intros Hinv. destruct (ScheduleDue _ _ _ _ _ d) as [r d'] eqn:H. simpl.
  apply atomically_effect in H as [->|[acc Hbody]]; [by constructor|].
  assert (Hok : ScheduleDue Sum256 NoFault locked now limit d = (Ok acc, d'))
    by (by apply atomically_Ok).
  by apply ScheduleDue_Ok in Hok as (_ & Hsteps & _).
Qed.
End Schedule.

(** ** Retention *)

Lemma DeleteTerminalBefore_body f locked cutoff limit d r d' :
  DeleteTerminalBefore f locked cutoff limit d = (r, d') ->
  d' = d \/ (0 <= limit /\ exists ids,
    ids = (sql_first limit updated_at
             (fun id r => task_expired cutoff (outbox d) id r && bool_decide (id ∉ locked))
             (tasks d)).*1 /\
    d' = snd (delete_tasks (by_ids ids) d)).
Proof.
  unfold DeleteTerminalBefore. intros [->|[c Hc]]%statement_effect; [by left|].
  case_match eqn:Hlim; [done|]. apply Z.ltb_ge in Hlim.
  apply M_bind_Ok in Hc as (ids & d1 & [= <- <-] & Hc). right. split; [done|].
  eexists; split; [done|]. by rewrite Hc.
Qed.

Lemma DeleteTerminalBefore_refines f locked cutoff limit d :
  optional_step d (snd (DeleteTerminalBefore f locked cutoff limit d)).
Proof.
  destruct (DeleteTerminalBefore _ _ _ _ d) as [r d'] eqn:H. simpl.
  apply DeleteTerminalBefore_body in H as [->|(_ & ids & -> & ->)]; [by constructor|].
  apply one_step, (step_delete _ _ cutoff). intros id row Hid Hrow.
  apply list_elem_of_fmap in Hid as ([k r'] & -> & Hin).
  apply elem_of_sql_first in Hin as [Hk HP]. reflect_bools. simpl in *. by simplify_eq.
Qed.

(** ** All operations together *)

Section Calls.
Context (jsonb : string -> option string) (Sum256 : list Z -> list Z)
        (returning_order : list OutboxEvent -> list OutboxEvent).

(** A call of the store by one of the services. *)
Inductive store_call :=
| CallCreateOrGet (f f' : fault) (task : Task) (event : OutboxEvent)
| CallClaimDelivery (f : fault) (db_now : time) (id leaseToken : string) (leaseUntil : time)
| CallApplyDeliveryResult (f : fault) (id leaseToken : string) (result : AttemptResult)
| CallScheduleRetry (f : fault) (id expectedLease : string) (next : time) (result : AttemptResult)
| CallClaimOutbox (f : fault) (locked : gset string) (now : time) (limit : Z) (token : string)
    (until : time)
| CallMarkPublished (f : fault) (eventID token : string) (at_ : time)
| CallReplayDeadAtomic (f : fault) (id : string) (now : time) (eventID : string)
| CallScheduleDue (f : fault) (locked : gset string) (now : time) (limit : Z)
| CallDeleteTerminalBefore (f : fault) (locked : gset string) (cutoff : time) (limit : Z).

Definition run_call (c : store_call) (d : db) : db :=
  match c with
  | CallCreateOrGet f f' task event => snd (CreateOrGet jsonb f f' task event d)
  | CallClaimDelivery f db_now id token until => snd (ClaimDelivery f db_now id token until d)
  | CallApplyDeliveryResult f id token result => snd (ApplyDeliveryResult f id token result d)
  | CallScheduleRetry f id token next result => snd (ScheduleRetry f id token next result d)
  | CallClaimOutbox f locked now limit token until =>
      snd (ClaimOutbox returning_order f locked now limit token until d)
  | CallMarkPublished f eid token at_ => snd (MarkPublished f eid token at_ d)
  | CallReplayDeadAtomic f id now eid => snd (PgReplayDeadAtomic f id now eid d)
  | CallScheduleDue f locked now limit => snd (ScheduleDue Sum256 f locked now limit d)
  | CallDeleteTerminalBefore f locked cutoff limit =>
      snd (DeleteTerminalBefore f locked cutoff limit d)
  end.

(** What the services guarantee about the arguments. *)
Definition call_ok (c : store_call) : bool :=
  match c with
  | CallCreateOrGet _ _ task event => fresh_request task event
  | CallApplyDeliveryResult _ _ _ result => attempt_ok result
  | _ => true
  end.

Lemma ApplyDeliveryResult_refines f id token result d :
  attempt_ok result = true ->
  optional_step d (snd (ApplyDeliveryResult f id token result d)).
Proof.
  intros Hok. destruct (ApplyDeliveryResult _ _ _ _ d) as [r d'] eqn:H. simpl.
  apply ApplyDeliveryResult_effect in H as [->|(row & Hr & Hst & Hl & Hrow & ->)]; [by constructor|].
  by eapply one_step, step_result.
Qed.

Lemma call_one_step c d :
  call_ok c = true ->
  match c with
  | CallScheduleDue _ _ _ _ => True
  | _ => optional_step d (run_call c d)
  end.
Proof.
  intros Hok. destruct c; simpl in *; [..|done|]; try done.
  - by apply CreateOrGet_refines.
  - destruct (ClaimDelivery _ _ _ _ _ d) as [r d'] eqn:H. simpl.
    apply ClaimDelivery_effect in H as [->|(row & Hr & Hst & Hrow & ->)]; [by constructor|].
    by eapply one_step, step_claim.
  - by apply ApplyDeliveryResult_refines.
  - apply ApplyDeliveryResult_refines. unfold attempt_ok. simpl. by case_match.
  - apply ClaimOutbox_refines.
  - destruct (MarkPublished _ _ _ _ d) as [r d'] eqn:H. simpl.
    apply MarkPublished_effect in H as [->|(e & He & Hp & Hc & Hrow & ->)]; [by constructor|].
    by eapply one_step, step_publish.
  - destruct (PgReplayDeadAtomic _ _ _ _ d) as [r d'] eqn:H. simpl.
    apply PgReplayDeadAtomic_effect in H as [->|(row & Hr & Hst & Hrow & Hev & Hn & ->)]; [by constructor|].
    by eapply one_step, step_replay.
  - apply DeleteTerminalBefore_refines.
Qed.

Lemma call_refines c d :
  db_inv d -> call_ok c = true -> rtc store_step d (run_call c d).
Proof.
  intros Hinv Hok. pose proof (call_one_step c d Hok) as Hone.
  destruct c; try (by apply optional_step_rtc); by apply ScheduleDue_refines.
Qed.

Lemma calls_refine cs d :
  db_inv d -> forallb call_ok cs = true ->
  rtc store_step d (foldl (fun d c => run_call c d) d cs).
Proof.
  revert d. induction cs as [|c cs IH]; intros d Hinv Hok; [done|]. simpl in *.
  apply andb_true_iff in Hok as [Hc Hcs]. pose proof (call_refines c d Hinv Hc) as Hstep.
  etrans; [exact Hstep|]. apply IH; [by eapply store_steps_preserve|done].
Qed.

End Calls.
