(* ===== verification/Samples.v ===== *)
(** * Concrete requests and histories

    Inputs on which the theorems of the library are instantiated: one request
    for the destination of [configs/], and database states reached from the
    empty one by calls of the store. *)

From S2P Require Import Prelude GoTime GoStrings Notification Table Schema Store StoreSpec StoreRefine.

Open Scope string_scope.

(** Stand-ins for the external functions: [JSONB] that accepts every text, a
    digest that keeps the first 32 bytes, and rows returned in order. *)
Definition sample_jsonb (s : string) : option string := Some s.
Definition sample_sum (l : list Z) : list Z :=
  (fun b => b mod 256)%Z <$> take 32 (l ++ replicate 32 0%Z).
Definition sample_order (l : list OutboxEvent) : list OutboxEvent := l.

Lemma sample_sum_bytes l : Forall is_byte (sample_sum l) /\ length (sample_sum l) = 32%nat.
Proof.
  unfold sample_sum. split.
  - apply Forall_fmap, Forall_true. intros b. unfold is_byte. simpl. apply Z.mod_pos_bound. lia.
  - rewrite length_fmap, length_take, length_app, length_replicate. lia.
Qed.

Definition sample_policy : RetryPolicy := mkRetryPolicy 3 Hour [(5 * Second)%Z; (30 * Second)%Z].

Definition sample_snapshot : DeliverySnapshot :=
  mkDeliverySnapshot "inventory-system" "POST" "https://inventory.example.com/v1/notifications"
    (Some {["Content-Type" := ["application/json"]]}) {["Authorization" := "INVENTORY_API_TOKEN"]}
    "{}" (5 * Second) sample_policy 10 "order-1".

Definition sample_request (id key : string) (created : time) : Task :=
  {| TaskID := id; CallerID := "orders"; IdempotencyKey := key; RequestHash := zero_hash;
     Snapshot := sample_snapshot; TaskStatus := StatusPending; AttemptCount := 0;
     Generation := 0; NextAttemptAt := None; LeaseToken := ""; LeaseUntil := None;
     LastHTTPStatus := 0; LastErrorCode := ""; LastError := ""; CreatedAt := created;
     UpdatedAt := created; DeliveredAt := None; DeadAt := None |}.

Definition sample_event (id eid : string) (created : time) : OutboxEvent :=
  {| EventID := eid; AggregateID := id; EventGeneration := 0;
     EventType := "notification.ready";
     Payload := [("event_id", eid); ("notification_id", id)]; EventCreatedAt := created;
     PublishedAt := None; ClaimToken := ""; ClaimUntil := None; PublishAttempts := 0 |}.

Definition sample_call (c : store_call) (d : db) : db :=
  run_call sample_jsonb sample_sum sample_order c d.

Definition create_call (id key eid : string) (created : time) : store_call :=
  CallCreateOrGet NoFault NoFault (sample_request id key created) (sample_event id eid created).

(** Two tasks have been accepted. *)
Definition history_created : list store_call :=
  [create_call "n1" "k1" "e1" 1000; create_call "n2" "k2" "e2" 2000].

(** The first was claimed by a worker until time 5000. *)
Definition history_claimed : list store_call :=
  history_created ++ [CallClaimDelivery NoFault 3000 "n1" "lease-1" 5000].

Definition failed_result (next : option time) : AttemptResult :=
  mkAttemptResult (if next is Some _ then Retryable else Permanent) 503 "http_5xx" "" next 4000.

(** The first task waits for a retry at 6000, or is dead. *)
Definition history_retry_wait : list store_call :=
  history_claimed ++ [CallApplyDeliveryResult NoFault "n1" "lease-1" (failed_result (Some 6000))].

Definition history_dead : list store_call :=
  history_claimed ++ [CallApplyDeliveryResult NoFault "n1" "lease-1" (failed_result None)].

Definition after (cs : list store_call) : db := foldl (fun d c => sample_call c d) empty_db cs.

Lemma after_inv cs : forallb call_ok cs = true -> db_inv (after cs).
Proof.
  intros Hok. eapply store_steps_preserve; [|exact db_inv_empty].
  by apply (calls_refine sample_jsonb sample_sum sample_order cs empty_db db_inv_empty).
Qed.

Example created_statuses :
  (status <$> tasks (after history_created) !! "n1") = Some StatusPending.
Proof. vm_compute. reflexivity. Qed.

Example claimed_status :
  (status <$> tasks (after history_claimed) !! "n1") = Some StatusDelivering.
Proof. vm_compute. reflexivity. Qed.

(** The row that [history_claimed] leaves for the first task. *)
Definition claimed_row : task_row :=
  set_claimed "lease-1" 5000 3000 (row_of_task (sample_request "n1" "k1" 1000) "{}").

Example claimed_row_stored : tasks (after history_claimed) !! "n1" = Some claimed_row.
Proof. vm_compute. reflexivity. Qed.
