(* ===== verification/StoreTypes.v ===== *)
(** * Types and transactions of the store

    The declared schema as a type of database states, and the methods of
    [Store] as well-typed and all-or-nothing programs over it, whatever their
    arguments: the types of the rows, the unique keys and the foreign key need
    no assumption about the callers, in contrast to [db_inv].

    The proofs are compositional: a rule per construct of the monad and per
    statement, collected in a hint database that follows the program text. *)

From S2P Require Import Prelude GoTime GoStrings Notification Table Schema Store StoreSpec StoreRefine Samples.

#[local] Open Scope list_scope.
#[local] Open Scope Z_scope.

(** ** The methods of [Store] *)

(** Each with the type of its result. *)
Inductive store_method : Type -> Type :=
| MCreateOrGet (task : Task) (event : OutboxEvent) : store_method (option Task)
| MGetByCallerAndKey (callerID key : string) : store_method Task
| MGetForCaller (callerID id : string) : store_method Task
| MClaimDelivery (db_now : time) (id leaseToken : string) (leaseUntil : time) : store_method Claim
| MApplyDeliveryResult (id leaseToken : string) (result : AttemptResult) : store_method bool
| MScheduleRetry (id expectedLease : string) (next : time) (result : AttemptResult) : store_method bool
| MReplayDead (id : string) (now : time) : store_method bool
| MReplayDeadAtomic (id : string) (now : time) (eventID : string) : store_method bool
| MScheduleDue (locked : gset string) (now : time) (limit : Z) : store_method ScheduleResult
| MClaimOutbox (locked : gset string) (now : time) (limit : Z) (token : string) (until : time) :
    store_method (list OutboxEvent)
| MMarkPublished (eventID token : string) (at_ : time) : store_method bool
| MDeleteTerminalBefore (locked : gset string) (cutoff : time) (limit : Z) : store_method Z.

Section Methods.
Context (jsonb : string -> option string) (Sum256 : list Z -> list Z)
        (returning_order : list OutboxEvent -> list OutboxEvent).

(** A call; the second fault is that of the query which [CreateOrGet] makes
    after its transaction. *)
Definition run_method {A} (f f' : fault) (m : store_method A) : M db A :=
  match m in store_method A return M db A with
  | MCreateOrGet task event => CreateOrGet jsonb f f' task event
  | MGetByCallerAndKey callerID key => GetByCallerAndKey f callerID key
  | MGetForCaller callerID id => PgGetForCaller f callerID id
  | MClaimDelivery db_now id token until => ClaimDelivery f db_now id token until
  | MApplyDeliveryResult id token result => ApplyDeliveryResult f id token result
  | MScheduleRetry id token next result => ScheduleRetry f id token next result
  | MReplayDead id now => ReplayDead f id now
  | MReplayDeadAtomic id now eventID => PgReplayDeadAtomic f id now eventID
  | MScheduleDue locked now limit => ScheduleDue Sum256 f locked now limit
  | MClaimOutbox locked now limit token until => ClaimOutbox returning_order f locked now limit token until
  | MMarkPublished eventID token at_ => MarkPublished f eventID token at_
  | MDeleteTerminalBefore locked cutoff limit => DeleteTerminalBefore f locked cutoff limit
  end.
End Methods.

(** ** Well-typed programs *)

(** Started in a database of the schema, [m] ends in one, whether it fails or
    not. *)
Definition typed {A} (m : M db A) : Prop := forall d, schema_ok d -> schema_ok (snd (m d)).

Create HintDb typing discriminated.
#[local] Hint Constants Opaque : typing.

Section Rules.
Context {A B : Type}.
Implicit Types m : M db A.

Lemma typed_ret (a : A) : typed (mret a).
Proof. by intros d Hd. Qed.

Lemma typed_throw e : typed (A := A) (throw e).
Proof. by intros d Hd. Qed.

Lemma typed_gets (f : db -> A) : typed (gets f).
Proof. by intros d Hd. Qed.

Lemma typed_bind m (k : A -> M db B) : typed m -> (forall a, typed (k a)) -> typed (m ≫= k).
Proof.
  intros Hm Hk d Hd. specialize (Hm d Hd). unfold mbind, M_bind.
  destruct (m d) as [[a|e] d']; [by apply Hk|done].
Qed.

Lemma typed_if (b : bool) m1 m2 : typed m1 -> typed m2 -> typed (if b then m1 else m2).
Proof. by destruct b. Qed.

Lemma typed_wrapM ctx m : typed m -> typed (wrapM ctx m).
Proof. intros Hm d Hd. specialize (Hm d Hd). unfold wrapM. by destruct (m d). Qed.

Lemma typed_atomically f ctx m : typed m -> typed (atomically f ctx m).
Proof.
  intros Hm d Hd. specialize (Hm d Hd). unfold atomically.
  by destruct f; destruct (m d) as [[a|e] d'].
Qed.

Lemma typed_for_each (body : B -> A -> M db B) acc l :
  (forall acc a, typed (body acc a)) -> typed (for_each body acc l).
Proof. intros Hbody d Hd. apply for_each_state; [done|]. intros b x t _. apply Hbody. Qed.
End Rules.

(** *** Statements *)

(** An [UPDATE] that leaves the immutable columns alone. *)
Lemma typed_update_tasks P f : (forall r, fixed (f r) = fixed r) -> typed (update_tasks P f).
Proof.
  intros Hfix d Hd. unfold update_tasks. destruct (forallb _ _) eqn:Hok; [|done].
  rewrite forallb_forall in Hok. destruct Hd as [Ht He Hk Hg Hf]. simpl.
  assert (Hfixed : forall k r, fixed (if P k r then f r else r) = fixed r)
    by (intros k r; destruct (P k r); [apply Hfix|done]).
  split; simpl; try done; intros; lookup_cases.
  - destruct (P _ _) eqn:HP; [|by eauto]. apply (Hok (id, x)). by apply list_elem_of_In, elem_of_sql_select.
  - rewrite !Hfixed in *. eauto.
  - apply dom_sql_update. eauto.
Qed.

Lemma typed_update_events P f :
  (forall e, aggregate_id (f e) = aggregate_id e /\ event_generation (f e) = event_generation e) ->
  typed (update_events P f).
Proof.
  intros Hid d Hd. unfold update_events. destruct (forallb _ _) eqn:Hok; [|done].
  rewrite forallb_forall in Hok. apply schema_set_events; [done|done|]. intros eid e He HP.
  apply (Hok (eid, e)). by apply list_elem_of_In, elem_of_sql_select.
Qed.

Lemma typed_insert_task id r : typed (insert_task id r).
Proof.
  intros d Hd. unfold insert_task. repeat case_match; try done. reflect_bools.
  apply schema_create; [done..| |done]. by apply eq_None_not_Some.
Qed.

Lemma typed_insert_event id e : typed (insert_event id e).
Proof.
  intros d Hd. unfold insert_event. repeat case_match; try done. reflect_bools.
  apply schema_insert_event; [done| |done..]. by apply eq_None_not_Some.
Qed.

Lemma typed_insert_event_or_nothing id e : typed (insert_event_or_nothing id e).
Proof.
  intros d Hd. unfold insert_event_or_nothing. repeat case_match; try done. by apply typed_insert_event.
Qed.

Lemma typed_texts params : typed (texts params).
Proof. intros d Hd. unfold texts. by case_match. Qed.

Lemma typed_int4_param z : typed (int4_param z).
Proof. intros d Hd. unfold int4_param. by case_match. Qed.

Lemma typed_delete_tasks P : typed (delete_tasks P).
Proof. intros d Hd. by apply schema_delete. Qed.

#[export] Hint Resolve typed_ret typed_throw typed_gets typed_bind typed_if typed_wrapM
  typed_atomically typed_for_each typed_update_tasks typed_update_events typed_insert_task
  typed_insert_event typed_insert_event_or_nothing typed_texts typed_int4_param typed_delete_tasks : typing.

(** The assignments keep what identifies a row. *)
#[local] Hint Resolve set_result_fixed : typing.
#[local] Hint Extern 1 (_ /\ _) => split; reflexivity : typing.

(** Follow the text of a program. *)
Ltac type_program :=
  repeat match goal with
  | |- typed (match ?x with _ => _ end) => destruct x
  | |- typed (let '(_, _) := ?x in _) => destruct x
  | |- forall _, _ => intros ?
  | _ => progress eauto 2 with typing
  | |- typed (_ ≫= _) => apply typed_bind
  | |- typed (wrapM _ _) => apply typed_wrapM
  | |- typed (atomically _ _ _) => apply typed_atomically
  | |- typed (for_each _ _ _) => apply typed_for_each
  end.

(** *** The operations of the transactions *)

Lemma typed_CreateNotification jsonb task : typed (CreateNotification jsonb task).
Proof.
  intros d Hd. pose proof (fun b => typed_insert_task (TaskID task) (row_of_task task b) d Hd) as H.
  unfold CreateNotification. destruct (jsonb _) as [b|]; [|done]. specialize (H b).
  by destruct (insert_task _ _ d) as [[[]|e] d']; [|case_bool_decide].
Qed.

Lemma typed_InsertOutbox event : typed (InsertOutbox event).
Proof.
  intros d Hd. pose proof (typed_insert_event (EventID event) (row_of_event event) d Hd) as H.
  unfold InsertOutbox. by destruct (insert_event _ _ d) as [[[]|e] d']; [|case_bool_decide].
Qed.

Lemma typed_schedule_one Sum256 now result item : typed (schedule_one Sum256 now result item).
Proof. unfold schedule_one. by type_program. Qed.

#[export] Hint Resolve typed_CreateNotification typed_InsertOutbox typed_schedule_one : typing.

(** ** All or nothing *)

(** A call that reports an error has changed nothing. *)
Definition error_changes_nothing {A} (m : M db A) : Prop := forall d e d', m d = (Err e, d') -> d' = d.

Lemma error_atomically {A} f ctx (m : M db A) :
  f <> FailAfter -> error_changes_nothing (atomically f ctx m).
Proof.
  intros Hf d e d'. unfold atomically. destruct f; [|by intros [= _ <-]|done].
  destruct (m d) as [[a|e'] d1]; [done|by intros [= _ <-]].
Qed.

(** A query never changes anything. *)
Definition read_only {A} (m : M db A) : Prop := forall d, snd (m d) = d.

Lemma read_only_error {A} (m : M db A) : read_only m -> error_changes_nothing m.
Proof. intros Hm d e d' H. specialize (Hm d). by rewrite H in Hm. Qed.

Lemma read_only_typed {A} (m : M db A) : read_only m -> typed m.
Proof. intros Hm d Hd. by rewrite Hm. Qed.

Lemma read_only_bind {A B} (m : M db A) (k : A -> M db B) :
  read_only m -> (forall a, read_only (k a)) -> read_only (m ≫= k).
Proof.
  intros Hm Hk d. specialize (Hm d). unfold mbind, M_bind. destruct (m d) as [[a|e] d']; simpl in *; subst; [|done].
  apply Hk.
Qed.

Lemma read_only_query {A} f ctx params (q : db -> A) :
  read_only (statement f ctx (_ ← texts params; gets q)).
Proof.
  intros d. unfold statement, atomically, wrapM, mbind, M_bind, texts.
  by destruct f, (forallb text_ok params).
Qed.

Lemma read_only_GetByCallerAndKey f callerID key : read_only (GetByCallerAndKey f callerID key).
Proof. apply read_only_bind; [apply read_only_query|]. intros d d'. by repeat case_match. Qed.

Lemma read_only_PgGetForCaller f callerID id : read_only (PgGetForCaller f callerID id).
Proof. apply read_only_bind; [apply read_only_query|]. intros row d'. by repeat case_match. Qed.

(** [CreateOrGet] reads after its transaction. *)
Lemma CreateOrGet_state jsonb f f' task event d :
  snd (CreateOrGet jsonb f f' task event d)
  = snd (WithTx f (_ ← CreateNotification jsonb task; InsertOutbox event) d).
Proof.
  unfold CreateOrGet. destruct (WithTx _ _ d) as [[[]|e] d']; [done|]. simpl.
  case_match; [done|]. pose proof (read_only_GetByCallerAndKey f' (CallerID task) (IdempotencyKey task) d') as Hget.
  by destruct (GetByCallerAndKey _ _ _ d') as [[t|e'] d''].
Qed.

Lemma error_CreateOrGet jsonb f f' task event :
  f <> FailAfter -> error_changes_nothing (CreateOrGet jsonb f f' task event).
Proof.
  intros Hf d e d' H. pose proof (CreateOrGet_state jsonb f f' task event d) as Hst. rewrite H in Hst.
  simpl in Hst. unfold CreateOrGet in H.
  destruct (WithTx _ _ d) as [[[]|e1] d1] eqn:Htx; [done|]. simpl in Hst. subst d1.
  by eapply error_atomically.
Qed.

Lemma typed_CreateOrGet jsonb f f' task event : typed (CreateOrGet jsonb f f' task event).
Proof.
  intros d. rewrite CreateOrGet_state. revert d. change (typed (WithTx f (_ ← CreateNotification jsonb task; InsertOutbox event))).
  unfold WithTx. type_program.
Qed.

#[export] Hint Resolve typed_CreateOrGet error_CreateOrGet : typing.

Lemma methods_typed jsonb Sum256 returning_order A (m : store_method A) f f' :
  typed (run_method jsonb Sum256 returning_order f f' m).
Proof.
  destruct m; cbn [run_method];
    try (apply read_only_typed; auto using read_only_GetByCallerAndKey, read_only_PgGetForCaller; fail);
    unfold ClaimDelivery, ScheduleRetry, ApplyDeliveryResult, ReplayDead, PgReplayDeadAtomic, ScheduleDue,
      ClaimOutbox, MarkPublished, DeleteTerminalBefore, statement; type_program.
Qed.

Lemma methods_all_or_nothing jsonb Sum256 returning_order A (m : store_method A) f f' :
  f <> FailAfter -> error_changes_nothing (run_method jsonb Sum256 returning_order f f' m).
Proof.
  intros Hf. destruct m; try (by apply error_atomically); [by apply error_CreateOrGet| |];
    apply read_only_error; cbn [run_method]; auto using read_only_GetByCallerAndKey, read_only_PgGetForCaller.
Qed.

(** C17 (type): the store is well typed over its schema and its calls are all
    or nothing.  For every method, all arguments and every failure of the
    connection, a database that satisfies the column checks, the unique keys
    and the foreign key is left in such a state, and a call that reports an
    error has changed nothing unless the connection broke after the commit. *)
Theorem methods_well_typed jsonb Sum256 returning_order A (m : store_method A) f f' d r d' :
  run_method jsonb Sum256 returning_order f f' m d = (r, d') ->
  schema_ok d ->
  schema_ok d' /\ (is_Ok r = false -> f <> FailAfter -> d' = d).
Proof.
  intros Hrun Hd. split.
  - pose proof (methods_typed jsonb Sum256 returning_order A m f f' d Hd) as H. by rewrite Hrun in H.
  - intros Hr Hf. destruct r as [a|e]; [done|]. by eapply methods_all_or_nothing.
Qed.

(** The identifier of the event is taken: the task inserted before it is
    rolled back. *)
Lemma methods_well_typed_witness :
  exists e, run_method sample_jsonb sample_sum sample_order NoFault NoFault
      (MCreateOrGet (sample_request "n3" "k3" 3000) (sample_event "n3" "e1" 3000)) (after history_created)
    = (Err e, after history_created) /\ schema_ok (after history_created).
Proof.
  pose proof (after_inv history_created eq_refl) as Hinv.
  destruct (run_method sample_jsonb sample_sum sample_order NoFault NoFault
      (MCreateOrGet (sample_request "n3" "k3" 3000) (sample_event "n3" "e1" 3000)) (after history_created))
    as [r d'] eqn:Hrun.
  pose proof (f_equal (fun p => is_Ok p.1) Hrun) as Hr. vm_compute in Hr.
  destruct (methods_well_typed sample_jsonb sample_sum sample_order _ _ _ _ _ _ _ Hrun (inv_schema _ Hinv)) as [Hd He].
  destruct r as [a|e]; [discriminate Hr|]. assert (d' = after history_created) as -> by (apply He; [reflexivity|discriminate]).
  exists e. split; [reflexivity|exact Hd].
Defined.
