(* ===== verification/StoreProps.v ===== *)
(** * Correctness of the store

    Refinement of the abstract steps by any history of calls, the permitted
    transitions, exclusive claims, and the ownership of leases. *)

From S2P Require Import Prelude GoTime GoStrings Notification Table Schema Store StoreSpec StoreRefine Samples.

(** ** Transitions of a row *)

(** The transitions the code performs: the table of [CanTransition], and the
    recovery of an expired lease, which the table does not list. *)
Definition performed (from to : Status) : bool :=
  CanTransition from to || (bool_decide (from = StatusDelivering) && bool_decide (to = StatusPending)).

Definition row_transition (r r' : task_row) : Prop :=
  fixed r' = fixed r /\ performed (status r) (status r') = true /\
  attempt_count r' = attempt_count r + (if has_status StatusDelivering r' then 1 else 0) /\
  generation r' = generation r + (if has_status StatusPending r' then 1 else 0).

Lemma claim_transition token until db_now r :
  status r = StatusPending -> row_transition r (set_claimed token until db_now r).
Proof. unfold row_transition, performed. intros ->. split_and!; simpl; try done; lia. Qed.

Lemma result_transition result r :
  status r = StatusDelivering -> row_transition r (set_result result r).
Proof.
  unfold row_transition, performed, set_result. intros ->.
  destruct (AttemptOutcome result); simpl; split_and!; try done; lia.
Qed.

Lemma scheduled_transition now t r :
  task_due t r = true -> row_transition r (scheduled_row now r).
Proof.
  unfold row_transition, performed, scheduled_row. intros Hdue%task_due_status.
  destruct (exhausted now r); destruct Hdue as [-> | ->]; simpl; split_and!; try done; lia.
Qed.

Lemma replay_transition now r :
  status r = StatusDead -> row_transition r (set_replayed now r).
Proof. unfold row_transition, performed. intros ->. split_and!; simpl; try done; lia. Qed.

#[export] Hint Resolve claim_transition result_transition replay_transition : notifier.

Lemma exhaust_transition now t r :
  task_due t r = true -> exhausted now r = true -> row_transition r (set_exhausted now r).
Proof. intros H He. pose proof (scheduled_transition now t r H) as Ht. unfold scheduled_row in Ht. by rewrite He in Ht. Qed.

Lemma reschedule_transition now t code r :
  task_due t r = true ->
  row_transition r (set_rescheduled (generation r + 1) now code r).
Proof.
  unfold row_transition, performed. intros [-> | ->]%task_due_status; split_and!; simpl; try done; lia.
Qed.

#[export] Hint Resolve exhaust_transition reschedule_transition : notifier.

Lemma store_step_row d d' id r r' :
  store_step d d' -> tasks d !! id = Some r -> tasks d' !! id = Some r' ->
  r' = r \/ row_transition r r'.
Proof.
  intros Hstep Hr Hr'. destruct Hstep; simpl in *; lookup_cases; eauto with notifier; congruence.
Qed.

Section Store_properties.
Context (jsonb : string -> option string) (Sum256 : list Z -> list Z)
        (returning_order : list OutboxEvent -> list OutboxEvent).

Local Abbreviation run := (run_call jsonb Sum256 returning_order).

Lemma call_row_transition c d id r r' :
  db_inv d -> call_ok c = true ->
  tasks d !! id = Some r -> tasks (run c d) !! id = Some r' ->
  r' = r \/ row_transition r r'.
Proof.
  intros Hinv Hok Hr Hr'.
  pose proof (call_one_step jsonb Sum256 returning_order c d Hok) as Hone.
  destruct c; try (destruct Hone as [|d' Hstep]; [left; congruence|by eapply store_step_row]).
  simpl in Hr'. destruct (ScheduleDue _ _ _ _ _ d) as [res d'] eqn:H. simpl in Hr'.
  apply atomically_effect in H as [->|[acc Hbody]]; [left; congruence|].
  assert (Hsched : ScheduleDue Sum256 NoFault locked now limit d = (Ok acc, d'))
    by (by apply atomically_Ok).
  apply ScheduleDue_Ok in Hsched as (_ & _ & _ & Hdone & Hkeep & _); [|done].
  destruct (decide (id ∈ (schedule_candidates locked now limit d).*1)) as [Hin|Hout].
  - apply list_elem_of_fmap in Hin as ([k row] & -> & Hin). simpl in *.
    apply schedule_candidates_spec in Hin as Hspec. destruct Hspec as (Hrow & Hdue & _).
    rewrite (Hdone _ _ Hin) in Hr'. simplify_eq. right. by eapply scheduled_transition.
  - rewrite Hkeep in Hr' by done. left. congruence.
Qed.

(** C4 (refinement): whatever sequence of calls the services make from an
    empty database, with connections failing before or after the commit of
    any of them, the database only makes abstract store steps, and the
    invariant holds: every constraint of the schema, the coherence of each
    row with its status, and an outbox that holds exactly one event for each
    generation of each task. *)
Theorem history_refines cs :
  forallb call_ok cs = true ->
  let d := foldl (fun d c => run c d) empty_db cs in
  rtc store_step empty_db d /\ db_inv d.
Proof.
  intros Hok. pose proof (calls_refine jsonb Sum256 returning_order cs empty_db db_inv_empty Hok).
  split; [done|]. by eapply store_steps_preserve; [|apply db_inv_empty].
Qed.

(** C16 (invariant): a call changes a task only by a permitted transition: the
    request columns never change, the status moves along [CanTransition] or
    from an expired lease back to pending, the attempt counter grows by one
    exactly when the task is claimed, and the generation grows by one exactly
    when it becomes pending again. *)
Theorem call_transitions c d id r r' :
  db_inv d -> call_ok c = true ->
  tasks d !! id = Some r -> tasks (run c d) !! id = Some r' ->
  r' = r \/ row_transition r r'.
Proof. apply call_row_transition. Qed.

End Store_properties.

Lemma history_refines_witness :
  forallb call_ok history_dead = true /\
  db_inv (foldl (fun d c => run_call sample_jsonb sample_sum sample_order c d)
            empty_db history_dead).
Proof.
  split; [vm_compute; reflexivity|].
  apply (history_refines sample_jsonb sample_sum sample_order history_dead).
  vm_compute. reflexivity.
Defined.

(** A database with its invariant and one due, expired lease. *)
Lemma call_transitions_witness :
  exists r r', tasks (after history_claimed) !! "n1"%string = Some r /\
    status r = StatusDelivering /\ status r' = StatusPending /\
    (r' = r \/ row_transition r r').
Proof.
  eexists _, _. split; [vm_compute; reflexivity|]. split; [reflexivity|].
  split; [|apply (call_transitions sample_jsonb sample_sum sample_order
    (CallScheduleDue NoFault ∅ 6000 10) (after history_claimed) "n1")].
  - shelve.
  - apply after_inv. vm_compute. reflexivity.
  - reflexivity.
  - vm_compute. reflexivity.
  - vm_compute. reflexivity.
  Unshelve. reflexivity.
Defined.

(** ** Deliveries: claims and leases *)

Lemma claim_acquired f db_now id token until d t d' :
  ClaimDelivery f db_now id token until d = (Ok (Some t), d') ->
  exists r, tasks d !! id = Some r /\ status r = StatusPending /\
    t = claimed_task id (set_claimed token until db_now r) token until /\
    d' = set_tasks (<[id := set_claimed token until db_now r]> (tasks d)) d.
Proof.
  intros H. assert (f = NoFault) as -> by (by apply statement_Ok in H as [? _]).
  rewrite ClaimDelivery_NoFault in H. destruct (negb _); [done|].
  destruct (tasks d !! id) as [r|]; [|done].
  destruct (has_status StatusPending r) eqn:Hst; [|done]. apply has_status_true in Hst.
  simpl in H. destruct (task_row_ok _ _); [|done]. simplify_eq. by exists r.
Qed.

(** C14 (safety): a claim is exclusive.  Once a worker has acquired a task, no
    other claim of it acquires it, whatever connection failures happen, and
    the task stays exactly as the winner left it, until some call makes it
    pending again. *)
Theorem claim_exclusive f1 db_now1 id token1 until1 d t d1 f2 db_now2 token2 until2 d2 res d3 :
  ClaimDelivery f1 db_now1 id token1 until1 d = (Ok (Some t), d1) ->
  tasks d2 !! id = tasks d1 !! id ->
  ClaimDelivery f2 db_now2 id token2 until2 d2 = (res, d3) ->
  d3 = d2 /\ (forall t', res <> Ok (Some t')).
Proof.
  intros H1 Hrow H2. apply claim_acquired in H1 as (r & Hr & Hst & _ & ->).
  simpl in Hrow. rewrite lookup_insert_eq in Hrow. split.
  - apply ClaimDelivery_effect in H2 as [->|(r2 & Hr2 & Hst2 & _)]; [done|].
    by simplify_eq/=.
  - intros t' ->. apply claim_acquired in H2 as (r2 & Hr2 & Hst2 & _). by simplify_eq/=.
Qed.

Lemma claim_exclusive_witness :
  let d1 := after history_claimed in
  snd (ClaimDelivery NoFault 3500 "n1" "lease-2" 9000 d1) = d1.
Proof.
  cbv zeta. refine (proj1 (claim_exclusive NoFault 3000 "n1" "lease-1" 5000 (after history_created)
    _ (after history_claimed) NoFault 3500 "lease-2" 9000 (after history_claimed)
    (fst (ClaimDelivery NoFault 3500 "n1" "lease-2" 9000 (after history_claimed)))
    _ _ eq_refl _)).
  - vm_compute. reflexivity.
  - destruct (ClaimDelivery NoFault 3500 "n1" "lease-2" 9000 (after history_claimed)).
    reflexivity.
Defined.

(** The claim hands the worker the stored snapshot of the task
    (whatever happened to the destination configuration since), the attempt
    number it is about to make, and a lease that the stored row now carries. *)
Theorem claim_returns_snapshot f db_now id token until d t d' :
  ClaimDelivery f db_now id token until d = (Ok (Some t), d') ->
  exists r, tasks d !! id = Some r /\
    Snapshot t = snapshot_of_row (fixed r) /\
    AttemptCount t = attempt_count r + 1 /\
    exists r', tasks d' !! id = Some r' /\ fixed r' = fixed r /\
      status r' = StatusDelivering /\ lease_token r' = Some token /\
      lease_until r' = Some until /\ attempt_count r' = AttemptCount t /\
      Generation t = generation r'.
Proof.
  intros H. apply claim_acquired in H as (r & Hr & Hst & -> & ->).
  exists r. split_and!; try done. eexists. simpl. rewrite lookup_insert_eq. by split_and!.
Qed.

Lemma claim_returns_snapshot_witness :
  exists t d', ClaimDelivery NoFault 3000 "n1" "lease-1" 5000 (after history_created)
                 = (Ok (Some t), d')
    /\ exists r, tasks (after history_created) !! "n1"%string = Some r
         /\ AttemptCount t = attempt_count r + 1.
Proof.
  eexists _, _. split; [vm_compute; reflexivity|].
  refine (let '(ex_intro _ r (conj Hr (conj _ (conj Ha _)))) :=
    claim_returns_snapshot NoFault 3000 "n1" "lease-1" 5000 (after history_created) _ _ _
    in ex_intro _ r (conj Hr Ha)).
  vm_compute. reflexivity.
Defined.

(** C15 (safety): a worker whose lease is gone cannot overwrite a newer state.
    If the task is not being delivered under the worker's own token (it was
    recovered, finished, claimed by another worker, or deleted), applying the
    result changes nothing and never reports success; the same holds for the
    retry variant. *)
Theorem stale_lease_rejected f id token result d :
  (forall r, tasks d !! id = Some r ->
     status r <> StatusDelivering \/ lease_token r <> Some token) ->
  snd (ApplyDeliveryResult f id token result d) = d /\
  fst (ApplyDeliveryResult f id token result d) <> Ok true.
Proof.
  intros Hstale. destruct (ApplyDeliveryResult f id token result d) as [res d'] eqn:H. simpl.
  assert (Hno : forall r, tasks d !! id = Some r -> owns_lease token r = false).
  { intros r Hr. unfold owns_lease, has_status. apply andb_false_iff.
    destruct (Hstale r Hr); [left|right]; by apply bool_decide_eq_false. }
  split.
  - apply ApplyDeliveryResult_effect in H as [->|(r & Hr & Hst & Hl & _)]; [done|].
    by destruct (Hstale r Hr).
  - intros ->. apply ApplyDeliveryResult_Ok in H as Hp. destruct Hp as (-> & ? & ? & ?).
    rewrite ApplyDeliveryResult_NoFault in H by done. destruct (tasks d !! id) as [r|] eqn:Hr; [|done].
    by rewrite Hno in H.
Qed.

Lemma stale_lease_rejected_witness :
  let result := mkAttemptResult Delivered 200 "" "" None 7000 in
  snd (ApplyDeliveryResult NoFault "n1" "lease-0" result (after history_claimed))
    = after history_claimed.
Proof.
  cbv zeta. refine (proj1 (stale_lease_rejected NoFault "n1" "lease-0"
    (mkAttemptResult Delivered 200 "" "" None 7000) (after history_claimed) _)).
  intros r Hr. right. vm_compute in Hr. injection Hr as <-. discriminate.
Defined.

(** The owner of the lease gets its result stored: the
    status, the one relevant timestamp, the error columns, and a released
    lease; a result that cannot be stored leaves the row untouched and is an
    error. *)
Theorem owner_result_applied id token result r d :
  tasks d !! id = Some r -> status r = StatusDelivering -> lease_token r = Some token ->
  text_ok token = true ->
  let '(res, d') := ApplyDeliveryResult NoFault id token result d in
  if task_row_ok id (set_result result r)
  then res = Ok true /\ d' = set_tasks (<[id := set_result result r]> (tasks d)) d
  else is_Ok res = false /\ d' = d.
Proof.
  intros Hr Hst Hl Htok.
  assert (Hown : owns_lease token r = true)
    by (unfold owns_lease, has_status; by rewrite Hst, Hl, !bool_decide_eq_true_2).
  destruct (task_row_ok id (set_result result r)) eqn:Hok; [by erewrite ApplyDeliveryResult_owned|].
  destruct (ApplyDeliveryResult _ _ _ _ _) as [[b|e] d'] eqn:H.
  - apply ApplyDeliveryResult_Ok in H as Hp. destruct Hp as (_ & ? & ? & ?).
    rewrite ApplyDeliveryResult_NoFault in H by done. by rewrite Hr, Hown, Hok in H.
  - apply ApplyDeliveryResult_effect in H as [->|(r' & Hr' & _ & _ & Hok' & _)]; [done|]. simplify_eq. congruence.
Qed.

Lemma owner_result_applied_witness :
  fst (ApplyDeliveryResult NoFault "n1" "lease-1"
         (mkAttemptResult Delivered 204 "" "" None 4500) (after history_claimed)) = Ok true.
Proof.
  pose proof (owner_result_applied "n1" "lease-1" (mkAttemptResult Delivered 204 "" "" None 4500)
             claimed_row (after history_claimed) claimed_row_stored eq_refl eq_refl eq_refl) as H.
  destruct (ApplyDeliveryResult _ _ _ _ _) as [res d'].
  replace (task_row_ok _ _) with true in H by (vm_compute; reflexivity). exact (proj1 H).
Defined.
