(* ===== verification/IntakeStoreProps.v ===== *)
(** * Correctness of the idempotent intake in the store

    A caller and its idempotency key identify one task: repeated requests,
    whenever they come, find the task of the first one. *)

From S2P Require Import Prelude GoTime GoStrings Notification Table Schema Store StoreSpec StoreRefine Samples StoreProps.

(** Calls of everything but the retention service. *)
Definition keeps_tasks (c : store_call) : bool :=
  match c with CallDeleteTerminalBefore _ _ _ _ => false | _ => true end.

(** The task of an accepted request is still stored, with its columns. *)
Definition stored_as (d : db) (id : string) (fx : task_fixed) : Prop :=
  exists r, tasks d !! id = Some r /\ fixed r = fx.

Section Intake.
Context (jsonb : string -> option string) (Sum256 : list Z -> list Z)
        (returning_order : list OutboxEvent -> list OutboxEvent).

Local Abbreviation run := (run_call jsonb Sum256 returning_order).

Lemma CreateOrGet_effect f f' task event d :
  snd (CreateOrGet jsonb f f' task event d) = d \/
  exists b e, tasks d !! TaskID task = None /\ published_at e = None /\
    snd (CreateOrGet jsonb f f' task event d) =
      {| tasks := <[TaskID task := row_of_task task b]> (tasks d);
         outbox := <[EventID event := e]> (outbox d) |}.
Proof.
  rewrite CreateOrGet_db. destruct (WithTx _ _ d) as [res d'] eqn:H. simpl.
  apply CreateOrGet_tx in H as [->|(b & d1 & Hb & H1 & H2)]; [by left|]. right.
  apply insert_task_Ok in H1 as (_ & Hnew & _ & ->).
  apply insert_event_Ok in H2 as (_ & _ & _ & _ & ->).
  by exists b, (row_of_event event).
Qed.

Lemma is_Some_insert {R} (m : gmap string R) k r k' :
  is_Some (m !! k') -> is_Some (<[k := r]> m !! k').
Proof. rewrite lookup_insert_is_Some'. by right. Qed.

Lemma call_keeps_row c d id :
  db_inv d -> keeps_tasks c = true ->
  is_Some (tasks d !! id) -> is_Some (tasks (run c d) !! id).
Proof.
  intros Hinv Hk Hid. destruct c; simpl; try done.
  - destruct (CreateOrGet_effect f f' task event d) as [->|(r & e & _ & _ & ->)]; [done|].
    by apply is_Some_insert.
  - destruct (ClaimDelivery _ _ _ _ _ d) as [res d'] eqn:H. simpl.
    apply ClaimDelivery_effect in H as [->|(r & _ & _ & _ & ->)]; [done|by apply is_Some_insert].
  - destruct (ApplyDeliveryResult _ _ _ _ d) as [res d'] eqn:H. simpl.
    apply ApplyDeliveryResult_effect in H as [->|(r & _ & _ & _ & _ & ->)];
      [done|by apply is_Some_insert].
  - destruct (ScheduleRetry _ _ _ _ _ d) as [res d'] eqn:H. simpl.
    apply ApplyDeliveryResult_effect in H as [->|(r & _ & _ & _ & _ & ->)];
      [done|by apply is_Some_insert].
  - destruct (ClaimOutbox _ _ _ _ _ _ _ d) as [res d'] eqn:H. simpl.
    by apply ClaimOutbox_body in H as [->|(_ & _ & ->)].
  - destruct (MarkPublished _ _ _ _ d) as [res d'] eqn:H. simpl.
    by apply MarkPublished_effect in H as [->|(e & _ & _ & _ & _ & ->)].
  - destruct (PgReplayDeadAtomic _ _ _ _ d) as [res d'] eqn:H. simpl.
    apply PgReplayDeadAtomic_effect in H as [->|(r & _ & _ & _ & _ & _ & ->)];
      [done|by apply is_Some_insert].
  - destruct (ScheduleDue _ _ _ _ _ d) as [res d'] eqn:H. simpl.
    apply atomically_effect in H as [->|[acc Hbody]]; [done|].
    assert (Hok : ScheduleDue Sum256 NoFault locked now limit d = (Ok acc, d'))
      by (by apply atomically_Ok).
    apply ScheduleDue_Ok in Hok as (_ & _ & _ & Hdone & Hkeep & _); [|done].
    destruct (decide (id ∈ (schedule_candidates locked now limit d).*1)) as [Hin|Hout].
    + apply list_elem_of_fmap in Hin as ([k row] & -> & Hin). simpl. rewrite (Hdone _ _ Hin). eauto.
    + by rewrite Hkeep.
Qed.

(** A stored request outlives every call but a deletion. *)
Lemma calls_keep_request cs d id fx :
  db_inv d -> forallb call_ok cs = true -> forallb keeps_tasks cs = true ->
  stored_as d id fx -> stored_as (foldl (fun d c => run c d) d cs) id fx.
Proof.
  revert d. induction cs as [|c cs IH]; intros d Hinv Hok Hk (r & Hr & Hfx); simpl in *.
  { by exists r. }
  apply andb_true_iff in Hok as [Hc Hcs], Hk as [Hk Hks]. apply IH; [|done..|].
  - eapply store_steps_preserve; [by apply call_refines|done].
  - destruct (call_keeps_row c d id) as [r' Hr']; [done|done|eauto|].
    exists r'. split; [done|].
    by destruct (call_row_transition jsonb Sum256 returning_order c d id r r')
      as [->|[-> _]].
Qed.

(** A request with the key of a stored task changes nothing. *)
Lemma CreateOrGet_existing_db f task event d id r :
  tasks d !! id = Some r ->
  CallerID task = caller_id (fixed r) -> IdempotencyKey task = idempotency_key (fixed r) ->
  snd (WithTx f (_ ← CreateNotification jsonb task; InsertOutbox event) d) = d /\
  is_Ok (fst (WithTx f (_ ← CreateNotification jsonb task; InsertOutbox event) d)) = false.
Proof.
  intros Hr Hc Hk.
  assert (Hno : forall b d2, insert_task (TaskID task) (row_of_task task b) d <> (Ok (), d2)).
  { intros b d2 (_ & _ & Hno & _)%insert_task_Ok. simpl in Hno.
    rewrite sql_exists_false in Hno. specialize (Hno id r Hr).
    by rewrite (proj2 (same_key_true _ _ _ _) (conj (eq_sym Hc) (eq_sym Hk))) in Hno. }
  destruct (WithTx _ _ d) as [res d1] eqn:Htx. simpl. split.
  - apply CreateOrGet_tx in Htx as [->|(b & d2 & Hb & H1 & _)]; [done|].
    by apply Hno in H1.
  - destruct res as [[]|]; [|done]. unfold WithTx in Htx. apply atomically_Ok in Htx as [-> Htx].
    apply M_bind_Ok in Htx as ([] & d2 & H1 & _).
    apply CreateNotification_Ok in H1 as (b & _ & H1). by apply Hno in H1.
Qed.

(** If it succeeds, it returns that task. *)
Lemma CreateOrGet_existing f f' task event d id r res d' :
  schema_ok d -> tasks d !! id = Some r ->
  CallerID task = caller_id (fixed r) -> IdempotencyKey task = idempotency_key (fixed r) ->
  CreateOrGet jsonb f f' task event d = (Ok res, d') ->
  d' = d /\ res = Some (keyed_task id r).
Proof.
  intros Hs Hr Hc Hk. unfold CreateOrGet.
  pose proof (CreateOrGet_existing_db f task event d id r Hr Hc Hk) as [Hdb Herr].
  destruct (WithTx _ _ d) as [[[]|e] d1]; [done|]. simpl in Hdb. subst d1.
  destruct (negb _); [done|].
  pose proof (GetByCallerAndKey_db f' (CallerID task) (IdempotencyKey task) d) as Hdb.
  destruct (GetByCallerAndKey _ _ _ d) as [[t|e'] d2] eqn:Hget; [|done].
  simpl in Hdb. intros [= <- <-]. split; [done|].
  apply M_bind_Ok in Hget as Hget'. destruct Hget' as (d0 & d1 & [-> _]%statement_Ok & _).
  rewrite GetByCallerAndKey_NoFault, Hc, Hk, select_same_key with (id := id) in Hget by done.
  by destruct (negb _); simplify_eq.
Qed.

(** What a request that is accepted leaves behind. *)
Lemma CreateOrGet_created f f' task event d d' :
  CreateOrGet jsonb f f' task event d = (Ok None, d') ->
  exists b, jsonb (Body (Snapshot task)) = Some b /\
    task_row_ok (TaskID task) (row_of_task task b) = true /\
    tasks d !! TaskID task = None /\ outbox d !! EventID event = None /\
    d' = {| tasks := <[TaskID task := row_of_task task b]> (tasks d);
            outbox := <[EventID event := row_of_event event]> (outbox d) |}.
Proof.
  unfold CreateOrGet. destruct (WithTx _ _ d) as [[[]|e] d1] eqn:Htx.
  - intros [= <-]. unfold WithTx in Htx. apply atomically_Ok in Htx as [-> Htx].
    apply M_bind_Ok in Htx as ([] & d2 & H1 & H2).
    apply CreateNotification_Ok in H1 as (b & Hb & H1). apply InsertOutbox_Ok in H2.
    apply insert_task_Ok in H1 as (Hok & Hnew & _ & ->).
    apply insert_event_Ok in H2 as (_ & Hn & _ & _ & ->). by exists b.
  - destruct (negb _); [done|]. by destruct (GetByCallerAndKey _ _ _ d1) as [[t|e'] d2].
Qed.

(** An accepted request is still stored after any calls but deletions. *)
Lemma accepted_request_kept f f' task event d d1 cs :
  db_inv d -> fresh_request task event = true ->
  CreateOrGet jsonb f f' task event d = (Ok None, d1) ->
  forallb call_ok cs = true -> forallb keeps_tasks cs = true ->
  let d2 := foldl (fun d c => run c d) d1 cs in
  db_inv d2 /\ exists r, tasks d2 !! TaskID task = Some r /\
    caller_id (fixed r) = CallerID task /\ idempotency_key (fixed r) = IdempotencyKey task /\
    copy_hash (request_hash (fixed r)) = RequestHash task.
Proof.
  intros Hinv Hfresh H1 Hok Hk d2.
  assert (Hinv1 : db_inv d1).
  { eapply store_steps_preserve; [|exact Hinv]. apply optional_step_rtc.
    replace d1 with (snd (CreateOrGet jsonb f f' task event d)) by (by rewrite H1).
    by apply CreateOrGet_refines. }
  apply CreateOrGet_created in H1 as (b & Hb & Hrow & _ & _ & Hd1).
  destruct (calls_keep_request cs d1 (TaskID task) (fixed (row_of_task task b))) as (r & Hr & Hfx);
    [done..| |].
  { exists (row_of_task task b). by rewrite Hd1; simpl; rewrite lookup_insert_eq. }
  split; [eapply store_steps_preserve; [by apply calls_refine|done]|].
  exists r. rewrite Hfx. split_and!; [done..|]. simpl.
  apply copy_hash_id. by apply task_row_ok_hash in Hrow.
Qed.

(** The intake is idempotent.  After a request was accepted,
    whatever the services do short of deleting the task, and however often
    their connections fail, every request of the same caller with the same
    key that gets an answer gets the identifier and the request digest of the
    first one, and changes nothing. *)
Theorem create_idempotent f f' task event d d1 cs g g' task' event' res d3 :
  db_inv d -> fresh_request task event = true ->
  CreateOrGet jsonb f f' task event d = (Ok None, d1) ->
  forallb call_ok cs = true -> forallb keeps_tasks cs = true ->
  CallerID task' = CallerID task -> IdempotencyKey task' = IdempotencyKey task ->
  let d2 := foldl (fun d c => run c d) d1 cs in
  CreateOrGet jsonb g g' task' event' d2 = (Ok res, d3) ->
  d3 = d2 /\ exists t, res = Some t /\ TaskID t = TaskID task /\ RequestHash t = RequestHash task.
Proof.
  intros Hinv Hfresh H1 Hok Hk Hc Hkey d2 H2.
  destruct (accepted_request_kept f f' task event d d1 cs) as (Hinv2 & r & Hr & Hc2 & Hk2 & Hh);
    [done..|].
  apply (CreateOrGet_existing _ _ _ _ _ (TaskID task) r) in H2 as [-> ->];
    [|by apply inv_schema|done|by rewrite Hc2|by rewrite Hk2].
  split; [done|]. eexists. by split_and!.
Qed.

(** The whole behaviour of an intake request when the
    connection holds and the rows satisfy the constraints: a new key inserts
    the task and its event together, a known one inserts nothing and returns
    the stored task. *)
Theorem create_or_get task event d b :
  db_inv d -> jsonb (Body (Snapshot task)) = Some b ->
  task_row_ok (TaskID task) (row_of_task task b) = true ->
  event_row_ok (EventID event) (row_of_event event) = true ->
  AggregateID event = TaskID task ->
  tasks d !! TaskID task = None -> outbox d !! EventID event = None ->
  ((forall id r, tasks d !! id = Some r ->
      same_key (CallerID task) (IdempotencyKey task) id r = false) ->
   CreateOrGet jsonb NoFault NoFault task event d =
     (Ok None, {| tasks := <[TaskID task := row_of_task task b]> (tasks d);
                  outbox := <[EventID event := row_of_event event]> (outbox d) |})) /\
  (forall id r, tasks d !! id = Some r ->
     same_key (CallerID task) (IdempotencyKey task) id r = true ->
     CreateOrGet jsonb NoFault NoFault task event d = (Ok (Some (keyed_task id r)), d)).
Proof.
  intros Hinv Hb Hok Hev Hagg Hnew Hevnew.
  pose proof (CreateOrGet_NoFault jsonb task event d b (inv_schema d Hinv) Hb Hok Hev Hagg Hnew
                Hevnew) as Hrun. split.
  - intros Hno. rewrite Hrun. apply sql_exists_false in Hno. unfold sql_exists in Hno.
    by destruct (sql_select _ _).
  - intros id r Hr [Hc Hk]%same_key_true. rewrite Hrun, <- Hc, <- Hk.
    by rewrite (select_same_key d id r (inv_schema d Hinv) Hr).
Qed.
End Intake.

Lemma create_idempotent_witness :
  exists t, fst (CreateOrGet sample_jsonb NoFault NoFault (sample_request "n9" "k1" 9000)
                   (sample_event "n9" "e9" 9000)
                   (after (create_call "n1" "k1" "e1" 1000
                           :: [CallClaimDelivery NoFault 3000 "n1" "lease-1" 5000])))
              = Ok (Some t) /\ TaskID t = "n1"%string.
Proof.
  eexists. split; [vm_compute; reflexivity|].
  destruct (create_idempotent sample_jsonb sample_sum sample_order NoFault NoFault
    (sample_request "n1" "k1" 1000) (sample_event "n1" "e1" 1000) empty_db
    (after [create_call "n1" "k1" "e1" 1000])
    [CallClaimDelivery NoFault 3000 "n1" "lease-1" 5000] NoFault NoFault
    (sample_request "n9" "k1" 9000) (sample_event "n9" "e9" 9000)
    (Some (keyed_task "n1" claimed_row))
    (after [create_call "n1" "k1" "e1" 1000; CallClaimDelivery NoFault 3000 "n1" "lease-1" 5000]))
    as (_ & t & [= <-] & Hid & _).
  - exact db_inv_empty.
  - reflexivity.
  - vm_compute. reflexivity.
  - reflexivity.
  - reflexivity.
  - reflexivity.
  - reflexivity.
  - vm_compute. reflexivity.
  - reflexivity.
Defined.

Lemma create_or_get_witness :
  fst (CreateOrGet sample_jsonb NoFault NoFault (sample_request "n9" "k9" 9000)
         (sample_event "n9" "e9" 9000) (after history_claimed)) = Ok None.
Proof.
  rewrite (proj1 (create_or_get sample_jsonb (sample_request "n9" "k9" 9000)
    (sample_event "n9" "e9" 9000) (after history_claimed) "{}"
    ltac:(apply after_inv; vm_compute; reflexivity) eq_refl
    ltac:(vm_compute; reflexivity) ltac:(vm_compute; reflexivity) eq_refl
    ltac:(vm_compute; reflexivity) ltac:(vm_compute; reflexivity))); [reflexivity|].
  apply sql_exists_false. vm_compute. reflexivity.
Defined.
