(* ===== verification/OutboxStoreProps.v ===== *)
(** * Correctness of the outbox in the store

    Batches of events claimed by publishers, their exclusion, the compare and
    swap that marks an event published, and the life of an event. *)

From S2P Require Import Prelude GoTime GoStrings Notification Table Schema Store StoreSpec StoreRefine Samples.

(** An event a publisher may claim at [now]. *)
Definition available (locked : gset string) (now : time) (id : string) (e : event_row) : Prop :=
  event_claimable now e = true /\ id ∉ locked.

Lemma candidate_row locked now limit d id :
  id ∈ claim_candidates locked now limit d <->
  exists e, (id, e) ∈ sql_first limit event_created_at
    (fun id e => event_claimable now e && bool_decide (id ∉ locked)) (outbox d).
Proof.
  unfold claim_candidates. rewrite list_elem_of_fmap. split.
  - intros ([k e] & -> & Hin). eauto.
  - intros [e Hin]. by exists (id, e).
Qed.

Lemma candidate_selected locked now limit d id e :
  id ∈ claim_candidates locked now limit d -> outbox d !! id = Some e ->
  (id, e) ∈ sql_first limit event_created_at
    (fun id e => event_claimable now e && bool_decide (id ∉ locked)) (outbox d).
Proof.
  intros (e' & Hin)%candidate_row He. apply elem_of_sql_first in Hin as Hrow.
  destruct Hrow as [Hrow _]. by simplify_eq.
Qed.

Lemma available_predicate locked now id e :
  available locked now id e <-> event_claimable now e && bool_decide (id ∉ locked) = true.
Proof. unfold available. by rewrite andb_true_iff, bool_decide_eq_true. Qed.

Lemma claimed_ids (sel ids : list string) token until (o : gmap string event_row) :
  (forall id, id ∈ ids -> is_Some (o !! id)) ->
  fmap (M := list) EventID (omap (fun id =>
    event_of_row id <$> sql_update (by_ids sel) (set_event_claimed token until) o !! id) ids) = ids.
Proof.
  induction ids as [|id ids IH]; intros Hall; [done|]. simpl.
  destruct (Hall id) as [e He]; [left|].
  rewrite (lookup_claimed _ _ _ _ _ _ He). simpl. f_equal. apply IH. intros. apply Hall. by right.
Qed.

Section Outbox.
Context (returning_order : list OutboxEvent -> list OutboxEvent)
        (returning_perm : forall l, returning_order l ≡ₚ l).

Lemma claimed_batch f locked now limit token until d events d' :
  ClaimOutbox returning_order f locked now limit token until d = (Ok events, d') ->
  forall event, event ∈ events <-> exists id e,
    id ∈ claim_candidates locked now limit d /\ outbox d !! id = Some e /\
    event = event_of_row id (set_event_claimed token until e).
Proof.
  intros (_ & Hd' & ->)%ClaimOutbox_Ok event. rewrite returning_perm, Hd'.
  apply claimed_events_spec.
Qed.

(** The identifiers of a batch, each once. *)
Lemma batch_ids f locked now limit token until d events d' :
  ClaimOutbox returning_order f locked now limit token until d = (Ok events, d') ->
  EventID <$> events ≡ₚ claim_candidates locked now limit d.
Proof.
  intros (_ & Hd' & ->)%ClaimOutbox_Ok. rewrite returning_perm, Hd'. simpl.
  rewrite claimed_ids; [done|]. intros id Hid.
  apply claim_candidates_spec in Hid as (e & He & _). eauto.
Qed.

(** An available event is in the batch, or an older one is. *)
Lemma claimed_or_older f locked now limit token until d events d' id e :
  ClaimOutbox returning_order f locked now limit token until d = (Ok events, d') -> 0 < limit ->
  outbox d !! id = Some e -> available locked now id e ->
  id ∈ EventID <$> events \/
  exists id' e', id' ∈ EventID <$> events /\ outbox d !! id' = Some e' /\ published_at e' = None /\
    event_created_at e' <= event_created_at e.
Proof.
  intros Hrun Hlim He Hav%available_predicate. rewrite (batch_ids _ _ _ _ _ _ _ _ _ Hrun).
  destruct (decide (id ∈ claim_candidates locked now limit d)) as [Hin|Hout]; [by left|right].
  assert (Hnot : (id, e) ∉ sql_first limit event_created_at
    (fun id e => event_claimable now e && bool_decide (id ∉ locked)) (outbox d)).
  { intros Hsel. apply Hout, candidate_row. eauto. }
  pose proof (sql_first_full limit event_created_at _ (outbox d) id e ltac:(lia) He Hav Hnot) as Hlen.
  destruct (sql_first _ _ _ _) as [|[id' e'] rest] eqn:Hfirst; [simpl in Hlen; lia|].
  assert (Hin : (id', e') ∈ sql_first limit event_created_at
    (fun id e => event_claimable now e && bool_decide (id ∉ locked)) (outbox d)) by (rewrite Hfirst; left).
  exists id', e'. rewrite (batch_ids _ _ _ _ _ _ _ _ _ Hrun).
  assert (Hold : event_created_at e' <= event_created_at e)
    by (eapply sql_first_oldest; [exact Hin|exact He|exact Hav|by rewrite Hfirst]).
  pose proof (elem_of_sql_first _ _ _ _ _ _ Hin) as [He' Hc]. unfold event_claimable in Hc. reflect_bools.
  split_and!; [apply candidate_row; eauto|done..].
Qed.

(** A batch of the outbox.  The publisher gets at most the
    limit, no event twice, each one unpublished and free (never claimed, or its
    claim expired); each stored row now carries the publisher's token and
    deadline and one more attempt; all other events and all tasks are
    untouched; and an available event that was left out is not older than any
    event taken, and was left out only because the batch is full. *)
Theorem claim_outbox_batch f locked now limit token until d events d' :
  ClaimOutbox returning_order f locked now limit token until d = (Ok events, d') ->
  NoDup (EventID <$> events) /\ Z.of_nat (length events) <= limit /\
  tasks d' = tasks d /\
  (forall event, event ∈ events -> exists e, outbox d !! EventID event = Some e /\
     available locked now (EventID event) e /\
     event = event_of_row (EventID event) (set_event_claimed token until e) /\
     outbox d' !! EventID event = Some (set_event_claimed token until e)) /\
  (forall id, id ∉ EventID <$> events -> outbox d' !! id = outbox d !! id) /\
  (forall id e, outbox d !! id = Some e -> available locked now id e ->
     id ∉ EventID <$> events ->
     Z.of_nat (length events) = limit /\
     forall event, event ∈ events -> EventCreatedAt event <= event_created_at e).
Proof.
  intros Hrun. pose proof (claimed_batch _ _ _ _ _ _ _ _ _ Hrun) as Hin.
  pose proof (batch_ids _ _ _ _ _ _ _ _ _ Hrun) as Hperm.
  apply ClaimOutbox_Ok in Hrun as (Hlim & Hd' & _).
  assert (Hlen : length events = length (sql_first limit event_created_at
    (fun id e => event_claimable now e && bool_decide (id ∉ locked)) (outbox d))).
  { rewrite <- (length_fmap EventID events), Hperm. apply length_fmap. }
  split_and!.
  - rewrite Hperm. apply claim_candidates_NoDup.
  - rewrite Hlen. by apply sql_first_length.
  - by rewrite Hd'.
  - intros event (id & e & Hid & He & ->)%Hin. exists e. simpl. split_and!; [done| |done|].
    + apply claim_candidates_spec in Hid as (e' & He' & Hc & Hl). by simplify_eq.
    + rewrite Hd'. simpl. by rewrite (lookup_claimed _ _ _ _ _ _ He), decide_True.
  - intros id Hid. rewrite Hperm in Hid. rewrite Hd'. simpl.
    destruct (outbox d !! id) as [e|] eqn:He.
    + by rewrite (lookup_claimed _ _ _ _ _ _ He), decide_False.
    + by rewrite lookup_sql_update, He.
  - intros id e He Hav Hid. rewrite Hperm in Hid. apply available_predicate in Hav.
    assert (Hout : (id, e) ∉ sql_first limit event_created_at
      (fun id e => event_claimable now e && bool_decide (id ∉ locked)) (outbox d)).
    { intros Hsel. apply Hid, candidate_row. eauto. }
    split; [rewrite Hlen; by eapply sql_first_full|].
    intros event (id' & e' & Hid' & He' & ->)%Hin. simpl.
    eapply sql_first_oldest; [by apply candidate_selected|done..].
Qed.

(** Publishers do not share events.  An event claimed until some
    deadline is in no other batch whose clock has not passed the deadline, as
    long as its row is as the first claim left it. *)
Theorem claim_outbox_exclusive f1 locked1 now1 limit1 token1 until1 d events1 d1
    f2 locked2 now2 limit2 token2 until2 d2 events2 d3 event :
  ClaimOutbox returning_order f1 locked1 now1 limit1 token1 until1 d = (Ok events1, d1) ->
  event ∈ events1 ->
  outbox d2 !! EventID event = outbox d1 !! EventID event ->
  now2 <= until1 ->
  ClaimOutbox returning_order f2 locked2 now2 limit2 token2 until2 d2 = (Ok events2, d3) ->
  EventID event ∉ EventID <$> events2.
Proof.
  intros H1 Hev Hrow Hnow H2 Hin.
  apply (claimed_batch _ _ _ _ _ _ _ _ _ H1) in Hev as (id & e & Hid & He & ->).
  apply ClaimOutbox_Ok in H1 as (_ & -> & _). simpl in Hrow, Hin.
  rewrite (lookup_claimed _ _ _ _ _ _ He), decide_True in Hrow by done.
  rewrite (batch_ids _ _ _ _ _ _ _ _ _ H2) in Hin.
  apply claim_candidates_spec in Hin as (e2 & He2 & Hc & _). rewrite Hrow in He2. simplify_eq.
  unfold event_claimable in Hc. simpl in Hc. reflect_bools. lia.
Qed.
End Outbox.

(** Marking an event published is a compare and swap on the
    claim token.  The publisher that holds the claim gets [true] and the event
    is published; any other (its claim was taken over, or the event is already
    published) gets [false] and changes nothing.  A published event is never
    claimable again, and no token marks it a second time. *)
Theorem mark_published_cas eid token at_ d e :
  db_inv d -> outbox d !! eid = Some e -> text_ok token = true ->
  MarkPublished NoFault eid token at_ d =
    (if holds_claim token e
     then (Ok true, set_outbox (<[eid := set_event_published at_ e]> (outbox d)) d)
     else (Ok false, d)) /\
  (forall now, event_claimable now (set_event_published at_ e) = false) /\
  (forall token', holds_claim token' (set_event_published at_ e) = false).
Proof.
  intros Hinv He Htok. split_and!; [|done|done]. rewrite MarkPublished_NoFault, He. cbn [forallb].
  pose proof (sk_event_ok d (inv_schema d Hinv) eid e He) as Hok.
  rewrite (event_row_ok_id _ _ Hok), Htok. cbn [andb negb]. destruct (holds_claim token e); [|done].
  assert (event_row_ok eid (set_event_published at_ e) = true) as ->; [|done].
  unfold event_row_ok in *. simpl. rewrite !andb_true_iff in *. simpl. tauto.
Qed.

(** What may happen to an event: a claim, or its publication by the holder of
    a claim. *)
Inductive event_transition (e : event_row) : event_row -> Prop :=
| event_claimed token until :
    published_at e = None -> event_transition e (set_event_claimed token until e)
| event_published token at_ :
    published_at e = None -> claim_token e = Some token ->
    event_transition e (set_event_published at_ e).

Lemma store_step_event d d' eid e e' :
  store_step d d' -> outbox d !! eid = Some e -> outbox d' !! eid = Some e' ->
  e' = e \/ event_transition e e'.
Proof.
  intros Hstep He He'.
  destruct Hstep as [| | | | | |ids now token until Hids| |]; simpl in *; lookup_cases;
    try (by left); try congruence.
  - unfold by_ids. case_bool_decide as Hin; [|by left]. right.
    destruct (Hids _ _ Hin He) as [Hc _]. unfold event_claimable in Hc. reflect_bools.
    by constructor.
  - right. by eapply event_published.
Qed.

Lemma call_event_transition jsonb Sum256 returning_order c d eid e e' :
  db_inv d -> call_ok c = true ->
  outbox d !! eid = Some e -> outbox (run_call jsonb Sum256 returning_order c d) !! eid = Some e' ->
  e' = e \/ event_transition e e'.
Proof.
  intros Hinv Hok He He'.
  pose proof (call_one_step jsonb Sum256 returning_order c d Hok) as Hone.
  destruct c; try (destruct Hone as [|d' Hstep]; [left; congruence|by eapply store_step_event]).
  simpl in He'. destruct (ScheduleDue _ _ _ _ _ d) as [res d'] eqn:H. simpl in He'.
  apply atomically_effect in H as [->|[acc Hbody]]; [left; congruence|].
  assert (Hsched : ScheduleDue Sum256 NoFault locked now limit d = (Ok acc, d'))
    by (by apply atomically_Ok).
  apply ScheduleDue_Ok in Hsched as (_ & _ & _ & _ & _ & _ & Hsub & _); [|done].
  left. rewrite (lookup_weaken _ _ _ _ He Hsub) in He'. congruence.
Qed.

(** An event never changes its task, generation, type, payload
    or creation time; its attempts only grow; once published it never changes
    again. *)
Theorem event_life jsonb Sum256 returning_order c d eid e e' :
  db_inv d -> call_ok c = true ->
  outbox d !! eid = Some e -> outbox (run_call jsonb Sum256 returning_order c d) !! eid = Some e' ->
  aggregate_id e' = aggregate_id e /\ event_generation e' = event_generation e /\
  event_type e' = event_type e /\ payload e' = payload e /\
  event_created_at e' = event_created_at e /\
  publish_attempts e <= publish_attempts e' /\
  (is_Some (published_at e) -> e' = e) /\
  (published_at e = None -> is_Some (published_at e') -> is_Some (claim_token e)).
Proof.
  intros Hinv Hok He He'.
  destruct (call_event_transition _ _ _ _ _ _ _ _ Hinv Hok He He') as [->|Htr].
  - split_and!; try done. intros ->. by intros [? ?].
  - destruct Htr as [token until Hp|token at_ Hp Hc]; simpl; rewrite Hp;
      split_and!; try done; try lia; by intros [].
Qed.

(** ** Instances *)

(** The first batch of one event, and a later one while its claim holds. *)
Definition first_claim : M db (list OutboxEvent) :=
  ClaimOutbox sample_order NoFault ∅ 3000 1 "pub-1" 33000.
Definition second_claim : M db (list OutboxEvent) :=
  ClaimOutbox sample_order NoFault ∅ 4000 5 "pub-2" 34000.

Definition claimed_event (id eid token : string) (created until : time) : OutboxEvent :=
  event_of_row eid (set_event_claimed token until (row_of_event (sample_event id eid created))).

Example first_claim_result :
  fst (first_claim (after history_created)) = Ok [claimed_event "n1" "e1" "pub-1" 1000 33000].
Proof. vm_compute. reflexivity. Qed.

Lemma claim_outbox_batch_witness :
  NoDup (EventID <$> [claimed_event "n1" "e1" "pub-1" 1000 33000]) /\
  tasks (snd (first_claim (after history_created))) = tasks (after history_created).
Proof.
  destruct (claim_outbox_batch sample_order (fun l => Permutation_refl l) NoFault ∅ 3000 1 "pub-1"
    33000 (after history_created) [claimed_event "n1" "e1" "pub-1" 1000 33000]
    (snd (first_claim (after history_created)))) as (H1 & _ & H2 & _).
  - vm_compute. reflexivity.
  - by split.
Defined.

Lemma claim_outbox_exclusive_witness :
  "e1"%string ∉ EventID <$> [claimed_event "n2" "e2" "pub-2" 2000 34000].
Proof.
  refine (claim_outbox_exclusive sample_order (fun l => Permutation_refl l)
    NoFault ∅ 3000 1 "pub-1" 33000 (after history_created)
    [claimed_event "n1" "e1" "pub-1" 1000 33000] (snd (first_claim (after history_created)))
    NoFault ∅ 4000 5 "pub-2" 34000 (snd (first_claim (after history_created)))
    [claimed_event "n2" "e2" "pub-2" 2000 34000]
    (snd (second_claim (snd (first_claim (after history_created)))))
    (claimed_event "n1" "e1" "pub-1" 1000 33000) _ _ eq_refl _ _).
  - vm_compute. reflexivity.
  - left.
  - lia.
  - vm_compute. reflexivity.
Defined.

Lemma mark_published_cas_witness :
  fst (MarkPublished NoFault "e1" "pub-0" 5000 (after history_created)) = Ok false.
Proof.
  rewrite (proj1 (mark_published_cas "e1" "pub-0" 5000 (after history_created)
    (row_of_event (sample_event "n1" "e1" 1000))
    ltac:(apply after_inv; vm_compute; reflexivity) ltac:(vm_compute; reflexivity) eq_refl)).
  reflexivity.
Defined.

Lemma event_life_witness :
  event_generation (set_event_claimed "pub-1" 33000 (row_of_event (sample_event "n1" "e1" 1000))) = 0.
Proof.
  exact (proj1 (proj2 (event_life sample_jsonb sample_sum sample_order
    (CallClaimOutbox NoFault ∅ 3000 1 "pub-1" 33000) (after history_created) "e1"
    (row_of_event (sample_event "n1" "e1" 1000)) _
    ltac:(apply after_inv; vm_compute; reflexivity) eq_refl
    ltac:(vm_compute; reflexivity) ltac:(vm_compute; reflexivity)))).
Defined.
