(* ===== verification/RetryStoreProps.v ===== *)
(** * Correctness of scheduling, replay and retention in the store *)

From S2P Require Import Prelude GoTime GoStrings Notification Table Schema Store StoreSpec StoreRefine Samples StoreProps.

Definition no_counts : ScheduleResult := mkScheduleResult 0 0 0.

Lemma count_result_total now l acc :
  Scheduled (foldl (count_result now) acc l) + Dead (foldl (count_result now) acc l)
  = Scheduled acc + Dead acc + Z.of_nat (length l).
Proof.
  revert acc. induction l as [|r l IH]; intros acc; simpl; [lia|]. rewrite IH.
  unfold count_result. destruct (exhausted now r); simpl; lia.
Qed.

Section Retry.
Context (Sum256 : list Z -> list Z).

(** One run of the scheduler, when the connection holds,
    digests are 32 bytes and event identifiers do not collide.  Every task of
    the batch is replaced by its dead row (attempts or lifetime used up) or by
    a pending row of the next generation together with exactly one new event,
    in due order, and the counters say how many of each; the call cannot fail. *)
Theorem schedule_due_run locked now limit d :
  (forall l, Forall is_byte (Sum256 l) /\ length (Sum256 l) = 32%nat) ->
  db_inv d -> 0 <= limit ->
  let batch := schedule_candidates locked now limit d in
  (forall id r, (id, r) ∈ batch -> generation r < 2 ^ 31 - 1 /\
     outbox d !! retry_event_id Sum256 id (generation r + 1) = None) ->
  NoDup ((fun c => retry_event_id Sum256 c.1 (generation c.2 + 1)) <$> batch) ->
  ScheduleDue Sum256 NoFault locked now limit d =
    (Ok (foldl (count_result now) no_counts batch.*2), foldl (scheduled_db Sum256 now) d batch).
Proof.
  intros Hsum Hinv Hlim batch Hfree Hdist. unfold ScheduleDue, atomically.
  rewrite (proj2 (Z.ltb_ge limit 0)) by done.
  unfold mbind, M_bind. unfold gets at 1.
  fold (schedule_candidates locked now limit d). fold batch. fold no_counts.
  rewrite (schedule_loop_run Sum256 Hsum); [done|done|].
  split; [|apply sql_first_NoDup|done|by intros id r Hin; apply Hfree].
  intros id r Hin. apply schedule_candidates_spec in Hin as Hspec.
  destruct Hspec as (Hr & Hdue & _). by destruct (Hfree id r Hin).
Qed.

(** C24 (functional): whatever a run that succeeds leaves behind.  It handles
    at most [limit] tasks, all of them due and not held by another run; it
    counts each once; no other task changes; and a due task it leaves was left
    because the batch was full of tasks due no later. *)
Theorem schedule_due_batch f locked now limit d acc d' :
  db_inv d ->
  ScheduleDue Sum256 f locked now limit d = (Ok acc, d') ->
  exists batch : list (string * task_row),
    NoDup batch.*1 /\ Scheduled acc + Dead acc = Z.of_nat (length batch) /\
    Z.of_nat (length batch) <= limit /\
    (forall id r, (id, r) ∈ batch ->
       tasks d !! id = Some r /\ task_due now r = true /\ id ∉ locked /\
       tasks d' !! id = Some (scheduled_row now r) /\
       (status (scheduled_row now r) = StatusPending ->
        outbox d !! retry_event_id Sum256 id (generation r + 1) = None /\
        outbox d' !! retry_event_id Sum256 id (generation r + 1)
          = Some (retry_event id (generation r + 1) now))) /\
    (forall id, id ∉ batch.*1 -> tasks d' !! id = tasks d !! id) /\
    (forall id r, tasks d !! id = Some r -> task_due now r = true -> id ∉ locked ->
       id ∉ batch.*1 ->
       Z.of_nat (length batch) = limit /\ forall id' r', (id', r') ∈ batch -> due_key r' <= due_key r).
Proof.
  intros Hinv Hrun. apply ScheduleDue_Ok in Hrun as (Hlim & Hsteps & Hacc & Hdone & Hkeep & Hev & Hsub & _);
    [|done].
  exists (schedule_candidates locked now limit d). split_and!.
  - apply sql_first_NoDup.
  - rewrite Hacc, count_result_total, length_fmap. simpl. lia.
  - by apply sql_first_length.
  - intros id r Hin. apply schedule_candidates_spec in Hin as Hspec.
    destruct Hspec as (Hr & Hdue & Hl). split_and!; [done..|by apply Hdone|].
    unfold scheduled_row. destruct (exhausted now r) eqn:Hex; [done|]. intros _.
    split; [|by apply Hev].
    destruct (outbox d !! _) as [e|] eqn:He; [|done]. exfalso.
    pose proof (lookup_weaken _ _ _ _ He Hsub) as He'. rewrite (Hev _ _ Hin Hex) in He'.
    simplify_eq. pose proof (inv_bounded d Hinv _ _ r He) as Hb. simpl in Hb. specialize (Hb Hr). lia.
  - done.
  - intros id r Hr Hdue Hl Hout.
    assert (Hsel : task_due now r && bool_decide (id ∉ locked) = true)
      by (rewrite Hdue; by apply bool_decide_eq_true).
    assert (Hnot : (id, r) ∉ schedule_candidates locked now limit d).
    { intros Hin. apply Hout. by apply (list_elem_of_fmap_2 fst _ (id, r)). }
    split; [by eapply sql_first_full|].
    intros id' r' Hin'. by eapply sql_first_oldest.
Qed.
End Retry.

(** ** Replay *)

Lemma set_replayed_ok now id r :
  task_row_ok id r = true -> generation r < 2 ^ 31 - 1 -> task_row_ok id (set_replayed now r) = true.
Proof.
  unfold task_row_ok, int4_ok. simpl. rewrite !andb_true_iff. intros H Hg.
  split_and!; try tauto; lia.
Qed.

(** A replay.  A dead task becomes pending in a new
    generation, keeping its attempts and its request, with one new event;
    for a task in any other state, or none, the call answers [false] and
    changes nothing; an event identifier already in use makes the whole
    transaction fail and changes nothing. *)
Lemma PgReplayDeadAtomic_NoFault id now eid d :
  db_inv d -> text_between 1 64 eid = true ->
  PgReplayDeadAtomic NoFault id now eid d =
    if negb (text_ok id) then (Err (Wrapped "update replay task" bad_text), d) else
    match tasks d !! id with
    | Some r =>
        if has_status StatusDead r then
          if task_row_ok id (set_replayed now r) then
            match outbox d !! eid with
            | None =>
                (Ok true, {| tasks := <[id := set_replayed now r]> (tasks d);
                             outbox := <[eid := retry_event id (generation r + 1) now]> (outbox d) |})
            | Some _ => (Err (Wrapped "insert replay outbox" (PgError "outbox_events_pkey")), d)
            end
          else (Err (Wrapped "update replay task" (PgError "notification_tasks_check")), d)
        else (Ok false, d)
    | None => (Ok false, d)
    end.
Proof.
  intros Hinv Heid. unfold PgReplayDeadAtomic, atomically, wrapM. unfold mbind, M_bind, texts. cbn [forallb].
  destruct (text_ok id); [cbn [andb negb]|done].
  rewrite update_task_by_id. destruct (tasks d !! id) as [r|] eqn:Hr; [|done].
  destruct (has_status StatusDead r) eqn:Hst; [|done].
  destruct (task_row_ok id (set_replayed now r)) eqn:Hok; [|done]. simpl.
  rewrite lookup_insert_eq. simpl.
  assert (Hev : event_row_ok eid (retry_event id (generation r + 1) now) = true).
  { unfold event_row_ok. simpl. rewrite Heid.
    pose proof (sk_task_ok d (inv_schema d Hinv) id r Hr) as Hid. apply task_row_ok_id in Hid.
    rewrite Hid. assert (text_between 1 128 "notification.ready" = true) as -> by reflexivity.
    unfold task_row_ok in Hok. simpl in Hok. unfold int4_ok in *. reflect_bools. lia. }
  unfold insert_event. rewrite Hev. simpl.
  destruct (outbox d !! eid) as [e|]; [by rewrite bool_decide_eq_true_2|].
  rewrite bool_decide_eq_false_2 by (by intros []).
  rewrite (next_generation_free d id r) by (done || by destruct Hinv).
  simpl. by rewrite bool_decide_eq_true_2 by (rewrite lookup_insert_eq; eauto).
Qed.

(** A counterexample to the outbox log: [ReplayDead] of [retry.go] alone
    makes a dead task pending without an event of the new generation, so the
    outbox no longer has an event for every generation: the task would wait
    for ever, which is why the service replays with [ReplayDeadAtomic]. *)
Theorem ReplayDead_without_event f id now d d' :
  db_inv d -> ReplayDead f id now d = (Ok true, d') ->
  exists r', tasks d' !! id = Some r' /\ status r' = StatusPending /\
    (forall eid e, outbox d' !! eid = Some e -> aggregate_id e = id ->
       event_generation e <> generation r') /\
    ~ log_complete d'.
Proof.
  intros Hinv Hrun. apply statement_Ok in Hrun as [-> Hrun]. apply texts_then in Hrun as [_ Hrun].
  apply M_bind_Ok in Hrun as (n & d1 & Hu & Hrest). rewrite update_task_by_id in Hu.
  destruct (tasks d !! id) as [r|] eqn:Hr; [|by simplify_eq/=].
  destruct (has_status StatusDead r) eqn:Hst; [|by simplify_eq/=].
  destruct (task_row_ok id (set_replayed now r)) eqn:Hok; [|done].
  injection Hu as <- <-. injection Hrest as <-.
  assert (Hno : forall eid e, outbox d !! eid = Some e -> aggregate_id e = id ->
            event_generation e <> generation r + 1).
  { intros eid e He <-. pose proof (inv_bounded d Hinv eid e r He Hr). lia. }
  exists (set_replayed now r). simpl. rewrite lookup_insert_eq. split_and!; [done..|].
  intros Hc. destruct (Hc id (set_replayed now r) (generation r + 1)) as (eid & e & He & Ha & Hg).
  - simpl. by rewrite lookup_insert_eq.
  - simpl. unfold task_row_ok in Hok. simpl in Hok. reflect_bools. lia.
  - by apply (Hno eid e).
Qed.

(** ** Retention *)

(** C26 (safety): retention deletes only tasks that are delivered or dead,
    whose last change is older than the cutoff, and all of whose events are
    published; it deletes at most [limit] of them, the oldest first, counts
    them, and takes exactly their events along. *)
Theorem retention_safe f locked cutoff limit d n d' :
  db_inv d -> DeleteTerminalBefore f locked cutoff limit d = (Ok n, d') ->
  0 <= n <= limit /\
  (forall id r, tasks d !! id = Some r ->
     tasks d' !! id = Some r \/
     (tasks d' !! id = None /\ id ∉ locked /\
      (status r = StatusDelivered \/ status r = StatusDead) /\ updated_at r < cutoff /\
      forall eid e, outbox d !! eid = Some e -> aggregate_id e = id -> is_Some (published_at e))) /\
  (forall id, is_Some (tasks d' !! id) -> tasks d' !! id = tasks d !! id) /\
  (forall eid e, outbox d' !! eid = Some e <->
     outbox d !! eid = Some e /\ is_Some (tasks d' !! aggregate_id e)).
Proof.
  intros Hinv Hrun. unfold DeleteTerminalBefore in Hrun. apply statement_Ok in Hrun as [_ Hrun].
  case_match eqn:Hlim; [done|]. apply Z.ltb_ge in Hlim.
  apply M_bind_Ok in Hrun as (ids & d1 & [= <- <-] & Hrun).
  set (sel := sql_first limit updated_at _ (tasks d)) in Hrun.
  assert (Hsel : forall id r, (id, r) ∈ sel ->
    tasks d !! id = Some r /\ task_expired cutoff (outbox d) id r = true /\ id ∉ locked).
  { intros id r Hin. apply elem_of_sql_first in Hin as [Hr HP]. by reflect_bools. }
  injection Hrun as <- <-. simpl. split_and!.
  - unfold sql_affected. lia.
  - etrans; [apply sql_affected_by_ids_le|]. rewrite length_fmap. by apply sql_first_length.
  - intros id r Hr. unfold sql_delete. destruct (decide (id ∈ sel.*1)) as [Hin|Hout].
    + right. apply list_elem_of_fmap in Hin as ([k r'] & -> & Hin). simpl in *.
      destruct (Hsel k r' Hin) as (Hr' & Hexp & Hl). simplify_eq. split_and!; [|done|..].
      * apply map_lookup_filter_None_2. right. intros x Hx. simpl. unfold by_ids.
        rewrite bool_decide_eq_true_2; [done|]. by apply (list_elem_of_fmap_2 fst _ (k, r)).
      * unfold task_expired, has_status in Hexp. reflect_bools.
        match goal with H : _ || _ = true |- _ => apply orb_true_iff in H as [H|H] end;
          reflect_bools; auto.
      * unfold task_expired in Hexp. by reflect_bools.
      * intros eid e He Ha. unfold task_expired in Hexp. reflect_bools.
        match goal with H : sql_exists _ _ = false |- _ => rewrite sql_exists_false in H;
          specialize (H eid e He) end.
        destruct (published_at e) eqn:Hp; [eauto|]. by rewrite !bool_decide_eq_true_2 in *.
    + left. apply map_lookup_filter_Some_2; [done|]. simpl. unfold by_ids.
      by apply bool_decide_eq_false.
  - intros id [r Hr]. rewrite Hr. by apply lookup_sql_delete_Some in Hr as [-> _].
  - intros eid e. rewrite lookup_sql_delete_Some, negb_false_iff, bool_decide_eq_true. done.
Qed.

(** ** Instances *)

(** The row of the first task after its first failure, and when it is dead. *)
Definition waiting_row : task_row := set_result (failed_result (Some 6000)) claimed_row.
Definition dead_row : task_row := set_result (failed_result None) claimed_row.

Example waiting_batch :
  schedule_candidates ∅ 6000 10 (after history_retry_wait) = [("n1"%string, waiting_row)].
Proof. vm_compute. reflexivity. Qed.

Example dead_row_stored : tasks (after history_dead) !! "n1"%string = Some dead_row.
Proof. vm_compute. reflexivity. Qed.

Lemma schedule_due_run_witness :
  fst (ScheduleDue sample_sum NoFault ∅ 6000 10 (after history_retry_wait))
    = Ok (mkScheduleResult 1 0 0).
Proof.
  rewrite (schedule_due_run sample_sum ∅ 6000 10 (after history_retry_wait) sample_sum_bytes
    ltac:(apply after_inv; vm_compute; reflexivity)).
  - rewrite waiting_batch. vm_compute. reflexivity.
  - lia.
  - rewrite waiting_batch. intros id r [= -> ->]%list_elem_of_singleton.
    split; [vm_compute; reflexivity|vm_compute; reflexivity].
  - rewrite waiting_batch. apply NoDup_singleton.
Defined.

Lemma schedule_due_batch_witness :
  exists batch : list (string * task_row), Z.of_nat (length batch) <= 10 /\
    Scheduled (mkScheduleResult 1 0 0) + Dead (mkScheduleResult 1 0 0) = Z.of_nat (length batch).
Proof.
  refine (let '(ex_intro _ b (conj _ (conj H1 (conj H2 _)))) :=
    schedule_due_batch sample_sum NoFault ∅ 6000 10 (after history_retry_wait)
      (mkScheduleResult 1 0 0)
      (snd (ScheduleDue sample_sum NoFault ∅ 6000 10 (after history_retry_wait))) _ _
    in ex_intro _ b (conj H2 H1)).
  - apply after_inv. vm_compute. reflexivity.
  - vm_compute. reflexivity.
Defined.

Lemma PgReplayDeadAtomic_NoFault_witness :
  fst (PgReplayDeadAtomic NoFault "n1" 9000 "e9" (after history_dead)) = Ok true.
Proof.
  rewrite (PgReplayDeadAtomic_NoFault "n1" 9000 "e9" (after history_dead)
    ltac:(apply after_inv; vm_compute; reflexivity) eq_refl).
  cbn [negb]. change (text_ok "n1") with true. cbn [negb]. rewrite dead_row_stored. vm_compute. reflexivity.
Defined.

Lemma ReplayDead_without_event_witness :
  ~ log_complete (snd (ReplayDead NoFault "n1" 9000 (after history_dead))).
Proof.
  destruct (ReplayDead_without_event NoFault "n1" 9000 (after history_dead)
    (snd (ReplayDead NoFault "n1" 9000 (after history_dead)))) as (r' & _ & _ & _ & H).
  - apply after_inv. vm_compute. reflexivity.
  - vm_compute. reflexivity.
  - exact H.
Defined.

(** The first task is dead and its event is published. *)
Definition history_published : list store_call :=
  history_dead ++ [CallClaimOutbox NoFault ∅ 3000 1 "pub-1" 33000;
                   CallMarkPublished NoFault "e1" "pub-1" 4000].

Lemma retention_safe_witness :
  0 <= 1 <= 10 /\
  fst (DeleteTerminalBefore NoFault ∅ 9000 10 (after history_published)) = Ok 1.
Proof.
  assert (Hrun : fst (DeleteTerminalBefore NoFault ∅ 9000 10 (after history_published)) = Ok 1)
    by (vm_compute; reflexivity).
  split; [|exact Hrun].
  refine (proj1 (retention_safe NoFault ∅ 9000 10 (after history_published) 1
    (snd (DeleteTerminalBefore NoFault ∅ 9000 10 (after history_published))) _ _)).
  - apply after_inv. vm_compute. reflexivity.
  - vm_compute. reflexivity.
Defined.
