(* ===== verification/Limiter.v ===== *)
(** * The concurrency limiter (src/internal/delivery/limiter.go)

    One [Limiter] is shared by all worker goroutines.  The code between
    [mu.Lock] and [mu.Unlock] is one atomic function on the table of
    destinations; a goroutine inside [Acquire] is a thread with a program
    counter, and [limiter_step] interleaves them.

    A [chan struct{}] that is only ever closed is represented by the number of
    channels its capacity had before it (its epoch): the channel is closed
    exactly when the capacity has moved on to a later epoch. *)

From S2P Require Import Prelude.

Record destinationCapacity := mkCapacity {
  limit : Z;
  active : Z;
  changed : nat;
}.

Abbreviation Limiter := (gmap string destinationCapacity) (only parsing).

Definition NewLimiter : Limiter := ∅.

(** [close(capacity.changed); capacity.changed = make(chan struct{})]. *)
Definition notify (c : destinationCapacity) : destinationCapacity :=
  {| limit := limit c; active := active c; changed := S (changed c) |}.

(** What a goroutine finds inside the lock: a permit, or the channel to wait on. *)
Inductive acquire_result := Granted | MustWait (channel : nat).

(** The critical section of [Acquire]. *)
Definition acquire_locked (destinationID : string) (lim : Z) (l : Limiter)
    : acquire_result * Limiter :=
  let c :=
    match l !! destinationID with
    | None => {| limit := lim; active := 0; changed := 0 |}
    | Some c =>
        if lim <? limit c
        then notify {| limit := lim; active := active c; changed := changed c |}
        else c
    end in
  if active c <? limit c
  then (Granted, <[destinationID := {| limit := limit c; active := active c + 1;
                                       changed := changed c |}]> l)
  else (MustWait (changed c), <[destinationID := c]> l).

(** The critical section of the release function; its capacity is the one of
    the table, whose entries are never removed or replaced. *)
Definition release_locked (destinationID : string) (l : Limiter) : Limiter :=
  alter (fun c => notify {| limit := limit c; active := active c - 1; changed := changed c |})
    destinationID l.

(** Whether the channel a goroutine waits on has been closed. *)
Definition closed (destinationID : string) (channel : nat) (l : Limiter) : bool :=
  match l !! destinationID with
  | Some c => (channel <? changed c)%nat
  | None => false
  end.

(** ** Goroutines *)

(** Where a call of [Acquire] is, and its release function afterwards:
    [Holding] until the [sync.Once] has run, [Released] from then on. *)
Inductive thread :=
| Trying (destinationID : string) (lim : Z)
| Waiting (destinationID : string) (lim : Z) (channel : nat)
| Holding (destinationID : string)
| Released (destinationID : string)
| Failed.

Record limiter_state := mkLimiterState {
  table : Limiter;
  threads : gmap nat thread;
}.

Definition initial : limiter_state := {| table := NewLimiter; threads := ∅ |}.

(** [Acquire] rejects an empty destination and a limit below one. *)
Definition acquire_ok (destinationID : string) (lim : Z) : bool :=
  negb (bool_decide (destinationID = ""%string) || (lim <? 1)).

Definition set_thread (t : nat) (th : thread) (s : limiter_state) : limiter_state :=
  {| table := table s; threads := <[t := th]> (threads s) |}.

(** The function [Acquire] returns, [once.Do] around its body. *)
Definition release (t : nat) (s : limiter_state) : limiter_state :=
  match threads s !! t with
  | Some (Holding destinationID) =>
      {| table := release_locked destinationID (table s);
         threads := <[t := Released destinationID]> (threads s) |}
  | _ => s
  end.

(** One step of some goroutine. *)
Inductive limiter_step (s : limiter_state) : limiter_state -> Prop :=
| call_acquire t destinationID lim :
    threads s !! t = None -> acquire_ok destinationID lim = true ->
    limiter_step s (set_thread t (Trying destinationID lim) s)
| call_rejected t destinationID lim :
    threads s !! t = None -> acquire_ok destinationID lim = false ->
    limiter_step s (set_thread t Failed s)
| cancelled_trying t destinationID lim :
    threads s !! t = Some (Trying destinationID lim) ->
    limiter_step s (set_thread t Failed s)
| cancelled_waiting t destinationID lim channel :
    threads s !! t = Some (Waiting destinationID lim channel) ->
    limiter_step s (set_thread t Failed s)
| lock_granted t destinationID lim l' :
    threads s !! t = Some (Trying destinationID lim) ->
    acquire_locked destinationID lim (table s) = (Granted, l') ->
    limiter_step s (mkLimiterState l' (<[t := Holding destinationID]> (threads s)))
| lock_wait t destinationID lim channel l' :
    threads s !! t = Some (Trying destinationID lim) ->
    acquire_locked destinationID lim (table s) = (MustWait channel, l') ->
    limiter_step s (mkLimiterState l' (<[t := Waiting destinationID lim channel]> (threads s)))
| wake t destinationID lim channel :
    threads s !! t = Some (Waiting destinationID lim channel) ->
    closed destinationID channel (table s) = true ->
    limiter_step s (set_thread t (Trying destinationID lim) s)
| call_release t destinationID :
    threads s !! t = Some (Holding destinationID) \/
    threads s !! t = Some (Released destinationID) ->
    limiter_step s (release t s).

Definition reachable (s : limiter_state) : Prop := rtc limiter_step initial s.

(** ** Counting permits *)

Definition holds (destinationID : string) (th : thread) : bool :=
  match th with Holding d => bool_decide (d = destinationID) | _ => false end.

Definition holders (destinationID : string) (m : gmap nat thread) : Z :=
  map_fold (fun _ th n => n + Z.b2z (holds destinationID th)) 0 m.

Lemma holders_insert_new d t th m :
  m !! t = None -> holders d (<[t := th]> m) = holders d m + Z.b2z (holds d th).
Proof.
  intros Ht. unfold holders. rewrite map_fold_insert_L; [done| |done].
  intros; lia.
Qed.

Lemma holders_insert d t th th0 m :
  m !! t = Some th0 ->
  holders d (<[t := th]> m) = holders d m - Z.b2z (holds d th0) + Z.b2z (holds d th).
Proof.
  intros Ht.
  rewrite <- (insert_delete_id m t th0) at 2 by done.
  rewrite <- (insert_delete_eq m t th).
  rewrite !holders_insert_new by apply lookup_delete_eq. lia.
Qed.

Lemma holders_nonneg d m : 0 <= holders d m.
Proof.
  induction m as [|t th m Ht IH] using map_ind; [done|].
  rewrite holders_insert_new by done. destruct (holds d th); simpl; lia.
Qed.

(** ** The invariant *)

Definition active_of (d : string) (l : Limiter) : Z :=
  match l !! d with Some c => active c | None => 0 end.

Record limiter_inv (s : limiter_state) : Prop := {
  permits : forall d, active_of d (table s) = holders d (threads s);
  limits_positive : forall d c, table s !! d = Some c -> 1 <= limit c;
  trying_positive : forall t d lim, threads s !! t = Some (Trying d lim) -> 1 <= lim;
  waiting_known : forall t d lim ch, threads s !! t = Some (Waiting d lim ch) ->
    1 <= lim /\ exists c, table s !! d = Some c /\ (ch <= changed c)%nat /\
      (ch = changed c -> limit c <= active c);
}.

(** The critical section, by its effect on the capacity. *)
Lemma acquire_locked_spec d lim l r l' :
  acquire_locked d lim l = (r, l') ->
  exists c', l' = <[d := c']> l /\ limit c' <= lim /\
    match l !! d with
    | None => limit c' = lim /\ changed c' = 0%nat
    | Some c => limit c' = Z.min (limit c) lim /\ (changed c <= changed c')%nat /\
        (changed c = changed c' -> limit c' = limit c)
    end /\
    match r with
    | Granted => active c' = active_of d l + 1 /\ active c' <= limit c'
    | MustWait ch => active c' = active_of d l /\ limit c' <= active c' /\ ch = changed c'
    end.
Proof.
  unfold acquire_locked, active_of, notify.
  destruct (l !! d) as [c|] eqn:Hd; [destruct (lim <? limit c) eqn:Hlow|];
    simpl; case_match eqn:Hfree; intros [= <- <-]; (eexists; split; [reflexivity|]);
    cbn [limit active changed]; split_and!; try done; lia.
Qed.

Lemma active_of_insert d d' c l :
  active_of d (<[d' := c]> l) = if decide (d = d') then active c else active_of d l.
Proof.
  unfold active_of. case_decide as Hd; [subst; by rewrite lookup_insert_eq|].
  by rewrite lookup_insert_ne by congruence.
Qed.

Lemma active_of_release d d' l :
  active_of d (release_locked d' l) =
    active_of d l - (if decide (d = d') then (if l !! d' then 1 else 0) else 0).
Proof.
  unfold active_of, release_locked. case_decide as Hd.
  - subst. rewrite lookup_alter_eq. destruct (l !! d'); simpl; lia.
  - rewrite lookup_alter_ne by congruence. destruct (l !! d); lia.
Qed.

(** A waiter stays on an open channel only while its destination is full. *)
Definition waiter_ok (l : Limiter) (d : string) (lim : Z) (ch : nat) : Prop :=
  1 <= lim /\ exists c, l !! d = Some c /\ (ch <= changed c)%nat /\
    (ch = changed c -> limit c <= active c).

Lemma waiter_ok_acquire d lim l r l' d' lim' ch' :
  acquire_locked d lim l = (r, l') ->
  waiter_ok l d' lim' ch' -> waiter_ok l' d' lim' ch'.
Proof.
  intros (c' & -> & _ & Hold & Hr)%acquire_locked_spec (Hlim & c & Hc & Hch & Hfull).
  split; [done|]. destruct (decide (d = d')) as [->|Hne].
  - rewrite lookup_insert_eq. exists c'. rewrite Hc in Hold.
    destruct Hold as (Hl & Hmono & Hsame). unfold active_of in Hr. rewrite Hc in Hr.
    split_and!; [done|lia|]. intros ->. assert (changed c = changed c') as Heq by lia.
    specialize (Hfull (eq_sym Heq)). rewrite (Hsame Heq). destruct r; lia.
  - rewrite lookup_insert_ne by done. by exists c.
Qed.

Lemma waiter_ok_release d l d' lim' ch' :
  waiter_ok l d' lim' ch' -> waiter_ok (release_locked d l) d' lim' ch'.
Proof.
  intros (Hlim & c & Hc & Hch & Hfull). split; [done|]. unfold release_locked.
  destruct (decide (d = d')) as [->|Hne].
  - rewrite lookup_alter_eq, Hc. simpl. eexists. split; [done|]. simpl. split; lia.
  - rewrite lookup_alter_ne by done. by exists c.
Qed.

Lemma limiter_inv_initial : limiter_inv initial.
Proof. split; simpl; intros; simplify_map_eq; done. Qed.

(** Open a lookup in the updated threads. *)
Ltac thread_cases :=
  repeat match goal with
  | H : <[_ := _]> (threads _) !! _ = Some _ |- _ =>
      apply lookup_insert_Some in H as [[? ?]|[? ?]]
  end; simplify_eq/=.

(** A goroutine that moves without touching the table. *)
Lemma limiter_inv_thread s t th :
  limiter_inv s ->
  (forall d, holds d th = from_option (holds d) false (threads s !! t)) ->
  (forall d lim, th = Trying d lim -> 1 <= lim) ->
  (forall d lim ch, th = Waiting d lim ch -> waiter_ok (table s) d lim ch) ->
  limiter_inv (set_thread t th s).
Proof.
  intros [Hp Hl Ht Hw] Hh Htry Hwait. split; simpl; [|done|..].
  - intros d. rewrite Hp. specialize (Hh d). destruct (threads s !! t) as [th0|] eqn:Hth.
    + rewrite (holders_insert _ _ _ th0) by done. simpl in Hh. rewrite Hh. lia.
    + rewrite holders_insert_new by done. simpl in Hh. rewrite Hh. simpl. lia.
  - intros. thread_cases; eauto.
  - intros. thread_cases; eauto. by eapply Hwait.
Qed.

Lemma limiter_inv_acquire s t d lim r l' th :
  limiter_inv s -> threads s !! t = Some (Trying d lim) ->
  acquire_locked d lim (table s) = (r, l') ->
  th = match r with Granted => Holding d | MustWait ch => Waiting d lim ch end ->
  limiter_inv (mkLimiterState l' (<[t := th]> (threads s))).
Proof.
  intros [Hp Hl Ht Hw] Hth Hacq Hnew.
  pose proof (Ht _ _ _ Hth) as Hlim.
  assert (Hwait : forall d' lim' ch', waiter_ok (table s) d' lim' ch' -> waiter_ok l' d' lim' ch')
    by (intros; by eapply waiter_ok_acquire).
  apply acquire_locked_spec in Hacq as (c' & -> & Hle & Hold & Hr). split; simpl.
  - intros d'. rewrite active_of_insert, (holders_insert _ _ _ _ _ Hth), <- Hp. simpl.
    case_decide as Hd; subst; destruct r as [|ch]; simpl;
      rewrite ?bool_decide_eq_true_2, ?bool_decide_eq_false_2 by congruence; simpl; lia.
  - intros d' c Hc. apply lookup_insert_Some in Hc as [[<- <-]|[_ Hc]]; [|eauto].
    destruct (table s !! d) as [c0|] eqn:Hc0; [specialize (Hl _ _ Hc0)|]; lia.
  - intros. thread_cases; eauto. destruct r; simplify_eq.
  - intros t' d' lim' ch' Hth'. thread_cases; [|apply Hwait; by eapply Hw].
    destruct r as [|ch]; simplify_eq. split; [done|]. rewrite lookup_insert_eq.
    exists c'. destruct Hr as (_ & ? & ->). by split_and!.
Qed.

Lemma limiter_inv_release s t d :
  limiter_inv s -> threads s !! t = Some (Holding d) ->
  limiter_inv (mkLimiterState (release_locked d (table s)) (<[t := Released d]> (threads s))).
Proof.
  intros [Hp Hl Ht Hw] Hth. split; simpl.
  - intros d'. rewrite active_of_release, (holders_insert _ _ _ _ _ Hth), <- Hp. simpl.
    assert (Hsome : is_Some (table s !! d)).
    { destruct (table s !! d) as [c|] eqn:Hc; [eauto|]. exfalso.
      pose proof (Hp d) as Hpd. unfold active_of in Hpd. rewrite Hc in Hpd.
      pose proof (holders_nonneg d (delete t (threads s))) as Hn.
      rewrite <- (insert_delete_id (threads s) t (Holding d)) in Hpd by done.
      rewrite holders_insert_new in Hpd by apply lookup_delete_eq. simpl in Hpd.
      rewrite bool_decide_eq_true_2 in Hpd by done. simpl in Hpd. lia. }
    destruct Hsome as [c Hc]. rewrite Hc.
    case_decide as Hd; [rewrite bool_decide_eq_true_2 by done|rewrite bool_decide_eq_false_2 by done];
      simpl; lia.
  - intros d' c Hc. unfold release_locked in Hc.
    apply lookup_alter_Some in Hc as [(-> & c0 & Hc0 & ->)|[_ Hc]]; simpl; eauto.
  - intros. thread_cases; eauto.
  - intros. thread_cases. apply waiter_ok_release. by eapply Hw.
Qed.

Lemma limiter_step_preserves s s' : limiter_step s s' -> limiter_inv s -> limiter_inv s'.
Proof.
  intros Hstep Hinv. destruct Hstep as [t d lim Ht Hok|t d lim Ht _|t d lim Ht|t d lim ch Ht
    |t d lim l' Ht Hacq|t d lim ch l' Ht Hacq|t d lim ch Ht Hclosed|t d Ht].
  - apply limiter_inv_thread; [done|by rewrite Ht|intros ?? [= -> ->]|done].
    unfold acquire_ok in Hok. lia.
  - apply limiter_inv_thread; [done|by rewrite Ht|done|done].
  - apply limiter_inv_thread; [done|by rewrite Ht|done|done].
  - apply limiter_inv_thread; [done|by rewrite Ht|done|done].
  - by eapply limiter_inv_acquire.
  - by eapply limiter_inv_acquire.
  - apply limiter_inv_thread; [done|by rewrite Ht|intros ?? [= -> ->]|done].
    by eapply waiting_known in Ht as [? _].
  - unfold release. destruct Ht as [Ht|Ht]; rewrite Ht; [by apply limiter_inv_release|done].
Qed.

Lemma reachable_inv s : reachable s -> limiter_inv s.
Proof.
  unfold reachable. intros Hr. remember initial as s0 eqn:H0.
  assert (Hinv : limiter_inv s0) by (subst; apply limiter_inv_initial). clear H0.
  induction Hr; eauto using limiter_step_preserves.
Qed.

(** C20 (safety): the limiter grants a permit exactly when there is room.  In
    every interleaving of calls, cancellations, wake-ups and releases, the
    number of goroutines that hold a permit of a destination is its [active]
    counter; a caller gets a permit at once if and only if fewer hold one than
    the destination's limit and its own limit allow, and the grant never
    exceeds either. *)
Theorem grant_below_limit s t d lim :
  reachable s -> threads s !! t = Some (Trying d lim) ->
  let allowed := match table s !! d with Some c => Z.min (limit c) lim | None => lim end in
  active_of d (table s) = holders d (threads s) /\
  (fst (acquire_locked d lim (table s)) = Granted <-> holders d (threads s) < allowed) /\
  (forall l', acquire_locked d lim (table s) = (Granted, l') ->
     let s' := mkLimiterState l' (<[t := Holding d]> (threads s)) in
     limiter_step s s' /\ holders d (threads s') = holders d (threads s) + 1 /\
     holders d (threads s') <= allowed).
Proof.
  intros Hr Ht allowed. pose proof (permits _ (reachable_inv _ Hr) d) as Hp.
  destruct (acquire_locked d lim (table s)) as [r l'] eqn:Hacq. simpl.
  pose proof Hacq as (c' & Hl' & Hle & Hold & Hr')%acquire_locked_spec.
  assert (Hallowed : limit c' = allowed).
  { unfold allowed. destruct (table s !! d); [by destruct Hold|by destruct Hold]. }
  split_and!; [done| |].
  - destruct r; split; intros; try done; lia.
  - intros l2 [= -> ->]. split; [by eapply lock_granted|].
    rewrite (holders_insert _ _ _ _ _ Ht). simpl. rewrite bool_decide_eq_true_2 by done.
    simpl. lia.
Qed.

(** C21 (liveness): no lost wake-up.  A goroutine that is blocked on a channel
    that is still open waits for a destination that is full, and full of
    permits that other goroutines hold; and the release of any of them, or a
    lower limit, closes its channel. *)
Theorem no_lost_wakeup s t d lim ch :
  reachable s -> threads s !! t = Some (Waiting d lim ch) ->
  closed d ch (table s) = true \/
  (exists c, table s !! d = Some c /\ limit c <= active c /\
     holders d (threads s) = active c /\ 1 <= holders d (threads s)) /\
  closed d ch (release_locked d (table s)) = true /\
  (forall lim' c, table s !! d = Some c -> lim' < limit c ->
     closed d ch (snd (acquire_locked d lim' (table s))) = true).
Proof.
  intros Hr Ht. apply reachable_inv in Hr as Hinv.
  destruct (waiting_known s Hinv t d lim ch Ht) as (Hlim & c & Hc & Hle & Hfull).
  destruct (closed d ch (table s)) eqn:Hcl; [by left|]. right.
  unfold closed in Hcl. rewrite Hc in Hcl. assert (ch = changed c) as Hch by (lia).
  specialize (Hfull Hch). pose proof (permits s Hinv d) as Hp. unfold active_of in Hp. rewrite Hc in Hp.
  pose proof (limits_positive s Hinv d c Hc). split_and!.
  - exists c. split_and!; [done|done|lia|lia].
  - unfold closed, release_locked. rewrite lookup_alter_eq, Hc. simpl. lia.
  - intros lim' c' Hc' Hlow. simplify_eq. unfold acquire_locked. rewrite Hc.
    rewrite (proj2 (Z.ltb_lt _ _) Hlow). unfold closed, notify. simpl.
    destruct (active c <? lim'); simpl; rewrite lookup_insert_eq; simpl; lia.
Qed.

(** Releasing is idempotent and balanced: the first call of a
    release function gives back exactly one permit, of its own destination,
    and never one that was not taken; any further call changes nothing. *)
Theorem release_once s t d :
  reachable s -> threads s !! t = Some (Holding d) ->
  let s1 := release t s in
  limiter_step s s1 /\ release t s1 = s1 /\
  active_of d (table s1) = active_of d (table s) - 1 /\ 0 <= active_of d (table s1) /\
  (forall d', d' <> d -> active_of d' (table s1) = active_of d' (table s)).
Proof.
  intros Hr Ht s1. assert (Hstep : limiter_step s s1) by (eapply call_release; by left).
  pose proof (limiter_step_preserves _ _ Hstep (reachable_inv _ Hr)) as Hinv'.
  pose proof (permits _ (reachable_inv _ Hr)) as Hp. pose proof (permits _ Hinv') as Hp'.
  pose proof (holders_nonneg d (threads s1)) as Hn.
  assert (Hs1 : threads s1 = <[t := Released d]> (threads s))
    by (unfold s1, release; by rewrite Ht).
  assert (Hh : forall d', holders d' (threads s1) = holders d' (threads s) - Z.b2z (bool_decide (d = d'))).
  { intros d'. rewrite Hs1, (holders_insert _ _ _ _ _ Ht). simpl. lia. }
  split_and!.
  - done.
  - unfold release at 1. rewrite Hs1. by rewrite lookup_insert_eq.
  - rewrite Hp', Hp, Hh, bool_decide_eq_true_2 by done. simpl. lia.
  - rewrite Hp'. lia.
  - intros d' Hne. rewrite Hp', Hp, Hh, bool_decide_eq_false_2 by done. simpl. lia.
Qed.

(** ** Instances *)

(** Two goroutines want the only permit of a destination: the first holds it,
    the second is about to try, then waits. *)
Definition sample_capacity : destinationCapacity := mkCapacity 1 1 0.

Definition sample_trying : limiter_state :=
  mkLimiterState {["crm"%string := sample_capacity]}
    (<[2%nat := Trying "crm" 1]> (<[1%nat := Holding "crm"]> ∅)).

Definition sample_waiting : limiter_state :=
  mkLimiterState {["crm"%string := sample_capacity]}
    (<[2%nat := Waiting "crm" 1 0]> (<[1%nat := Holding "crm"]> ∅)).

Lemma sample_trying_reachable : reachable sample_trying.
Proof.
  unfold reachable. eapply rtc_l; [by apply (call_acquire _ 1%nat "crm"%string 1)|].
  eapply rtc_l; [by eapply (lock_granted _ 1%nat "crm"%string 1)|].
  eapply rtc_l; [by apply (call_acquire _ 2%nat "crm"%string 1)|].
  match goal with |- rtc _ ?s _ => replace s with sample_trying by (vm_compute; reflexivity) end.
  apply rtc_refl.
Qed.

Lemma sample_waiting_reachable : reachable sample_waiting.
Proof.
  unfold reachable. eapply rtc_r; [apply sample_trying_reachable|].
  replace sample_waiting with (mkLimiterState {["crm"%string := sample_capacity]}
    (<[2%nat := Waiting "crm" 1 0]> (threads sample_trying))) by (vm_compute; reflexivity).
  by apply (lock_wait _ 2%nat "crm"%string 1).
Qed.

Lemma grant_below_limit_witness :
  fst (acquire_locked "crm" 1 (table sample_trying)) <> Granted /\
  holders "crm" (threads sample_trying) = 1.
Proof.
  assert (Hh : holders "crm" (threads sample_trying) = 1) by (vm_compute; reflexivity).
  split; [|exact Hh]. intros Hg.
  pose proof (proj1 (proj1 (proj2 (grant_below_limit sample_trying 2%nat "crm" 1
    sample_trying_reachable eq_refl))) Hg) as Hlt.
  rewrite Hh in Hlt. vm_compute in Hlt. discriminate.
Defined.

Lemma no_lost_wakeup_witness :
  closed "crm" 0 (table sample_waiting) = false /\
  closed "crm" 0 (release_locked "crm" (table sample_waiting)) = true.
Proof.
  split; [reflexivity|].
  destruct (no_lost_wakeup sample_waiting 2%nat "crm" 1 0%nat sample_waiting_reachable eq_refl)
    as [H|(_ & H & _)]; [vm_compute in H; discriminate|exact H].
Defined.

Lemma release_once_witness :
  active_of "crm" (table (release 1 sample_waiting)) = 0.
Proof.
  exact (proj1 (proj2 (proj2 (release_once sample_waiting 1%nat "crm" sample_waiting_reachable eq_refl)))).
Defined.
