(* ===== verification/GoText.v ===== *)
(** * More of Go's standard library on text

    The functions of [strings], [strconv], [net/http] and [net] that the
    transport code uses: folding, splitting, integers, header keys, and IP
    addresses. *)

From S2P Require Import Prelude GoTime GoStrings Notification.

(** ** strings *)

Definition CR : Z := 13.
Definition LF : Z := 10.

(** [strings.ContainsAny(s, "\r\n")]. *)
Definition has_line_break (s : string) : bool :=
  existsb (fun b => (b =? CR) || (b =? LF)) (bytes s).

(** [strings.EqualFold], for the representative [fold] of the case-folding
    orbit of a rune. *)
Definition EqualFold (fold : Z -> Z) (s t : string) : bool :=
  bool_decide (fold <$> runes s = fold <$> runes t).

(** [strings.TrimPrefix]. *)
Definition TrimPrefix (s prefix : string) : string :=
  if String.prefix prefix s
  then String.substring (String.length prefix) (String.length s - String.length prefix) s
  else s.

(** [strings.Split(s, sep)] for a separator of one byte. *)
Fixpoint Split (sep : ascii) (s : string) : list string :=
  match s with
  | EmptyString => [EmptyString]
  | String c s' =>
      let l := Split sep s' in
      if Ascii.eqb c sep then EmptyString :: l
      else match l with
           | x :: l' => String c x :: l'
           | [] => []
           end
  end.

(** [strings.SplitN(s, sep, 2)] for a separator of one byte: the parts before
    and after the first separator, or the string alone. *)
Fixpoint Split2 (sep : ascii) (s : string) : string * option string :=
  match s with
  | EmptyString => (EmptyString, None)
  | String c s' =>
      if Ascii.eqb c sep then (EmptyString, Some s')
      else let '(a, b) := Split2 sep s' in (String c a, b)
  end.

(** ** strconv *)

Definition is_digit (b : Z) : bool := (48 <=? b) && (b <=? 57).

Definition digits_value (l : list Z) : Z := foldl (fun n b => 10 * n + (b - 48)) 0 l.

(** [strconv.Atoi] on a 64-bit platform: an optional sign and decimal digits,
    an error for anything else and for numbers out of range. *)
Definition Atoi (s : string) : option Z :=
  let '(sign, l) :=
    match bytes s with
    | b :: l => if b =? 45 then (-1, l) else if b =? 43 then (1, l) else (1, b :: l)
    | [] => (1, [])
    end in
  match l with
  | [] => None
  | _ :: _ =>
      if forallb is_digit l then
        let n := sign * digits_value l in
        if int64_ok n then Some n else None
      else None
  end.

(** ** net/http headers *)

Definition is_lower (b : Z) : bool := (97 <=? b) && (b <=? 122).
Definition is_upper (b : Z) : bool := (65 <=? b) && (b <=? 90).
Definition to_lower (b : Z) : Z := if is_upper b then b + 32 else b.
Definition to_upper (b : Z) : Z := if is_lower b then b - 32 else b.

(** Bytes of a header field name: the token characters of RFC 7230. *)
Definition token_byte (b : Z) : bool :=
  is_digit b || is_lower b || is_upper b
  || bool_decide (b ∈ [33; 35; 36; 37; 38; 39; 42; 43; 45; 46; 94; 95; 96; 124; 126]).

Fixpoint canonical_bytes (upper : bool) (l : list Z) : list Z :=
  match l with
  | [] => []
  | b :: l' => (if upper then to_upper b else to_lower b) :: canonical_bytes (b =? 45) l'
  end.

(** [http.CanonicalHeaderKey]: a name with other bytes is left as it is. *)
Definition CanonicalHeaderKey (name : string) : string :=
  if forallb token_byte (bytes name) then of_bytes (canonical_bytes true (bytes name)) else name.

(** [Header.Set]: [None] is the panic of a write to a nil map. *)
Definition Header_Set (name value : string) (h : Header) : option Header :=
  match h with
  | Some m => Some (Some (<[CanonicalHeaderKey name := [value]]> m))
  | None => None
  end.

(** [Header.Get]: the first value, or the empty string. *)
Definition Header_Get (name : string) (h : Header) : string :=
  match h with
  | Some m => default EmptyString (m !! CanonicalHeaderKey name ≫= head)
  | None => EmptyString
  end.

(** ** net.IP: 4 or 16 bytes *)

Definition v4_mapped : list Z := [0; 0; 0; 0; 0; 0; 0; 0; 0; 0; 255; 255].

(** [ip.To4()]. *)
Definition To4 (ip : list Z) : option (list Z) :=
  if (length ip =? 4)%nat then Some ip
  else if (length ip =? 16)%nat && bool_decide (take 12 ip = v4_mapped) then Some (drop 12 ip)
  else None.

Definition byte_at (i : nat) (ip : list Z) : Z := default 0 (ip !! i).

(** [IsLoopback], [IsPrivate], [IsLinkLocalUnicast], [IsLinkLocalMulticast],
    [IsMulticast], [IsUnspecified]. *)
Definition IsLoopback (ip : list Z) : bool :=
  match To4 ip with
  | Some ip4 => byte_at 0 ip4 =? 127
  | None => bool_decide (ip = replicate 15 0%Z ++ [1])
  end.

Definition IsPrivate (ip : list Z) : bool :=
  match To4 ip with
  | Some ip4 =>
      (byte_at 0 ip4 =? 10)
      || ((byte_at 0 ip4 =? 172) && (Z.land (byte_at 1 ip4) 240 =? 16))
      || ((byte_at 0 ip4 =? 192) && (byte_at 1 ip4 =? 168))
  | None => (length ip =? 16)%nat && (Z.land (byte_at 0 ip) 254 =? 252)
  end.

Definition IsLinkLocalUnicast (ip : list Z) : bool :=
  match To4 ip with
  | Some ip4 => (byte_at 0 ip4 =? 169) && (byte_at 1 ip4 =? 254)
  | None => (length ip =? 16)%nat && (byte_at 0 ip =? 254) && (Z.land (byte_at 1 ip) 192 =? 128)
  end.

Definition IsLinkLocalMulticast (ip : list Z) : bool :=
  match To4 ip with
  | Some ip4 => (byte_at 0 ip4 =? 224) && (byte_at 1 ip4 =? 0) && (byte_at 2 ip4 =? 0)
  | None => (length ip =? 16)%nat && (byte_at 0 ip =? 255) && (Z.land (byte_at 1 ip) 15 =? 2)
  end.

Definition IsMulticast (ip : list Z) : bool :=
  match To4 ip with
  | Some ip4 => Z.land (byte_at 0 ip4) 240 =? 224
  | None => (length ip =? 16)%nat && (byte_at 0 ip =? 255)
  end.

Definition IsUnspecified (ip : list Z) : bool :=
  match To4 ip with
  | Some ip4 => bool_decide (ip4 = [0; 0; 0; 0])
  | None => bool_decide (ip = replicate 16 0%Z)
  end.

(** ** Facts *)

Example atoi_values : Atoi "+120" = Some 120 /\ Atoi "-3" = Some (-3) /\ Atoi "1_0" = None
  /\ Atoi "9223372036854775808" = None.
Proof. by vm_compute. Qed.

Example canonical_keys : CanonicalHeaderKey "x-api-KEY" = "X-Api-Key"%string
  /\ CanonicalHeaderKey "content type" = "content type"%string.
Proof. by vm_compute. Qed.

Example split_list : Split ","%char "a,b,,c" = ["a"; "b"; ""; "c"]%string.
Proof. by vm_compute. Qed.

(** An address is judged by its IPv4 form when it is mapped into IPv6. *)
Lemma To4_mapped ip4 : length ip4 = 4%nat -> To4 (v4_mapped ++ ip4) = Some ip4.
Proof.
  intros Hl. by destruct ip4 as [|a [|b [|c [|d [|? ?]]]]].
Qed.

Lemma To4_v4 ip4 : length ip4 = 4%nat -> To4 ip4 = Some ip4.
Proof. intros Hl. unfold To4. by rewrite Hl. Qed.

Lemma Header_Set_Some name value m :
  Header_Set name value (Some m) = Some (Some (<[CanonicalHeaderKey name := [value]]> m)).
Proof. done. Qed.
