(* ===== verification/Destination.v ===== *)
(** * Destinations (src/internal/destination)

    The configuration of destinations ([config.go]), its validation
    ([validate.go]), and the check of resolved addresses ([resolver.go]).  The
    YAML decoder, [url.Parse], [net.ParseIP], [time.ParseDuration] and the
    Unicode tables are parameters. *)

From S2P Require Import Prelude GoTime GoStrings GoText Notification.

Open Scope string_scope.
Open Scope Z_scope.

(** What the code reads of a [*url.URL]. *)
Record ParsedURL := mkParsedURL {
  Scheme : string;
  Host : string;
  Hostname : string;
  HasUser : bool;
  Fragment : string;
  URLString : string;
}.

Record Destination := mkDestination {
  DestID : string;
  DestMethod : string;
  DestURL : option ParsedURL;
  DestStaticHeaders : Header;
  DestSecretHeaders : gmap string string;
  DestTimeout : duration;
  DestRetry : RetryPolicy;
  DestConcurrencyLimit : Z;
}.

Record rawDestination := mkRawDestination {
  RawID : string;
  RawMethod : string;
  RawURL : string;
  RawStaticHeaders : gmap string string;
  RawSecretHeaders : gmap string string;
  RawTimeout : string;
  RawMaxAttempts : Z;
  RawLifetime : string;
  RawRetryDelays : list string;
  RawConcurrencyLimit : Z;
}.

(** ** resolver.go and [disallowedIP] *)

Definition disallowedIP (ip : list Z) : bool :=
  IsLoopback ip || IsPrivate ip || IsLinkLocalUnicast ip || IsLinkLocalMulticast ip
  || IsMulticast ip || IsUnspecified ip.

Definition ValidateResolvedIPs (addresses : list (list Z)) : option error :=
  match addresses with
  | [] => Some (Message "destination resolved to no addresses")
  | _ :: _ =>
      if existsb disallowedIP addresses
      then Some (Message "disallowed destination network") else None
  end.

Lemma ValidateResolvedIPs_None addresses :
  ValidateResolvedIPs addresses = None <->
    addresses <> [] /\ forall ip, ip ∈ addresses -> disallowedIP ip = false.
Proof.
  unfold ValidateResolvedIPs. destruct addresses as [|ip l].
  - split; [done|by intros []].
  - destruct (existsb disallowedIP (ip :: l)) eqn:He; split; try done.
    + intros [_ Hall]. apply existsb_exists in He as (ip' & Hin & Hbad).
      apply list_elem_of_In in Hin. by rewrite (Hall ip' Hin) in Hbad.
    + intros _. split; [done|]. intros ip' Hin. destruct (disallowedIP ip') eqn:Hbad; [|done].
      assert (existsb disallowedIP (ip :: l) = true) as Hc; [|congruence].
      apply existsb_exists. exists ip'. by rewrite <- list_elem_of_In.
Qed.

Section Destination.
Context (url_Parse : string -> option ParsedURL)
        (net_ParseIP : string -> option (list Z))
        (ParseDuration : string -> option duration)
        (unicode_ToUpper fold : Z -> Z)
        (Quote : string -> string).

(** The order in which [range] visits a map is not specified. *)
Context (range_order : gmap string string -> list (string * string)).

Context (lookupEnv : string -> option string).

(** ** validate.go *)

Definition parse_delays (lifetime : duration) (values : list string) : result (list duration) :=
  for_range (fun delays value =>
    match ParseDuration value with
    | Some delay =>
        return_if (delay <=? 0) || (lifetime <? delay)
          with Message ("invalid retry delay " ++ Quote value);
        Ok (delays ++ [delay])%list
    | None => Err (Message ("invalid retry delay " ++ Quote value))
    end) [] values.

Definition parse_static_headers (raw : gmap string string) : result (gmap string (list string)) :=
  for_range (fun headers '(name, value) =>
    return_if EqualFold fold name "Authorization" || has_line_break value
      with Message ("unsafe static header " ++ Quote name);
    Ok (<[CanonicalHeaderKey name := [value]]> headers)) ∅ (range_order raw).

Definition parse_secret_headers (raw : gmap string string) : result (gmap string string) :=
  for_range (fun headers '(name, environmentName) =>
    return_if bool_decide (environmentName = "") || has_line_break name
      with Message "invalid secret header reference";
    return_if bool_decide (lookupEnv environmentName = None)
      with Message ("missing environment variable " ++ Quote environmentName);
    Ok (<[CanonicalHeaderKey name := environmentName]> headers)) ∅ (range_order raw).

(** [d, err := time.ParseDuration(s); err != nil || d <= 0 || d > max]. *)
Definition duration_between (max : duration) (s : string) : option duration :=
  match ParseDuration s with
  | Some d => if (d <=? 0) || (max <? d) then None else Some d
  | None => None
  end.

Definition parseDestination (raw : rawDestination) : result Destination :=
  return_if bool_decide (strings_TrimSpace (RawID raw) = "") with Message "id is required";
  let method := strings_Map unicode_ToUpper (RawMethod raw) in
  return_if bool_decide (method ∉ ["POST"; "PUT"; "PATCH"])
    with Message ("unsupported method " ++ Quote (RawMethod raw));
  match url_Parse (RawURL raw) with
  | None => Err (Message "invalid URL")
  | Some parsedURL =>
    return_if bool_decide (Hostname parsedURL = "") with Message "invalid URL";
    return_if bool_decide (Scheme parsedURL <> "https")
      with Message "production destination must use HTTPS";
    return_if HasUser parsedURL || bool_decide (Fragment parsedURL <> "")
      with Message "URL userinfo and fragments are not allowed";
    return_if from_option disallowedIP false (net_ParseIP (Hostname parsedURL))
      with Message "disallowed destination network";
    match duration_between (30 * Second) (RawTimeout raw) with
    | None => Err (Message "timeout must be between 1ns and 30s")
    | Some timeout =>
      match duration_between (7 * 24 * Hour) (RawLifetime raw) with
      | None => Err (Message "lifetime must be between 1ns and 168h")
      | Some lifetime =>
        return_if (RawMaxAttempts raw <? 1) || (32 <? RawMaxAttempts raw)
          with Message "max_attempts must be between 1 and 32";
        return_if (RawConcurrencyLimit raw <? 1) || (1000 <? RawConcurrencyLimit raw)
          with Message "concurrency_limit must be between 1 and 1000";
        delays ← parse_delays lifetime (RawRetryDelays raw);
        return_if (1 <? RawMaxAttempts raw) && (Nat.eqb (length delays) 0)
          with Message "retry_delays are required when max_attempts exceeds one";
        staticHeaders ← parse_static_headers (RawStaticHeaders raw);
        secretHeaders ← parse_secret_headers (RawSecretHeaders raw);
        Ok {| DestID := RawID raw; DestMethod := method; DestURL := Some parsedURL;
              DestStaticHeaders := Some staticHeaders; DestSecretHeaders := secretHeaders;
              DestTimeout := timeout;
              DestRetry := {| MaxAttempts := RawMaxAttempts raw; Lifetime := lifetime;
                              Delays := delays |};
              DestConcurrencyLimit := RawConcurrencyLimit raw |}
      end
    end
  end.

(** ** config.go *)

Abbreviation Registry := (gmap string Destination) (only parsing).

Definition not_nil {A} (o : option A) : bool := match o with Some _ => true | None => false end.

(** A deep copy; its value is the value copied ([Aliasing.v] has the memory
    behind it). *)
Definition clone (source : Destination) : Destination :=
  {| DestID := DestID source; DestMethod := DestMethod source; DestURL := DestURL source;
     DestStaticHeaders := DestStaticHeaders source;
     DestSecretHeaders := DestSecretHeaders source; DestTimeout := DestTimeout source;
     DestRetry := {| MaxAttempts := MaxAttempts (DestRetry source);
                     Lifetime := Lifetime (DestRetry source);
                     Delays := [] ++ Delays (DestRetry source) |}%list;
     DestConcurrencyLimit := DestConcurrencyLimit source |}.

Definition NewRegistry (destinations : list Destination) : result Registry :=
  for_range (fun (items : Registry) candidate =>
    return_if bool_decide (DestID candidate = "") || negb (not_nil (DestURL candidate))
      with Message "destination id and URL are required";
    return_if bool_decide (is_Some (items !! DestID candidate))
      with Message ("duplicate destination " ++ Quote (DestID candidate));
    Ok (<[DestID candidate := clone candidate]> items)) ∅ destinations.

Definition Registry_Get (r : Registry) (id : string) : option Destination := clone <$> r !! id.

(** [Load], from what reading and decoding the file gives. *)
Definition Load (decoded : result (list rawDestination)) : result Registry :=
  destinations ← decoded;
  return_if Nat.eqb (length destinations) 0 with Message "destination config is empty";
  for_range (fun (items : Registry) candidate =>
    return_if bool_decide (is_Some (items !! RawID candidate))
      with Message ("duplicate destination " ++ Quote (RawID candidate));
    destination ← wrap ("destination " ++ Quote (RawID candidate)) (parseDestination candidate);
    Ok (<[DestID destination := destination]> items)) ∅ destinations.

(** ** Correctness of the validation *)

(** The representative of a folding orbit does not depend on ASCII case. *)
Hypothesis fold_ascii : forall b, b < 128 -> fold (to_lower b) = fold b.

Record valid_destination (d : Destination) : Prop := {
  vd_id : strings_TrimSpace (DestID d) <> "";
  vd_method : DestMethod d ∈ ["POST"; "PUT"; "PATCH"];
  vd_url : exists u, DestURL d = Some u /\ Scheme u = "https" /\ Hostname u <> "" /\
    HasUser u = false /\ Fragment u = "" /\
    forall ip, net_ParseIP (Hostname u) = Some ip -> disallowedIP ip = false;
  vd_timeout : 0 < DestTimeout d <= 30 * Second;
  vd_lifetime : 0 < Lifetime (DestRetry d) <= 7 * 24 * Hour;
  vd_attempts : 1 <= MaxAttempts (DestRetry d) <= 32;
  vd_concurrency : 1 <= DestConcurrencyLimit d <= 1000;
  vd_delays : forall delay, delay ∈ Delays (DestRetry d) -> 0 < delay <= Lifetime (DestRetry d);
  vd_delays_given : 1 < MaxAttempts (DestRetry d) -> Delays (DestRetry d) <> [];
  vd_static : exists m, DestStaticHeaders d = Some m /\ m !! "Authorization" = None /\
    forall name values, m !! name = Some values ->
      exists value, values = [value] /\ has_line_break value = false;
  vd_secrets : forall name env, DestSecretHeaders d !! name = Some env ->
    env <> "" /\ is_Some (lookupEnv env);
}.

Lemma to_lower_canonical upper l : to_lower <$> canonical_bytes upper l = to_lower <$> l.
Proof.
  revert upper. induction l as [|b l IH]; intros upper; [done|]. simpl. f_equal; [|apply IH].
  unfold to_lower, to_upper, is_lower, is_upper. destruct upper; repeat case_match; lia.
Qed.

Lemma token_byte_ascii b : token_byte b = true -> b < 128.
Proof.
  unfold token_byte, is_digit, is_lower, is_upper. intros H.
  destruct (bool_decide _) eqn:Hin in H; [|lia].
  apply bool_decide_eq_true in Hin. repeat (apply elem_of_cons in Hin as [->|Hin]; [lia|]).
  by apply not_elem_of_nil in Hin.
Qed.

Lemma canonical_ascii upper l :
  Forall (fun b => token_byte b = true) l -> Forall is_byte l ->
  Forall is_byte (canonical_bytes upper l).
Proof.
  revert upper. induction l as [|b l IH]; intros upper Ht Hb; [constructor|].
  inversion_clear Ht as [|?? Htb Htl]. inversion_clear Hb as [|?? Hbb Hbl].
  simpl. constructor; [|by apply IH]. unfold is_byte, to_lower, to_upper, is_lower, is_upper in *.
  destruct upper; case_match; lia.
Qed.

(** A name that [EqualFold] tells from an ASCII key differs from it once
    canonicalised. *)
Lemma canonical_fold name key :
  Forall (fun b => b < 128) (bytes key) ->
  CanonicalHeaderKey name = key -> EqualFold fold name key = true.
Proof.
  intros Hkey Hcan. unfold EqualFold. apply bool_decide_eq_true. unfold CanonicalHeaderKey in Hcan.
  destruct (forallb token_byte (bytes name)) eqn:Htok; [|by subst].
  assert (Ht : Forall (fun b => token_byte b = true) (bytes name)).
  { apply Forall_forall. by rewrite forallb_forall in Htok. }
  assert (Hname : Forall (fun b => b < 128) (bytes name)).
  { eapply Forall_impl; [|exact Ht]. intros b. apply token_byte_ascii. }
  assert (Hlow : to_lower <$> bytes name = to_lower <$> bytes key).
  { rewrite <- Hcan, bytes_of_bytes by (apply canonical_ascii; [done|apply bytes_range]).
    by rewrite to_lower_canonical. }
  assert (Hfold : forall l, Forall (fun b => b < 128) l -> fold <$> l = fold <$> (to_lower <$> l)).
  { induction 1 as [|b l Hb _ IH]; [done|]. rewrite !fmap_cons, fold_ascii by done. by f_equal. }
  unfold runes. rewrite !decode_ascii by done.
  assert (Hdef : forall l : list Z, default RuneError <$> (Some <$> l) = l).
  { induction l as [|b l IH]; [done|]. rewrite !fmap_cons. simpl. by f_equal. }
  by rewrite !Hdef, (Hfold (bytes name)), (Hfold (bytes key)), Hlow.
Qed.

Lemma parse_delays_Ok lifetime values delays :
  parse_delays lifetime values = Ok delays ->
  length delays = length values /\ forall delay, delay ∈ delays -> 0 < delay <= lifetime.
Proof.
  unfold parse_delays. intros Hrun.
  apply (for_range_Ok _ (fun done delays => length delays = length done /\
           forall delay, delay ∈ delays -> 0 < delay <= lifetime) _ _ _ Hrun).
  { split; [done|]. intros delay H. by apply not_elem_of_nil in H. }
  intros done value rest ds ds' _ [Hlen Hds] Hbody. split_matches_in Hbody. split.
  - rewrite !length_app. simpl. lia.
  - intros d0 [Hd|Hd%list_elem_of_singleton]%elem_of_app; [by apply Hds|subst; lia].
Qed.

Lemma parse_static_headers_Ok raw headers :
  parse_static_headers raw = Ok headers ->
  headers !! "Authorization" = None /\
  forall name values, headers !! name = Some values ->
    exists value, values = [value] /\ has_line_break value = false.
Proof.
  unfold parse_static_headers. intros Hrun.
  apply (for_range_Ok _ (fun _ headers => headers !! "Authorization" = None /\
           forall name values, headers !! name = Some values ->
             exists value, values = [value] /\ has_line_break value = false) _ _ _ Hrun).
  { split; [done|]. intros name values H. by apply lookup_empty_Some in H. }
  intros _ [name value] _ hs hs' _ [Hauth Hhs] Hbody. split_matches_in Hbody. split.
  - rewrite lookup_insert_ne; [done|]. intros Hcan.
    apply canonical_fold in Hcan; [congruence|]. by repeat constructor.
  - intros name' values [[_ <-]|[_ Hold]]%lookup_insert_Some; eauto.
Qed.

Lemma parse_secret_headers_Ok raw headers :
  parse_secret_headers raw = Ok headers ->
  forall name env, headers !! name = Some env -> env <> "" /\ is_Some (lookupEnv env).
Proof.
  unfold parse_secret_headers. intros Hrun.
  apply (for_range_Ok _ (fun _ headers => forall name env, headers !! name = Some env ->
           env <> "" /\ is_Some (lookupEnv env)) _ _ _ Hrun).
  { intros name env H. by apply lookup_empty_Some in H. }
  intros _ [name value] _ hs hs' _ Hhs Hbody. split_matches_in Hbody.
  intros name' env [[_ <-]|[_ Hold]]%lookup_insert_Some; [|eauto].
  split; [done|]. by apply not_eq_None_Some.
Qed.

Lemma duration_between_Some max s d :
  duration_between max s = Some d -> ParseDuration s = Some d /\ 0 < d <= max.
Proof. unfold duration_between. intros H. split_matches_in H. split; [done|lia]. Qed.

(** A destination that passes validation is safe to deliver
    to: HTTPS without credentials or fragment, no address literal of a private
    or special network, bounded timeout, lifetime, attempts and concurrency,
    retry delays that are positive, within the lifetime and present when there
    are retries, no static credential (whatever the case of the header name),
    no line break in a header value, and only secrets the environment has. *)
Theorem parse_valid raw d :
  parseDestination raw = Ok d -> valid_destination d /\ DestID d = RawID raw.
Proof.
  unfold parseDestination. intros H.
  destruct (bool_decide (strings_TrimSpace _ = _)) eqn:Hid; [done|].
  destruct (bool_decide (strings_Map _ _ ∉ _)) eqn:Hm; [done|].
  destruct (url_Parse (RawURL raw)) as [u|]; [|done].
  destruct (bool_decide (Hostname u = "")) eqn:Hhost; [done|].
  destruct (bool_decide (Scheme u <> "https")) eqn:Hs; [done|].
  destruct (HasUser u || _) eqn:Hu; [done|].
  destruct (from_option disallowedIP _ _) eqn:Hip; [done|].
  destruct (duration_between _ (RawTimeout raw)) as [timeout|] eqn:Ht; [|done].
  destruct (duration_between _ (RawLifetime raw)) as [lifetime|] eqn:Hl; [|done].
  destruct ((RawMaxAttempts raw <? 1) || _) eqn:Ha; [done|].
  destruct ((RawConcurrencyLimit raw <? 1) || _) eqn:Hc; [done|].
  destruct (parse_delays _ _) as [delays|] eqn:Hd; [|done]. cbn in H.
  destruct ((1 <? _) && _) eqn:Hgiven; [done|].
  destruct (parse_static_headers _) as [hs|] eqn:Hhs; [|done]. cbn in H.
  destruct (parse_secret_headers _) as [ss|] eqn:Hss; [|done]. cbn in H.
  injection H as <-. split; [|done].
  apply duration_between_Some in Ht as [_ Ht], Hl as [_ Hl].
  apply parse_delays_Ok in Hd as [_ Hd]. apply parse_static_headers_Ok in Hhs.
  pose proof (parse_secret_headers_Ok _ _ Hss). reflect_bools.
  split; cbn [DestID DestMethod DestURL DestStaticHeaders DestSecretHeaders DestTimeout DestRetry
    DestConcurrencyLimit MaxAttempts Lifetime Delays]; try done; try lia.
  - by apply dec_stable.
  - exists u. split_and!; try done; [by apply dec_stable|by apply dec_stable|].
    intros ip Hparse. by rewrite Hparse in Hip.
  - intros Hmany ->. simpl in Hgiven. lia.
  - eauto.
Qed.

(** C36 (invariant): loading a configuration gives a registry that holds
    exactly the declared destinations: it is not empty, every entry is valid
    and found under its own identifier, every declaration is there, and [Get]
    returns it; two declarations of one identifier are rejected. *)
Theorem load_registry decoded r :
  Load decoded = Ok r ->
  exists raws, decoded = Ok raws /\ raws <> [] /\ NoDup (RawID <$> raws) /\
    (forall id, is_Some (r !! id) <-> id ∈ RawID <$> raws) /\
    forall raw, raw ∈ raws -> exists d, parseDestination raw = Ok d /\
      valid_destination d /\ DestID d = RawID raw /\ Registry_Get r (RawID raw) = Some d.
Proof.
  unfold Load. intros Hrun. destruct decoded as [raws|]; [|done]. cbn in Hrun.
  destruct (Nat.eqb_spec (length raws) 0) as [|Hne]; [done|].
  exists raws. split; [done|]. split; [by intros ->|].
  apply (for_range_Ok _ (fun done (r : Registry) => NoDup (RawID <$> done) /\
    (forall id, is_Some (r !! id) <-> id ∈ RawID <$> done) /\
    forall raw, raw ∈ done -> exists d, parseDestination raw = Ok d /\
      valid_destination d /\ DestID d = RawID raw /\ Registry_Get r (RawID raw) = Some d)
    _ _ _ Hrun).
  { split; [constructor|]. split; [|intros raw H; by apply not_elem_of_nil in H].
    intros id. rewrite lookup_empty. split; [by intros []|intros H; by apply not_elem_of_nil in H]. }
  intros done raw rest items items' _ (Hnd & Hdom & Hall) Hbody.
  destruct (bool_decide (is_Some _)) eqn:Hdup; [done|].
  destruct (parseDestination raw) as [d|] eqn:Hp; [|done]. cbn in Hbody. injection Hbody as <-.
  pose proof (parse_valid raw d Hp) as [Hv Hid].
  apply bool_decide_eq_false in Hdup.
  assert (Hnew : RawID raw ∉ RawID <$> done) by (by rewrite <- Hdom).
  rewrite fmap_app. change (RawID <$> [raw]) with [RawID raw]. split_and!.
  - apply list.NoDup_app. split_and!; [done| |by apply NoDup_singleton].
    intros id Hin Hin'. apply list_elem_of_singleton in Hin'. by subst.
  - intros id. rewrite lookup_insert_is_Some', elem_of_app, <- Hdom, list_elem_of_singleton, Hid.
    naive_solver.
  - intros raw' [Hin|Hin%list_elem_of_singleton]%elem_of_app.
    + destruct (Hall raw' Hin) as (d' & Hp' & Hv' & Hid' & Hget). exists d'.
      split_and!; try done. unfold Registry_Get. rewrite lookup_insert_ne; [done|].
      rewrite Hid. intros Heq. apply Hnew. rewrite Heq. by apply list_elem_of_fmap_2.
    + subst. exists d. split_and!; try done. unfold Registry_Get. rewrite Hid, lookup_insert_eq.
      simpl. by destruct d as [? ? ? ? ? ? [] ?].
Qed.

End Destination.

(** ** Networks *)

(** The IPv4 networks the service refuses to talk to. *)
Definition refused_ipv4 (a b c d : Z) : bool :=
  (a =? 127) || (a =? 10) || ((a =? 172) && (16 <=? b) && (b <? 32))
  || ((a =? 192) && (b =? 168)) || ((a =? 169) && (b =? 254))
  || ((224 <=? a) && (a <? 240))
  || ((a =? 0) && (b =? 0) && (c =? 0) && (d =? 0)).

Definition all_bytes : list Z := Z.of_nat <$> seq 0 256.

Lemma all_bytes_spec b : is_byte b -> b ∈ all_bytes.
Proof.
  unfold is_byte, all_bytes. intros Hb. apply list_elem_of_fmap. exists (Z.to_nat b).
  split; [lia|]. apply elem_of_seq. lia.
Qed.

Lemma for_all_bytes (p : Z -> bool) :
  forallb p all_bytes = true -> forall b, is_byte b -> p b = true.
Proof.
  intros H b Hb. rewrite forallb_forall in H. apply H, list_elem_of_In. by apply all_bytes_spec.
Qed.

Lemma mask_multicast b : is_byte b -> (Z.land b 240 =? 224) = (224 <=? b) && (b <? 240).
Proof.
  intros Hb. apply eqb_prop.
  by apply (for_all_bytes (fun b => Bool.eqb (Z.land b 240 =? 224) ((224 <=? b) && (b <? 240)))).
Qed.

Lemma mask_private b : is_byte b -> (Z.land b 240 =? 16) = (16 <=? b) && (b <? 32).
Proof.
  intros Hb. apply eqb_prop.
  by apply (for_all_bytes (fun b => Bool.eqb (Z.land b 240 =? 16) ((16 <=? b) && (b <? 32)))).
Qed.

(** The address check refuses exactly loopback, RFC 1918,
    link-local, multicast and the unspecified IPv4 address, written as four
    bytes or mapped into IPv6; and a set of resolved addresses passes only if
    it is not empty and none of them is refused. *)
Theorem disallowed_networks a b c d :
  is_byte a -> is_byte b ->
  disallowedIP [a; b; c; d] = refused_ipv4 a b c d /\
  disallowedIP (v4_mapped ++ [a; b; c; d])%list = refused_ipv4 a b c d /\
  forall addresses, ValidateResolvedIPs addresses = None <->
    addresses <> [] /\ forall ip, ip ∈ addresses -> disallowedIP ip = false.
Proof.
  intros Ha Hb.
  assert (H4 : forall ip, To4 ip = Some [a; b; c; d] -> disallowedIP ip = refused_ipv4 a b c d).
  { intros ip Hip. unfold disallowedIP, IsLoopback, IsPrivate, IsLinkLocalUnicast,
      IsLinkLocalMulticast, IsMulticast, IsUnspecified, byte_at. rewrite Hip. simpl.
    rewrite mask_multicast, mask_private by done. unfold refused_ipv4.
    destruct (bool_decide_reflect ([a; b; c; d] = [0; 0; 0; 0])) as [[= -> -> -> ->]|Hz]; [done|].
    destruct ((a =? 0) && (b =? 0) && (c =? 0) && (d =? 0)) eqn:Hzero; [|lia].
    exfalso. apply Hz. repeat f_equal; lia. }
  split_and!; [by apply H4, To4_v4|by apply H4, To4_mapped|].
  apply ValidateResolvedIPs_None.
Qed.

(** ** Instances *)

Definition sample_url : ParsedURL :=
  mkParsedURL "https" "inventory.example.com" "inventory.example.com" false ""
    "https://inventory.example.com/v1/notifications".

Definition sample_ParseDuration (s : string) : option duration :=
  if bool_decide (s = "5s") then Some (5 * Second)
  else if bool_decide (s = "24h") then Some (24 * Hour) else None.

Definition sample_env (s : string) : option string :=
  if bool_decide (s = "INVENTORY_API_TOKEN") then Some "Bearer t" else None.

Definition sample_raw : rawDestination :=
  mkRawDestination "inventory-system" "post" "https://inventory.example.com/v1/notifications"
    {["content-type" := "application/json"]} {["authorization" := "INVENTORY_API_TOKEN"]}
    "5s" 3 "24h" ["5s"] 10.

Definition sample_parse : rawDestination -> result Destination :=
  parseDestination (fun _ => Some sample_url) (fun _ => None) sample_ParseDuration to_upper to_lower
    id map_to_list sample_env.

Definition sample_destination : Destination :=
  mkDestination "inventory-system" "POST" (Some sample_url)
    (Some {["Content-Type" := ["application/json"]]})
    {["Authorization" := "INVENTORY_API_TOKEN"]} (5 * Second)
    (mkRetryPolicy 3 (24 * Hour) [5 * Second]) 10.

Lemma sample_fold_ascii b : b < 128 -> to_lower (to_lower b) = to_lower b.
Proof. intros _. unfold to_lower, is_upper. repeat case_match; lia. Qed.

Lemma sample_parsed : sample_parse sample_raw = Ok sample_destination.
Proof. vm_compute. reflexivity. Qed.

Lemma parse_valid_witness : 0 < DestTimeout sample_destination <= 30 * Second.
Proof.
  exact (vd_timeout _ _ _ (proj1 (parse_valid (fun _ => Some sample_url) (fun _ => None)
    sample_ParseDuration to_upper to_lower id map_to_list sample_env sample_fold_ascii
    sample_raw sample_destination sample_parsed))).
Defined.

Definition sample_registry : gmap string Destination :=
  {["inventory-system" := sample_destination]}.

Lemma load_registry_witness : NoDup (RawID <$> [sample_raw]).
Proof.
  destruct (load_registry (fun _ => Some sample_url) (fun _ => None)
    sample_ParseDuration to_upper to_lower id map_to_list sample_env sample_fold_ascii
    (Ok [sample_raw]) sample_registry) as (raws & [= <-] & _ & Hnd & _).
  - vm_compute. reflexivity.
  - exact Hnd.
Defined.

Lemma disallowed_networks_witness : disallowedIP [169; 254; 169; 254] = true.
Proof.
  rewrite (proj1 (disallowed_networks 169 254 169 254 ltac:(unfold is_byte; lia)
    ltac:(unfold is_byte; lia))). reflexivity.
Defined.
