(* ===== verification/Aliasing.v ===== *)
(** * Sharing in the registry of destinations (destination/config.go)

    A [Destination] of Go holds a pointer, two maps and a slice, so that a
    plain copy of it shares their contents.  [Destination.v] treats copies as
    values; this file models the memory behind them and shows that it may:
    since [NewRegistry] and [Get] copy deeply, no write of a client, to
    anything that it gave to the registry or got from it, is ever seen by a
    later [Get].  The copy goes one pointer less deep than it should: a
    [url.URL] points to its user information, which all copies share
    ([userinfo_shared]).  The destinations of a configuration have none
    ([parseDestination] refuses it), but [NewRegistry] does not check.  ([Load] keeps the destinations that it has just parsed, to
    which nothing else refers; from there on the invariant [isolated] is the
    same.)  Each call runs to its end before a client goes on.

    Memory is a finite map from locations to objects.  What the registry owns
    is a part of it of its own, disjoint from all that clients can write to. *)

From S2P Require Import Prelude GoTime GoStrings GoText Notification Destination.

#[local] Open Scope list_scope.
#[local] Open Scope Z_scope.

(** ** Memory *)

Abbreviation loc := positive (only parsing).

(** A slice of Go: an array, an offset, a length and a capacity; nil is [None]. *)
Record slice := mkSlice { s_array : loc; s_offset : nat; s_len : nat; s_cap : nat }.

(** What a location holds: a [url.URL] (what the code reads of it without its
    user information, and the pointer to that), a [url.Userinfo], an
    [http.Header], a [map\[string\]string], or the array behind slices of
    strings or durations. *)
Inductive object :=
| AURL (u : ParsedURL) (user : option loc)
| AUser (user : string)
| AHeader (m : gmap string (option slice))
| AStrings (m : gmap string string)
| ATexts (l : list string)
| ADurations (l : list duration).

Abbreviation heap := (gmap loc object) (only parsing).

Definition alloc (o : object) : M heap loc := fun h =>
  let l := fresh (dom h) in (Ok l, <[l := o]> h).

(** Reading; well-typed programs find what they expect. *)
Definition as_texts (o : object) : option (list string) := match o with ATexts l => Some l | _ => None end.
Definition as_durations (o : object) : option (list duration) :=
  match o with ADurations l => Some l | _ => None end.
Definition as_header (o : object) : option (gmap string (option slice)) :=
  match o with AHeader m => Some m | _ => None end.
Definition as_strings (o : object) : option (gmap string string) :=
  match o with AStrings m => Some m | _ => None end.
Definition as_url (o : object) : option (ParsedURL * option loc) :=
  match o with AURL u user => Some (u, user) | _ => None end.
Definition as_user (o : object) : option string := match o with AUser user => Some user | _ => None end.

Definition load {A} (view : object -> option A) (h : heap) (l : loc) : option A := h !! l ≫= view.

(** The elements of a slice. *)
Definition elements {A} (view : object -> option (list A)) (h : heap) (s : option slice) : list A :=
  match s with
  | None => []
  | Some s => take (s_len s) (drop (s_offset s) (default [] (load view h (s_array s))))
  end.

(** ** config.go *)

(** A [Destination] as Go has it. *)
Record dest_ref := mkDestRef {
  ref_ID : string;
  ref_Method : string;
  ref_URL : option loc;
  ref_StaticHeaders : option loc;
  ref_SecretHeaders : option loc;
  ref_Timeout : duration;
  ref_MaxAttempts : Z;
  ref_Lifetime : duration;
  ref_Delays : option slice;
  ref_ConcurrencyLimit : Z;
}.

(** [urlCopy := *source.URL], with the pointer to the user information. *)
Definition copy_url (p : option loc) : M heap (option loc) :=
  match p with
  | None => mret None
  | Some l =>
      u ← gets (fun h => load as_url h l);
      match u with
      | Some (u, user) => l' ← alloc (AURL u user); mret (Some l')
      | None => mret None
      end
  end.

(** The loop of [Header.Clone]: the values of all keys go into one array, each
    key gets a slice of it whose capacity ends where the next one begins. *)
Fixpoint clone_entries (h : heap) (array : loc) (entries : list (string * option slice))
    (filled : list string) : gmap string (option slice) * list string :=
  match entries with
  | [] => (∅, filled)
  | (key, None) :: entries =>
      let '(m, all) := clone_entries h array entries filled in (<[key := None]> m, all)
  | (key, Some s) :: entries =>
      let vs := elements as_texts h (Some s) in
      let '(m, all) := clone_entries h array entries (filled ++ vs) in
      (<[key := Some (mkSlice array (length filled) (length vs) (length vs))]> m, all)
  end.

(** [Header.Clone]; the order of the keys does not matter. *)
Definition header_Clone (p : option loc) : M heap (option loc) :=
  match p with
  | None => mret None
  | Some l =>
      entries ← gets (fun h => map_to_list (default ∅ (load as_header h l)));
      array ← alloc (ATexts []);
      copied ← gets (fun h => clone_entries h array entries []);
      _ ← modify (fun h => <[array := ATexts (snd copied)]> h);
      l' ← alloc (AHeader (fst copied));
      mret (Some l')
  end.

(** [make] and the loop over the source, which may be nil. *)
Definition copy_strings (p : option loc) : M heap (option loc) :=
  source ← gets (fun h => default ∅ (p ≫= load as_strings h));
  l ← alloc (AStrings (map_fold insert ∅ source));
  mret (Some l).

(** [append(\[\]time.Duration(nil), source...)], which is nil for no elements. *)
Definition append_nil (s : option slice) : M heap (option slice) :=
  ds ← gets (fun h => elements as_durations h s);
  match ds with
  | [] => mret None
  | _ => array ← alloc (ADurations ds); mret (Some (mkSlice array 0 (length ds) (length ds)))
  end.

Definition clone_ref (source : dest_ref) : M heap dest_ref :=
  url ← copy_url (ref_URL source);
  staticHeaders ← header_Clone (ref_StaticHeaders source);
  secretHeaders ← copy_strings (ref_SecretHeaders source);
  delays ← append_nil (ref_Delays source);
  mret (mkDestRef (ref_ID source) (ref_Method source) url staticHeaders secretHeaders (ref_Timeout source)
          (ref_MaxAttempts source) (ref_Lifetime source) delays (ref_ConcurrencyLimit source)).

Definition NewRegistry_ref (Quote : string -> string) (destinations : list dest_ref) :
    M heap (gmap string dest_ref) :=
  for_each (fun (items : gmap string dest_ref) candidate =>
    throw_if bool_decide (ref_ID candidate = ""%string) || negb (not_nil (ref_URL candidate))
      with Message "destination id and URL are required";
    throw_if bool_decide (is_Some (items !! ref_ID candidate))
      with Message ("duplicate destination " ++ Quote (ref_ID candidate));
    copy ← clone_ref candidate;
    mret (<[ref_ID candidate := copy]> items)) ∅ destinations.

Definition Get_ref (items : gmap string dest_ref) (id : string) : M heap (option dest_ref) :=
  match items !! id with
  | Some destination => copy ← clone_ref destination; mret (Some copy)
  | None => mret None
  end.

(** ** What an object stands for *)

Definition window {A} (view : object -> option (list A)) (h : heap) (s : option slice) (vs : list A) : Prop :=
  match s with
  | None => vs = []
  | Some s => exists l, load view h (s_array s) = Some l /\ (s_offset s + s_len s <= length l)%nat /\
      vs = take (s_len s) (drop (s_offset s) l)
  end.

(** A URL with user information: [url_String] is [URL.String] then. *)
Definition with_user (url_String : ParsedURL -> string -> string) (user : string) (u : ParsedURL) : ParsedURL :=
  mkParsedURL (Scheme u) (Host u) (Hostname u) true (Fragment u) (url_String u user).

Definition url_at (url_String : ParsedURL -> string -> string) (h : heap) (p : option loc)
    (u : option ParsedURL) : Prop :=
  match p, u with
  | Some l, Some u =>
      exists base user, load as_url h l = Some (base, user) /\
        match user with
        | None => HasUser base = false /\ u = base
        | Some l' => exists name, load as_user h l' = Some name /\ u = with_user url_String name base
        end
  | None, None => True
  | _, _ => False
  end.

Definition header_at (h : heap) (p : option loc) (hd : Header) : Prop :=
  match p, hd with
  | Some l, Some m => exists sm, load as_header h l = Some sm /\ map_Forall2 (fun _ => window as_texts h) sm m
  | None, None => True
  | _, _ => False
  end.

Definition strings_at (h : heap) (p : option loc) (m : gmap string string) : Prop :=
  match p with Some l => load as_strings h l = Some m | None => m = ∅ end.

(** In the memory [h], [r] is the destination [d]. *)
Record dest_at (url_String : ParsedURL -> string -> string) (h : heap) (r : dest_ref) (d : Destination) : Prop := {
  at_ID : ref_ID r = DestID d;
  at_Method : ref_Method r = DestMethod d;
  at_URL : url_at url_String h (ref_URL r) (DestURL d);
  at_Static : header_at h (ref_StaticHeaders r) (DestStaticHeaders d);
  at_Secret : strings_at h (ref_SecretHeaders r) (DestSecretHeaders d);
  at_Timeout : ref_Timeout r = DestTimeout d;
  at_Retry : mkRetryPolicy (ref_MaxAttempts r) (ref_Lifetime r) (Delays (DestRetry d)) = DestRetry d;
  at_Delays : window as_durations h (ref_Delays r) (Delays (DestRetry d));
  at_Limit : ref_ConcurrencyLimit r = DestConcurrencyLimit d;
}.

(** As the configuration guarantees. *)
Definition no_userinfo (d : Destination) : Prop := forall u, DestURL d = Some u -> HasUser u = false.

Definition plain_at (url_String : ParsedURL -> string -> string) (h : heap) (r : dest_ref) (d : Destination) : Prop :=
  dest_at url_String h r d /\ no_userinfo d.

Definition registry_at (url_String : ParsedURL -> string -> string) (h : heap) (items : gmap string dest_ref)
    (registry : gmap string Destination) : Prop :=
  map_Forall2 (fun _ r d => plain_at url_String h r d) items registry.

(** ** Clients *)

(** The locations that a client can write to once it holds [r]. *)
Inductive reaches (h : heap) (r : dest_ref) : loc -> Prop :=
| reaches_URL l : ref_URL r = Some l -> reaches h r l
| reaches_User l u user : ref_URL r = Some l -> load as_url h l = Some (u, Some user) -> reaches h r user
| reaches_Static l : ref_StaticHeaders r = Some l -> reaches h r l
| reaches_values l m key s : ref_StaticHeaders r = Some l -> load as_header h l = Some m ->
    m !! key = Some (Some s) -> reaches h r (s_array s)
| reaches_Secret l : ref_SecretHeaders r = Some l -> reaches h r l
| reaches_Delays s : ref_Delays r = Some s -> reaches h r (s_array s).

(** What clients do, with the locations they know: they ask the registry, they
    overwrite what they know with anything at all, and they allocate. *)
Inductive client_step (items : gmap string dest_ref) :
    heap * (loc -> Prop) -> heap * (loc -> Prop) -> Prop :=
| client_Get h h' known id r :
    Get_ref items id h = (Ok r, h') ->
    client_step items (h, known)
      (h', fun l => known l \/ exists r', r = Some r' /\ reaches h' r' l)
| client_writes h (known : loc -> Prop) l o :
    known l -> client_step items (h, known) (<[l := o]> h, known)
| client_allocates h known l o :
    h !! l = None -> client_step items (h, known) (<[l := o]> h, fun l' => l' = l \/ known l').

Section Registry.
Context (url_String : ParsedURL -> string -> string).

Local Abbreviation url_at := (url_at url_String).
Local Abbreviation dest_at := (dest_at url_String).
Local Abbreviation plain_at := (plain_at url_String).
Local Abbreviation registry_at := (registry_at url_String).

(** ** More memory changes nothing *)

Lemma load_mono {A} (view : object -> option A) h h' l x :
  h ⊆ h' -> load view h l = Some x -> load view h' l = Some x.
Proof.
  unfold load. intros Hsub (o & Ho & Hx)%bind_Some.
  apply bind_Some. eauto using lookup_weaken.
Qed.

Lemma window_mono {A} (view : object -> option (list A)) h h' s vs :
  h ⊆ h' -> window view h s vs -> window view h' s vs.
Proof. destruct s as [s|]; [|done]. intros Hsub (l & Hl & ?). exists l. eauto using load_mono. Qed.

Lemma url_at_mono h h' p u : h ⊆ h' -> url_at h p u -> url_at h' p u.
Proof.
  destruct p as [l|], u as [u|]; simpl; try done. intros Hsub (base & user & Hl & Hu).
  exists base, user. split; [by eapply load_mono|]. destruct user as [l'|]; [|done].
  destruct Hu as (name & ? & ?). exists name. eauto using load_mono.
Qed.

Lemma header_at_mono h h' p hd : h ⊆ h' -> header_at h p hd -> header_at h' p hd.
Proof.
  destruct p as [l|], hd as [m|]; simpl; try done. intros Hsub (sm & Hsm & Hall). exists sm.
  split; [by eapply load_mono|]. eapply map_Forall2_impl; [exact Hall|].
  intros ??? Hw. by eapply window_mono.
Qed.

Lemma strings_at_mono h h' p m : h ⊆ h' -> strings_at h p m -> strings_at h' p m.
Proof. destruct p; simpl; eauto using load_mono. Qed.

Lemma dest_at_mono h h' r d : h ⊆ h' -> dest_at h r d -> dest_at h' r d.
Proof.
  intros Hsub []. split; eauto using url_at_mono, header_at_mono, strings_at_mono, window_mono.
Qed.

Lemma plain_at_mono h h' r d : h ⊆ h' -> plain_at h r d -> plain_at h' r d.
Proof. intros Hsub [Hd Hu]. split; [by eapply dest_at_mono|done]. Qed.

(** ** Operations that copy *)

(** From the memory [h], [op] succeeds, leaves [h] as it is, and gives
    something whose contents are in new memory only. *)
Definition copies {A} (op : M heap A) (h : heap) (P : heap -> A -> Prop) : Prop :=
  exists a hn, op h = (Ok a, hn ∪ h) /\ hn ##ₘ h /\ P hn a.

Lemma copies_ret {A} (a : A) h (P : heap -> A -> Prop) : P ∅ a -> copies (mret a) h P.
Proof.
  exists a, ∅. split_and!; [|apply map_disjoint_empty_l|done]. by rewrite (left_id_L ∅ (∪) h).
Qed.

Lemma copies_bind {A B} (op : M heap A) (f : A -> M heap B) h P Q :
  copies op h P ->
  (forall a hn, hn ##ₘ h -> P hn a -> copies (f a) (hn ∪ h) (fun hn' b => hn' ##ₘ hn -> Q (hn' ∪ hn) b)) ->
  copies (op ≫= f) h Q.
Proof.
  intros (a & hn & Hop & Hd & HP) Hf. destruct (Hf a hn Hd HP) as (b & hn' & Hb & Hd' & HQ).
  apply map_disjoint_union_r in Hd' as [Hd1 Hd2].
  exists b, (hn' ∪ hn). split_and!; [|by apply map_disjoint_union_l|by apply HQ].
  unfold mbind, M_bind. rewrite Hop. cbn. by rewrite Hb, (assoc_L (∪)).
Qed.

Lemma copies_impl {A} (op : M heap A) h (P Q : heap -> A -> Prop) :
  copies op h P -> (forall hn a, P hn a -> Q hn a) -> copies op h Q.
Proof. intros (a & hn & ? & ? & ?) HPQ. exists a, hn. eauto. Qed.

Lemma fresh_disjoint (h : heap) o : ({[fresh (dom h) := o]} : heap) ##ₘ h.
Proof. apply map_disjoint_singleton_l, not_elem_of_dom, is_fresh. Qed.

Lemma copies_alloc o h : copies (alloc o) h (fun hn l => hn !! l = Some o).
Proof.
  exists (fresh (dom h)), {[fresh (dom h) := o]}. split_and!; [|apply fresh_disjoint|apply lookup_singleton_eq].
  unfold alloc. by rewrite insert_union_singleton_l.
Qed.

Lemma load_at {A} (view : object -> option A) h l o : h !! l = Some o -> load view h l = view o.
Proof. unfold load. by intros ->. Qed.

Lemma copies_gets {A B} (g : heap -> A) (f : A -> M heap B) h P :
  copies (f (g h)) h P -> copies (gets g ≫= f) h P.
Proof. done. Qed.

Lemma copies_alloc_ret {A} o (f : loc -> A) h (P : heap -> A -> Prop) :
  (forall hn l, hn !! l = Some o -> P hn (f l)) -> copies (l ← alloc o; mret (f l)) h P.
Proof.
  intros HP. eapply copies_bind; [apply copies_alloc|]. intros l hn Hd Hl. apply copies_ret.
  intros _. rewrite (left_id_L ∅ (∪)). by apply HP.
Qed.

(** Without user information a URL is all in one place. *)
Lemma plain_url h l u :
  url_at h (Some l) (Some u) -> HasUser u = false -> load as_url h l = Some (u, None).
Proof. intros (base & [l'|] & Hl & Hu) Hno; [by destruct Hu as (name & _ & ->)|]. by destruct Hu as [_ ->]. Qed.

Lemma copy_url_copies h p u :
  url_at h p u -> (forall v, u = Some v -> HasUser v = false) ->
  copies (copy_url p) h (fun hn p' => url_at hn p' u).
Proof.
  destruct p as [l|], u as [u|]; try done; [|intros _ _; by apply copies_ret]. intros Hl Hno.
  specialize (Hno u eq_refl). apply copies_gets. rewrite (plain_url h l u) by done.
  apply copies_alloc_ret. intros hn l' Hl'. exists u, None. by erewrite load_at by exact Hl'.
Qed.

Lemma map_fold_insert_id (m : gmap string string) : map_fold insert ∅ m = m.
Proof. apply (map_fold_weak_ind (fun r m => r = m)); [done|]. intros. by f_equal. Qed.

Lemma copy_strings_copies h p m :
  strings_at h p m -> copies (copy_strings p) h (fun hn p' => strings_at hn p' m).
Proof.
  intros Hp. apply copies_gets.
  replace (default ∅ (p ≫= load as_strings h)) with m; [|by destruct p as [l|]; simpl in *; [rewrite Hp|]].
  rewrite map_fold_insert_id. apply copies_alloc_ret. intros hn l Hl. simpl. by erewrite load_at by exact Hl.
Qed.

Lemma window_elements {A} (view : object -> option (list A)) h s vs :
  window view h s vs -> elements view h s = vs.
Proof. destruct s as [s|]; [|done]. simpl. intros (l & -> & _ & ->). done. Qed.

Lemma append_nil_copies h s ds :
  window as_durations h s ds -> copies (append_nil s) h (fun hn s' => window as_durations hn s' ds).
Proof.
  intros Hs%window_elements. apply copies_gets. rewrite Hs.
  destruct ds as [|d ds]; [by apply copies_ret|]. apply copies_alloc_ret. intros hn l Hl.
  exists (d :: ds). erewrite load_at by done. split_and!; [done|simpl; lia|]. symmetry. by apply take_ge.
Qed.

(** The array that the copies of the values share is filled in order. *)
Lemma clone_entries_spec h array entries filled m all :
  clone_entries h array entries filled = (m, all) ->
  filled `prefix_of` all /\
  forall h', load as_texts h' array = Some all ->
    map_Forall2 (fun _ s' s => window as_texts h' s' (elements as_texts h s)) m (list_to_map entries).
Proof.
  revert filled m. induction entries as [|[key [s|]] entries IH]; intros filled m; simpl.
  - intros [= <- <-]. split; [done|]. intros h' _ i. rewrite !lookup_empty. constructor.
  - destruct (clone_entries _ _ _ _) as [m' all'] eqn:He. intros [= <- <-].
    destruct (IH _ _ He) as [[rest Hall] Hm].
    split; [exists (elements as_texts h (Some s) ++ rest); by rewrite (assoc_L (++))|].
    intros h' Hh'. apply map_Forall2_insert_2; [|by apply Hm].
    exists all'. split_and!; [done|subst; rewrite !length_app; simpl; lia|].
    subst. simpl. rewrite <- app_assoc, drop_app_length. by rewrite take_app_length.
  - destruct (clone_entries _ _ _ _) as [m' all'] eqn:He. intros [= <- <-].
    destruct (IH _ _ He) as [? Hm]. split; [done|].
    intros h' Hh'. apply map_Forall2_insert_2; [done|by apply Hm].
Qed.

Lemma header_Clone_copies h p hd :
  header_at h p hd -> copies (header_Clone p) h (fun hn p' => header_at hn p' hd).
Proof.
  destruct p as [l|], hd as [m|]; try done; [|intros _; by apply copies_ret].
  intros Hp. apply copies_gets. destruct Hp as (sm & -> & Hsm). simpl.
  set (array := fresh (dom h)). set (h1 := <[array := ATexts []]> h).
  destruct (clone_entries h1 array (map_to_list sm) []) as [cm all] eqn:Hc.
  set (h2 := <[array := ATexts all]> h). set (l' := fresh (dom h2)).
  assert (Hl' : l' ∉ dom h2) by apply is_fresh.
  assert (Harray : h !! array = None) by apply not_elem_of_dom, is_fresh.
  apply not_elem_of_dom, lookup_insert_None in Hl' as [Hl' Hne].
  exists (Some l'), (<[l' := AHeader cm]> {[array := ATexts all]}). split_and!.
  - unfold mbind, M_bind, alloc, gets, modify, mret, M_ret. fold array h1. rewrite Hc. cbn [fst snd].
    unfold h1. rewrite insert_insert_eq. fold h2 l'.
    by rewrite <- insert_union_l, <- insert_union_singleton_l.
  - apply map_disjoint_insert_l. split; [done|]. by apply map_disjoint_singleton_l.
  - exists cm. unfold load. rewrite lookup_insert_eq. split; [done|].
    apply clone_entries_spec in Hc as [_ Hcm].
    specialize (Hcm (<[l' := AHeader cm]> {[array := ATexts all]})).
    rewrite list_to_map_to_list in Hcm. intros key.
    specialize (Hcm ltac:(unfold load; by rewrite lookup_insert_ne, lookup_singleton_eq by done) key).
    specialize (Hsm key). destruct Hsm as [s vs Hs|]; inversion_clear Hcm as [s' ? Hw|]; constructor.
    assert (elements as_texts h1 s = vs) as <-; [|done].
    apply window_elements, (window_mono _ h); [|done]. by apply insert_subseteq.
Qed.

(** The rest of the copy, whatever is known of the URL. *)
Lemma clone_ref_with h r d (P : heap -> option loc -> Prop) :
  (forall h1 h2 p, h1 ⊆ h2 -> P h1 p -> P h2 p) ->
  dest_at h r d -> copies (copy_url (ref_URL r)) h P ->
  copies (clone_ref r) h (fun hn r' =>
    P hn (ref_URL r') /\ (url_at hn (ref_URL r') (DestURL d) -> dest_at hn r' d)).
Proof.
  intros Hmono [] Hcopy.
  eapply copies_bind; [exact Hcopy|]. intros url hn1 Hd1 Hurl.
  pose proof (map_union_subseteq_r hn1 h Hd1) as Hsub1.
  eapply copies_bind; [eapply header_Clone_copies, header_at_mono; eauto|]. intros hs hn2 Hd2 Hhs.
  pose proof (map_union_subseteq_r hn2 _ Hd2) as Hsub2.
  eapply copies_bind; [eapply copy_strings_copies, strings_at_mono; [|eauto]; by etrans|].
  intros ss hn3 Hd3 Hss. pose proof (map_union_subseteq_r hn3 _ Hd3) as Hsub3.
  eapply copies_bind; [eapply append_nil_copies, window_mono; [|eauto]; etrans; [done|by etrans]|].
  intros ds hn4 Hd4 Hds. apply copies_ret.
  intros _ Hd43 Hd32 Hd21. rewrite (left_id_L ∅ (∪)) in *.
  pose proof (map_union_subseteq_l hn4 hn3) as H4.
  pose proof (map_union_subseteq_r _ _ Hd43) as H3. pose proof (map_union_subseteq_r _ _ Hd32) as H2.
  pose proof (map_union_subseteq_r _ _ Hd21) as H1.
  pose proof (map_union_subseteq_l (hn4 ∪ hn3) hn2) as H43.
  pose proof (map_union_subseteq_l (hn4 ∪ hn3 ∪ hn2) hn1) as H432.
  split; [eapply Hmono; [exact H1|exact Hurl]|]. intros Hat. split; cbn; try done.
  - eapply header_at_mono; [|exact Hhs]. etrans; [exact H2|exact H432].
  - eapply strings_at_mono; [|exact Hss]. etrans; [exact H3|]. etrans; [exact H43|exact H432].
  - eapply window_mono; [|exact Hds]. etrans; [exact H4|]. etrans; [exact H43|exact H432].
Qed.

Lemma clone_ref_copies h r d :
  plain_at h r d -> copies (clone_ref r) h (fun hn r' => plain_at hn r' d).
Proof.
  intros [Hd Hplain]. eapply copies_impl.
  - apply (clone_ref_with h r d (fun hn p => url_at hn p (DestURL d))); [intros ???; apply url_at_mono|done|].
    by apply copy_url_copies; [apply (at_URL _ _ _ _ Hd)|].
  - intros hn r' [Hu Hat]. split; [by apply Hat|done].
Qed.

(** ** The registry *)

Lemma clone_id d : clone d = d.
Proof. by destruct d as [? ? ? ? ? ? [] ?]. Qed.

Lemma Get_ref_copies h items registry id :
  registry_at h items registry ->
  copies (Get_ref items id) h (fun hn r => option_Forall2 (plain_at hn) r (Registry_Get registry id)).
Proof.
  intros Hreg. unfold Get_ref, Registry_Get. destruct (Hreg id) as [r d Hd|].
  - eapply copies_bind; [by apply clone_ref_copies|]. intros r' hn Hdj Hr'. apply copies_ret. intros _.
    rewrite (left_id_L ∅ (∪)). simpl. rewrite clone_id. by constructor.
  - apply copies_ret. constructor.
Qed.

Lemma registry_at_mono h h' items registry :
  h ⊆ h' -> registry_at h items registry -> registry_at h' items registry.
Proof. intros Hsub Hreg. eapply map_Forall2_impl; [done|]. intros ???. by apply plain_at_mono. Qed.

Lemma url_at_not_nil h p u : url_at h p u -> not_nil p = not_nil u.
Proof. by destruct p, u. Qed.

Lemma copies_Err {A B} (op : M heap A) (f : A -> M heap B) h P e :
  copies op h P ->
  (forall a hn, hn ##ₘ h -> P hn a -> fst (f a (hn ∪ h)) = Err e) -> fst ((op ≫= f) h) = Err e.
Proof. intros (a & hn & Hop & Hd & HP) Hf. unfold mbind, M_bind. rewrite Hop. by apply Hf. Qed.

(** A loop that copies refines the loop over values: [RA] relates what it goes
    over, [RB] what it has built so far, of which it owns the memory [hp]. *)
Lemma for_each_copies {A A' B B'} (bodyM : B' -> A' -> M heap B') (body : B -> A -> result B)
    (RA : heap -> A' -> A -> Prop) (RB : heap -> B' -> B -> Prop) :
  (forall h h' x' x, h ⊆ h' -> RA h x' x -> RA h' x' x) ->
  (forall h hp b' b x' x, hp ⊆ h -> RA h x' x -> RB hp b' b ->
     match body b x with
     | Ok b1 => copies (bodyM b' x') h (fun hn b1' => RB (hn ∪ hp) b1' b1)
     | Err e => fst (bodyM b' x' h) = Err e
     end) ->
  forall l' l h hp b' b, Forall2 (RA h) l' l -> hp ⊆ h -> RB hp b' b ->
    match for_range body b l with
    | Ok b1 => copies (for_each bodyM b' l') h (fun hn b1' => RB (hn ∪ hp) b1' b1)
    | Err e => fst (for_each bodyM b' l' h) = Err e
    end.
Proof.
  intros Hmono Hbody l' l h hp b' b Hl. revert hp b' b.
  remember h as h0 eqn:Hh0 in Hl. assert (Hsub0 : h0 ⊆ h) by by subst. clear Hh0.
  revert h Hsub0. induction Hl as [|x' x l' l Hx Hl IH]; intros h Hsub0 hp b' b Hsub Hb; simpl.
  { apply copies_ret. by rewrite (left_id_L ∅ (∪)). }
  specialize (Hbody h hp b' b x' x Hsub (Hmono _ _ _ _ Hsub0 Hx) Hb).
  destruct (body b x) as [b1|e]; [|by unfold mbind, M_bind; destruct (bodyM b' x' h) as [[] ?]; simplify_eq/=].
  change (Ok b1 ≫= _) with (for_range body b1 l).
  assert (Hnext : forall a hn, hn ##ₘ h -> RB (hn ∪ hp) a b1 ->
            h0 ⊆ hn ∪ h /\ hn ∪ hp ⊆ hn ∪ h /\ RB (hn ∪ hp) a b1).
  { intros a hn Hd Ha. split_and!; [by etrans; [|apply map_union_subseteq_r]| |done].
    by apply map_union_mono_l. }
  destruct (for_range body b1 l) as [b2|e] eqn:Hr.
  - eapply copies_bind; [exact Hbody|]. intros a hn Hd Ha. destruct (Hnext a hn Hd Ha) as (? & ? & ?).
    specialize (IH (hn ∪ h) ltac:(done) (hn ∪ hp) a b1). rewrite Hr in IH.
    eapply copies_impl; [by apply IH|]. intros hn' b2' Hb2 _. by rewrite <- (assoc_L (∪)).
  - eapply copies_Err; [exact Hbody|]. intros a hn Hd Ha. destruct (Hnext a hn Hd Ha) as (? & ? & ?).
    specialize (IH (hn ∪ h) ltac:(done) (hn ∪ hp) a b1). rewrite Hr in IH. by apply IH.
Qed.

(** The registry in memory against the registry of values. *)
Lemma NewRegistry_ref_copies Quote refs ds h :
  Forall2 (plain_at h) refs ds ->
  match NewRegistry Quote ds with
  | Ok registry => copies (NewRegistry_ref Quote refs) h (fun hp items => registry_at hp items registry)
  | Err e => fst (NewRegistry_ref Quote refs h) = Err e
  end.
Proof.
  intros Hds. unfold NewRegistry, NewRegistry_ref.
  match goal with |- context [for_range ?body _ _] => set (bodyV := body) end.
  match goal with |- context [for_each ?body _ _] => set (bodyR := body) end.
  pose proof (for_each_copies bodyR bodyV plain_at registry_at plain_at_mono) as Hloop.
  match type of Hloop with ?P -> _ => assert (Hbody : P) end.
  - clear h Hds Hloop. intros h hp items' items r d Hsub Hd Hitems. unfold bodyV, bodyR.
    rewrite (at_ID _ _ _ _ (proj1 Hd)), (url_at_not_nil _ _ _ (at_URL _ _ _ _ (proj1 Hd))).
    destruct (_ || _); [done|].
    rewrite (bool_decide_ext (is_Some (items' !! DestID d)) (is_Some (items !! DestID d)))
      by (destruct (Hitems (DestID d)); split; by intros []).
    destruct (bool_decide _); [done|].
    eapply copies_bind; [by apply clone_ref_copies|]. intros r' hn Hdj Hr'. apply copies_ret. intros _.
    rewrite (left_id_L ∅ (∪)), clone_id. apply map_Forall2_insert_2.
    + eapply plain_at_mono; [apply map_union_subseteq_l|done].
    + eapply registry_at_mono; [apply map_union_subseteq_r|done]. by eapply map_disjoint_weaken_r.
  - specialize (Hloop Hbody refs ds h ∅ ∅ ∅ Hds (map_empty_subseteq h)).
    specialize (Hloop ltac:(intros i; rewrite !lookup_empty; constructor)).
    destruct (for_range bodyV ∅ ds); [|done]. eapply copies_impl; [done|]. intros hn items Hitems.
    cbn in Hitems. by rewrite (right_id_L ∅ (∪)) in Hitems.
Qed.

(** ** Isolation *)

(** What holds however clients behave: the registry still has its part [hp] of
    the memory, and no client knows a location in it. *)
Definition isolated (hp : heap) (state : heap * (loc -> Prop)) : Prop :=
  hp ⊆ fst state /\ forall l, snd state l -> hp !! l = None.

Lemma load_lookup {A} (view : object -> option A) h l x : load view h l = Some x -> is_Some (h !! l).
Proof. intros (o & Ho & _)%bind_Some. by exists o. Qed.

(** What clients reach in a copy is in its own memory. *)
Lemma reaches_copy hn h r d l : plain_at hn r d -> reaches (hn ∪ h) r l -> is_Some (hn !! l).
Proof.
  intros [[] Hplain] Hl. inversion Hl as [l' E|l' u user E Hu|l' E|l' m key s E Hm Hs|l' E|s E]; subst.
  - rewrite E in at_URL0. destruct (DestURL d) as [u|]; [|done].
    destruct at_URL0 as (base & user & Hb & _). by eapply load_lookup.
  - rewrite E in at_URL0. destruct (DestURL d) as [v|] eqn:Hv; [|done].
    apply plain_url, (load_mono _ _ (hn ∪ h)) in at_URL0; [|apply map_union_subseteq_l|by apply Hplain].
    by rewrite Hu in at_URL0.
  - rewrite E in at_Static0. destruct (DestStaticHeaders d) as [hd|]; [|done].
    destruct at_Static0 as (sm & Hsm & _). by eapply load_lookup.
  - rewrite E in at_Static0. destruct (DestStaticHeaders d) as [hd|]; [|done].
    destruct at_Static0 as (sm & Hsm & Hall).
    apply (load_mono _ _ (hn ∪ h)) in Hsm; [|apply map_union_subseteq_l].
    rewrite Hm in Hsm. injection Hsm as <-. specialize (Hall key). rewrite Hs in Hall.
    inversion Hall as [? vs Hw|]. destruct Hw as (texts & Htexts & _). by eapply load_lookup.
  - rewrite E in at_Secret0. by eapply load_lookup.
  - rewrite E in at_Delays0. destruct at_Delays0 as (ds & Hds & _). by eapply load_lookup.
Qed.

Lemma client_isolated hp items registry state state' :
  registry_at hp items registry -> client_step items state state' -> isolated hp state -> isolated hp state'.
Proof.
  intros Hreg Hstep [Hsub Hknown]. destruct Hstep as [h h' known id r Hget|h known l o Hl|h known l o Hl];
    cbn [fst snd] in *.
  - destruct (Get_ref_copies h items registry id) as (r' & hn & Hget' & Hd & Hr).
    { by eapply registry_at_mono. }
    rewrite Hget in Hget'. injection Hget' as -> ->.
    split; cbn [fst snd]; [by etrans; [|apply map_union_subseteq_r]|].
    intros l [Hl|(r'' & -> & Hl)]; [by apply Hknown|].
    inversion Hr as [? d Hd'|]; subst. eapply reaches_copy in Hl as [o Ho]; [|done].
    eapply map_disjoint_Some_r in Ho; [|by apply map_disjoint_sym]. by eapply lookup_weaken_None.
  - split; [|done]. apply insert_subseteq_r; [|done]. by apply Hknown.
  - split; [|intros l' [->|Hl']; [by eapply lookup_weaken_None|by apply Hknown]].
    apply insert_subseteq_r; [|done]. by eapply lookup_weaken_None.
Qed.

Lemma clients_isolated hp items registry state state' :
  registry_at hp items registry -> rtc (client_step items) state state' ->
  isolated hp state -> isolated hp state'.
Proof. intros Hreg. induction 1; eauto using client_isolated. Qed.

(** What a copy still shares.  If the URL of a destination has user
    information, a client that got a copy of it can write to it, and so change
    the URL in the registry, and what later calls of [Get] copy. *)
Lemma userinfo_shared h items id r d l base user name :
  items !! id = Some r -> dest_at h r d ->
  ref_URL r = Some l -> load as_url h l = Some (base, Some user) ->
  exists r' hn, Get_ref items id h = (Ok (Some r'), hn ∪ h) /\ reaches (hn ∪ h) r' user /\
    url_at (<[user := AUser name]> (hn ∪ h)) (ref_URL r) (Some (with_user url_String name base)).
Proof.
  intros Hr Hd HURL Hl.
  assert (Hcopy : copies (copy_url (ref_URL r)) h
    (fun hn p => exists l', p = Some l' /\ load as_url hn l' = Some (base, Some user))).
  { rewrite HURL. apply copies_gets. rewrite Hl. apply copies_alloc_ret. intros hn l' Hl'.
    exists l'. by erewrite load_at by exact Hl'. }
  apply (clone_ref_with h r d) in Hcopy; [|intros h1 h2 p Hsub (l' & ? & ?); eauto using load_mono|done].
  destruct Hcopy as (r' & hn & Hrun & Hdisj & (l' & HURL' & Hl') & _). exists r', hn. split_and!.
  - unfold Get_ref. rewrite Hr. unfold mbind, M_bind. by rewrite Hrun.
  - eapply reaches_User; [done|]. eapply load_mono; [apply map_union_subseteq_l|done].
  - pose proof (at_URL _ _ _ _ Hd) as Hat. rewrite HURL in *. destruct (DestURL d) as [v|]; [|done].
    destruct Hat as (base' & user' & Hl2 & Hu). rewrite Hl in Hl2. injection Hl2 as <- <-.
    destruct Hu as (old & Hold & _).
    assert (Hne : user <> l).
    { intros ->. unfold load in *. destruct (h !! l) as [[]|]; done. }
    exists base, (Some user). split.
    + apply (load_mono _ h (hn ∪ h)) in Hl; [|by apply map_union_subseteq_r].
      unfold load in *. by rewrite lookup_insert_ne.
    + exists name. split; [|done]. unfold load. by rewrite lookup_insert_eq.
Qed.

(** C37 (safety): the registry of destinations is isolated from its clients.
    Built from destinations without user information in their URLs (as all of a
    configuration are) that clients still hold, it succeeds exactly when
    the registry of values does, with the same error otherwise; and whatever
    clients then do with those destinations and with all that [Get] gave them,
    in any order, a later [Get] still answers with the configured destination,
    in memory that nobody has yet. *)
Theorem registry_isolated Quote refs ds h :
  Forall2 (dest_at h) refs ds -> Forall no_userinfo ds ->
  match NewRegistry Quote ds with
  | Ok registry => exists items h1, NewRegistry_ref Quote refs h = (Ok items, h1) /\
      forall h' known,
        rtc (client_step items) (h1, fun l => is_Some (h !! l)) (h', known) ->
        forall id, exists r hn, Get_ref items id h' = (Ok r, hn ∪ h') /\ hn ##ₘ h' /\
          option_Forall2 (dest_at hn) r (Registry_Get registry id)
  | Err e => fst (NewRegistry_ref Quote refs h) = Err e
  end.
Proof.
  intros Hds Hplain.
  assert (Hall : Forall2 (plain_at h) refs ds) by
    (induction Hds as [|r d rs l Hrd _ IH]; [constructor|]; inversion_clear Hplain; constructor;
     [by split|by apply IH]).
  pose proof (NewRegistry_ref_copies Quote refs ds h Hall) as Hnew.
  destruct (NewRegistry Quote ds) as [registry|e]; [|done].
  destruct Hnew as (items & hp & Hnew & Hd & Hreg). exists items, (hp ∪ h). split; [done|].
  intros h' known Hrun id.
  assert (Hinv : isolated hp (h', known)).
  { eapply clients_isolated; [done|done|]. split; [apply map_union_subseteq_l|].
    intros l [o Ho]. by eapply map_disjoint_Some_r. }
  destruct (Get_ref_copies h' items registry id) as (r & hn & ? & ? & Hr).
  { eapply registry_at_mono; [apply Hinv|done]. }
  exists r, hn. split_and!; [done|done|]. destruct Hr as [r d [Hat _]|]; by constructor.
Qed.
End Registry.

(** ** An instance *)

(** The destination of [Destination.v] in memory. *)
Definition sample_memory : gmap positive object := {[
  1%positive := AURL sample_url None;
  2%positive := AHeader {["Content-Type"%string := Some (mkSlice 3 0 1 1)]};
  3%positive := ATexts ["application/json"%string];
  4%positive := AStrings {["Authorization"%string := "INVENTORY_API_TOKEN"%string]};
  5%positive := ADurations [5 * Second]
]}.

Definition sample_ref : dest_ref :=
  mkDestRef "inventory-system" "POST" (Some 1%positive) (Some 2%positive) (Some 4%positive) (5 * Second) 3
    (24 * Hour) (Some (mkSlice 5 0 1 1)) 10.

Definition sample_String (u : ParsedURL) (user : string) : string := user +:+ "@" +:+ URLString u.

Lemma sample_ref_at : dest_at sample_String sample_memory sample_ref sample_destination.
Proof.
  split; try reflexivity.
  - by exists sample_url, None.
  - exists {["Content-Type"%string := Some (mkSlice 3 0 1 1)]}. split; [reflexivity|].
    apply map_Forall2_singleton. exists ["application/json"%string]. split_and!; [reflexivity|simpl; lia|done].
  - exists [5 * Second]. split_and!; [reflexivity|simpl; lia|done].
Qed.

Lemma sample_NewRegistry : NewRegistry id [sample_destination] = Ok sample_registry.
Proof. vm_compute. reflexivity. Qed.

(** The client empties the header that it configured and the one it got; the
    next [Get] still has the content type. *)
Lemma registry_isolated_witness :
  exists items h1 r h2 l r' hn,
    NewRegistry_ref id [sample_ref] sample_memory = (Ok items, h1) /\
    Get_ref items "inventory-system" h1 = (Ok (Some r), h2) /\ ref_StaticHeaders r = Some l /\
    let h3 := <[l := AHeader ∅]> (<[2%positive := AHeader ∅]> h2) in
    Get_ref items "inventory-system" h3 = (Ok (Some r'), hn ∪ h3) /\ dest_at sample_String hn r' sample_destination.
Proof.
  pose proof (registry_isolated sample_String id [sample_ref] [sample_destination] sample_memory
    ltac:(constructor; [apply sample_ref_at|constructor])
    ltac:(constructor; [intros u [= <-]; reflexivity|constructor])) as Hreg.
  rewrite sample_NewRegistry in Hreg. destruct Hreg as (items & h1 & Hnew & Hreg).
  destruct (Hreg h1 _ ltac:(apply rtc_refl) "inventory-system"%string) as (r & hn & Hget & _ & Hr).
  change (Registry_Get sample_registry "inventory-system") with (Some sample_destination) in Hr.
  inversion Hr as [r0 ? Hat|]; subst. pose proof (at_Static _ _ _ _ Hat) as Hs.
  destruct (ref_StaticHeaders r0) as [l|] eqn:El; [|done].
  destruct (Hreg (<[l := AHeader ∅]> (<[2%positive := AHeader ∅]> (hn ∪ h1))) _ ltac:(
    eapply rtc_l; [exact (client_Get _ _ _ _ _ _ Hget)|]; eapply rtc_l; [|apply rtc_once]; apply client_writes;
    [left; by eexists|right; eexists; split; [done|by apply reaches_Static]])
    "inventory-system"%string) as (r' & hn' & Hget' & _ & Hr').
  change (Registry_Get sample_registry "inventory-system") with (Some sample_destination) in Hr'.
  inversion Hr' as [r0' ? Hat'|]; subst.
  exists items, h1, r0, (hn ∪ h1), l, r0', hn'. done.
Defined.

(** With user information instead: it is shared by what [Get] returns. *)
Definition shared_memory : gmap positive object :=
  <[1%positive := AURL sample_url (Some 6%positive)]> (<[6%positive := AUser "service"]> sample_memory).

Definition shared_destination : Destination :=
  mkDestination "inventory-system" "POST" (Some (with_user sample_String "service" sample_url))
    (DestStaticHeaders sample_destination) (DestSecretHeaders sample_destination) (DestTimeout sample_destination)
    (DestRetry sample_destination) (DestConcurrencyLimit sample_destination).

Lemma userinfo_shared_witness :
  exists r' hn,
    Get_ref {["inventory-system"%string := sample_ref]} "inventory-system" shared_memory
      = (Ok (Some r'), hn ∪ shared_memory) /\
    reaches (hn ∪ shared_memory) r' 6%positive.
Proof.
  destruct (userinfo_shared sample_String shared_memory {["inventory-system"%string := sample_ref]}
    "inventory-system" sample_ref shared_destination 1%positive sample_url 6%positive "intruder")
    as (r' & hn & Hget & Hreach & _); [reflexivity| |reflexivity|reflexivity|by exists r', hn].
  split; try reflexivity.
  - exists sample_url, (Some 6%positive). split; [reflexivity|]. by exists "service"%string.
  - exists {["Content-Type"%string := Some (mkSlice 3 0 1 1)]}. split; [reflexivity|].
    apply map_Forall2_singleton. exists ["application/json"%string]. split_and!; [reflexivity|simpl; lia|done].
  - exists [5 * Second]. split_and!; [reflexivity|simpl; lia|done].
Defined.
