(* ===== verification/Hash.v ===== *)
(** * The request digest (src/internal/notification/hash.go)

    [RequestHash] canonicalises a JSON payload by decoding and re-encoding it,
    and hashes it behind the destination.  The JSON decoder and encoder and
    SHA-256 are parameters: the decoder reads one value from a text and leaves
    the rest.  [Payload.v] instantiates decoder and encoder. *)

From S2P Require Import Prelude GoTime GoStrings Notification.

Section Hash.
Context {json : Type}
        (Decode : string -> result json * string)
        (Marshal : json -> result string)
        (Sum256 : list Z -> list Z).

(** The digested bytes: the destination, a zero byte, the canonical payload. *)
Definition hash_input (destinationID canonical : string) : list Z :=
  bytes destinationID ++ [0] ++ bytes canonical.

Definition RequestHash (destinationID payload : string) : result string :=
  match Decode payload with
  | (Err e, _) => Err (Wrapped "decode payload" e)
  | (Ok value, rest) =>
      let trailing :=
        match Decode rest with
        | (Ok _, _) => Some (Message "multiple JSON values")
        | (Err e, _) => if errors_Is e IoEOF then None else Some e
        end in
      match trailing with
      | Some e => Err (Wrapped "decode trailing payload" e)
      | None =>
          canonical ← wrap "encode canonical payload" (Marshal value);
          Ok (of_bytes (Sum256 (hash_input destinationID canonical)))
      end
  end.

(** The canonical text of a payload that is exactly one JSON value. *)
Definition canonical_of (payload : string) : option string :=
  match Decode payload with
  | (Ok value, rest) =>
      match Decode rest with
      | (Err e, _) =>
          if errors_Is e IoEOF
          then match Marshal value with Ok c => Some c | Err _ => None end
          else None
      | (Ok _, _) => None
      end
  | (Err _, _) => None
  end.

Lemma RequestHash_canonical destinationID payload h :
  RequestHash destinationID payload = Ok h <->
  exists c, canonical_of payload = Some c /\ h = of_bytes (Sum256 (hash_input destinationID c)).
Proof.
  unfold RequestHash, canonical_of. destruct (Decode payload) as [[value|e] rest]; [|naive_solver].
  destruct (Decode rest) as [[v|e] r]; [naive_solver|]. destruct (errors_Is e IoEOF); [|naive_solver].
  destruct (Marshal value); cbn; naive_solver.
Qed.

(** Text without a zero byte. *)
Definition zero_free (s : string) : Prop := 0 ∉ bytes s.

Lemma hash_input_inj d1 c1 d2 c2 :
  zero_free d1 -> zero_free d2 -> hash_input d1 c1 = hash_input d2 c2 -> d1 = d2 /\ c1 = c2.
Proof.
  unfold zero_free, hash_input. intros H1 H2 Heq.
  cut (bytes d1 = bytes d2 /\ bytes c1 = bytes c2).
  { intros [Hd Hc]. split; by apply bytes_inj. }
  revert H1 H2 Heq. generalize (bytes d1) (bytes d2) (bytes c1) (bytes c2).
  induction l as [|b l IH]; intros [|b' l'] l1 l2 H1 H2 Heq; simpl in *; simplify_eq/=.
  - done.
  - exfalso. apply H2. left.
  - exfalso. apply H1. left.
  - destruct (IH l' l1 l2) as [-> ->]; [set_solver|set_solver|done|done].
Qed.

Lemma of_bytes_inj l1 l2 :
  Forall is_byte l1 -> Forall is_byte l2 -> of_bytes l1 = of_bytes l2 -> l1 = l2.
Proof. intros H1 H2 H. by rewrite <- (bytes_of_bytes l1 H1), <- (bytes_of_bytes l2 H2), H. Qed.

(** Two requests have the same digest exactly when they
    name the same destination and their payloads are the same JSON value, as
    canonical text; the only other way is a collision of the hash function,
    which the two digested texts exhibit. *)
Theorem same_digest d1 p1 h1 d2 p2 h2 :
  (forall l, Forall is_byte (Sum256 l)) ->
  zero_free d1 -> zero_free d2 ->
  RequestHash d1 p1 = Ok h1 -> RequestHash d2 p2 = Ok h2 ->
  (d1 = d2 -> canonical_of p1 = canonical_of p2 -> h1 = h2) /\
  (h1 = h2 ->
   (d1 = d2 /\ canonical_of p1 = canonical_of p2) \/
   exists x y, x <> y /\ Sum256 x = Sum256 y).
Proof.
  intros Hsum Hz1 Hz2 (c1 & Hc1 & ->)%RequestHash_canonical (c2 & Hc2 & ->)%RequestHash_canonical.
  rewrite Hc1, Hc2. split; [by intros -> [= ->]|].
  intros Heq%of_bytes_inj; [|done..].
  destruct (decide (hash_input d1 c1 = hash_input d2 c2)) as [Hin|Hne].
  - left. apply hash_input_inj in Hin as [-> ->]; done.
  - right. by exists (hash_input d1 c1), (hash_input d2 c2).
Qed.

End Hash.

(** ** Instance *)

(** Stand-ins: the decoder takes the whole text as one value. *)
Definition sample_decode (s : string) : result string * string :=
  if bool_decide (s = ""%string) then (Err (Sentinel IoEOF), s) else (Ok s, ""%string).

Definition sample_digest (l : list Z) : list Z := (fun b => b mod 256) <$> l.

Lemma same_digest_witness :
  RequestHash sample_decode Ok sample_digest "crm" "{}" = Ok (of_bytes [99; 114; 109; 0; 123; 125]) /\
  (canonical_of sample_decode Ok "{}" = canonical_of sample_decode Ok "{}" ->
   of_bytes [99; 114; 109; 0; 123; 125] = of_bytes [99; 114; 109; 0; 123; 125]).
Proof.
  split; [vm_compute; reflexivity|].
  refine (proj1 (same_digest sample_decode Ok sample_digest "crm" "{}" _ "crm" "{}" _ _ _ _ _ _) eq_refl).
  - intros l. apply Forall_fmap, Forall_true. intros b. apply Z.mod_pos_bound. lia.
  - unfold zero_free. vm_compute. set_solver.
  - unfold zero_free. vm_compute. set_solver.
  - vm_compute. reflexivity.
  - vm_compute. reflexivity.
Defined.
