(* ===== verification/Intake.v ===== *)
(** * The intake service (src/internal/intake/service.go)

    [Create] against the interface of its repository, and the store as an
    implementation of that interface.  A call draws the clock once and the
    identifier generator twice; these values are arguments. *)

From S2P Require Import Prelude GoTime GoStrings GoText Notification Hash Destination Table Schema Store StoreSpec StoreRefine StoreProps IntakeStoreProps Samples.

(** What the service asks of its repository, over a world [W]. *)
Class IntakeRepository (W : Type) := {
  repo_CreateOrGet : Task -> OutboxEvent -> M W (option Task);
}.

(** What the deferred call reports to the observer. *)
Inductive intake_outcome :=
| outcome_internal_error | outcome_unknown_destination | outcome_invalid_payload
| outcome_accepted | outcome_idempotency_conflict.

#[global] Instance intake_outcome_eq_dec : EqDecision intake_outcome.
Proof. solve_decision. Defined.

Section Intake.
Context {json : Type}
        (Decode : string -> result json * string)
        (Marshal : json -> result string)
        (Sum256 : list Z -> list Z).

(** [cloneMap], whose result equals its argument. *)
Definition cloneMap (source : gmap string string) : gmap string string := map_fold insert ∅ source.

Definition new_task (caller key destinationID payload hash : string) (target : Destination)
    (url : string) (now : time) (taskID : string) : Task :=
  {| TaskID := taskID; CallerID := caller; IdempotencyKey := key; Notification.RequestHash := hash;
     Snapshot :=
       {| DestinationID := destinationID; Method := DestMethod target; URL := url;
          StaticHeaders := DestStaticHeaders target;
          SecretHeaders := cloneMap (DestSecretHeaders target); Body := payload;
          Timeout := DestTimeout target; Retry := DestRetry target;
          ConcurrencyLimit := DestConcurrencyLimit target; SnapshotIdempotencyKey := key |};
     TaskStatus := StatusPending; AttemptCount := 0; Generation := 0; NextAttemptAt := None;
     LeaseToken := ""; LeaseUntil := None; LastHTTPStatus := 0; LastErrorCode := "";
     LastError := ""; CreatedAt := now; UpdatedAt := now; DeliveredAt := None; DeadAt := None |}.

Definition new_event (taskID eventID : string) (now : time) : OutboxEvent :=
  {| EventID := eventID; AggregateID := taskID; EventGeneration := 0;
     EventType := "notification.ready";
     Payload := [("event_id", eventID); ("notification_id", taskID)]%string;
     EventCreatedAt := now; PublishedAt := None; ClaimToken := ""; ClaimUntil := None;
     PublishAttempts := 0 |}.

(** The outcome, and the result with its duplicate flag; [None] is the panic of
    [target.URL.String()] on a nil URL. *)
Definition Create {W} `{IntakeRepository W} (registry : gmap string Destination)
    (now : time) (taskID eventID : string)
    (caller idempotencyKey destinationID payload : string) (w : W)
    : option (intake_outcome * result (Task * bool)) * W :=
  match Registry_Get registry destinationID with
  | None => (Some (outcome_unknown_destination, Err (Sentinel ErrUnknownDestination)), w)
  | Some target =>
    match Hash.RequestHash Decode Marshal Sum256 destinationID payload with
    | Err e => (Some (outcome_invalid_payload, Err (Wrapped "hash request" e)), w)
    | Ok hash =>
      match DestURL target with
      | None => (None, w)
      | Some url =>
        let task := new_task caller idempotencyKey destinationID payload hash target
                      (URLString url) now taskID in
        match repo_CreateOrGet task (new_event taskID eventID now) w with
        | (Err e, w') => (Some (outcome_internal_error, Err e), w')
        | (Ok None, w') => (Some (outcome_accepted, Ok (task, false)), w')
        | (Ok (Some existing), w') =>
            if bool_decide (Notification.RequestHash existing <> hash)
            then (Some (outcome_idempotency_conflict, Err (Sentinel IntakeErrIdempotencyConflict)), w')
            else (Some (outcome_accepted, Ok (existing, true)), w')
        end
      end
    end
  end.

Lemma cloneMap_id m : cloneMap m = m.
Proof.
  unfold cloneMap. induction m as [|k v m Hk IH] using map_ind; [done|].
  rewrite map_fold_insert_L; [by rewrite IH| |done].
  intros k1 k2 v1 v2 m' Hne _ _. by apply insert_insert_ne.
Qed.

(** ** The store behind the interface *)

Context (jsonb : string -> option string).

Definition store_intake (f f' : fault) : IntakeRepository db :=
  {| repo_CreateOrGet := CreateOrGet jsonb f f' |}.

Lemma new_request_fresh caller key dest payload hash target url now tid eid :
  fresh_request (new_task caller key dest payload hash target url now tid) (new_event tid eid now)
  = true.
Proof. unfold fresh_request. simpl. by rewrite !bool_decide_eq_true_2. Qed.

Definition run_create (f f' : fault) (registry : gmap string Destination) (now : time)
    (taskID eventID caller key dest payload : string) (d : db) :=
  @Create db (store_intake f f') registry now taskID eventID caller key dest payload d.

(** The lengths that the destination file and the HTTP layer leave to the
    [CHECK] constraints of the table. *)
Record storable (caller key dest url taskID eventID : string) : Prop := {
  st_caller : text_between 1 128 caller = true;
  st_key : text_between 1 256 key = true;
  st_dest : text_between 1 128 dest = true;
  st_url : text_between 1 2048 url = true;
  st_task : text_between 1 64 taskID = true;
  st_event : text_between 1 64 eventID = true;
}.

Lemma new_task_row_ok url_Parse_IP lookupEnv caller key dest payload hash target u now tid eid b :
  valid_destination url_Parse_IP lookupEnv target -> len hash = 32 ->
  storable caller key dest (URLString u) tid eid ->
  task_row_ok tid (row_of_task (new_task caller key dest payload hash target (URLString u) now tid) b)
  = true.
Proof.
  intros Hv Hh [H1 H2 H3 H4 H5 _]. unfold task_row_ok, task_fixed_ok, row_of_task, new_task.
  cbn [fixed attempt_count generation lease_token last_http_status last_error_code last_error_message
    caller_id idempotency_key request_hash destination_id method url timeout_ns max_attempts lifetime_ns
    concurrency_limit TaskID CallerID IdempotencyKey Notification.RequestHash Snapshot AttemptCount Generation
    DestinationID Method URL Timeout Retry ConcurrencyLimit opt_ok from_option].
  rewrite H1, H2, H3, H4, H5, Hh. pose proof (vd_method _ _ _ Hv).
  rewrite bool_decide_eq_true_2 by done.
  pose proof (vd_timeout _ _ _ Hv). pose proof (vd_lifetime _ _ _ Hv).
  pose proof (vd_attempts _ _ _ Hv). pose proof (vd_concurrency _ _ _ Hv).
  unfold int64_ok, int4_ok, int64_min, int64_max, Hour, Minute, Second, Millisecond, Microsecond,
    Nanosecond in *. lia.
Qed.

Lemma new_event_row_ok caller key dest url tid eid now :
  storable caller key dest url tid eid -> event_row_ok eid (row_of_event (new_event tid eid now)) = true.
Proof.
  intros [_ _ _ _ Ht He]. unfold event_row_ok. simpl. rewrite He.
  unfold text_between in Ht. reflect_bools.
  match goal with H : text_ok tid = true |- _ => rewrite H end. reflexivity.
Qed.
(** A call that no failure disturbs, for an unused and for a used key. *)
Lemma run_create_NoFault url_Parse_IP lookupEnv registry now taskID eventID caller key dest payload
    target u hash b d :
  (forall l, Forall is_byte (Sum256 l) /\ length (Sum256 l) = 32%nat) ->
  db_inv d ->
  registry !! dest = Some target -> DestURL target = Some u ->
  valid_destination url_Parse_IP lookupEnv target ->
  Hash.RequestHash Decode Marshal Sum256 dest payload = Ok hash ->
  jsonb payload = Some b ->
  storable caller key dest (URLString u) taskID eventID ->
  tasks d !! taskID = None -> outbox d !! eventID = None ->
  let task := new_task caller key dest payload hash target (URLString u) now taskID in
  let d' := {| tasks := <[taskID := row_of_task task b]> (tasks d);
               outbox := <[eventID := row_of_event (new_event taskID eventID now)]> (outbox d) |} in
  run_create NoFault NoFault registry now taskID eventID caller key dest payload d
    = match sql_select (same_key caller key) (tasks d) with
      | [] => (Some (outcome_accepted, Ok (task, false)), d')
      | (id, r) :: _ =>
          (Some (if bool_decide (copy_hash (request_hash (fixed r)) <> hash)
                 then (outcome_idempotency_conflict, Err (Sentinel IntakeErrIdempotencyConflict))
                 else (outcome_accepted, Ok (keyed_task id r, true))), d)
      end /\
  (sql_select (same_key caller key) (tasks d) = [] -> db_inv d').
Proof.
  intros Hsum Hinv Hreg Hu Hv Hh Hb Hst Hnew Hevnew task d'.
  assert (Hlen : len hash = 32).
  { apply RequestHash_canonical in Hh as (c & _ & ->). unfold len. rewrite of_bytes_length.
    by rewrite (proj2 (Hsum _)). }
  pose proof (new_task_row_ok _ _ caller key dest payload hash target u now taskID eventID b Hv Hlen Hst)
    as Hrow. pose proof (new_event_row_ok caller key dest _ taskID eventID now Hst) as Hev.
  pose proof (CreateOrGet_NoFault jsonb task (new_event taskID eventID now) d b (inv_schema d Hinv)
    Hb Hrow Hev eq_refl Hnew Hevnew) as Hrun.
  change (CallerID task) with caller in Hrun. change (IdempotencyKey task) with key in Hrun. split.
  - unfold run_create, Create, Registry_Get. rewrite Hreg. simpl. rewrite Hh, Hu.
    change (new_task _ _ _ _ _ (clone target) _ _ _) with
      (new_task caller key dest payload hash (clone target) (URLString u) now taskID).
    replace (new_task caller key dest payload hash (clone target) (URLString u) now taskID) with task
      by (unfold task, new_task; by destruct target as [? ? ? ? ? ? [] ?]).
    rewrite Hrun. destruct (sql_select _ _) as [|[id r] l]; [done|]. cbn [Notification.RequestHash keyed_task].
    by case_bool_decide.
  - intros Hsel. assert (Hkey : sql_exists (same_key caller key) (tasks d) = false)
      by (unfold sql_exists; by rewrite Hsel).
    apply db_inv_create; [done..| |done|done]. reflexivity.
Qed.

(** What the row of a new task says. *)
Lemma row_of_new_task caller key dest payload hash target url now taskID b :
  let r := row_of_task (new_task caller key dest payload hash target url now taskID) b in
  status r = StatusPending /\ attempt_count r = 0 /\ generation r = 0 /\
  caller_id (fixed r) = caller /\ request_hash (fixed r) = hash /\
  snapshot_of_row (fixed r) =
    {| DestinationID := dest; Method := DestMethod target; URL := url;
       StaticHeaders := DestStaticHeaders target; SecretHeaders := DestSecretHeaders target;
       Body := b; Timeout := DestTimeout target; Retry := DestRetry target;
       ConcurrencyLimit := DestConcurrencyLimit target; SnapshotIdempotencyKey := key |}.
Proof.
  split_and!; try done. unfold snapshot_of_row. simpl. rewrite cloneMap_id. by destruct (DestRetry target).
Qed.

(** An accepted request.  For a registered destination, a
    payload that is one JSON value, fields within the column bounds, new
    identifiers and an unused key, [Create] answers the new task and stores,
    in one transaction, the pending task with the destination's settings as
    they are now and one unpublished event of generation 0. *)
Theorem create_accepts url_Parse_IP lookupEnv registry now taskID eventID caller key dest payload
    target u hash b d :
  (forall l, Forall is_byte (Sum256 l) /\ length (Sum256 l) = 32%nat) ->
  db_inv d ->
  registry !! dest = Some target -> DestURL target = Some u ->
  valid_destination url_Parse_IP lookupEnv target ->
  Hash.RequestHash Decode Marshal Sum256 dest payload = Ok hash ->
  jsonb payload = Some b ->
  storable caller key dest (URLString u) taskID eventID ->
  tasks d !! taskID = None -> outbox d !! eventID = None ->
  sql_exists (same_key caller key) (tasks d) = false ->
  exists task r, let d' := {| tasks := <[taskID := r]> (tasks d);
                   outbox := <[eventID := row_of_event (new_event taskID eventID now)]> (outbox d) |} in
    run_create NoFault NoFault registry now taskID eventID caller key dest payload d
      = (Some (outcome_accepted, Ok (task, false)), d') /\
    TaskID task = taskID /\ TaskStatus task = StatusPending /\
    status r = StatusPending /\ attempt_count r = 0 /\ generation r = 0 /\
    caller_id (fixed r) = caller /\ request_hash (fixed r) = hash /\
    snapshot_of_row (fixed r) =
      {| DestinationID := dest; Method := DestMethod target; URL := URLString u;
         StaticHeaders := DestStaticHeaders target; SecretHeaders := DestSecretHeaders target;
         Body := b; Timeout := DestTimeout target; Retry := DestRetry target;
         ConcurrencyLimit := DestConcurrencyLimit target; SnapshotIdempotencyKey := key |} /\
    db_inv d'.
Proof.
  intros Hsum Hinv Hreg Hu Hv Hh Hb Hst Hnew Hevnew Hkey.
  destruct (run_create_NoFault url_Parse_IP lookupEnv registry now taskID eventID caller key dest payload
    target u hash b d) as [Hrun Hdb]; [done..|].
  assert (Hsel : sql_select (same_key caller key) (tasks d) = []).
  { unfold sql_exists in Hkey. by destruct (sql_select _ _). }
  rewrite Hsel in Hrun. eexists _, _. split; [exact Hrun|].
  pose proof (row_of_new_task caller key dest payload hash target (URLString u) now taskID b) as Hr.
  split_and!; try done; [apply Hr..|by apply Hdb].
Qed.

(** C6 (safety): a repeated request, end to end.  After a request was
    accepted, whatever the services do short of deleting its task, a request
    of the same caller with the same key changes nothing; if it is answered,
    it is a duplicate with the first identifier when its digest is that of the
    first request, and a conflict when it is not. *)
Theorem create_repeated Sum256' returning_order f f' registry now tid eid caller key dest payload d d1 task
    cs g g' registry' now' tid' eid' dest' payload' hash' o res d3 :
  db_inv d ->
  run_create f f' registry now tid eid caller key dest payload d
    = (Some (outcome_accepted, Ok (task, false)), d1) ->
  forallb call_ok cs = true -> forallb keeps_tasks cs = true ->
  let d2 := foldl (fun d c => run_call jsonb Sum256' returning_order c d) d1 cs in
  Hash.RequestHash Decode Marshal Sum256 dest' payload' = Ok hash' ->
  run_create g g' registry' now' tid' eid' caller key dest' payload' d2 = (Some (o, res), d3) ->
  d3 = d2 /\
  match res with
  | Ok (t, duplicate) =>
      o = outcome_accepted /\ duplicate = true /\ TaskID t = TaskID task /\
      hash' = Notification.RequestHash task
  | Err e =>
      o = outcome_unknown_destination \/ o = outcome_internal_error \/
      (o = outcome_idempotency_conflict /\ e = Sentinel IntakeErrIdempotencyConflict /\
       hash' <> Notification.RequestHash task)
  end.
Proof.
  intros Hinv H1 Hok Hk d2 Hh' H2. unfold run_create, Create in H1.
  destruct (Registry_Get registry dest) as [target|]; [|done].
  destruct (Hash.RequestHash _ _ _ dest payload) as [hash|]; [|done].
  destruct (DestURL target) as [u|]; [|done].
  set (t1 := new_task _ _ _ _ _ _ _ _ _) in H1. simpl in H1.
  destruct (CreateOrGet jsonb f f' t1 _ d) as [[[t|]|e] dd] eqn:Hc1; [by case_bool_decide| |done].
  injection H1 as <- <-.
  destruct (accepted_request_kept jsonb Sum256' returning_order f f' t1 _ d dd cs Hinv
    (new_request_fresh _ _ _ _ _ _ _ _ _ _) Hc1 Hok Hk) as (Hinv2 & r & Hr & Hc & Hkey & Hrh).
  fold d2 in Hinv2, Hr. unfold run_create, Create in H2.
  destruct (Registry_Get registry' dest') as [target'|]; [|by simplify_eq; auto].
  rewrite Hh' in H2. destruct (DestURL target') as [u'|]; [|done].
  set (t2 := new_task _ _ _ _ _ _ _ _ _) in H2. simpl in H2.
  destruct (CreateOrGet jsonb g g' t2 _ d2) as [[res2|e] d3'] eqn:Hc2.
  - apply (CreateOrGet_existing _ _ _ _ _ _ (TaskID t1) r) in Hc2 as [-> ->];
      [|by apply inv_schema|done|by rewrite Hc|by rewrite Hkey].
    simpl in H2. rewrite Hrh in H2. destruct (decide (hash = hash')) as [Heq|Hne].
    + rewrite bool_decide_eq_false_2 in H2 by (intros Hne; by apply Hne).
      injection H2 as <- <- <-. by split_and!.
    + rewrite bool_decide_eq_true_2 in H2 by done. injection H2 as <- <- <-.
      split; [done|]. right; right. split_and!; [done..|]. by apply not_eq_sym.
  - assert (d3' = d2) as ->.
    { pose proof (CreateOrGet_db jsonb g g' t2 (new_event tid' eid' now') d2) as Hdb.
      rewrite Hc2 in Hdb. simpl in Hdb. rewrite Hdb.
      apply (CreateOrGet_existing_db _ _ _ _ _ (TaskID t1) r); [done|by rewrite Hc|by rewrite Hkey]. }
    simplify_eq. auto.
Qed.
End Intake.

(** ** Instances *)

Definition sample_create (now : time) (tid eid key payload : string) (d : db) :=
  run_create sample_decode Ok sample_sum sample_jsonb NoFault NoFault sample_registry now tid eid
    "orders" key "inventory-system" payload d.

Definition sample_hash (payload : string) : string :=
  of_bytes (sample_sum (hash_input "inventory-system" payload)).

Definition sample_new_task (tid key payload : string) (now : time) : Task :=
  new_task "orders" key "inventory-system" payload (sample_hash payload) sample_destination
    "https://inventory.example.com/v1/notifications" now tid.

Lemma create_accepts_witness :
  fst (sample_create 1000 "n1" "e1" "k1" "{}" empty_db)
    = Some (outcome_accepted, Ok (sample_new_task "n1" "k1" "{}" 1000, false)).
Proof.
  destruct (create_accepts sample_decode Ok sample_sum sample_jsonb (fun _ => None) sample_env
    sample_registry 1000 "n1" "e1" "orders" "k1" "inventory-system" "{}" sample_destination
    sample_url (sample_hash "{}") "{}" empty_db) as (task & r & Hrun & _).
  - exact sample_sum_bytes.
  - exact db_inv_empty.
  - reflexivity.
  - reflexivity.
  - exact (proj1 (parse_valid (fun _ => Some sample_url) (fun _ => None)
      sample_ParseDuration to_upper to_lower id map_to_list sample_env sample_fold_ascii
      sample_raw sample_destination sample_parsed)).
  - vm_compute. reflexivity.
  - reflexivity.
  - split; vm_compute; reflexivity.
  - reflexivity.
  - reflexivity.
  - reflexivity.
  - apply (f_equal fst) in Hrun. unfold sample_create. rewrite Hrun. vm_compute in Hrun.
    injection Hrun as <-. vm_compute. reflexivity.
Defined.

(** The same key with another payload, while the first task is pending. *)
Lemma create_repeated_witness :
  snd (sample_create 2000 "n2" "e2" "k1" "[]"
         (snd (sample_create 1000 "n1" "e1" "k1" "{}" empty_db)))
    = snd (sample_create 1000 "n1" "e1" "k1" "{}" empty_db).
Proof.
  refine (proj1 (create_repeated sample_decode Ok sample_sum sample_jsonb sample_sum sample_order
    NoFault NoFault sample_registry 1000 "n1" "e1" "orders" "k1" "inventory-system" "{}" empty_db
    (snd (sample_create 1000 "n1" "e1" "k1" "{}" empty_db)) (sample_new_task "n1" "k1" "{}" 1000)
    [] NoFault NoFault sample_registry 2000 "n2" "e2" "inventory-system" "[]" (sample_hash "[]")
    outcome_idempotency_conflict (Err (Sentinel IntakeErrIdempotencyConflict)) _ _ _ _ _ _ _)).
  - exact db_inv_empty.
  - vm_compute. reflexivity.
  - reflexivity.
  - reflexivity.
  - vm_compute. reflexivity.
  - vm_compute. reflexivity.
Defined.
