(* ===== verification/Sender.v ===== *)
(** * The HTTP sender (src/internal/delivery/http_sender.go)

    [Send] turns a stored snapshot into at most one request for the HTTP client
    and the answer into a [Result].  The environment variables, [url.Parse],
    [net.ParseIP], [http.ParseTime], the validity check of
    [http.NewRequestWithContext] and the client's [Do] are parameters; the
    redirect and dial policies that the client is built with are definitions. *)

From S2P Require Import Prelude GoTime GoStrings GoText Notification Destination.

Open Scope string_scope.
Open Scope Z_scope.

Record SendResult := mkSendResult {
  ResultOutcome : Outcome;
  ResultHTTPStatus : Z;
  ResultErrorCode : string;
  ResultErrorMessage : string;
  ResultRetryAfter : option time;
}.

(** [Result{Outcome: o, ErrorCode: code}]. *)
Definition plain_result (o : Outcome) (code : string) : SendResult := mkSendResult o 0 code "" None.

Record SenderConfig := mkSenderConfig {
  AllowPrivateNetworks : bool;
  MaxDiagnosticBytes : Z;
}.

(** The limit that [NewHTTPSender] keeps. *)
Definition diagnostic_limit (config : SenderConfig) : Z :=
  if MaxDiagnosticBytes config <=? 0 then 1024 else MaxDiagnosticBytes config.

Record HTTPRequest := mkHTTPRequest {
  ReqMethod : string;
  ReqURL : string;
  ReqHeader : gmap string (list string);
  ReqBody : string;
  ReqTimeout : duration;
}.

(** A response: its body is what can be read of it before the end or an error. *)
Record HTTPResponse := mkHTTPResponse {
  StatusCode : Z;
  RespHeader : Header;
  RespBody : string;
}.

(** ** Diagnostics *)

Definition control_to_space (r : Z) : Z := if (r <? 32) && negb (r =? 9) then 32 else r.

Definition sanitize (value : string) (limit : Z) : string :=
  let value := strings_Map control_to_space value in
  if limit <? len value then byte_prefix limit value else value.

Definition parseRetryAfter (http_ParseTime : string -> option time) (value : string) (now : time)
    : option time :=
  let by_date :=
    match http_ParseTime value with
    | Some parsed => if time_After parsed now then Some parsed else None
    | None => None
    end in
  match Atoi (strings_TrimSpace value) with
  | Some seconds =>
      if 0 <=? seconds then Some (time_Add now (wrap64 (seconds * Second))) else by_date
  | None => by_date
  end.

(** ** Policies of the client *)

(** [DialContext], up to the connection itself: the address and the port to
    connect to.  [net.SplitHostPort] and the resolver are arguments; [None] is
    the panic of [addresses[0]] when nothing was checked and nothing resolved. *)
Definition dial_address (SplitHostPort : string -> result (string * string))
    (LookupIP : string -> result (list (list Z))) (config : SenderConfig) (address : string)
    : option (result (list Z * string)) :=
  match SplitHostPort address with
  | Err e => Some (Err (Wrapped "split destination address" e))
  | Ok (host, port) =>
    match LookupIP host with
    | Err e => Some (Err (Wrapped "resolve destination" e))
    | Ok addresses =>
      if negb (AllowPrivateNetworks config)
         && negb (bool_decide (ValidateResolvedIPs addresses = None))
      then Some (Err (Sentinel errDestinationNotAllowed))
      else match addresses with
           | ip :: _ => Some (Ok (ip, port))
           | [] => None
           end
    end
  end.

(** [CheckRedirect]: the next request's scheme and host, and the earlier ones. *)
Definition CheckRedirect (fold : Z -> Z) (next : string * string) (via : list (string * string))
    : option error :=
  match via with
  | [] => Some (Sentinel errRedirectNotAllowed)
  | first :: _ =>
      if negb (EqualFold fold next.1 first.1) || negb (EqualFold fold next.2 first.2)
         || (3 <=? Z.of_nat (length via))
      then Some (Sentinel errRedirectNotAllowed) else None
  end.

(** One call of [Do]: the client makes a request, and another one for every
    redirect that [CheckRedirect] lets pass.  Each goes over a connection that
    [DialContext] opened, now or earlier, to the address that the transport
    connects to for its scheme and host ([connect_to], the proxy's if the
    environment names one).  If a connection that was used before fails, the
    transport sends the request again, over another one: it may do so for any
    method here, since [Send] sets [Idempotency-Key] and the body can be read
    again ([http.NewRequest] of a [bytes.Reader] sets [GetBody]), and as often
    as that happens.  A trace is the list of what was sent so far, each with
    the address and port of its connection. *)
Section Exchange.
Context (fold : Z -> Z) (connect_to : string * string -> string)
        (SplitHostPort : string -> result (string * string)) (config : SenderConfig).

Record exchanged := mkExchanged {
  exch_target : string * string;
  exch_peer : list Z * string;
  exch_again : bool;
}.

(** The requests of the client, without those that the transport repeats. *)
Definition requests (trace : list exchanged) : list exchanged := filter (fun e => exch_again e = false) trace.

(** The answers of the resolver may differ from one connection to the next. *)
Inductive exchange : list exchanged -> Prop :=
| exchange_first LookupIP target peer :
    dial_address SplitHostPort LookupIP config (connect_to target) = Some (Ok peer) ->
    exchange [mkExchanged target peer false]
| exchange_redirect LookupIP trace target peer :
    exchange trace ->
    CheckRedirect fold target (exch_target <$> requests trace) = None ->
    dial_address SplitHostPort LookupIP config (connect_to target) = Some (Ok peer) ->
    exchange (trace ++ [mkExchanged target peer false])%list
| exchange_again LookupIP trace earlier failed peer :
    exchange trace -> trace = (earlier ++ [failed])%list ->
    dial_address SplitHostPort LookupIP config (connect_to (exch_target failed)) = Some (Ok peer) ->
    exchange (trace ++ [mkExchanged (exch_target failed) peer true])%list.

Lemma dial_address_permitted LookupIP address peer :
  dial_address SplitHostPort LookupIP config address = Some (Ok peer) ->
  AllowPrivateNetworks config = true \/ disallowedIP peer.1 = false.
Proof.
  unfold dial_address. intros H.
  destruct (SplitHostPort address) as [[host port]|]; [|done].
  destruct (LookupIP host) as [addresses|]; [|done].
  destruct (AllowPrivateNetworks config); [by left|right]. cbn [negb andb] in H.
  destruct (bool_decide_reflect (ValidateResolvedIPs addresses = None)) as [Hv|]; [|done].
  apply ValidateResolvedIPs_None in Hv as [_ Hall].
  destruct addresses as [|ip l]; [done|]. injection H as <-. apply Hall. left.
Qed.

Lemma CheckRedirect_None target via :
  CheckRedirect fold target via = None ->
  (length via < 3)%nat /\
  forall first, head via = Some first ->
    EqualFold fold target.1 first.1 = true /\ EqualFold fold target.2 first.2 = true.
Proof.
  unfold CheckRedirect. destruct via as [|first via]; [done|]. intros H.
  destruct (EqualFold fold target.1 first.1) eqn:H1; [|done].
  destruct (EqualFold fold target.2 first.2) eqn:H2; [|done].
  destruct (3 <=? Z.of_nat (length (first :: via))) eqn:H3; [done|].
  split; [lia|]. by intros ? [= <-].
Qed.

Lemma requests_head trace : exchange trace -> exists first rest,
  trace = first :: rest /\ exch_again first = false /\ head (requests trace) = Some first.
Proof.
  induction 1 as [LookupIP target peer _|LookupIP trace target peer _ IH _ _|LookupIP trace earlier failed peer _ IH _ _];
    [by eexists _, []|..]; destruct IH as (first & rest & -> & Hf & _);
    eexists _, _; (split_and!; [reflexivity|exact Hf|]); unfold requests; cbn [app];
    by rewrite list.filter_cons_True by exact Hf.
Qed.

(** C29 (safety): where a delivery can go.  The client makes at most three
    requests for one call, the first and two redirects, all to the scheme and
    host of the first, whatever the destination answers; whatever else the
    transport sends repeats one of them, to the same scheme and host; and
    unless private networks are allowed, every connection goes to an address
    outside the refused networks, whatever the names resolve to and however the
    answers change meanwhile. *)
Theorem exchange_confined trace :
  exchange trace ->
  (1 <= length (requests trace) <= 3)%nat /\
  (forall e, e ∈ trace -> exists r, r ∈ requests trace /\ exch_target e = exch_target r) /\
  (forall first e, head trace = Some first -> e ∈ trace ->
     EqualFold fold (exch_target e).1 (exch_target first).1 = true /\
     EqualFold fold (exch_target e).2 (exch_target first).2 = true) /\
  (forall e, e ∈ trace -> AllowPrivateNetworks config = true \/ disallowedIP (exch_peer e).1 = false).
Proof.
  assert (Hrefl : forall x, EqualFold fold x x = true) by (intros; by apply bool_decide_eq_true_2).
  induction 1 as [LookupIP target peer Hdial|LookupIP trace target peer Hex IH Hcheck Hdial
                 |LookupIP trace earlier failed peer Hex IH Hlast Hdial].
  - assert (Hone : requests [mkExchanged target peer false] = [mkExchanged target peer false]) by done.
    rewrite Hone. split_and!; [simpl; lia..| | |].
    + intros e He. by exists e.
    + intros first e [= <-] ->%list_elem_of_singleton. by rewrite !Hrefl.
    + intros e ->%list_elem_of_singleton. by eapply dial_address_permitted.
  - destruct IH as (Hlen & Hreq & Hsame & Hpeer). apply CheckRedirect_None in Hcheck as [Hlt Hhead].
    rewrite length_fmap in Hlt. destruct (requests_head trace Hex) as (first & rest & Htrace & _ & Hfirst).
    assert (Hr : requests (trace ++ [mkExchanged target peer false])
                 = (requests trace ++ [mkExchanged target peer false])%list)
      by (unfold requests; by rewrite list.filter_app).
    rewrite Hr, length_app. split_and!; [simpl; lia..| | |].
    + intros e [[r [Hin ->]]%Hreq| ->%list_elem_of_singleton]%elem_of_app; eexists; (split; [|done]); set_solver.
    + intros f e Hf. rewrite Htrace in Hf. injection Hf as <-.
      intros [Hin| ->%list_elem_of_singleton]%elem_of_app; [apply Hsame; by rewrite ?Htrace in *|].
      apply Hhead. destruct (requests trace); [done|]. by injection Hfirst as ->.
    + intros e [Hin| ->%list_elem_of_singleton]%elem_of_app; [by apply Hpeer|].
      by eapply dial_address_permitted.
  - destruct IH as (Hlen & Hreq & Hsame & Hpeer).
    destruct (requests_head trace Hex) as (first & rest & Htrace & _ & Hfirst).
    assert (Hin : failed ∈ trace) by (rewrite Hlast; set_solver).
    assert (Hr : requests (trace ++ [mkExchanged (exch_target failed) peer true]) = requests trace)
      by (unfold requests; by rewrite list.filter_app, app_nil_r).
    rewrite Hr. split_and!; [lia..| | |].
    + intros e [He| ->%list_elem_of_singleton]%elem_of_app; [by apply Hreq|by apply (Hreq failed)].
    + intros f e Hf He. assert (Hf' : head trace = Some f) by (rewrite Htrace in Hf |- *; exact Hf).
      apply elem_of_app in He as [He| ->%list_elem_of_singleton]; [by apply (Hsame f)|by apply (Hsame f failed)].
    + intros e [He| ->%list_elem_of_singleton]%elem_of_app; [by apply Hpeer|].
      by eapply dial_address_permitted.
Qed.
End Exchange.

Section Send.
Context (url_Parse : string -> option ParsedURL)
        (net_ParseIP : string -> option (list Z))
        (http_ParseTime : string -> option time)
        (NewRequest : string -> string -> option error)
        (range_order : gmap string string -> list (string * string))
        (lookupEnv : string -> option string)
        (Do : HTTPRequest -> result HTTPResponse)
        (Error : error -> string)
        (config : SenderConfig).

(** The loop over the secret headers: [inr] when a variable is missing,
    [None] for the panic of a write to a nil header. *)
Fixpoint set_secrets (secrets : list (string * string)) (h : Header) : option (Header + ()) :=
  match secrets with
  | [] => Some (inl h)
  | (name, environmentName) :: rest =>
      match lookupEnv environmentName with
      | None => Some (inr ())
      | Some value =>
          match Header_Set name value h with
          | Some h' => set_secrets rest h'
          | None => None
          end
      end
  end.

Definition result_of_error (err : error) : SendResult :=
  if errors_Is err errRedirectNotAllowed then plain_result Permanent "redirect_not_allowed"
  else if errors_Is err errDestinationNotAllowed then plain_result Permanent "destination_not_allowed"
  else mkSendResult Retryable 0 "transport_error" (sanitize (Error err) (diagnostic_limit config)) None.

Definition result_of_response (now : time) (response : HTTPResponse) : SendResult :=
  let body := byte_prefix (diagnostic_limit config) (RespBody response) in
  let outcome := ClassifyResult (StatusCode response) None in
  let message := sanitize body (diagnostic_limit config) in
  if bool_decide (outcome = Delivered)
  then mkSendResult outcome (StatusCode response) "" message None
  else
    mkSendResult outcome (StatusCode response)
      (if 500 <=? StatusCode response then "http_5xx" else "http_4xx") message
      (if (StatusCode response =? 429) || (StatusCode response =? 503)
       then parseRetryAfter http_ParseTime (Header_Get "Retry-After" (RespHeader response)) now
       else None).

(** [parsed] is allowed without a request being made. *)
Definition destination_allowed (parsed : ParsedURL) : bool :=
  negb (bool_decide (Hostname parsed = ""))
  && (bool_decide (Scheme parsed = "https") || AllowPrivateNetworks config)
  && match net_ParseIP (Hostname parsed) with
     | Some ip => AllowPrivateNetworks config || bool_decide (ValidateResolvedIPs [ip] = None)
     | None => true
     end.

(** The request given to the client, if any, and the result; [None] is a panic.
    [now] is the clock read for a [Retry-After] header. *)
Definition Send (now : time) (snapshot : DeliverySnapshot) : option HTTPRequest * option SendResult :=
  match url_Parse (URL snapshot) with
  | None => (None, Some (plain_result Permanent "destination_not_allowed"))
  | Some parsed =>
    if negb (destination_allowed parsed)
    then (None, Some (plain_result Permanent "destination_not_allowed"))
    else
      match NewRequest (Method snapshot) (URL snapshot) with
      | Some _ => (None, Some (plain_result Permanent "invalid_request"))
      | None =>
        match set_secrets (range_order (SecretHeaders snapshot)) (StaticHeaders snapshot) with
        | None => (None, None)
        | Some (inr _) => (None, Some (plain_result Permanent "missing_secret"))
        | Some (inl h) =>
          match Header_Set "Idempotency-Key" (SnapshotIdempotencyKey snapshot) h with
          | Some (Some header) =>
              let request := mkHTTPRequest (Method snapshot) (URL snapshot) header (Body snapshot)
                               (Timeout snapshot) in
              (Some request,
               Some (match Do request with
                     | Err err => result_of_error err
                     | Ok response => result_of_response now response
                     end))
          | _ => (None, None)
          end
        end
      end
  end.

(** ** The request *)

Context (range_order_perm : forall m, range_order m ≡ₚ map_to_list m).

(** The header of the request: the static headers, overridden by the values
    of the secrets, overridden by the idempotency key. *)
Definition header_of (snapshot : DeliverySnapshot) (static : gmap string (list string))
    : gmap string (list string) :=
  <["Idempotency-Key" := [SnapshotIdempotencyKey snapshot]]>
    (((fun value => [value]) <$> omap lookupEnv (SecretHeaders snapshot)) ∪ static).

Lemma set_secrets_list secrets m :
  NoDup secrets.*1 ->
  (forall name env, (name, env) ∈ secrets -> CanonicalHeaderKey name = name) ->
  (forall name env, (name, env) ∈ secrets -> is_Some (lookupEnv env)) ->
  exists m', set_secrets secrets (Some m) = Some (inl (Some m')) /\
    forall name, m' !! name =
      match list_to_map (M := gmap string string) secrets !! name with
      | Some env => (fun value => [value]) <$> lookupEnv env
      | None => m !! name
      end.
Proof.
  revert m. induction secrets as [|[name env] secrets IH]; intros m Hnd Hcan Henv.
  { exists m. split; [done|]. intros name. simpl. by rewrite lookup_empty. }
  rewrite fmap_cons in Hnd. apply list.NoDup_cons in Hnd as [Hnew Hnd]. cbn [set_secrets].
  destruct (Henv name env) as [value Hvalue]; [left|]. rewrite Hvalue, Header_Set_Some.
  rewrite (Hcan name env) by left.
  destruct (IH (<[name := [value]]> m) Hnd) as (m' & Hrun & Hm').
  { intros n e He. eapply Hcan. by right. }
  { intros n e He. eapply Henv. by right. }
  exists m'. split; [done|]. intros n. rewrite Hm'. simpl. destruct (decide (n = name)) as [->|Hne].
  - rewrite lookup_insert_eq. rewrite not_elem_of_list_to_map_1 by done.
    by rewrite lookup_insert_eq, Hvalue.
  - rewrite (lookup_insert_ne (list_to_map secrets)) by done. case_match; [done|].
    by rewrite lookup_insert_ne.
Qed.

Lemma set_secrets_map secrets m :
  (forall name env, secrets !! name = Some env -> CanonicalHeaderKey name = name) ->
  (forall name env, secrets !! name = Some env -> is_Some (lookupEnv env)) ->
  set_secrets (range_order secrets) (Some m) =
    Some (inl (Some (((fun value => [value]) <$> omap lookupEnv secrets) ∪ m))).
Proof.
  intros Hcan Henv.
  assert (Hin : forall name env, (name, env) ∈ range_order secrets -> secrets !! name = Some env).
  { intros name env H. rewrite range_order_perm in H. by apply elem_of_map_to_list in H. }
  destruct (set_secrets_list (range_order secrets) m) as (m' & -> & Hm').
  - rewrite range_order_perm. apply NoDup_fst_map_to_list.
  - eauto.
  - eauto.
  - do 3 f_equal. apply map_eq. intros name. rewrite Hm'.
    assert (list_to_map (range_order secrets) = secrets) as ->.
    { rewrite <- (list_to_map_to_list secrets) at 2. apply list_to_map_proper; [|done].
      rewrite range_order_perm. apply NoDup_fst_map_to_list. }
    rewrite lookup_union, lookup_fmap, lookup_omap.
    destruct (secrets !! name) as [env|] eqn:He; simpl.
    + destruct (Henv name env He) as [value ->]. simpl. by destruct (m !! name).
    + by destruct (m !! name).
Qed.

Lemma set_secrets_present secrets h h' :
  set_secrets secrets h = Some (inl h') ->
  forall name env, (name, env) ∈ secrets -> is_Some (lookupEnv env).
Proof.
  revert h. induction secrets as [|[n e] secrets IH]; intros h Hrun name env Hin;
    [by apply not_elem_of_nil in Hin|]. cbn [set_secrets] in Hrun.
  destruct (lookupEnv e) as [value|] eqn:He; [|done].
  destruct (Header_Set n value h) as [h1|]; [|done].
  apply elem_of_cons in Hin as [[= -> ->]|Hin]; [by rewrite He|by eapply IH].
Qed.

(** C28 (safety): what leaves the process.  A request is made only for a URL
    that parses, with a host, over HTTPS unless private networks are allowed,
    and whose host is not an address of a refused network; never when a secret
    is missing.  It carries the stored method, URL, body and timeout, the
    static headers overridden by the resolved secrets, and the idempotency key
    of the snapshot. *)
Theorem send_request now snapshot request res m :
  StaticHeaders snapshot = Some m ->
  (forall name env, SecretHeaders snapshot !! name = Some env -> CanonicalHeaderKey name = name) ->
  Send now snapshot = (Some request, res) ->
  (exists parsed, url_Parse (URL snapshot) = Some parsed /\ Hostname parsed <> "" /\
     (Scheme parsed = "https" \/ AllowPrivateNetworks config = true) /\
     (forall ip, net_ParseIP (Hostname parsed) = Some ip ->
        disallowedIP ip = false \/ AllowPrivateNetworks config = true)) /\
  (forall name env, SecretHeaders snapshot !! name = Some env -> is_Some (lookupEnv env)) /\
  request = mkHTTPRequest (Method snapshot) (URL snapshot) (header_of snapshot m) (Body snapshot)
              (Timeout snapshot).
Proof.
  intros Hm Hcan Hsend. unfold Send in Hsend.
  destruct (url_Parse (URL snapshot)) as [parsed|]; [|done].
  destruct (destination_allowed parsed) eqn:Hall; [|done].
  destruct (NewRequest _ _); [done|]. simpl in Hsend.
  destruct (set_secrets _ _) as [[h|]|] eqn:Hset; [|done|done].
  assert (Henv : forall name env, SecretHeaders snapshot !! name = Some env -> is_Some (lookupEnv env)).
  { intros name env He. eapply set_secrets_present; [exact Hset|].
    rewrite range_order_perm. by apply elem_of_map_to_list. }
  rewrite Hm, set_secrets_map in Hset by done. injection Hset as <-.
  simpl in Hsend. injection Hsend as <- _. split_and!; [|done|done].
  exists parsed. unfold destination_allowed in Hall. reflect_bools. split_and!; [done|done|..].
  - match goal with H : bool_decide _ || _ = true |- _ =>
      apply orb_true_iff in H as [H|H]; reflect_bools; auto end.
  - intros ip Hip.
    match goal with H : match net_ParseIP _ with _ => _ end = true |- _ => rewrite Hip in H;
      apply orb_true_iff in H as [H|H]; [auto|left; reflect_bools; simpl in H] end.
    by destruct (disallowedIP ip).
Qed.

Lemma Send_result now snapshot request res :
  Send now snapshot = (Some request, res) ->
  exists r, res = Some r /\
    r = match Do request with
        | Err err => result_of_error err
        | Ok response => result_of_response now response
        end.
Proof.
  unfold Send. intros Hsend. destruct (url_Parse _) as [parsed|]; [|done].
  destruct (negb _); [done|]. destruct (NewRequest _ _); [done|].
  destruct (set_secrets _ _) as [[h|]|]; [|done|done].
  destruct (Header_Set _ _ h) as [[header|]|]; [|done|done].
  injection Hsend as <- <-. eauto.
Qed.

Lemma result_of_response_spec now response :
  let r := result_of_response now response in
  let status := StatusCode response in
  ResultHTTPStatus r = status /\
  (ResultOutcome r = Delivered <-> 200 <= status < 300) /\
  (ResultOutcome r = Retryable <-> status = 408 \/ status = 425 \/ status = 429 \/
                                   500 <= status <= 599) /\
  (ResultErrorCode r = "" <-> ResultOutcome r = Delivered) /\
  (is_Some (ResultRetryAfter r) -> status = 429 \/ status = 503).
Proof.
  intros r status.
  assert (Hr : ResultHTTPStatus r = status /\ ResultOutcome r = ClassifyResult status None).
  { unfold r, result_of_response. by case_bool_decide. }
  destruct Hr as [Hs Ho]. split; [done|]. split; [|split; [|split]].
  - rewrite Ho. unfold ClassifyResult. repeat case_match; split; intros; try done; lia.
  - rewrite Ho. unfold ClassifyResult. repeat case_match; split; intros; try done; lia.
  - rewrite Ho. unfold r, result_of_response. fold status.
    case_bool_decide as Hd; cbn [ResultErrorCode]; [done|]. by destruct (500 <=? status); split.
  - unfold r, result_of_response. fold status. case_bool_decide; simpl; [by intros []|].
    case_match eqn:Hra; [lia|by intros []].
Qed.

Lemma result_of_error_spec err :
  let r := result_of_error err in
  ResultHTTPStatus r = 0 /\ ResultRetryAfter r = None /\
  (ResultOutcome r = Retryable <->
     errors_Is err errRedirectNotAllowed = false /\
     errors_Is err errDestinationNotAllowed = false) /\
  ResultOutcome r <> Delivered.
Proof.
  unfold result_of_error. destruct (errors_Is err errRedirectNotAllowed); simpl; [naive_solver|].
  destruct (errors_Is err errDestinationNotAllowed); simpl; naive_solver.
Qed.

(** Every answer of the client.  A transport error is
    retried unless the client refused the redirect or the address; a response
    is delivered for 2xx, retried for 408, 425, 429 and 5xx, permanent
    otherwise, with an error code that tells 4xx and 5xx apart; the delay the
    server asks for is read only from 429 and 503. *)
Theorem send_outcome now snapshot request res :
  Send now snapshot = (Some request, res) ->
  exists r, res = Some r /\
  match Do request with
  | Err err =>
      ResultHTTPStatus r = 0 /\ ResultRetryAfter r = None /\
      (ResultOutcome r = Retryable <->
         errors_Is err errRedirectNotAllowed = false /\
         errors_Is err errDestinationNotAllowed = false) /\
      ResultOutcome r <> Delivered
  | Ok response =>
      let status := StatusCode response in
      ResultHTTPStatus r = status /\
      (ResultOutcome r = Delivered <-> 200 <= status < 300) /\
      (ResultOutcome r = Retryable <-> status = 408 \/ status = 425 \/ status = 429 \/
                                       500 <= status <= 599) /\
      (ResultErrorCode r = "" <-> ResultOutcome r = Delivered) /\
      (is_Some (ResultRetryAfter r) -> status = 429 \/ status = 503)
  end.
Proof.
  intros Hres. destruct (Send_result now snapshot request res Hres) as (r & -> & Hr).
  exists r. split; [done|]. rewrite Hr.
  destruct (Do request) as [response|err]; [apply result_of_response_spec|apply result_of_error_spec].
Qed.
End Send.

(** ** Sanitised diagnostics *)

Lemma encode_rune_high r b : b ∈ encode_rune r -> 0 <= normal_rune r ->
  (b = normal_rune r /\ normal_rune r < 128) \/ 128 <= b.
Proof.
  rewrite encode_rune_normal. unfold encode_rune. rewrite normal_rune_scalar. intros Hb H0.
  assert (Hmod : forall x, 0 <= x mod 64) by (intros x; apply Z.mod_pos_bound; lia).
  assert (Hdiv : forall y, 0 < y -> 0 <= normal_rune r / y) by (intros; by apply Z.div_pos).
  pose proof (Hmod (normal_rune r)). pose proof (Hmod (normal_rune r / 64)).
  pose proof (Hmod (normal_rune r / 4096)). pose proof (Hdiv 64 ltac:(lia)).
  pose proof (Hdiv 4096 ltac:(lia)). pose proof (Hdiv 262144 ltac:(lia)).
  repeat case_match; reflect_bools;
    repeat (apply elem_of_cons in Hb as [->|Hb]); try (by apply not_elem_of_nil in Hb);
    (by left) || (right; lia).
Qed.

Definition printable (b : Z) : Prop := 32 <= b \/ b = 9.

Lemma control_to_space_printable r : printable (normal_rune (control_to_space r)).
Proof.
  unfold printable, control_to_space, normal_rune, scalar, RuneError.
  repeat case_match; lia.
Qed.

Lemma mapped_printable s : Forall printable (bytes (strings_Map control_to_space s)).
Proof.
  unfold strings_Map. rewrite bytes_of_bytes.
  2: { apply Forall_forall. intros b Hb. apply in_concat in Hb as (l & Hl & Hb).
       apply in_map_iff in Hl as (r & <- & _).
       pose proof (encode_rune_bytes (control_to_space r)) as Hall.
       rewrite Forall_forall in Hall. by apply Hall. }
  apply Forall_forall. intros b Hb. apply in_concat in Hb as (l & Hl & Hb).
  apply in_map_iff in Hl as (r & <- & _). apply list_elem_of_In in Hb.
  pose proof (control_to_space_printable r) as Hp. unfold printable in *.
  apply encode_rune_high in Hb as [[-> _]|Hb]; lia.
Qed.

Lemma len_byte_prefix n s : 0 <= n -> len (byte_prefix n s) = Z.min n (len s).
Proof.
  intros Hn. unfold len. rewrite <- !bytes_length, bytes_byte_prefix, length_take. lia.
Qed.

(** A diagnostic is never longer than the limit, in bytes, and
    holds no control character but tabs; text that fits and has no control
    character is kept as it is, and whatever fits is well-formed UTF-8. *)
Theorem sanitize_spec value limit :
  0 <= limit ->
  len (sanitize value limit) <= limit /\
  Forall printable (bytes (sanitize value limit)) /\
  (len (strings_Map control_to_space value) <= limit ->
     valid_utf8 (sanitize value limit) = true) /\
  (valid_utf8 value = true -> Forall printable (runes value) -> len value <= limit ->
     sanitize value limit = value).
Proof.
  intros Hl. unfold sanitize. split_and!.
  - case_match; [rewrite len_byte_prefix by done|]; lia.
  - case_match; [rewrite bytes_byte_prefix; apply Forall_take|]; apply mapped_printable.
  - intros Hfit. rewrite (proj2 (Z.ltb_ge _ _) Hfit). apply strings_Map_valid.
  - intros Hv Hp Hfit.
    assert (Hid : strings_Map control_to_space value = value).
    { rewrite <- (strings_Map_id value Hv) at 2. unfold strings_Map. do 2 f_equal.
      apply list_fmap_ext. intros i r Hr. f_equal. apply Forall_lookup_1 with (1 := Hp) in Hr.
      unfold printable in Hr. unfold control_to_space. case_match; lia. }
    by rewrite Hid, (proj2 (Z.ltb_ge _ _) Hfit).
Qed.

(** C30 (bounds): the delay of a [Retry-After] in seconds.  Up to 292 years it
    is added to the clock as it is; the multiplication to nanoseconds wraps
    beyond, so that a huge value asks for a moment in the past. *)
Theorem retry_after_seconds http_ParseTime value now seconds :
  Atoi (strings_TrimSpace value) = Some seconds -> 0 <= seconds ->
  (seconds <= 9223372036 ->
     parseRetryAfter http_ParseTime value now = Some (now + seconds * Second)) /\
  (9223372037 <= seconds <= 18446744073 ->
     exists t, parseRetryAfter http_ParseTime value now = Some t /\ time_Before t now = true).
Proof.
  intros Ha Hs. unfold parseRetryAfter. rewrite Ha, (proj2 (Z.leb_le _ _) Hs).
  unfold time_Add, time_Before. split.
  - intros Hle. rewrite wrap64_id; [done|].
    unfold int64_min, int64_max, Second, Millisecond, Microsecond, Nanosecond. lia.
  - intros Hb. eexists. split; [done|]. apply Z.ltb_lt. unfold wrap64.
    replace ((seconds * Second + 2 ^ 63) mod 2 ^ 64) with (seconds * Second + 2 ^ 63 - 2 ^ 64).
    + unfold Second, Millisecond, Microsecond, Nanosecond. lia.
    + apply (Z.mod_unique _ _ 1); unfold Second, Millisecond, Microsecond, Nanosecond; lia.
Qed.

(** ** Instances *)

Definition sample_send_snapshot : DeliverySnapshot :=
  mkDeliverySnapshot "inventory-system" "POST" "https://inventory.example.com/v1/notifications"
    (Some {["Content-Type" := ["application/json"]]}) {["Authorization" := "INVENTORY_API_TOKEN"]}
    "{}" (5 * Second) (mkRetryPolicy 3 Hour [5 * Second]) 10 "order-1".

Definition sample_send (response : result HTTPResponse) :=
  Send (fun _ => Some sample_url) (fun _ => None) (fun _ => None) (fun _ _ => None) map_to_list
    sample_env (fun _ => response) (fun _ => "error") (mkSenderConfig false 0) 0 sample_send_snapshot.

Definition busy : HTTPResponse := mkHTTPResponse 503 (Some {["Retry-After" := ["120"]]}) "busy".

Example sample_send_busy :
  (sample_send (Ok busy)).2 =
    Some (mkSendResult Retryable 503 "http_5xx" "busy" (Some (120 * Second))).
Proof. vm_compute. reflexivity. Qed.

Definition sample_sent : HTTPRequest :=
  mkHTTPRequest "POST" "https://inventory.example.com/v1/notifications"
    (<["Idempotency-Key" := ["order-1"]]> (<["Authorization" := ["Bearer t"]]>
       {["Content-Type" := ["application/json"]]})) "{}" (5 * Second).

(** A request that is sent again, and a redirect within the host, each time over
    a new connection. *)
Definition sample_trace : list exchanged :=
  [mkExchanged ("https", "inventory.example.com") ([203; 0; 113; 7], "443") false;
   mkExchanged ("https", "inventory.example.com") ([203; 0; 113; 9], "443") true;
   mkExchanged ("https", "inventory.example.com") ([203; 0; 113; 8], "443") false].

Lemma exchange_confined_witness :
  length (requests sample_trace) = 2%nat /\
  (length (requests sample_trace) <= 3)%nat /\
  forall e, e ∈ sample_trace -> false = true \/ disallowedIP (exch_peer e).1 = false.
Proof.
  split; [reflexivity|].
  destruct (exchange_confined id snd (fun a => Ok (a, "443")) (mkSenderConfig false 0) sample_trace)
    as ([_ Hlen] & _ & _ & Hpeer); [|split; [exact Hlen|exact Hpeer]].
  apply (exchange_redirect id snd (fun a => Ok (a, "443")) (mkSenderConfig false 0)
           (fun _ => Ok [[203; 0; 113; 8]])
           [mkExchanged _ ([203; 0; 113; 7], "443") false; mkExchanged _ ([203; 0; 113; 9], "443") true]);
    [|vm_compute; reflexivity|vm_compute; reflexivity].
  apply (exchange_again id snd (fun a => Ok (a, "443")) (mkSenderConfig false 0)
           (fun _ => Ok [[203; 0; 113; 9]]) [mkExchanged ("https", "inventory.example.com") ([203; 0; 113; 7], "443") false]
           [] (mkExchanged ("https", "inventory.example.com") ([203; 0; 113; 7], "443") false));
    [|reflexivity|vm_compute; reflexivity].
  apply (exchange_first id snd (fun a => Ok (a, "443")) (mkSenderConfig false 0)
           (fun _ => Ok [[203; 0; 113; 7]])). vm_compute. reflexivity.
Defined.

Lemma send_request_witness :
  ReqHeader sample_sent = header_of sample_env sample_send_snapshot
    {["Content-Type" := ["application/json"]]}.
Proof.
  refine (f_equal ReqHeader (proj2 (proj2 (send_request (fun _ => Some sample_url) (fun _ => None)
    (fun _ => None) (fun _ _ => None) map_to_list sample_env (fun _ => Ok busy) (fun _ => "error")
    (mkSenderConfig false 0) (fun m => Permutation_refl (map_to_list m)) 0 sample_send_snapshot
    sample_sent (sample_send (Ok busy)).2 {["Content-Type" := ["application/json"]]} eq_refl _ _)))).
  - intros name env Hin. simpl in Hin. apply lookup_singleton_Some in Hin as [<- <-].
    vm_compute. reflexivity.
  - vm_compute. reflexivity.
Defined.

Lemma send_outcome_witness :
  exists r, (sample_send (Ok busy)).2 = Some r /\ ResultHTTPStatus r = 503.
Proof.
  destruct (send_outcome (fun _ => Some sample_url) (fun _ => None) (fun _ => None)
    (fun _ _ => None) map_to_list sample_env (fun _ => Ok busy) (fun _ => "error")
    (mkSenderConfig false 0) 0 sample_send_snapshot
    sample_sent
    (sample_send (Ok busy)).2) as (r & Hr & Hs & _).
  - vm_compute. reflexivity.
  - exists r. split; [exact Hr|exact Hs].
Defined.

Lemma sanitize_spec_witness : len (sanitize "line one\" 4) <= 4.
Proof. exact (proj1 (sanitize_spec "line one\" 4 ltac:(lia))). Defined.

Lemma retry_after_seconds_witness :
  parseRetryAfter (fun _ => None) " 120 " 7 = Some (7 + 120 * Second).
Proof.
  refine (proj1 (retry_after_seconds (fun _ => None) " 120 " 7 120 _ _) _).
  - vm_compute. reflexivity.
  - lia.
  - lia.
Defined.
