(* ===== verification/Delivery.v ===== *)
(** * The delivery service (src/internal/delivery/service.go)

    [Handle] against the interfaces of its collaborators, and an
    implementation of them over the store: one worker handling one message,
    with every answer of the outside world scripted, including what other
    processes do to the database between the worker's two calls. *)

From S2P Require Import Prelude GoTime GoStrings Notification Table Schema Store StoreSpec StoreRefine Samples Sender.

(** ** Interfaces *)

Class DeliveryRepository (W : Type) := {
  repo_ClaimDelivery : string -> string -> time -> M W Claim;
  repo_ApplyDeliveryResult : string -> string -> AttemptResult -> M W bool;
}.

(** [Send]; [None] is a panic. *)
Class DeliverySender (W : Type) := {
  sender_Send : DeliverySnapshot -> W -> option SendResult * W;
}.

(** [Acquire], and the call of the function it returns. *)
Class CapacityLimiter (W : Type) := {
  limiter_Acquire : string -> Z -> M W ();
  limiter_release : string -> W -> W;
}.

(** The functions injected into the service. *)
Class DeliveryEnv (W : Type) := {
  env_newLease : W -> string * W;
  env_now : W -> time * W;
  env_jitter : W -> option (duration -> duration) * W;
  env_ObserveDelivery : string -> W -> W;
}.

Inductive Disposition := Ack | Requeue | Reject.

Record Message := mkMessage { MessageEventID : string; MessageNotificationID : string }.

(** ** service.go *)

(** The result to store, from the result of the request. *)
Definition attempt_of (task : Task) (result : SendResult) (completedAt : time)
    (jitter : option (duration -> duration)) : AttemptResult :=
  let attempt := mkAttemptResult (ResultOutcome result) (ResultHTTPStatus result)
                   (ResultErrorCode result) (ResultErrorMessage result) None completedAt in
  match ResultOutcome result with
  | Retryable =>
      match NextAttempt (Retry (Snapshot task)) (AttemptCount task) (ResultRetryAfter result)
              completedAt jitter with
      | Some next =>
          {| AttemptOutcome := Retryable; AttemptHTTPStatus := AttemptHTTPStatus attempt;
             AttemptErrorCode := AttemptErrorCode attempt;
             AttemptErrorMessage := AttemptErrorMessage attempt;
             AttemptNextAttemptAt := Some next; CompletedAt := completedAt |}
      | None =>
          {| AttemptOutcome := Permanent; AttemptHTTPStatus := AttemptHTTPStatus attempt;
             AttemptErrorCode := AttemptErrorCode attempt;
             AttemptErrorMessage := AttemptErrorMessage attempt;
             AttemptNextAttemptAt := None; CompletedAt := completedAt |}
      end
  | Delivered | Permanent => attempt
  end.

Definition outcome_label (o : Outcome) : string :=
  match o with Delivered => "delivered" | Retryable => "retryable" | Permanent => "dead" end.

(** [None] is a panic of the sender, after the permit was given back. *)
Definition Handle {W} `{DeliveryRepository W} `{DeliverySender W} `{CapacityLimiter W}
    `{DeliveryEnv W} (leaseTTL : duration) (message : Message) (w : W) : option Disposition * W :=
  let '(lease, w) := env_newLease w in
  let '(now, w) := env_now w in
  match repo_ClaimDelivery (MessageNotificationID message) lease (time_Add now leaseTTL) w with
  | (Err _, w) => (Some Requeue, w)
  | (Ok None, w) => (Some Ack, w)
  | (Ok (Some task), w) =>
    let destinationID := DestinationID (Snapshot task) in
    match limiter_Acquire destinationID (ConcurrencyLimit (Snapshot task)) w with
    | (Err _, w) => (Some Requeue, w)
    | (Ok _, w) =>
      let '(sent, w) := sender_Send (Snapshot task) w in
      let w := limiter_release destinationID w in
      match sent with
      | None => (None, w)
      | Some result =>
        let '(completedAt, w) := env_now w in
        let '(jitter, w) := match ResultOutcome result with
                            | Retryable => env_jitter w
                            | _ => (None, w)
                            end in
        let attempt := attempt_of task result completedAt jitter in
        match repo_ApplyDeliveryResult (MessageNotificationID message) lease attempt w with
        | (Err _, w) => (Some Requeue, w)
        | (Ok false, w) => (Some Ack, w)
        | (Ok true, w) => (Some Ack, env_ObserveDelivery (outcome_label (AttemptOutcome attempt)) w)
        end
      end
    end
  end.

(** Whatever the sender answers, the result to store is one the store accepts
    from the owner of a lease: a retry always carries its time. *)
Lemma attempt_of_ok task result completedAt jitter :
  attempt_ok (attempt_of task result completedAt jitter) = true.
Proof.
  unfold attempt_of, attempt_ok. destruct (ResultOutcome result) eqn:Ho; simpl; rewrite ?Ho; try done.
  by destruct (NextAttempt _ _ _ _ _).
Qed.

(** What a worker knows when it acknowledges a message: the store refused the
    claim, or answered the call that stores the result. *)
Definition settled_in_store {W} `{DeliveryRepository W} (id : string) : Prop :=
  (exists lease until (w w' : W), repo_ClaimDelivery id lease until w = (Ok None, w')) \/
  (exists lease attempt applied (w w' : W), repo_ApplyDeliveryResult id lease attempt w = (Ok applied, w')).

(** Whatever its collaborators do, a worker never rejects a message, and
    acknowledges it only when the store has answered for good. *)
Lemma Handle_disposition {W} `{DeliveryRepository W} `{DeliverySender W} `{CapacityLimiter W}
    `{DeliveryEnv W} leaseTTL message (w w' : W) disposition :
  Handle leaseTTL message w = (Some disposition, w') ->
  disposition = Requeue \/ (disposition = Ack /\ settled_in_store (W := W) (MessageNotificationID message)).
Proof.
  unfold Handle, settled_in_store. destruct (env_newLease w) as [lease w1]. destruct (env_now w1) as [now w2].
  destruct (repo_ClaimDelivery _ _ _ w2) as [[[task|]|e] w3] eqn:Hclaim; [|intros [= <- _]; eauto 9|intros [= <- _]; auto].
  destruct (limiter_Acquire _ _ w3) as [[u|e] w4]; [|intros [= <- _]; auto].
  destruct (sender_Send _ w4) as [[result|] w5]; [|done].
  destruct (env_now _) as [completedAt w6].
  destruct (match ResultOutcome result with Retryable => _ | _ => _ end) as [jitter w7].
  destruct (repo_ApplyDeliveryResult _ _ _ w7) as [[[]|e] w8] eqn:Happ; intros [= <- _]; eauto 10.
Qed.

(** ** One worker over the store *)

(** What the worker does, in order. *)
Inductive action :=
| DidAcquire (destinationID : string) (lim : Z)
| DidSend (snapshot : DeliverySnapshot)
| DidRelease (destinationID : string)
| DidApply (attempt : AttemptResult)
| DidObserve (outcome : string).

(** The answers of the outside world during one call. *)
Record script := mkScript {
  s_lease : string;
  s_started : time;
  s_claim_fault : fault;
  s_db_now : time;
  s_acquired : result ();
  s_others : db -> db;
  s_sent : option SendResult;
  s_completed : time;
  s_jitter : option (duration -> duration);
  s_apply_fault : fault;
}.

Record worker := mkWorker {
  w_db : db;
  w_script : script;
  w_actions : list action;
  w_sent : bool;
}.

Definition did (a : action) (w : worker) : worker :=
  {| w_db := w_db w; w_script := w_script w; w_actions := w_actions w ++ [a]; w_sent := w_sent w |}.

Definition set_db (d : db) (w : worker) : worker :=
  {| w_db := d; w_script := w_script w; w_actions := w_actions w; w_sent := w_sent w |}.

#[global] Instance worker_repository : DeliveryRepository worker := {|
  repo_ClaimDelivery id lease until w :=
    let '(r, d) := ClaimDelivery (s_claim_fault (w_script w)) (s_db_now (w_script w)) id lease until
                     (w_db w) in
    (r, set_db d w);
  repo_ApplyDeliveryResult id lease attempt w :=
    let '(r, d) := ApplyDeliveryResult (s_apply_fault (w_script w)) id lease attempt (w_db w) in
    (r, did (DidApply attempt) (set_db d w));
|}.

#[global] Instance worker_limiter : CapacityLimiter worker := {|
  limiter_Acquire destinationID lim w :=
    match s_acquired (w_script w) with
    | Ok u => (Ok u, did (DidAcquire destinationID lim) w)
    | Err e => (Err e, w)
    end;
  limiter_release destinationID w := did (DidRelease destinationID) w;
|}.

(** While the request is under way, the other processes run. *)
#[global] Instance worker_sender : DeliverySender worker := {|
  sender_Send snapshot w :=
    (s_sent (w_script w),
     let w' := did (DidSend snapshot) w in
     {| w_db := s_others (w_script w) (w_db w'); w_script := w_script w';
        w_actions := w_actions w'; w_sent := true |});
|}.

#[global] Instance worker_env : DeliveryEnv worker := {|
  env_newLease w := (s_lease (w_script w), w);
  env_now w := ((if w_sent w then s_completed else s_started) (w_script w), w);
  env_jitter w := (s_jitter (w_script w), w);
  env_ObserveDelivery outcome w := did (DidObserve outcome) w;
|}.

Definition start (s : script) (d : db) : worker :=
  {| w_db := d; w_script := s; w_actions := []; w_sent := false |}.

Definition handle (leaseTTL : duration) (message : Message) (s : script) (d : db)
    : option Disposition * worker := Handle leaseTTL message (start s d).

(** ** What a worker does *)

(** The actions of a run that goes through. *)
Definition full_run (task : Task) (attempt : AttemptResult) : list action :=
  let destinationID := DestinationID (Snapshot task) in
  [DidAcquire destinationID (ConcurrencyLimit (Snapshot task)); DidSend (Snapshot task);
   DidRelease destinationID; DidApply attempt; DidObserve (outcome_label (AttemptOutcome attempt))].

Section Worker.
Context (leaseTTL : duration) (message : Message) (s : script) (d : db).

Local Abbreviation id := (MessageNotificationID message).
Local Abbreviation claim :=
  (ClaimDelivery (s_claim_fault s) (s_db_now s) id (s_lease s) (time_Add (s_started s) leaseTTL) d).

Definition attempt_in (task : Task) (result : SendResult) : AttemptResult :=
  attempt_of task result (s_completed s)
    (match ResultOutcome result with Retryable => s_jitter s | _ => None end).

#[local] Arguments time_Add : simpl never.
#[local] Arguments ClaimDelivery : simpl never.
#[local] Arguments ApplyDeliveryResult : simpl never.

(** The whole call, as a function of the scripted answers. *)
Lemma handle_cases :
  handle leaseTTL message s d =
    match claim with
    | (Err _, d1) => (Some Requeue, mkWorker d1 s [] false)
    | (Ok None, d1) => (Some Ack, mkWorker d1 s [] false)
    | (Ok (Some task), d1) =>
        match s_acquired s with
        | Err _ => (Some Requeue, mkWorker d1 s [] false)
        | Ok _ =>
            match s_sent s with
            | None =>
                (None, mkWorker (s_others s d1) s (take 3 (full_run task (mkAttemptResult Permanent 0 "" "" None 0))) true)
            | Some result =>
                let attempt := attempt_in task result in
                match ApplyDeliveryResult (s_apply_fault s) id (s_lease s) attempt (s_others s d1) with
                | (Err _, d2) => (Some Requeue, mkWorker d2 s (take 4 (full_run task attempt)) true)
                | (Ok false, d2) => (Some Ack, mkWorker d2 s (take 4 (full_run task attempt)) true)
                | (Ok true, d2) => (Some Ack, mkWorker d2 s (full_run task attempt) true)
                end
            end
        end
    end.
Proof.
  unfold handle, Handle. simpl.
  destruct claim as [[[task|]|e] d1]; [|done|done]. simpl.
  destruct (s_acquired s) as [[]|e]; [|done]. simpl.
  destruct (s_sent s) as [result|]; [|done]. simpl.
  unfold attempt_in. destruct (ResultOutcome result); simpl;
    by destruct (ApplyDeliveryResult _ _ _ _ _) as [[[]|] d2].
Qed.

(** The answer of the store to a result, after what the others did. *)
Local Abbreviation stored d1 task result :=
  (fst (ApplyDeliveryResult (s_apply_fault s) id (s_lease s) (attempt_in task result) (s_others s d1))).

(** C12 (safety): the protocol of a worker.  It never rejects a message.  It
    does nothing but claim unless it has the task and a permit of its
    destination; then it takes one permit, sends the stored snapshot once,
    gives the permit back (even when the sender panics), and only then stores
    the result, which carries a retry time when it is a retry, and reports its
    outcome if and only if the store has applied it.  A message is put back
    exactly when the claim failed, the limiter gave up, or the result could
    not be stored; it is left to the broker exactly when the sender panicked;
    in all other cases, a refused claim and a lost lease among them, it is
    acknowledged. *)
Theorem handle_protocol :
  let '(disposition, w) := handle leaseTTL message s d in
  let '(claimed, d1) := claim in
  disposition <> Some Reject /\
  (w_actions w = [] <-> is_Ok (s_acquired s) = false \/ forall task, claimed <> Ok (Some task)) /\
  (forall task, claimed = Ok (Some task) -> is_Ok (s_acquired s) = true ->
     let destinationID := DestinationID (Snapshot task) in
     w_actions w =
       ([DidAcquire destinationID (ConcurrencyLimit (Snapshot task)); DidSend (Snapshot task);
         DidRelease destinationID] ++
       match s_sent s with
       | None => []
       | Some result =>
           DidApply (attempt_in task result) ::
           match stored d1 task result with
           | Ok true => [DidObserve (outcome_label (AttemptOutcome (attempt_in task result)))]
           | _ => []
           end
       end)%list) /\
  (forall task result, attempt_ok (attempt_in task result) = true) /\
  (disposition = None <-> w_actions w <> [] /\ s_sent s = None) /\
  (disposition = Some Requeue <->
     is_Ok claimed = false \/
     exists task, claimed = Ok (Some task) /\
       (is_Ok (s_acquired s) = false \/
        exists result, s_sent s = Some result /\ is_Ok (stored d1 task result) = false)).
Proof.
  rewrite handle_cases. destruct claim as [[[task|]|e] d1] eqn:Hclaim.
  2,3: cbn; split_and!; naive_solver eauto using attempt_of_ok.
  destruct (s_acquired s) as [u|e]; [|cbn; split_and!; naive_solver eauto using attempt_of_ok].
  destruct (s_sent s) as [result|]; [|cbn; split_and!; naive_solver eauto using attempt_of_ok].
  cbn zeta.
  destruct (ApplyDeliveryResult (s_apply_fault s) id (s_lease s) (attempt_in task result) (s_others s d1))
    as [[[]|e] d2] eqn:Happ; cbn.
  - split_and!; try naive_solver eauto using attempt_of_ok.
    + intros t [= <-] _. by rewrite Happ.
    + split; [done|]. intros [[=]|(t & [= <-] & [[=]|(res & [= <-] & Hres)])]. by rewrite Happ in Hres.
  - split_and!; try naive_solver eauto using attempt_of_ok.
    + intros t [= <-] _. by rewrite Happ.
    + split; [done|]. intros [[=]|(t & [= <-] & [[=]|(res & [= <-] & Hres)])]. by rewrite Happ in Hres.
  - split_and!; try naive_solver eauto using attempt_of_ok.
    + intros t [= <-] _. by rewrite Happ.
    + split; [|done]. intros _. right. exists task. split; [done|]. right. exists result. by rewrite Happ.
Qed.

(** What the result stores about the next attempt. *)
Lemma set_attempt_retry policy_row result r t :
  int64_min <= lifetime_ns (fixed policy_row) < int64_max -> ResultOutcome result = Retryable ->
  fixed r = fixed policy_row ->
  let task := claimed_task id r (s_lease s) t in
  let r' := set_result (attempt_in task result) r in
  (status r' = StatusRetryWait /\ is_Some (next_attempt_at r') \/
       status r' = StatusDead /\ next_attempt_at r' = None) /\
  forall next, status r' = StatusRetryWait /\ next_attempt_at r' = Some next <->
    retry_at (Retry (snapshot_of_row (fixed policy_row))) (attempt_count r) (ResultRetryAfter result)
      (s_completed s) (s_jitter s) next.
Proof.
  intros Hlife Ho Hfix task r'.
  assert (Hspec := fun next => NextAttempt_Some (Retry (Snapshot task)) (AttemptCount task) (ResultRetryAfter result)
    (s_completed s) (s_jitter s) next ltac:(by subst task; simpl; rewrite Hfix)).
  subst r'. unfold attempt_in, attempt_of, set_result. rewrite Ho.
  replace (Retry (snapshot_of_row (fixed policy_row))) with (Retry (Snapshot task)) by (subst task; simpl; by rewrite Hfix).
  change (attempt_count r) with (AttemptCount task).
  destruct (NextAttempt _ _ _ _ _) as [t0|]; simpl.
  - split; [left; by split|]. intros next. etrans; [|exact (Hspec next)]. naive_solver.
  - split; [by right|]. intros next. etrans; [|exact (Hspec next)]. naive_solver.
Qed.

(** C5 (functional): a delivery from end to end, without failures or
    interference.  The row goes from pending to delivered, waiting or dead
    according to the answer of the destination and the retry policy of the
    stored snapshot: delivered for a delivered request; dead for a permanent
    failure; after a retryable one, waiting until exactly the instant at which
    the policy asks for another attempt ([retry_at]), and dead when it asks for
    none, in particular when all attempts are used; always with one more
    attempt counted, the status, code and diagnostic of the answer stored, and
    the lease given up.  The message is
    acknowledged. *)
Theorem handle_end_to_end r result :
  tasks d !! id = Some r -> status r = StatusPending ->
  int64_min <= lifetime_ns (fixed r) < int64_max ->
  s_claim_fault s = NoFault -> s_apply_fault s = NoFault -> s_acquired s = Ok () ->
  (forall d', s_others s d' = d') -> s_sent s = Some result ->
  let claimed := set_claimed (s_lease s) (time_Add (s_started s) leaseTTL) (s_db_now s) r in
  let task := claimed_task id claimed (s_lease s) (time_Add (s_started s) leaseTTL) in
  let r' := set_result (attempt_in task result) claimed in
  task_row_ok id claimed = true -> task_row_ok id r' = true ->
  fst (handle leaseTTL message s d) = Some Ack /\
  w_db (snd (handle leaseTTL message s d)) = set_tasks (<[id := r']> (tasks d)) d /\
  fixed r' = fixed r /\ generation r' = generation r /\
  attempt_count r' = attempt_count r + 1 /\ lease_token r' = None /\ lease_until r' = None /\
  default 0 (last_http_status r') = ResultHTTPStatus result /\
  default ""%string (last_error_code r') = ResultErrorCode result /\
  default ""%string (last_error_message r') = ResultErrorMessage result /\
  match ResultOutcome result with
  | Delivered => status r' = StatusDelivered /\ delivered_at r' = Some (s_completed s)
  | Permanent => status r' = StatusDead /\ dead_at r' = Some (s_completed s)
  | Retryable =>
      (status r' = StatusRetryWait /\ is_Some (next_attempt_at r') \/
       status r' = StatusDead /\ next_attempt_at r' = None) /\
      (forall next, status r' = StatusRetryWait /\ next_attempt_at r' = Some next <->
         retry_at (Retry (snapshot_of_row (fixed r))) (attempt_count r + 1) (ResultRetryAfter result)
           (s_completed s) (s_jitter s) next) /\
      (forall next, next_attempt_at r' = Some next ->
         s_completed s <= next <= s_completed s + lifetime_ns (fixed r))
  end /\
  (max_attempts (fixed r) <= attempt_count r' -> ResultOutcome result <> Delivered ->
   status r' = StatusDead).
Proof.
  intros Hr Hst Hlife Hcf Haf Hacq Hoth Hsent claimed task r' Hok1 Hok2.
  pose proof (set_claimed_texts _ _ _ _ _ Hok1) as [_ Hlease].
  assert (Hclaim : claim = (Ok (Some task), set_tasks (<[id := claimed]> (tasks d)) d))
    by (rewrite Hcf; by apply ClaimDelivery_pending).
  assert (Hrun : handle leaseTTL message s d =
    (Some Ack, mkWorker (set_tasks (<[id := r']> (tasks d)) d) s (full_run task (attempt_in task result)) true)).
  { rewrite handle_cases, Hclaim, Hacq, Hsent. cbn zeta. rewrite Hoth, Haf.
    erewrite ApplyDeliveryResult_owned; [|by simpl; rewrite lookup_insert_eq| |done|exact Hok2].
    - unfold set_tasks. simpl. by rewrite insert_insert_eq.
    - unfold owns_lease, has_status. simpl. by rewrite !bool_decide_eq_true_2. }
  rewrite Hrun. do 2 (split; [done|]).
  pose proof (fun Ho => set_attempt_retry r result claimed (time_Add (s_started s) leaseTTL) Hlife Ho eq_refl) as Hretry.
  fold task r' in Hretry. cbn zeta in Hretry. change (attempt_count claimed) with (attempt_count r + 1) in Hretry.
  assert (Hsame : fixed r' = fixed r /\ generation r' = generation r /\ attempt_count r' = attempt_count r + 1 /\
    lease_token r' = None /\ lease_until r' = None /\ default 0 (last_http_status r') = ResultHTTPStatus result /\
    default ""%string (last_error_code r') = ResultErrorCode result /\
    default ""%string (last_error_message r') = ResultErrorMessage result).
  { assert (Hz : forall z, default 0 (nullif_zero z) = z)
      by (intros z; unfold nullif_zero; by destruct (Z.eqb_spec z 0) as [->|]).
    assert (He : forall e, default ""%string (nullif_empty e) = e)
      by (intros e; unfold nullif_empty; by case_bool_decide).
    unfold r', attempt_in, attempt_of, set_result.
    destruct (ResultOutcome result); [|destruct (NextAttempt _ _ _ _ _)|]; simpl; by rewrite Hz, !He. }
  destruct Hsame as (Hfix & Hgen & Hcnt & Htok & Hunt & Hhttp & Hcode & Hmsg). do 8 (split; [done|]).
  destruct (ResultOutcome result) eqn:Ho.
  - split; [|by intros _ []]. unfold r', attempt_in, attempt_of, set_result. by rewrite Ho.
  - destruct (Hretry eq_refl) as [Hcases Hiff]. split_and!; [done|done| |].
    + intros next Hnext. destruct Hcases as [[Hw _]|[_ Hnone]]; [|discriminate (eq_trans (eq_sym Hnext) Hnone)].
      apply (retry_at_bounds _ _ _ _ _ _ (proj1 (Hiff next) (conj Hw Hnext))).
    + intros Hle _. destruct Hcases as [[Hw [next Hnext]]|[Hd _]]; [|done]. exfalso.
      destruct (proj1 (Hiff next) (conj Hw Hnext)) as ([_ Hlt] & _). simpl in Hlt. lia.
  - split; [|intros _ _]; unfold r', attempt_in, attempt_of, set_result; by rewrite Ho.
Qed.

(** A worker that lost its lease while the request was under way
    (others recovered the task, another worker has it, or it was finished or
    deleted) leaves the database as the others made it, and does not report
    an outcome; the message is acknowledged unless the store failed or could
    not take the texts of the result. *)
Theorem handle_lost_lease :
  (forall d1 r, tasks (s_others s d1) !! id = Some r ->
     status r <> StatusDelivering \/ lease_token r <> Some (s_lease s)) ->
  let '(disposition, w) := handle leaseTTL message s d in
  w_db w = snd claim \/ w_db w = s_others s (snd claim) /\
    (forall outcome, DidObserve outcome ∉ w_actions w) /\
    (s_apply_fault s = NoFault -> is_Some (s_sent s) ->
     (forall task result, s_sent s = Some result -> storable_result (attempt_in task result) = true) ->
     disposition = Some Ack).
Proof.
  intros Hlost. rewrite handle_cases.
  destruct claim as [[[task|]|e] d1] eqn:Hclaim; simpl; [|by left|by left].
  apply ClaimDelivery_Ok in Hclaim as (_ & Hid & Hlease).
  destruct (s_acquired s) as [u|e]; simpl; [|by left].
  destruct (s_sent s) as [result|]; simpl.
  2: { right. split_and!; [done|set_solver|by intros _ [? ?]]. }
  destruct (ApplyDeliveryResult (s_apply_fault s) id (s_lease s) (attempt_in task result) (s_others s d1)) as [res d2] eqn:Happ.
  pose proof (ApplyDeliveryResult_effect _ _ _ _ _ _ _ Happ) as [->|(r & Hr & H1 & H2 & _)];
    [|by destruct (Hlost d1 r Hr)].
  assert (Hno : forall r, tasks (s_others s d1) !! id = Some r -> owns_lease (s_lease s) r = false).
  { intros r Hr. unfold owns_lease, has_status. apply andb_false_iff.
    destruct (Hlost d1 r Hr); [left|right]; by apply bool_decide_eq_false. }
  assert (Hanswer : storable_result (attempt_in task result) = true -> s_apply_fault s = NoFault -> res = Ok false).
  { intros Hres Hnf. rewrite Hnf, ApplyDeliveryResult_NoFault in Happ by done.
    destruct (tasks (s_others s d1) !! id) as [r|]; [rewrite Hno in Happ by done|]; by simplify_eq. }
  destruct res as [[]|e]; simpl; right.
  - apply ApplyDeliveryResult_Ok in Happ as Hp. destruct Hp as (Hnf & _ & _ & Hres). by specialize (Hanswer Hres Hnf).
  - split_and!; [done|set_solver|done].
  - split_and!; [done|set_solver|]. intros Hnf _ Hres. by specialize (Hanswer (Hres task result eq_refl) Hnf).
Qed.

Lemma attempt_in_message task result :
  AttemptErrorMessage (attempt_in task result) = ResultErrorMessage result.
Proof.
  unfold attempt_in, attempt_of. destruct (ResultOutcome result); try done.
  by destruct (NextAttempt _ _ _ _ _).
Qed.

(** C35 (error): a diagnostic that is not storable text defeats the delivery.
    When the message that the sender kept is not valid UTF-8, which cutting a
    body in the middle of a character makes it, the store refuses the result,
    even of a request that was delivered: the message is put back, the task
    stays in delivery under its lease, and the destination gets it again after
    the lease has expired. *)
Theorem diagnostic_defeats_delivery r result :
  tasks d !! id = Some r -> status r = StatusPending ->
  s_claim_fault s = NoFault -> s_apply_fault s = NoFault -> s_acquired s = Ok () ->
  (forall d', s_others s d' = d') -> s_sent s = Some result ->
  let claimed := set_claimed (s_lease s) (time_Add (s_started s) leaseTTL) (s_db_now s) r in
  task_row_ok id claimed = true ->
  text_ok (ResultErrorMessage result) = false ->
  fst (handle leaseTTL message s d) = Some Requeue /\
  w_db (snd (handle leaseTTL message s d)) = set_tasks (<[id := claimed]> (tasks d)) d.
Proof.
  intros Hr Hst Hcf Haf Hacq Hoth Hsent claimed Hok Hbad.
  assert (Hclaim : claim = (Ok (Some (claimed_task id claimed (s_lease s) (time_Add (s_started s) leaseTTL))),
                            set_tasks (<[id := claimed]> (tasks d)) d))
    by (rewrite Hcf; by apply ClaimDelivery_pending).
  rewrite handle_cases, Hclaim, Hacq, Hsent. cbn zeta. rewrite Hoth, Haf.
  destruct (ApplyDeliveryResult_refused NoFault id (s_lease s)
    (attempt_in (claimed_task id claimed (s_lease s) (time_Add (s_started s) leaseTTL)) result)
    (set_tasks (<[id := claimed]> (tasks d)) d)) as [e ->]; [|done].
  unfold storable_result. rewrite attempt_in_message, Hbad. by rewrite andb_false_r.
Qed.
End Worker.

(** ** Instances *)

(** One delivery of the first task of [history_created]. *)
Definition sample_script (sent : SendResult) : script :=
  mkScript "lease-1" 3000 NoFault 3000 (Ok ()) (fun d => d) (Some sent) 4000 None NoFault.

Definition sample_message : Message := mkMessage "e1" "n1".

Definition created_row : task_row := row_of_task (sample_request "n1" "k1" 1000) "{}".

Definition busy_result : SendResult := mkSendResult Retryable 503 "http_5xx" "busy" None.

Lemma handle_end_to_end_witness :
  fst (handle Minute sample_message (sample_script busy_result) (after history_created)) = Some Ack.
Proof.
  refine (proj1 (handle_end_to_end Minute sample_message (sample_script busy_result)
    (after history_created) created_row busy_result _ eq_refl _ eq_refl eq_refl eq_refl
    (fun _ => eq_refl) eq_refl _ _)).
  - vm_compute. reflexivity.
  - vm_compute. split; [discriminate|reflexivity].
  - vm_compute. reflexivity.
  - vm_compute. reflexivity.
Defined.

(** The first task is dead by the time the answer arrives. *)
Definition overtaken_script : script :=
  mkScript "lease-1" 3000 NoFault 3000 (Ok ()) (fun _ => after history_dead)
    (Some busy_result) 4000 None NoFault.

Lemma handle_lost_lease_witness :
  w_db (snd (handle Minute sample_message overtaken_script (after history_created)))
    = after history_dead.
Proof.
  pose proof (handle_lost_lease Minute sample_message overtaken_script (after history_created)) as H.
  cbv beta in H.
  destruct (handle Minute sample_message overtaken_script (after history_created)) as [disposition w] eqn:Hw.
  destruct H as [H|[H _]].
  - intros d1 r Hr. left. vm_compute in Hr. injection Hr as <-. discriminate.
  - simpl. vm_compute in Hw. injection Hw as _ <-. vm_compute. reflexivity.
  - simpl. rewrite H. reflexivity.
Defined.

(** A body whose 1024th and 1025th bytes are one character. *)
Definition long_body : string := of_bytes (replicate 1023 97 ++ [195; 169]).

Definition long_result : SendResult :=
  result_of_response (fun _ => None) (mkSenderConfig false 0) 0 (mkHTTPResponse 200 None long_body).

Lemma diagnostic_defeats_delivery_witness :
  valid_utf8 long_body = true /\ ResultOutcome long_result = Delivered /\
  fst (handle Minute sample_message (sample_script long_result) (after history_created)) = Some Requeue.
Proof.
  split; [vm_compute; reflexivity|]. split; [vm_compute; reflexivity|].
  refine (proj1 (diagnostic_defeats_delivery Minute sample_message (sample_script long_result)
    (after history_created) created_row long_result _ eq_refl eq_refl eq_refl eq_refl
    (fun _ => eq_refl) eq_refl _ _)).
  - vm_compute. reflexivity.
  - vm_compute. reflexivity.
  - vm_compute. reflexivity.
Defined.
