(* ===== verification/OutboxService.v ===== *)
(** * The outbox publisher (src/internal/outbox/service.go)

    [RunOnce] and the loop of [Run] against the interfaces of the service, and
    an implementation over the store and a message broker whose answers, and
    the interference of other processes, are scripted event by event. *)

From S2P Require Import Prelude GoTime GoStrings Notification Table Schema Store StoreSpec StoreRefine OutboxStoreProps Samples.

(** ** Interfaces *)

Record OutboxMessage := mkOutboxMessage { MsgEventID : string; MsgNotificationID : string }.

#[global] Instance OutboxMessage_eq_dec : EqDecision OutboxMessage.
Proof. solve_decision. Defined.

Class OutboxRepository (W : Type) := {
  repo_ClaimOutbox : time -> Z -> string -> time -> M W (list OutboxEvent);
  repo_MarkPublished : string -> string -> time -> M W bool;
}.

Class Publisher (W : Type) := { publisher_Publish : OutboxMessage -> M W () }.

Class OutboxEnv (W : Type) := {
  out_now : W -> time * W;
  out_newToken : W -> string * W;
  out_ObserveOutboxPublish : string -> W -> W;
}.

Record OutboxConfig := mkOutboxConfig {
  OutboxBatchSize : Z;
  OutboxClaimTTL : duration;
  OutboxPollInterval : duration;
}.

Definition message_of (event : OutboxEvent) : OutboxMessage :=
  mkOutboxMessage (EventID event) (AggregateID event).

(** ** service.go *)

Section RunOnce.
Context {W : Type} `{OutboxRepository W} `{Publisher W} `{OutboxEnv W}.

(** The loop over the claimed events: the count, and the error that left it. *)
Fixpoint publish_loop (token : string) (events : list OutboxEvent) (published : Z) (w : W)
    : (Z * option error) * W :=
  match events with
  | [] => ((published, None), w)
  | event :: rest =>
      match publisher_Publish (message_of event) w with
      | (Err err, w) => ((published, Some err), out_ObserveOutboxPublish "failed" w)
      | (Ok _, w) =>
          let '(now, w) := out_now w in
          match repo_MarkPublished (EventID event) token now w with
          | (Err err, w) =>
              ((published, Some (Wrapped "mark published" err)), out_ObserveOutboxPublish "failed" w)
          | (Ok true, w) =>
              publish_loop token rest (published + 1) (out_ObserveOutboxPublish "confirmed" w)
          | (Ok false, w) => publish_loop token rest published w
          end
      end
  end.

Definition RunOnce (config : OutboxConfig) (w : W) : (Z * option error) * W :=
  let '(now, w) := out_now w in
  let '(token, w) := out_newToken w in
  match repo_ClaimOutbox now (OutboxBatchSize config) token (time_Add now (OutboxClaimTTL config)) w with
  | (Err err, w) => ((0, Some (Wrapped "claim outbox" err)), w)
  | (Ok events, w) => publish_loop token events 0 w
  end.

(** [Run], for the rounds until [fuel] is used up or the service stops: the
    context is cancelled after a round ([cancelled]), or a round fails for
    another reason than a cancellation. *)
Fixpoint Run (config : OutboxConfig) (cancelled : W -> option error) (fuel : nat) (w : W)
    : option error * W :=
  match fuel with
  | O => (None, w)
  | S fuel =>
      let '((_, err), w) := RunOnce config w in
      let fatal := match err with
                   | Some e => if errors_Is e ContextCanceled then None else Some e
                   | None => None
                   end in
      match fatal with
      | Some e => (Some e, w)
      | None =>
          match cancelled w with
          | Some e => (Some e, w)
          | None => Run config cancelled fuel w
          end
      end
  end.

(** The rounds compose: fuel only bounds how many of them are observed. *)
Lemma Run_add config cancelled n m w :
  Run config cancelled (n + m) w =
    match Run config cancelled n w with
    | (None, w') => Run config cancelled m w'
    | stopped => stopped
    end.
Proof.
  revert w. induction n as [|n IH]; intros w; [done|]. cbn [Nat.add Run].
  destruct (RunOnce config w) as [[? err] w1].
  destruct (match err with Some e => _ | None => _ end); [done|].
  by destruct (cancelled w1).
Qed.

End RunOnce.

(** ** A publisher over the store and a broker *)

(** What happens to one event: the broker's answer, whether the message is in
    the queue, what other processes do, the clock, and the database
    connection. *)
Record publish_script := mkPublishScript {
  p_answer : result ();
  p_enqueued : bool;
  p_others : db -> db;
  p_marked_at : time;
  p_mark_fault : fault;
}.

Record publisher := mkPublisher {
  p_db : db;
  p_queue : list OutboxMessage;
  p_script : list publish_script;
  p_clock : time;
  p_token : string;
  p_claim_fault : fault;
  p_locked : gset string;
  p_marks : list string;
  p_observed : list string;
}.

(** The script of the event being published; past its end, the broker is gone. *)
Definition current (w : publisher) : publish_script :=
  match p_script w with
  | s :: _ => s
  | [] => mkPublishScript (Err (Sentinel ErrConfirmLost)) false (fun d => d) 0 FailBefore
  end.

Definition with_db (d : db) (w : publisher) : publisher :=
  mkPublisher d (p_queue w) (p_script w) (p_clock w) (p_token w) (p_claim_fault w) (p_locked w)
    (p_marks w) (p_observed w).

Section Publisher.
Context (returning_order : list OutboxEvent -> list OutboxEvent).

#[global] Instance publisher_repository : OutboxRepository publisher := {|
  repo_ClaimOutbox now limit token until w :=
    let '(r, d) := ClaimOutbox returning_order (p_claim_fault w) (p_locked w) now limit token until
                     (p_db w) in
    (r, with_db d w);
  repo_MarkPublished eid token now w :=
    let '(r, d) := MarkPublished (p_mark_fault (current w)) eid token now (p_db w) in
    (r, mkPublisher d (p_queue w) (tail (p_script w)) (p_clock w) (p_token w) (p_claim_fault w)
          (p_locked w) (p_marks w ++ [eid]) (p_observed w));
|}.

#[global] Instance publisher_broker : Publisher publisher := {|
  publisher_Publish message w :=
    (p_answer (current w),
     mkPublisher (p_others (current w) (p_db w))
       (if p_enqueued (current w) then p_queue w ++ [message] else p_queue w)
       (p_script w) (p_marked_at (current w)) (p_token w) (p_claim_fault w) (p_locked w) (p_marks w)
       (p_observed w));
|}.

#[global] Instance publisher_env : OutboxEnv publisher := {|
  out_now w := (p_clock w, w);
  out_newToken w := (p_token w, w);
  out_ObserveOutboxPublish outcome w :=
    mkPublisher (p_db w) (p_queue w) (p_script w) (p_clock w) (p_token w) (p_claim_fault w)
      (p_locked w) (p_marks w) (p_observed w ++ [outcome]);
|}.

(** A broker confirms only messages that are in the queue. *)
Definition broker_ok (s : publish_script) : Prop := is_Ok (p_answer s) = true -> p_enqueued s = true.

Lemma current_ok w : Forall broker_ok (p_script w) -> broker_ok (current w).
Proof. intros H. unfold current. by destruct H as [|s l Hs _]. Qed.

(** The publisher after an event went through, with the database [d]. *)
Definition after_mark (event : OutboxEvent) (d : db) (observed : list string) (w : publisher) : publisher :=
  mkPublisher d (if p_enqueued (current w) then p_queue w ++ [message_of event] else p_queue w)%list
    (tail (p_script w)) (p_marked_at (current w)) (p_token w) (p_claim_fault w) (p_locked w)
    (p_marks w ++ [EventID event])%list (p_observed w ++ observed)%list.

(** The database when the event is marked. *)
Definition marked_db (token : string) (event : OutboxEvent) (w : publisher) : result bool * db :=
  MarkPublished (p_mark_fault (current w)) (EventID event) token (p_marked_at (current w))
    (p_others (current w) (p_db w)).

Lemma publish_loop_cons token event rest n w :
  p_answer (current w) = Ok () ->
  publish_loop token (event :: rest) n w =
    match marked_db token event w with
    | (Err e, d) => ((n, Some (Wrapped "mark published" e)), after_mark event d ["failed"%string] w)
    | (Ok true, d) => publish_loop token rest (n + 1) (after_mark event d ["confirmed"%string] w)
    | (Ok false, d) => publish_loop token rest n (after_mark event d [] w)
    end.
Proof.
  intros Ha. cbn [publish_loop]. unfold publisher_Publish, publisher_broker. rewrite Ha. simpl.
  unfold marked_db, current, after_mark, message_of. simpl.
  destruct (MarkPublished _ _ _ _ _) as [[[]|e] d]; simpl; rewrite ?app_nil_r; done.
Qed.

(** The loop marks a prefix of the batch, and has sent those messages and at
    most one more. *)
Lemma publish_loop_prefix token events n w r w' :
  Forall broker_ok (p_script w) ->
  publish_loop token events n w = (r, w') ->
  exists k m, (k <= m <= S k)%nat /\
    p_marks w' = (p_marks w ++ (EventID <$> take k events))%list /\
    p_queue w' = (p_queue w ++ (message_of <$> take m events))%list /\
    n <= r.1 <= n + Z.of_nat k /\
    (r.2 = None -> (length events <= k)%nat).
Proof.
  revert n w. induction events as [|event rest IH]; intros n w Hok Hrun.
  { injection Hrun as <- <-. exists 0%nat, 0%nat. rewrite !app_nil_r. simpl. split_and!; lia || done. }
  pose proof (current_ok w Hok) as Hc. unfold broker_ok in Hc.
  destruct (p_answer (current w)) as [[]|err] eqn:Ha.
  2: { cbn [publish_loop] in Hrun. unfold publisher_Publish, publisher_broker in Hrun.
       rewrite Ha in Hrun. injection Hrun as <- <-.
       exists 0%nat, (if p_enqueued (current w) then 1%nat else 0%nat). simpl.
       rewrite app_nil_r. destruct (p_enqueued (current w)); simpl; rewrite ?app_nil_r;
         split_and!; lia || done. }
  rewrite publish_loop_cons in Hrun by done.
  assert (Hq : forall d o, p_queue (after_mark event d o w) = (p_queue w ++ [message_of event])%list).
  { intros d o. simpl. by rewrite Hc. }
  assert (Htail : forall d o, Forall broker_ok (p_script (after_mark event d o w))).
  { intros d o. simpl. by destruct Hok. }
  destruct (marked_db token event w) as [[applied|err] d1].
  - destruct applied; apply IH in Hrun as (k & m & Hkm & Hmarks & Hqueue & Hn & Hall); try done;
      exists (S k), (S m); rewrite Hmarks, Hqueue, Hq; simpl; rewrite <- !app_assoc;
      split_and!; try done; try lia; intros Hr; specialize (Hall Hr); lia.
  - injection Hrun as <- <-. exists 1%nat, 1%nat. rewrite Hq. simpl. split_and!; lia || done.
Qed.

(** C11 (safety): publish before mark.  In any run of the publisher, whatever
    the broker answers as long as it has what it confirms ([broker_ok]), however
    the database connection fails and whatever other processes do meanwhile,
    the events it tries to mark are a prefix of its batch, in order, and the
    message of each of them is in the queue before; at most one more message was sent than was marked; it never counts
    an event it did not mark; and a run that reports no error went through the
    whole batch. *)
Theorem publish_before_mark config w r w' :
  Forall broker_ok (p_script w) ->
  RunOnce config w = (r, w') ->
  (p_marks w' = p_marks w /\ p_queue w' = p_queue w /\ r.1 = 0 /\ r.2 <> None) \/
  exists events k m,
    fst (ClaimOutbox returning_order (p_claim_fault w) (p_locked w) (p_clock w)
           (OutboxBatchSize config) (p_token w) (time_Add (p_clock w) (OutboxClaimTTL config))
           (p_db w)) = Ok events /\
    (k <= m <= S k)%nat /\
    p_marks w' = (p_marks w ++ (EventID <$> take k events))%list /\
    p_queue w' = (p_queue w ++ (message_of <$> take m events))%list /\
    0 <= r.1 <= Z.of_nat k /\
    (r.2 = None -> (length events <= k)%nat).
Proof.
  intros Hok. unfold RunOnce. simpl. destruct (ClaimOutbox _ _ _ _ _ _ _ _) as [[events|e] d1].
  - intros (k & m & Hkm & Hmarks & Hqueue & Hn & Hall)%publish_loop_prefix; [|done].
    right. by exists events, k, m.
  - intros [= <- <-]. left. by split_and!.
Qed.

(** An event claimed under a token, and unpublished. *)
Definition claimed_under (token : string) (d : db) (event : OutboxEvent) : Prop :=
  exists e, outbox d !! EventID event = Some e /\ claim_token e = Some token /\ published_at e = None.

(** The broker and the database answer, and nobody interferes. *)
Definition smooth (s : publish_script) : Prop :=
  p_answer s = Ok () /\ p_enqueued s = true /\ (forall d, p_others s d = d) /\
  p_mark_fault s = NoFault.

Lemma publish_loop_smooth token events n w :
  db_inv (p_db w) -> Forall smooth (p_script w) -> (length events <= length (p_script w))%nat ->
  NoDup (EventID <$> events) -> (forall event, event ∈ events -> claimed_under token (p_db w) event) ->
  exists w', publish_loop token events n w = ((n + Z.of_nat (length events), None), w') /\
    p_queue w' = (p_queue w ++ (message_of <$> events))%list /\
    tasks (p_db w') = tasks (p_db w) /\
    (forall event, event ∈ events -> exists e, outbox (p_db w') !! EventID event = Some e /\
       is_Some (published_at e)) /\
    (forall eid, eid ∉ EventID <$> events -> outbox (p_db w') !! eid = outbox (p_db w) !! eid).
Proof.
  revert n w. induction events as [|event rest IH]; intros n w Hinv Hs Hlen Hnd Hcl.
  { exists w. rewrite app_nil_r. simpl. split_and!; try done; [by rewrite Z.add_0_r|].
    intros event Hin. by apply not_elem_of_nil in Hin. }
  destruct (p_script w) as [|s ss] eqn:Hscript; [simpl in Hlen; lia|].
  inversion Hs as [|s0 ss0 Hsm Hss]; subst s0 ss0. destruct Hsm as (Ha & Hq & Ho & Hf).
  rewrite fmap_cons in Hnd. apply list.NoDup_cons in Hnd as [Hnew Hnd].
  destruct (Hcl event) as (e & He & Htok & Hpub); [left|].
  assert (Hcur : current w = s) by (unfold current; by rewrite Hscript).
  set (d1 := set_outbox (<[EventID event := set_event_published (p_marked_at s) e]> (outbox (p_db w)))
               (p_db w)).
  pose proof (sk_event_ok _ (inv_schema _ Hinv) _ _ He) as Hok.
  pose proof (set_event_published_ok _ (p_marked_at s) _ Hok) as Hok'.
  assert (Hm : marked_db token event w = (Ok true, d1)).
  { unfold marked_db. rewrite Hcur, Hf, Ho. apply MarkPublished_held; [done|done|].
    unfold holds_claim. by rewrite !bool_decide_eq_true_2. }
  rewrite (publish_loop_cons token event rest n w) by (rewrite Hcur; exact Ha). rewrite Hm.
  destruct (IH (n + 1) (after_mark event d1 ["confirmed"%string] w)) as (w' & Hrun & Hqueue & Ht & Hin & Hout).
  - simpl. by eapply store_step_preserves; [eapply step_publish|].
  - simpl. by rewrite Hscript.
  - simpl. rewrite Hscript. simpl in *. lia.
  - done.
  - intros ev Hev. destruct (Hcl ev) as (e' & He' & ?); [by right|]. exists e'. simpl.
    rewrite lookup_insert_ne; [done|]. intros Heq. apply Hnew. rewrite Heq.
    by apply (list_elem_of_fmap_2 EventID).
  - exists w'. rewrite Hrun. split; [f_equal; simpl; f_equal; lia|]. split_and!.
    + rewrite Hqueue. simpl. rewrite Hcur, Hq. by rewrite <- app_assoc.
    + by rewrite Ht.
    + intros ev [->|Hev]%elem_of_cons; [|by apply Hin]. rewrite Hout by done. simpl.
      rewrite lookup_insert_eq. eauto.
    + intros eid Heid. rewrite fmap_cons, not_elem_of_cons in Heid. destruct Heid as [Hne Heid].
      rewrite Hout by done. simpl. by rewrite lookup_insert_ne.
Qed.
(** A round of the publisher when nothing fails and nobody
    interferes: it counts its whole batch, the messages of the batch are
    appended to the queue in the order of the batch, each event of the batch is
    published, and no task and no other event changes. *)
Theorem run_once_publishes config w events d1 :
  (forall l, returning_order l ≡ₚ l) ->
  db_inv (p_db w) ->
  ClaimOutbox returning_order (p_claim_fault w) (p_locked w) (p_clock w) (OutboxBatchSize config)
    (p_token w) (time_Add (p_clock w) (OutboxClaimTTL config)) (p_db w) = (Ok events, d1) ->
  Forall smooth (p_script w) -> (length events <= length (p_script w))%nat ->
  exists w', RunOnce config w = ((Z.of_nat (length events), None), w') /\
    p_queue w' = (p_queue w ++ (message_of <$> events))%list /\
    tasks (p_db w') = tasks (p_db w) /\
    (forall event, event ∈ events -> exists e, outbox (p_db w') !! EventID event = Some e /\
       is_Some (published_at e)) /\
    (forall eid, eid ∉ EventID <$> events -> outbox (p_db w') !! eid = outbox (p_db w) !! eid).
Proof.
  intros Hperm Hinv Hclaim Hs Hlen. unfold RunOnce. simpl. rewrite Hclaim.
  pose proof (batch_ids returning_order Hperm _ _ _ _ _ _ _ _ _ Hclaim) as Hids.
  pose proof (claimed_batch returning_order Hperm _ _ _ _ _ _ _ _ _ Hclaim) as Hbatch.
  pose proof (ClaimOutbox_Ok _ _ _ _ _ _ _ _ _ _ Hclaim) as (_ & Hd1 & _).
  assert (Hinv1 : db_inv d1).
  { eapply store_steps_preserve; [|exact Hinv]. apply optional_step_rtc.
    replace d1 with (snd (ClaimOutbox returning_order (p_claim_fault w) (p_locked w) (p_clock w)
      (OutboxBatchSize config) (p_token w) (time_Add (p_clock w) (OutboxClaimTTL config)) (p_db w)))
      by (by rewrite Hclaim). apply ClaimOutbox_refines. }
  destruct (publish_loop_smooth (p_token w) events 0 (with_db d1 w)) as (w' & Hrun & Hq & Ht & Hin & Hout);
    try done.
  - rewrite Hids. apply claim_candidates_NoDup.
  - intros event (id & e & Hid & He & ->)%Hbatch. simpl.
    exists (set_event_claimed (p_token w) (time_Add (p_clock w) (OutboxClaimTTL config)) e).
    simpl. rewrite Hd1. simpl. rewrite (lookup_claimed _ _ _ _ _ _ He), decide_True by done.
    split_and!; [done..|]. apply claim_candidates_spec in Hid as (e' & He' & Hc & _). simplify_eq.
    unfold event_claimable in Hc. by reflect_bools.
  - exists w'. split; [exact Hrun|]. split_and!; [exact Hq| |done|].
    + rewrite Ht. simpl. by rewrite Hd1.
    + intros eid Heid. rewrite Hout by done. simpl. rewrite Hd1. simpl. rewrite Hids in Heid.
      destruct (outbox (p_db w) !! eid) as [e|] eqn:He.
      * by rewrite (lookup_claimed _ _ _ _ _ _ He), decide_False.
      * by rewrite lookup_sql_update, He.
Qed.
End Publisher.

(** ** Instances *)

Definition sample_config : OutboxConfig := mkOutboxConfig 10 (30 * Second) Second.

Definition sample_publisher (script : list publish_script) : publisher :=
  mkPublisher (after history_created) [] script 3000 "pub-1" NoFault ∅ [] [].

(** The broker takes the first message and loses the second confirmation. *)
Definition broken_script : list publish_script :=
  [mkPublishScript (Ok ()) true (fun d => d) 4000 NoFault;
   mkPublishScript (Err (Sentinel ErrConfirmLost)) true (fun d => d) 4000 NoFault].

Definition smooth_script : list publish_script :=
  [mkPublishScript (Ok ()) true (fun d => d) 4000 NoFault;
   mkPublishScript (Ok ()) true (fun d => d) 4500 NoFault].

Definition sample_batch : list OutboxEvent :=
  [event_of_row "e1" (set_event_claimed "pub-1" (3000 + 30 * Second) (row_of_event (sample_event "n1" "e1" 1000)));
   event_of_row "e2" (set_event_claimed "pub-1" (3000 + 30 * Second) (row_of_event (sample_event "n2" "e2" 2000)))].

Lemma publish_before_mark_witness :
  fst (@RunOnce publisher (publisher_repository sample_order) _ _ sample_config
         (sample_publisher broken_script)) = (1, Some (Sentinel ErrConfirmLost)) /\
  0 <= 1 <= 1.
Proof.
  split; [vm_compute; reflexivity|].
  destruct (publish_before_mark sample_order sample_config (sample_publisher broken_script)
    (1, Some (Sentinel ErrConfirmLost))
    (snd (@RunOnce publisher (publisher_repository sample_order) _ _ sample_config
            (sample_publisher broken_script)))) as [(H & _)|(events & k & m & _ & _ & Hm & _ & Hn & _)].
  - repeat constructor; intros H; vm_compute in H; done.
  - vm_compute. reflexivity.
  - vm_compute in H. discriminate.
  - split; [lia|lia].
Defined.

Lemma run_once_publishes_witness :
  exists w', @RunOnce publisher (publisher_repository sample_order) _ _ sample_config
               (sample_publisher smooth_script) = ((2, None), w') /\
    p_queue w' = [mkOutboxMessage "e1" "n1"; mkOutboxMessage "e2" "n2"].
Proof.
  destruct (run_once_publishes sample_order sample_config (sample_publisher smooth_script) sample_batch
    (snd (ClaimOutbox sample_order NoFault ∅ 3000 10 "pub-1" (3000 + 30 * Second) (after history_created))))
    as (w' & Hrun & Hq & _).
  - exact (fun l => Permutation_refl l).
  - apply after_inv. vm_compute. reflexivity.
  - vm_compute. reflexivity.
  - repeat constructor.
  - vm_compute. repeat constructor.
  - exists w'. split; [exact Hrun|]. rewrite Hq. reflexivity.
Defined.
