(* ===== verification/System.v ===== *)
(** * The whole system: store, publishers, broker and workers

    A transition system over the database and the queue.  Any number of API
    servers, schedulers, retention jobs and administrators call the store;
    publishers put messages of claimed events into the queue and mark events
    whose message the broker has confirmed; workers receive messages, claim
    their task, store a result and acknowledge.  Every call may fail before or
    after its commit, workers and publishers may die at any point (they just
    take no further step), and the broker may deliver a message any number of
    times until it is acknowledged.

    Two mishaps lose a message for good.  The queue that the program declares
    ([declare] of [Rabbit.v]) is a quorum queue without [x-delivery-limit]: the
    broker of the deployment, RabbitMQ 4, drops a message that was returned to
    it more often than its documented default, and a worker returns a message
    at once whenever the database fails.  And a publisher that gave up a
    publication may take its late confirmation for that of the next message
    ([publish_success] of [Rabbit.v]).  The system has both as steps, and notes
    what they depend on.

    [OutboxService.v] and [Delivery.v] show that the services follow this
    protocol: publish before mark, and acknowledge only after the claim was
    refused or the result stored; [Participant.v] shows that a process of the
    program takes no other steps. *)

From S2P Require Import Prelude GoTime GoStrings Notification Table Schema Store StoreSpec StoreRefine StoreProps IntakeStoreProps OutboxStoreProps Samples Delivery OutboxService.

(** The deliveries that came back to the queue, each with its message; the
    publications that were given up; the messages that were lost. *)
Record mishaps := mkMishaps {
  mis_returned : list OutboxMessage;
  mis_abandoned : list OutboxMessage;
  mis_lost : list OutboxMessage;
}.

Definition no_mishaps : mishaps := mkMishaps [] [] [].

Definition note_return (m : OutboxMessage) (x : mishaps) : mishaps :=
  mkMishaps (m :: mis_returned x) (mis_abandoned x) (mis_lost x).
Definition note_abandoned (m : OutboxMessage) (x : mishaps) : mishaps :=
  mkMishaps (mis_returned x) (m :: mis_abandoned x) (mis_lost x).
Definition note_lost (m : OutboxMessage) (x : mishaps) : mishaps :=
  mkMishaps (mis_returned x) (mis_abandoned x) (m :: mis_lost x).

(** The documented limit of a quorum queue that sets none, since RabbitMQ 4.0. *)
Definition delivery_limit : nat := 20.

Definition times_returned (m : OutboxMessage) (x : mishaps) : nat :=
  length (filter (fun m' => m' = m) (mis_returned x)).

Record system := mkSystem {
  sys_db : db;
  sys_queue : list OutboxMessage;
  sys_confirmed : gset string;
  sys_workers : list OutboxMessage;
  sys_seen : gset string;
  sys_mishaps : mishaps;
}.

Definition empty_system : system := mkSystem empty_db [] ∅ [] ∅ no_mishaps.

(** Calls that any process may make at any time; marking an event published
    and storing a delivery result belong to publishers and workers. *)
Definition open_call (c : store_call) : bool :=
  match c with CallMarkPublished _ _ _ _ => false | _ => call_ok c end.

Section System.
Context (jsonb : string -> option string) (Sum256 : list Z -> list Z)
        (returning_order : list OutboxEvent -> list OutboxEvent).

Local Abbreviation run := (run_call jsonb Sum256 returning_order).

(** The identifier generator never repeats an event identifier. *)
Definition fresh_events (seen : gset string) (d d' : db) : Prop :=
  forall eid, outbox d !! eid = None -> is_Some (outbox d' !! eid) -> eid ∉ seen.

Definition note_events (d : db) (seen : gset string) : gset string := seen ∪ dom (outbox d).

Inductive system_step (s : system) : system -> Prop :=
| sys_call c :
    open_call c = true -> fresh_events (sys_seen s) (sys_db s) (run c (sys_db s)) ->
    system_step s
      (mkSystem (run c (sys_db s)) (sys_queue s) (sys_confirmed s) (sys_workers s)
         (note_events (run c (sys_db s)) (sys_seen s)) (sys_mishaps s))
| sys_publish eid id :
    (* the message of an event, stored now or when it was claimed, enters the queue *)
    eid ∈ sys_seen s ->
    (forall e, outbox (sys_db s) !! eid = Some e -> aggregate_id e = id) ->
    system_step s
      (mkSystem (sys_db s) (mkOutboxMessage eid id :: sys_queue s)
         ({[eid]} ∪ sys_confirmed s) (sys_workers s) (sys_seen s) (sys_mishaps s))
| sys_mark f eid token at_ :
    (* only after the broker has confirmed its message *)
    eid ∈ sys_confirmed s ->
    system_step s
      (mkSystem (run (CallMarkPublished f eid token at_) (sys_db s)) (sys_queue s)
         (sys_confirmed s) (sys_workers s) (sys_seen s) (sys_mishaps s))
| sys_claim f m db_now lease until r d' :
    (* a worker that received [m] claims its task and is told whether it got it *)
    m ∈ sys_queue s ->
    ClaimDelivery f db_now (MsgNotificationID m) lease until (sys_db s) = (Ok r, d') ->
    system_step s
      (mkSystem d' (sys_queue s) (sys_confirmed s) (m :: sys_workers s) (sys_seen s) (sys_mishaps s))
| sys_ack m before after_ :
    (* a worker that has its answer acknowledges one delivery of [m] *)
    m ∈ sys_workers s -> sys_queue s = (before ++ m :: after_)%list ->
    system_step s
      (mkSystem (sys_db s) (before ++ after_)%list (sys_confirmed s) (sys_workers s) (sys_seen s) (sys_mishaps s))
| sys_return m :
    (* a delivery comes back: the worker put it back, or died, or its
       acknowledgement was lost *)
    m ∈ sys_queue s ->
    system_step s
      (mkSystem (sys_db s) (sys_queue s) (sys_confirmed s) (sys_workers s) (sys_seen s)
         (note_return m (sys_mishaps s)))
| sys_drop m before after_ :
    (* the broker drops a message that came back too often *)
    (delivery_limit < times_returned m (sys_mishaps s))%nat ->
    sys_queue s = (before ++ m :: after_)%list ->
    system_step s
      (mkSystem (sys_db s) (before ++ after_)%list (sys_confirmed s) (sys_workers s) (sys_seen s)
         (note_lost m (sys_mishaps s)))
| sys_abandon eid id :
    (* a publisher gives up a publication whose confirmation may still come *)
    eid ∈ sys_seen s ->
    system_step s
      (mkSystem (sys_db s) (sys_queue s) (sys_confirmed s) (sys_workers s) (sys_seen s)
         (note_abandoned (mkOutboxMessage eid id) (sys_mishaps s)))
| sys_mistake eid id :
    (* such a confirmation is taken for that of a message the broker does not have *)
    mis_abandoned (sys_mishaps s) <> [] -> eid ∈ sys_seen s ->
    (forall e, outbox (sys_db s) !! eid = Some e -> aggregate_id e = id) ->
    system_step s
      (mkSystem (sys_db s) (sys_queue s) ({[eid]} ∪ sys_confirmed s) (sys_workers s) (sys_seen s)
         (note_lost (mkOutboxMessage eid id) (sys_mishaps s))).

Definition reachable (s : system) : Prop := rtc system_step empty_system s.

(** ** Spent events

    An event has done its work once its task is no longer waiting for it: the
    task is gone, was claimed, or is in a later generation. *)
Definition spent (d : db) (e : event_row) : Prop :=
  forall r, tasks d !! aggregate_id e = Some r ->
    status r = StatusPending -> event_generation e < generation r.

Lemma call_keeps_event c d eid e e' :
  db_inv d -> call_ok c = true ->
  outbox d !! eid = Some e -> outbox (run c d) !! eid = Some e' ->
  aggregate_id e' = aggregate_id e /\ event_generation e' = event_generation e.
Proof.
  intros Hinv Hok He He'.
  by destruct (call_event_transition _ _ _ _ _ _ _ _ Hinv Hok He He') as [->|[]].
Qed.

(** Spent events stay spent: a task becomes pending only in a new generation. *)
Lemma spent_stable c d eid e e' :
  db_inv d -> call_ok c = true ->
  outbox d !! eid = Some e -> outbox (run c d) !! eid = Some e' ->
  spent d e -> spent (run c d) e'.
Proof.
  intros Hinv Hok He He' Hs r' Hr' Hp.
  destruct (call_keeps_event c d eid e e') as [Ha Hg]; [done..|]. rewrite Ha in Hr'. rewrite Hg.
  destruct (sk_foreign_key d (inv_schema d Hinv) eid e He) as [r Hr].
  pose proof (inv_bounded d Hinv eid e r He Hr) as Hb.
  destruct (call_row_transition jsonb Sum256 returning_order c d _ r r' Hinv Hok Hr Hr')
    as [->|(_ & Hperf & _ & Hgen)]; [by apply (Hs r)|].
  unfold has_status in Hgen. rewrite Hp, bool_decide_eq_true_2 in Hgen by done. lia.
Qed.

(** A claim that is answered spends the event. *)
Lemma claim_spends f db_now id lease until d r d' e :
  ClaimDelivery f db_now id lease until d = (Ok r, d') -> aggregate_id e = id -> spent d' e.
Proof.
  intros Hc Hid rr Hrr Hp. exfalso. rewrite Hid in Hrr.
  assert (f = NoFault) as -> by (by apply statement_Ok in Hc as [? _]).
  rewrite ClaimDelivery_NoFault in Hc. destruct (negb _); [done|].
  destruct (tasks d !! id) as [r0|] eqn:Hr0.
  - destruct (has_status StatusPending r0) eqn:Hst.
    + cbn zeta in Hc. destruct (task_row_ok _ _); [|done]. injection Hc as _ <-. simpl in Hrr.
      rewrite lookup_insert_eq in Hrr. by simplify_eq.
    + injection Hc as _ <-. simplify_eq. unfold has_status in Hst. by apply bool_decide_eq_false in Hst.
  - injection Hc as _ <-. congruence.
Qed.

(** ** The invariant *)

Record system_inv (s : system) : Prop := {
  si_db : db_inv (sys_db s);
  (* a published or confirmed event is in the queue until it is spent or lost *)
  si_published : forall eid e, outbox (sys_db s) !! eid = Some e ->
    is_Some (published_at e) -> eid ∈ sys_confirmed s;
  si_confirmed : forall eid e, outbox (sys_db s) !! eid = Some e -> eid ∈ sys_confirmed s ->
    spent (sys_db s) e \/ mkOutboxMessage eid (aggregate_id e) ∈ sys_queue s \/
    mkOutboxMessage eid (aggregate_id e) ∈ mis_lost (sys_mishaps s);
  (* what loses a message *)
  si_lost : forall m, m ∈ mis_lost (sys_mishaps s) ->
    (delivery_limit < times_returned m (sys_mishaps s))%nat \/ mis_abandoned (sys_mishaps s) <> [];
  (* workers that may acknowledge have seen their event spent *)
  si_workers : forall m e, m ∈ sys_workers s -> outbox (sys_db s) !! MsgEventID m = Some e ->
    spent (sys_db s) e;
  si_messages : forall m e, m ∈ sys_queue s -> outbox (sys_db s) !! MsgEventID m = Some e ->
    aggregate_id e = MsgNotificationID m;
  (* identifiers in use have been seen *)
  si_seen_events : forall eid, is_Some (outbox (sys_db s) !! eid) -> eid ∈ sys_seen s;
  si_seen_confirmed : sys_confirmed s ⊆ sys_seen s;
  si_seen_queue : forall m, m ∈ sys_queue s -> MsgEventID m ∈ sys_seen s;
  si_seen_workers : forall m, m ∈ sys_workers s -> MsgEventID m ∈ sys_seen s;
}.

Lemma system_inv_empty : system_inv empty_system.
Proof.
  split; simpl; try (intros; simplify_map_eq; done); try set_solver.
Qed.

(** Only [MarkPublished] publishes an event. *)
Lemma open_call_published c d eid e' :
  db_inv d -> open_call c = true ->
  outbox (run c d) !! eid = Some e' -> is_Some (published_at e') ->
  exists e, outbox d !! eid = Some e /\ is_Some (published_at e).
Proof.
  intros Hinv Hc He' Hp. destruct c; simpl in *; try done.
  - destruct (CreateOrGet_effect jsonb f f' task event d) as [Hd|(r & e & _ & Hn & Hd)];
      rewrite Hd in He'; [eauto|]. simpl in He'.
    apply lookup_insert_Some in He' as [[_ <-]|[_ He']]; [by rewrite Hn in Hp; destruct Hp|eauto].
  - destruct (ClaimDelivery _ _ _ _ _ d) as [res d'] eqn:H. simpl in He'.
    apply ClaimDelivery_effect in H as [->|(r & _ & _ & _ & ->)]; eauto.
  - destruct (ApplyDeliveryResult _ _ _ _ d) as [res d'] eqn:H. simpl in He'.
    apply ApplyDeliveryResult_effect in H as [->|(r & _ & _ & _ & _ & ->)]; eauto.
  - destruct (ScheduleRetry _ _ _ _ _ d) as [res d'] eqn:H. simpl in He'.
    apply ApplyDeliveryResult_effect in H as [->|(r & _ & _ & _ & _ & ->)]; eauto.
  - destruct (ClaimOutbox _ _ _ _ _ _ _ d) as [res d'] eqn:H. simpl in He'.
    apply ClaimOutbox_body in H as [->|(_ & _ & ->)]; [eauto|]. simpl in He'.
    apply lookup_sql_update_Some in He' as (e & He & ->). exists e. split; [done|].
    by destruct (by_ids _ _ _).
  - destruct (PgReplayDeadAtomic _ _ _ _ d) as [res d'] eqn:H. simpl in He'.
    apply PgReplayDeadAtomic_effect in H as [->|(r & _ & _ & _ & _ & _ & ->)]; [eauto|].
    simpl in He'. apply lookup_insert_Some in He' as [[_ <-]|[_ He']]; [by destruct Hp|eauto].
  - destruct (ScheduleDue _ _ _ _ _ d) as [res d'] eqn:H. simpl in He'.
    apply atomically_effect in H as [->|[acc Hbody]]; [eauto|].
    assert (Hok : ScheduleDue Sum256 NoFault locked now limit d = (Ok acc, d'))
      by (by apply atomically_Ok).
    apply ScheduleDue_Ok in Hok as (_ & _ & _ & _ & _ & _ & _ & Hfrom); [|done].
    destruct (Hfrom _ _ He') as [He|Hn]; [eauto|]. rewrite Hn in Hp. by destruct Hp.
  - destruct (DeleteTerminalBefore _ _ _ _ d) as [res d'] eqn:H. simpl in He'.
    apply DeleteTerminalBefore_body in H as [->|(_ & ids & _ & ->)]; [eauto|]. simpl in He'.
    apply lookup_sql_delete_Some in He' as [He' _]. eauto.
Qed.

(** Events that existed before, or are new. *)
Lemma old_or_new seen c d eid e' :
  fresh_events seen d (run c d) -> outbox (run c d) !! eid = Some e' ->
  (exists e, outbox d !! eid = Some e) \/ eid ∉ seen.
Proof.
  intros Hf He'. destruct (outbox d !! eid) as [e|] eqn:He; [eauto|]. right. apply Hf; eauto.
Qed.
(** What a call that keeps to its identifiers preserves. *)
Lemma system_inv_call s c seen' :
  system_inv s -> call_ok c = true ->
  fresh_events (sys_seen s) (sys_db s) (run c (sys_db s)) ->
  (forall eid e', outbox (run c (sys_db s)) !! eid = Some e' -> is_Some (published_at e') ->
     eid ∈ sys_confirmed s) ->
  seen' = note_events (run c (sys_db s)) (sys_seen s) ->
  system_inv (mkSystem (run c (sys_db s)) (sys_queue s) (sys_confirmed s) (sys_workers s) seen' (sys_mishaps s)).
Proof.
  intros Hinv Hok Hfresh Hpub ->. pose proof (si_db s Hinv) as Hdb.
  assert (Hold : forall eid e', outbox (run c (sys_db s)) !! eid = Some e' -> eid ∈ sys_seen s ->
    exists e, outbox (sys_db s) !! eid = Some e).
  { intros eid e' He' Hseen. by destruct (old_or_new _ _ _ _ _ Hfresh He'). }
  split; simpl.
  - eapply store_steps_preserve; [|exact Hdb]. by apply call_refines.
  - exact Hpub.
  - intros eid e' He' Hconf.
    destruct (Hold eid e' He') as [e He]; [by apply (si_seen_confirmed s Hinv)|].
    destruct (call_keeps_event c (sys_db s) eid e e') as [-> _]; [done..|].
    destruct (si_confirmed s Hinv eid e He Hconf) as [Hs|Hq]; [left|by right].
    by eapply spent_stable.
  - apply (si_lost s Hinv).
  - intros m e' Hm He'.
    destruct (Hold _ e' He') as [e He]; [by apply (si_seen_workers s Hinv)|].
    eapply spent_stable; [done..|]. by eapply si_workers.
  - intros m e' Hm He'.
    destruct (Hold _ e' He') as [e He]; [by apply (si_seen_queue s Hinv)|].
    destruct (call_keeps_event c (sys_db s) (MsgEventID m) e e') as [-> _]; [done..|]. by eapply si_messages.
  - intros eid Heid. unfold note_events. apply elem_of_union. right. by apply elem_of_dom.
  - pose proof (si_seen_confirmed s Hinv). unfold note_events. set_solver.
  - intros m Hm. unfold note_events. apply elem_of_union. left. by apply (si_seen_queue s Hinv).
  - intros m Hm. unfold note_events. apply elem_of_union. left. by apply (si_seen_workers s Hinv).
Qed.

(** Calls that create no event. *)
Lemma fresh_same seen d d' :
  (forall eid, is_Some (outbox d' !! eid) -> is_Some (outbox d !! eid)) -> fresh_events seen d d'.
Proof. intros H eid Hn Hs. specialize (H eid Hs). rewrite Hn in H. by destruct H. Qed.

Lemma note_same d seen : (forall eid, is_Some (outbox d !! eid) -> eid ∈ seen) -> seen = note_events d seen.
Proof.
  intros H. apply set_eq. intros eid. unfold note_events. rewrite elem_of_union, elem_of_dom.
  split; [by left|]. intros [|]; eauto.
Qed.

Lemma system_inv_mark s f eid token at_ :
  system_inv s -> eid ∈ sys_confirmed s ->
  system_inv (mkSystem (run (CallMarkPublished f eid token at_) (sys_db s)) (sys_queue s)
    (sys_confirmed s) (sys_workers s) (sys_seen s) (sys_mishaps s)).
Proof.
  intros Hinv Hconf.
  assert (Hd : forall k e', outbox (run (CallMarkPublished f eid token at_) (sys_db s)) !! k = Some e' ->
    exists e, outbox (sys_db s) !! k = Some e /\ (e' = e \/ k = eid)).
  { intros k e' He'. simpl in He'. destruct (MarkPublished _ _ _ _ _) as [res d'] eqn:H.
    simpl in He'. apply MarkPublished_effect in H as [->|(e & He & _ & _ & _ & ->)]; [eauto|].
    simpl in He'. apply lookup_insert_Some in He' as [[<- _]|[_ He']]; eauto. }
  apply system_inv_call; [done|done| | |].
  - apply fresh_same. intros k [e' He']. destruct (Hd k e' He') as (e & He & _). eauto.
  - intros k e' He' Hp. destruct (Hd k e' He') as (e & He & [->| ->]); [|done].
    by eapply si_published.
  - apply note_same. intros k [e' He']. destruct (Hd k e' He') as (e & He & _).
    apply (si_seen_events s Hinv). eauto.
Qed.

Lemma system_inv_publish s eid id :
  system_inv s -> eid ∈ sys_seen s ->
  (forall e, outbox (sys_db s) !! eid = Some e -> aggregate_id e = id) ->
  system_inv (mkSystem (sys_db s) (mkOutboxMessage eid id :: sys_queue s)
    ({[eid]} ∪ sys_confirmed s) (sys_workers s) (sys_seen s) (sys_mishaps s)).
Proof.
  intros Hinv Hseen Hid. split; simpl; try apply Hinv.
  - intros k e' He' Hp. apply elem_of_union. right. by eapply si_published.
  - intros k e' He' Hk. rewrite elem_of_cons. destruct (decide (k = eid)) as [->|Hne].
    + right. left. left. by rewrite (Hid e').
    + destruct (si_confirmed s Hinv k e' He') as [Hs|[Hq|Hl]]; [set_solver|by left|by right; left; right|by right; right].
  - intros m e' Hm He'. apply elem_of_cons in Hm as [->|Hm]; simpl in *; [by apply Hid|].
    by eapply si_messages.
  - pose proof (si_seen_confirmed s Hinv). set_solver.
  - intros m Hm. apply elem_of_cons in Hm as [->|Hm]; [done|by apply (si_seen_queue s Hinv)].
Qed.

Lemma system_inv_claim s f m db_now lease until r d' :
  system_inv s -> m ∈ sys_queue s ->
  ClaimDelivery f db_now (MsgNotificationID m) lease until (sys_db s) = (Ok r, d') ->
  system_inv (mkSystem d' (sys_queue s) (sys_confirmed s) (m :: sys_workers s) (sys_seen s) (sys_mishaps s)).
Proof.
  intros Hinv Hm Hclaim.
  assert (Hd' : d' = run (CallClaimDelivery f db_now (MsgNotificationID m) lease until) (sys_db s))
    by (simpl; by rewrite Hclaim).
  assert (Hout : outbox d' = outbox (sys_db s)).
  { by apply ClaimDelivery_effect in Hclaim as [->|(r0 & _ & _ & _ & ->)]. }
  assert (Hinv' : system_inv (mkSystem d' (sys_queue s) (sys_confirmed s) (sys_workers s) (sys_seen s) (sys_mishaps s))).
  { rewrite Hd'. apply system_inv_call; [done|done| | |]; rewrite <- Hd'.
    - apply fresh_same. by rewrite Hout.
    - intros k e' He'. rewrite Hout in He'. by apply (si_published s Hinv).
    - apply note_same. intros k Hk. rewrite Hout in Hk. by apply (si_seen_events s Hinv). }
  split; try apply Hinv'.
  - intros m' e Hm' He. apply elem_of_cons in Hm' as [->|Hm']; [|by eapply (si_workers _ Hinv')].
    eapply claim_spends; [exact Hclaim|]. by eapply (si_messages _ Hinv').
  - intros m' Hm'. apply elem_of_cons in Hm' as [->|Hm']; [by apply (si_seen_queue s Hinv)|].
    by apply (si_seen_workers s Hinv).
Qed.

Lemma system_inv_ack s m before after_ :
  system_inv s -> m ∈ sys_workers s -> sys_queue s = (before ++ m :: after_)%list ->
  system_inv (mkSystem (sys_db s) (before ++ after_)%list (sys_confirmed s) (sys_workers s) (sys_seen s) (sys_mishaps s)).
Proof.
  intros Hinv Hm Hq.
  assert (Hsub : forall m', m' ∈ (before ++ after_)%list -> m' ∈ sys_queue s) by (rewrite Hq; set_solver).
  split; simpl; try apply Hinv.
  - intros eid e He Hconf. destruct (si_confirmed s Hinv eid e He Hconf) as [Hs|[Hin|Hl]]; [by left| |by right; right].
    rewrite Hq in Hin. destruct (decide (mkOutboxMessage eid (aggregate_id e) = m)) as [Heq|Hne].
    + left. apply (si_workers s Hinv m); [done|]. by rewrite <- Heq.
    + right. left. set_solver.
  - intros m' e Hm'. apply (si_messages s Hinv). by apply Hsub.
  - intros m' Hm'. apply (si_seen_queue s Hinv). by apply Hsub.
Qed.

Lemma times_returned_cons m m' x :
  (times_returned m x <= times_returned m (note_return m' x))%nat.
Proof. unfold times_returned. cbn [mis_returned note_return]. rewrite list.filter_cons. case_decide; simpl; lia. Qed.

Lemma system_inv_return s m :
  system_inv s ->
  system_inv (mkSystem (sys_db s) (sys_queue s) (sys_confirmed s) (sys_workers s) (sys_seen s)
    (note_return m (sys_mishaps s))).
Proof.
  intros Hinv. split; try apply Hinv. intros m' Hm'.
  destruct (si_lost s Hinv m' Hm') as [H|H]; [left|by right].
  pose proof (times_returned_cons m' m (sys_mishaps s)). simpl. lia.
Qed.

Lemma system_inv_drop s m before after_ :
  system_inv s -> (delivery_limit < times_returned m (sys_mishaps s))%nat ->
  sys_queue s = (before ++ m :: after_)%list ->
  system_inv (mkSystem (sys_db s) (before ++ after_)%list (sys_confirmed s) (sys_workers s) (sys_seen s)
    (note_lost m (sys_mishaps s))).
Proof.
  intros Hinv Hm Hq.
  assert (Hsub : forall m', m' ∈ (before ++ after_)%list -> m' ∈ sys_queue s) by (rewrite Hq; set_solver).
  split; simpl; try apply Hinv.
  - intros eid e He Hconf. destruct (si_confirmed s Hinv eid e He Hconf) as [Hs|[Hin|Hl]]; [by left| |by right; right; right].
    right. rewrite Hq in Hin. rewrite elem_of_app in *. rewrite elem_of_cons in *. tauto.
  - intros m' Hm'. apply elem_of_cons in Hm' as [->|Hm']; [by left|by apply (si_lost s Hinv)].
  - intros m' e Hm'. apply (si_messages s Hinv). by apply Hsub.
  - intros m' Hm'. apply (si_seen_queue s Hinv). by apply Hsub.
Qed.

Lemma system_inv_abandon s m :
  system_inv s ->
  system_inv (mkSystem (sys_db s) (sys_queue s) (sys_confirmed s) (sys_workers s) (sys_seen s)
    (note_abandoned m (sys_mishaps s))).
Proof. intros Hinv. split; try apply Hinv. intros m' Hm'. by right. Qed.

Lemma system_inv_mistake s eid id :
  system_inv s -> mis_abandoned (sys_mishaps s) <> [] -> eid ∈ sys_seen s ->
  (forall e, outbox (sys_db s) !! eid = Some e -> aggregate_id e = id) ->
  system_inv (mkSystem (sys_db s) (sys_queue s) ({[eid]} ∪ sys_confirmed s) (sys_workers s) (sys_seen s)
    (note_lost (mkOutboxMessage eid id) (sys_mishaps s))).
Proof.
  intros Hinv Hab Hseen Hid. split; simpl; try apply Hinv.
  - intros k e' He' Hp. apply elem_of_union. right. by eapply si_published.
  - intros k e' He' Hk. destruct (decide (k = eid)) as [->|Hne].
    + right. right. rewrite (Hid e') by done. left.
    + destruct (si_confirmed s Hinv k e' He') as [Hs|[Hq|Hl]]; [set_solver|by left|by right; left|].
      right. right. by right.
  - intros m _. by right.
  - pose proof (si_seen_confirmed s Hinv). set_solver.
Qed.

Lemma system_step_preserves s s' : system_step s s' -> system_inv s -> system_inv s'.
Proof.
  intros Hstep Hinv. destruct Hstep as [c Hc Hf|eid id Hseen Hid|f eid token at_ Hconf
    |f m db_now lease until r d' Hm Hclaim|m before after_ Hm Hq|m Hm|m before after_ Hm Hq|eid id Hseen
    |eid id Hab Hseen Hid].
  - assert (Hok : call_ok c = true) by (by destruct c).
    apply system_inv_call; try done. intros eid e' He' Hp.
    destruct (open_call_published c _ eid e' (si_db s Hinv) Hc He' Hp) as (e & He & Hpe).
    by eapply si_published.
  - by apply system_inv_publish.
  - by apply system_inv_mark.
  - by eapply system_inv_claim.
  - by eapply system_inv_ack.
  - by apply system_inv_return.
  - by apply system_inv_drop.
  - by apply system_inv_abandon.
  - by apply system_inv_mistake.
Qed.

Lemma reachable_system_inv s : reachable s -> system_inv s.
Proof.
  unfold reachable. intros Hr. remember empty_system as s0 eqn:H0.
  assert (Hinv : system_inv s0) by (subst; apply system_inv_empty). clear H0.
  induction Hr; eauto using system_step_preserves.
Qed.

(** A message that was lost, by one of the two mishaps. *)
Definition lost (s : system) (m : OutboxMessage) : Prop :=
  m ∈ mis_lost (sys_mishaps s) /\
  ((delivery_limit < times_returned m (sys_mishaps s))%nat \/ mis_abandoned (sys_mishaps s) <> []).

(** A pending task has the event of its generation, unpublished, in the queue
    or lost. *)
Lemma pending_has_event s id r :
  system_inv s -> tasks (sys_db s) !! id = Some r -> status r = StatusPending ->
  exists eid e, outbox (sys_db s) !! eid = Some e /\ aggregate_id e = id /\
    event_generation e = generation r /\
    (published_at e = None \/ mkOutboxMessage eid id ∈ sys_queue s \/ lost s (mkOutboxMessage eid id)).
Proof.
  intros Hinv Hr Hp. pose proof (si_db s Hinv) as Hdb.
  assert (Hg : 0 <= generation r).
  { pose proof (sk_task_ok _ (inv_schema _ Hdb) id r Hr) as Hok. unfold task_row_ok in Hok.
    reflect_bools. done. }
  destruct (inv_complete _ Hdb id r (generation r) Hr) as (eid & e & He & Ha & Hge); [lia|].
  exists eid, e. split_and!; [done..|].
  destruct (published_at e) as [t|] eqn:Hpub; [right|by left].
  assert (Hconf : eid ∈ sys_confirmed s) by (eapply si_published; [done..|by rewrite Hpub]).
  destruct (si_confirmed s Hinv eid e He Hconf) as [Hs|[Hq|Hl]];
    [|left; by rewrite <- Ha|right; rewrite <- Ha; split; [done|by apply (si_lost s Hinv)]].
  exfalso. rewrite <- Ha in Hr. specialize (Hs r Hr Hp). lia.
Qed.

(** C2 (safety): an accepted notification is stuck only if its message was
    lost.  In every reachable state of the system, whatever calls fail, whoever
    dies and whatever is delivered twice, a task that is not finished has
    something that moves it on: a pending task has an event of its current
    generation that is still to be published, or whose message is in the queue
    until a worker has claimed the task; a task in delivery has a lease, and
    one that waits has a time, from which on the scheduler takes it.  The only
    exception is a pending task whose message was lost, and that needs a
    mishap: its deliveries came back to the broker more often than the limit of
    the queue, or some publisher gave up a publication and took its late
    confirmation for another's ([delivery_limit_strands] and [publish_success]
    show that the code does not prevent them). *)
Theorem no_stuck_task s id r :
  reachable s -> tasks (sys_db s) !! id = Some r ->
  match status r with
  | StatusPending =>
      exists eid e, outbox (sys_db s) !! eid = Some e /\ aggregate_id e = id /\
        event_generation e = generation r /\
        (published_at e = None \/ mkOutboxMessage eid id ∈ sys_queue s \/ lost s (mkOutboxMessage eid id))
  | StatusDelivering =>
      exists t, lease_until r = Some t /\ forall now, t < now -> task_due now r = true
  | StatusRetryWait =>
      exists t, next_attempt_at r = Some t /\ forall now, t <= now -> task_due now r = true
  | StatusDelivered | StatusDead => True
  end.
Proof.
  intros Hreach Hr. apply reachable_system_inv in Hreach as Hinv.
  pose proof (si_db s Hinv) as Hdb. pose proof (inv_states _ Hdb id r Hr) as Hst.
  unfold state_ok in Hst. unfold task_due, has_status.
  destruct (status r) eqn:Hp; try done; simpl.
  - by apply pending_has_event.
  - reflect_bools. destruct (lease_until r) as [t|]; [|done]. exists t. split; [done|]. lia.
  - reflect_bools. destruct (next_attempt_at r) as [t|]; [|done]. exists t. split; [done|]. lia.
Qed.

(** From any state the broker can come to drop any message of the queue: it is
    enough that its deliveries come back [delivery_limit + 1] times, as they do
    when a worker receives it while the database fails ([Handle_disposition]:
    it is put back at once).  A pending task whose event was published is then
    left with nothing that moves it on. *)
Definition with_mishaps (s : system) (x : mishaps) : system :=
  mkSystem (sys_db s) (sys_queue s) (sys_confirmed s) (sys_workers s) (sys_seen s) x.

Lemma returned_times s m n :
  m ∈ sys_queue s ->
  exists x, rtc system_step s (with_mishaps s x) /\ (n <= times_returned m x)%nat.
Proof.
  intros Hm. induction n as [|n (x & Hsteps & Hn)].
  - exists (sys_mishaps s). split; [by destruct s|lia].
  - exists (note_return m x). split; [eapply rtc_r; [exact Hsteps|]; exact (sys_return (with_mishaps s x) m Hm)|].
    unfold times_returned in *. cbn [mis_returned note_return]. rewrite list.filter_cons_True by done. simpl. lia.
Qed.

Theorem delivery_limit_strands s m before after_ :
  sys_queue s = (before ++ m :: after_)%list ->
  exists s', rtc system_step s s' /\ sys_db s' = sys_db s /\ sys_queue s' = (before ++ after_)%list /\
    m ∈ mis_lost (sys_mishaps s').
Proof.
  intros Hq. destruct (returned_times s m (S delivery_limit)) as (x & Hsteps & Hn); [rewrite Hq; set_solver|].
  eexists. split; [eapply rtc_r; [exact Hsteps|]; exact (sys_drop (with_mishaps s x) m before after_ Hn Hq)|].
  split_and!; [done|done|left].
Qed.
End System.

(** ** Attempts *)

Section Attempts.
Context (jsonb : string -> option string) (Sum256 : list Z -> list Z)
        (returning_order : list OutboxEvent -> list OutboxEvent).

Local Abbreviation run := (run_call jsonb Sum256 returning_order).

Definition is_replay (id : string) (c : store_call) : bool :=
  match c with CallReplayDeadAtomic _ id' _ _ => bool_decide (id' = id) | _ => false end.

(** The replays of one task among the calls. *)
Fixpoint replays (id : string) (cs : list store_call) : Z :=
  match cs with
  | [] => 0
  | c :: cs' => Z.b2z (is_replay id c) + replays id cs'
  end.

(** The attempts a task has left, when [k] replays were asked for. *)
Definition within_budget (k : Z) (r : task_row) : Prop :=
  attempt_count r + (if has_status StatusPending r then 1 else 0) <= max_attempts (fixed r) + k.

Lemma scheduled_budget k now r :
  0 <= k -> task_due now r = true -> within_budget k r -> within_budget k (scheduled_row now r).
Proof.
  unfold within_budget, scheduled_row. intros Hk Hdue%task_due_status.
  destruct (exhausted now r) eqn:Hex; unfold has_status; simpl;
    [destruct Hdue as [-> | ->]; simpl; lia|].
  unfold exhausted in Hex. reflect_bools. lia.
Qed.

Lemma result_budget k result r :
  0 <= k -> within_budget k r -> within_budget k (set_result result r).
Proof.
  unfold within_budget, has_status, set_result. intros Hk Hb.
  destruct (AttemptOutcome result); simpl; case_match; lia.
Qed.

Lemma ScheduleDue_budget f locked now limit d id k :
  db_inv d -> 0 <= k -> (forall r, tasks d !! id = Some r -> within_budget k r) ->
  forall r', tasks (snd (ScheduleDue Sum256 f locked now limit d)) !! id = Some r' -> within_budget k r'.
Proof.
  intros Hinv Hk Hb r' Hr'. destruct (ScheduleDue _ _ _ _ _ d) as [res d'] eqn:H. simpl in Hr'.
  apply atomically_effect in H as [->|[acc Hbody]]; [by apply Hb|].
  assert (Hsched : ScheduleDue Sum256 NoFault locked now limit d = (Ok acc, d')) by (by apply atomically_Ok).
  apply ScheduleDue_Ok in Hsched as (_ & _ & _ & Hdone & Hkeep & _); [|done].
  destruct (decide (id ∈ (schedule_candidates locked now limit d).*1)) as [Hin|Hout].
  - apply list_elem_of_fmap in Hin as ([i row] & -> & Hin). simpl in *.
    apply schedule_candidates_spec in Hin as Hspec. destruct Hspec as (Hrow & Hdue & _).
    rewrite (Hdone _ _ Hin) in Hr'. simplify_eq. by apply scheduled_budget; [| |apply Hb].
  - rewrite Hkeep in Hr' by done. by apply Hb.
Qed.

Lemma ApplyDeliveryResult_budget f id' lease result d res d' id k :
  ApplyDeliveryResult f id' lease result d = (res, d') -> 0 <= k ->
  (forall r, tasks d !! id = Some r -> within_budget k r) ->
  forall r', tasks d' !! id = Some r' -> within_budget k r'.
Proof.
  intros H Hk Hb r' Hr'. apply ApplyDeliveryResult_effect in H as [->|(r & Hr & _ & _ & _ & ->)]; [by apply Hb|].
  simpl in Hr'. apply lookup_insert_Some in Hr' as [[<- <-]|[_ Hr']]; [|by apply Hb].
  by apply result_budget, Hb.
Qed.

Lemma call_budget c d id k :
  db_inv d -> call_ok c = true -> 0 <= k ->
  (forall r, tasks d !! id = Some r -> within_budget k r) ->
  forall r', tasks (run c d) !! id = Some r' -> within_budget (k + Z.b2z (is_replay id c)) r'.
Proof.
  intros Hinv Hok Hk Hb r' Hr'.
  assert (Hkeep : forall r, within_budget k r -> within_budget (k + Z.b2z (is_replay id c)) r).
  { unfold within_budget. intros r Hr. destruct (is_replay id c); simpl; lia. }
  assert (Hinv' : db_inv (run c d)) by (eapply store_steps_preserve; [by apply call_refines|done]).
  pose proof (sk_task_ok _ (inv_schema _ Hinv') id r' Hr') as Hrow. clear Hinv'.
  destruct c; simpl in Hr';
    match goal with H : context [PgReplayDeadAtomic] |- _ => idtac | _ => apply Hkeep end.
  - destruct (CreateOrGet_effect jsonb f f' task event d) as [Hd|(b & e & _ & _ & Hd)];
      rewrite Hd in Hr'; [by apply Hb|]. simpl in Hr'.
    apply lookup_insert_Some in Hr' as [[_ <-]|[_ Hr']]; [|by apply Hb].
    apply task_row_ok_counts in Hrow as (_ & _ & Hrow). simpl in Hok, Hrow.
    unfold fresh_request in Hok. reflect_bools. unfold within_budget, has_status. simpl.
    case_match; lia.
  - destruct (ClaimDelivery _ _ _ _ _ d) as [res d'] eqn:H. simpl in Hr'.
    apply ClaimDelivery_effect in H as [->|(r & Hr & Hp & _ & ->)]; [by apply Hb|].
    simpl in Hr'. apply lookup_insert_Some in Hr' as [[<- <-]|[_ Hr']]; [|by apply Hb].
    specialize (Hb r Hr). unfold within_budget, has_status in *. rewrite Hp in Hb. simpl in *. lia.
  - destruct (ApplyDeliveryResult _ _ _ _ d) as [res d'] eqn:H. by eapply ApplyDeliveryResult_budget.
  - destruct (ScheduleRetry _ _ _ _ _ d) as [res d'] eqn:H. by eapply ApplyDeliveryResult_budget.
  - destruct (ClaimOutbox _ _ _ _ _ _ _ d) as [res d'] eqn:H. simpl in Hr'.
    apply ClaimOutbox_body in H as [->|(_ & _ & ->)]; by apply Hb.
  - destruct (MarkPublished _ _ _ _ d) as [res d'] eqn:H. simpl in Hr'.
    apply MarkPublished_effect in H as [->|(e & _ & _ & _ & _ & ->)]; by apply Hb.
  - destruct (PgReplayDeadAtomic _ _ _ _ d) as [res d'] eqn:H. simpl in Hr'.
    apply PgReplayDeadAtomic_effect in H as [->|(r & Hr & Hdead & _ & _ & _ & ->)]; [by apply Hkeep, Hb|].
    simpl in Hr'. apply lookup_insert_Some in Hr' as [[<- <-]|[_ Hr']]; [|by apply Hkeep, Hb].
    specialize (Hb r Hr). unfold within_budget, has_status, is_replay in *. rewrite Hdead in Hb.
    rewrite !bool_decide_eq_true_2 by done. simpl in *. lia.
  - by eapply ScheduleDue_budget.
  - destruct (DeleteTerminalBefore _ _ _ _ d) as [res d'] eqn:H. simpl in Hr'.
    apply DeleteTerminalBefore_body in H as [->|(_ & ids & _ & ->)]; [by apply Hb|].
    simpl in Hr'. apply lookup_sql_delete_Some in Hr' as [Hr' _]. by apply Hb.
Qed.

Lemma calls_budget cs d id k :
  db_inv d -> forallb call_ok cs = true -> 0 <= k ->
  (forall r, tasks d !! id = Some r -> within_budget k r) ->
  forall r, tasks (foldl (fun d c => run c d) d cs) !! id = Some r ->
    within_budget (k + replays id cs) r.
Proof.
  revert d k. induction cs as [|c cs IH]; intros d k Hinv Hok Hk Hb r Hr; simpl in *.
  { rewrite Z.add_0_r. by apply Hb. }
  apply andb_true_iff in Hok as [Hc Hcs].
  rewrite Z.add_assoc. eapply IH; [|done| | |done].
  - eapply store_steps_preserve; [by apply call_refines|done].
  - destruct (is_replay id c); simpl; lia.
  - by apply call_budget.
Qed.

(** C10 (bounds): a task is never attempted more often than its policy allows,
    plus once for each replay that an administrator asked for: in any history
    of calls from the empty database, with any failures, the attempt counter
    stays within that budget, and below it while the task is pending. *)
Theorem attempts_bounded cs id r :
  forallb call_ok cs = true ->
  tasks (foldl (fun d c => run c d) empty_db cs) !! id = Some r ->
  0 <= attempt_count r <= max_attempts (fixed r) + replays id cs /\
  (status r = StatusPending -> attempt_count r < max_attempts (fixed r) + replays id cs).
Proof.
  intros Hok Hr.
  pose proof (calls_budget cs empty_db id 0 db_inv_empty Hok ltac:(lia)
    ltac:(intros r0 H0; simpl in H0; by rewrite lookup_empty in H0) r Hr) as Hb.
  assert (Hinv : db_inv (foldl (fun d c => run c d) empty_db cs))
    by (eapply store_steps_preserve; [by apply calls_refine; [apply db_inv_empty|]|apply db_inv_empty]).
  pose proof (sk_task_ok _ (inv_schema _ Hinv) id r Hr) as Hrow.
  apply task_row_ok_counts in Hrow as [Hrow _]. unfold within_budget, has_status in Hb.
  split.
  - case_match; lia.
  - intros Hp. rewrite bool_decide_eq_true_2 in Hb by done. lia.
Qed.
End Attempts.

(** ** Instances *)

(** One accepted task whose message is in the queue. *)
Definition sample_first_call : store_call := create_call "n1" "k1" "e1" 1000.

Definition sample_system : system :=
  mkSystem (sample_call sample_first_call empty_db) [mkOutboxMessage "e1" "n1"] ({["e1"%string]} ∪ ∅) []
    (note_events (sample_call sample_first_call empty_db) ∅) no_mishaps.

Lemma sample_system_reachable : reachable sample_jsonb sample_sum sample_order sample_system.
Proof.
  unfold reachable.
  set (s1 := mkSystem (sample_call sample_first_call empty_db) [] ∅ []
               (note_events (sample_call sample_first_call empty_db) ∅) no_mishaps).
  apply (rtc_l _ _ s1).
  - apply (sys_call sample_jsonb sample_sum sample_order empty_system sample_first_call);
      [reflexivity|]. intros eid _ _. set_solver.
  - apply rtc_once. apply (sys_publish sample_jsonb sample_sum sample_order s1 "e1" "n1"); simpl.
    + unfold note_events. apply elem_of_union_r, elem_of_dom. vm_compute. eauto.
    + intros e He. vm_compute in He. by injection He as <-.
Qed.

Lemma no_stuck_task_witness :
  exists eid e, outbox (sys_db sample_system) !! eid = Some e /\ aggregate_id e = "n1"%string.
Proof.
  pose proof (no_stuck_task sample_jsonb sample_sum sample_order sample_system "n1"
    (row_of_task (sample_request "n1" "k1" 1000) "{}") sample_system_reachable) as H.
  simpl in H. destruct H as (eid & e & He & Ha & _).
  - vm_compute. reflexivity.
  - exists eid, e. split; [exact He|exact Ha].
Defined.

(** The task of the sample: pending, published, and nothing is left of its
    message. *)
Lemma delivery_limit_strands_witness :
  exists s', reachable sample_jsonb sample_sum sample_order s' /\ sys_queue s' = [] /\
    status <$> tasks (sys_db s') !! "n1"%string = Some StatusPending.
Proof.
  destruct (delivery_limit_strands sample_jsonb sample_sum sample_order sample_system
    (mkOutboxMessage "e1" "n1") [] [] eq_refl) as (s' & Hsteps & Hdb & Hq & _).
  exists s'. split; [unfold reachable; etrans; [exact sample_system_reachable|exact Hsteps]|]. split; [exact Hq|]. rewrite Hdb.
  vm_compute. reflexivity.
Defined.

Lemma attempts_bounded_witness :
  0 <= attempt_count claimed_row <= max_attempts (fixed claimed_row) + replays "n1" history_claimed.
Proof.
  refine (proj1 (attempts_bounded sample_jsonb sample_sum sample_order history_claimed "n1" claimed_row
    eq_refl _)).
  vm_compute. reflexivity.
Defined.
