(* ===== verification/Liveness.v ===== *)
(** * Every accepted notification is finished in the end

    Infinite behaviours of the system of [System.v] as functions from [nat],
    the fairness that the deployment supplies (publishers and scheduler whose
    rounds keep succeeding, a broker that keeps delivering to workers, a clock
    that keeps advancing), and the proof that under it every task is delivered
    or dead in the end.

    The argument is a measure of what a task has left to do, which no call
    raises while the task is unfinished, and three helpful moves that lower
    it: the event of a pending task is published, its message is answered,
    and a deadline that has passed is taken by the scheduler.  The first and
    the last need the order of the batches: events are taken oldest first and
    tasks oldest deadline first, so the rows ahead of a given one only get
    fewer. *)

From S2P Require Import Prelude GoTime GoStrings Notification Table Schema Store StoreSpec StoreRefine StoreProps OutboxStoreProps Samples OutboxService System.

(** ** What a task has left to do *)

Definition finished (r : task_row) : bool :=
  has_status StatusDelivered r || has_status StatusDead r.

Definition waiting (r : task_row) : bool :=
  has_status StatusRetryWait r || has_status StatusDelivering r.

(** Attempts left, then the position within one attempt. *)
Definition work_left (r : task_row) : nat :=
  match status r with
  | StatusPending => 10 * Z.to_nat (max_attempts (fixed r) - attempt_count r - 1) + 6
  | StatusDelivering => 10 * Z.to_nat (max_attempts (fixed r) - attempt_count r) + 4
  | StatusRetryWait => 10 * Z.to_nat (max_attempts (fixed r) - attempt_count r) + 3
  | StatusDelivered | StatusDead => 0
  end%nat.

Definition advanced (r r' : task_row) : Prop :=
  fixed r' = fixed r /\ (finished r' = true \/ (work_left r' < work_left r)%nat).

Lemma finished_spec r :
  finished r = true <-> status r = StatusDelivered \/ status r = StatusDead.
Proof. unfold finished. by rewrite orb_true_iff, !has_status_true. Qed.

Lemma finished_false r :
  finished r = false <-> status r <> StatusDelivered /\ status r <> StatusDead.
Proof. rewrite <- not_true_iff_false, finished_spec. tauto. Qed.

Lemma waiting_spec r :
  waiting r = true <-> status r = StatusRetryWait \/ status r = StatusDelivering.
Proof. unfold waiting. by rewrite orb_true_iff, !has_status_true. Qed.

Lemma claimed_advanced token until db_now r :
  status r = StatusPending -> advanced r (set_claimed token until db_now r).
Proof.
  intros Hst. split; [done|]. right. unfold work_left. rewrite Hst. simpl.
  replace (max_attempts (fixed r) - (attempt_count r + 1))
    with (max_attempts (fixed r) - attempt_count r - 1) by lia. lia.
Qed.

Lemma result_advanced result r :
  status r = StatusDelivering -> advanced r (set_result result r).
Proof.
  intros Hst. unfold advanced, set_result, finished, has_status, work_left. rewrite Hst.
  destruct (AttemptOutcome result); simpl; (split; [done|]); auto with lia.
Qed.

Lemma scheduled_advanced now t r :
  task_due t r = true -> advanced r (scheduled_row now r).
Proof.
  intros Hdue. unfold advanced. rewrite scheduled_row_fixed. split; [done|].
  unfold scheduled_row. destruct (exhausted now r) eqn:Hex; [by left|right].
  unfold exhausted in Hex. reflect_bools. unfold work_left. simpl.
  apply task_due_status in Hdue as [-> | ->]; lia.
Qed.

#[export] Hint Resolve claimed_advanced result_advanced scheduled_advanced : notifier.

(** Retention deletes only finished tasks. *)
Lemma delete_keeps ids cutoff d id r :
  (forall id r, id ∈ ids -> tasks d !! id = Some r -> task_expired cutoff (outbox d) id r = true) ->
  tasks d !! id = Some r -> finished r = false ->
  sql_delete (by_ids ids) (tasks d) !! id = Some r.
Proof.
  intros Hids Hr Hu. apply lookup_sql_delete_Some. split; [done|].
  apply bool_decide_eq_false. intros Hin. specialize (Hids id r Hin Hr).
  unfold task_expired in Hids. unfold finished in Hu. by rewrite Hu in Hids.
Qed.

(** A step keeps the row of an unfinished task or advances it. *)
Lemma store_step_advances d d' id r :
  store_step d d' -> tasks d !! id = Some r -> finished r = false ->
  exists r', tasks d' !! id = Some r' /\ (r' = r \/ advanced r r').
Proof.
  intros Hstep Hr Hu. pose proof Hu as [Hu1 Hu2]%finished_false.
  assert (Hset : forall id0 r0 r0', tasks d !! id0 = Some r0 -> (r0 = r -> advanced r r0') ->
    exists r', <[id0 := r0']> (tasks d) !! id = Some r' /\ (r' = r \/ advanced r r')).
  { intros id0 r0 r0' Hr0 Hf. destruct (decide (id0 = id)) as [->|Hne].
    - rewrite lookup_insert_eq. simplify_eq. eauto.
    - rewrite lookup_insert_ne by done. eauto. }
  destruct Hstep as [| | |id0 r0 now Hr0 Hd Hex|id0 r0 now code eid Hr0 Hd Hex| | | |ids cutoff Hids];
    simpl; try (by eauto).
  - rewrite lookup_insert_ne by congruence. eauto.
  - eapply Hset; [done|]. intros ->. by apply claimed_advanced.
  - eapply Hset; [done|]. intros ->. by apply result_advanced.
  - eapply Hset; [done|]. intros ->.
    pose proof (scheduled_advanced now now r Hd) as Ha. unfold scheduled_row in Ha. by rewrite Hex in Ha.
  - eapply Hset; [done|]. intros ->.
    pose proof (scheduled_advanced now now r Hd) as Ha. unfold scheduled_row in Ha. by rewrite Hex in Ha.
  - eapply Hset; [done|]. intros ->. congruence.
  - exists r. split; [|by left]. by eapply delete_keeps.
Qed.

(** The event of an unfinished task stays in the outbox. *)
Definition has_event (d : db) (eid id : string) (gen : Z) : Prop :=
  exists e, outbox d !! eid = Some e /\ aggregate_id e = id /\ event_generation e = gen.

Lemma store_step_keeps_event d d' eid id gen r :
  store_step d d' -> has_event d eid id gen -> tasks d !! id = Some r -> finished r = false ->
  has_event d' eid id gen.
Proof.
  intros Hstep (e & He & Ha & Hg) Hr Hu. unfold has_event.
  destruct Hstep as [| | | | | | |eid0 e0 token at_ He0|ids cutoff Hids]; simpl; try (by eauto);
    try (rewrite lookup_insert_ne by congruence; by eauto).
  - rewrite lookup_sql_update, He. simpl. eexists. split; [done|]. by case_match.
  - destruct (decide (eid0 = eid)) as [->|Hne].
    + rewrite lookup_insert_eq. simplify_eq. eauto.
    + rewrite lookup_insert_ne by done. eauto.
  - exists e. split; [|done]. apply lookup_sql_delete_Some. split; [done|].
    rewrite Ha, (delete_keeps ids cutoff d id r Hids Hr Hu). by rewrite bool_decide_eq_true_2 by done.
Qed.

Section Steps.
Context (jsonb : string -> option string) (Sum256 : list Z -> list Z)
        (returning_order : list OutboxEvent -> list OutboxEvent).

Local Abbreviation run := (run_call jsonb Sum256 returning_order).

Lemma call_advances c d id r :
  db_inv d -> call_ok c = true -> tasks d !! id = Some r -> finished r = false ->
  (exists r', tasks (run c d) !! id = Some r' /\ (r' = r \/ advanced r r')) /\
  (forall eid gen, has_event d eid id gen -> has_event (run c d) eid id gen).
Proof.
  intros Hinv Hok Hr Hu.
  pose proof (call_one_step jsonb Sum256 returning_order c d Hok) as Hone.
  destruct c; try (destruct Hone as [|d' Hstep];
    [by eauto|split; [by eapply store_step_advances|intros; by eapply store_step_keeps_event]]).
  simpl. destruct (ScheduleDue _ _ _ _ _ d) as [res d'] eqn:H. simpl.
  apply atomically_effect in H as [->|[acc Hbody]]; [by eauto|].
  assert (Hsched : ScheduleDue Sum256 NoFault locked now limit d = (Ok acc, d'))
    by (by apply atomically_Ok).
  apply ScheduleDue_Ok in Hsched as (_ & _ & _ & Hdone & Hkeep & _ & Hsub & _); [|done]. split.
  - destruct (decide (id ∈ (schedule_candidates locked now limit d).*1)) as [Hin|Hout].
    + apply list_elem_of_fmap in Hin as ([k row] & -> & Hin). simpl in *.
      apply schedule_candidates_spec in Hin as Hspec. destruct Hspec as (Hrow & Hdue & _).
      simplify_eq. rewrite (Hdone _ _ Hin). eauto with notifier.
    + rewrite Hkeep by done. eauto.
  - intros eid gen (e & He & Hrest). exists e. split; [|done]. by eapply lookup_weaken.
Qed.

Lemma system_step_db s s' :
  system_step jsonb Sum256 returning_order s s' ->
  sys_db s' = sys_db s \/ exists c, call_ok c = true /\ sys_db s' = run c (sys_db s).
Proof.
  intros [c Hc _| | f eid token at_ _|f m db_now lease until r d' _ Hclaim| | | | |]; simpl; auto; right.
  - exists c. split; [by destruct c|done].
  - by exists (CallMarkPublished f eid token at_).
  - exists (CallClaimDelivery f db_now (MsgNotificationID m) lease until). simpl. by rewrite Hclaim.
Qed.
End Steps.

(** ** Behaviours and their fairness *)

Section Behaviours.
Context (jsonb : string -> option string) (Sum256 : list Z -> list Z)
        (returning_order : list OutboxEvent -> list OutboxEvent).
Context (e : nat -> system).

(** An infinite behaviour: steps of the system, and pauses between them. *)
Definition behaviour : Prop :=
  reachable jsonb Sum256 returning_order (e 0%nat) /\
  forall n, e (S n) = e n \/ system_step jsonb Sum256 returning_order (e n) (e (S n)).

Local Abbreviation db_at n := (sys_db (e n)).

(** The message of the event is in the queue, and the event is marked. *)
Definition published_by (j : nat) (eid : string) : Prop :=
  eid ∈ sys_confirmed (e j) /\
  forall ev, outbox (db_at j) !! eid = Some ev -> is_Some (published_at ev).

(** At step [k] a publisher claims a batch, of which it publishes every event,
    and [eid] is not in the hands of another publisher.  Whether [eid] is in
    the batch is for the store to decide. *)
Definition productive_round (k : nat) (eid : string) : Prop :=
  exists locked now limit token until events,
    0 < limit /\ eid ∉ locked /\
    (forall ev, outbox (db_at k) !! eid = Some ev -> published_at ev = None -> event_claimable now ev = true) /\
    ClaimOutbox returning_order NoFault locked now limit token until (db_at k) = (Ok events, db_at (S k)) /\
    forall id, id ∈ EventID <$> events -> exists j, (k < j)%nat /\ published_by j id.

Record fair : Prop := {
  (* rounds of publishers that succeed, and that do not find a given event claimed *)
  fair_publishers : forall n eid, exists k, (n <= k)%nat /\ productive_round k eid;
  (* the clock advances: from some point on no event created before [t] is new *)
  fair_event_clock : forall t, exists n0, forall n eid ev, (n0 <= n)%nat ->
    outbox (db_at (S n)) !! eid = Some ev -> event_created_at ev <= t ->
    is_Some (outbox (db_at n) !! eid);
  (* the broker keeps delivering a queued message until a claim for it is
     answered; in particular no message is lost before that *)
  fair_workers : forall n m, m ∈ sys_queue (e n) \/ m ∈ mis_lost (sys_mishaps (e n)) ->
    exists k, (n <= k)%nat /\ m ∈ sys_workers (e k);
  (* runs of the scheduler that succeed, later than any instant, and that do
     not find a given row locked *)
  fair_scheduler : forall n id t, exists k locked now limit acc,
    (n <= k)%nat /\ t <= now /\ 0 < limit /\ id ∉ locked /\
    ScheduleDue Sum256 NoFault locked now limit (db_at k) = (Ok acc, db_at (S k));
  (* the clock advances: from some point on no new deadline is before [t] *)
  fair_clock : forall t, exists n0, forall n id r, (n0 <= n)%nat ->
    tasks (db_at (S n)) !! id = Some r -> waiting r = true -> due_key r <= t ->
    tasks (db_at n) !! id = Some r;
}.

Hypothesis (Hbehaviour : behaviour) (Hfair : fair).
Hypothesis (Hreturning : forall l, returning_order l ≡ₚ l).

Lemma behaviour_inv n : system_inv (e n).
Proof.
  destruct Hbehaviour as [H0 Hnext]. induction n as [|n IH].
  - by eapply reachable_system_inv.
  - destruct (Hnext n) as [->|Hstep]; [done|]. by eapply system_step_preserves.
Qed.

Lemma next_row n id r :
  tasks (db_at n) !! id = Some r -> finished r = false ->
  (exists r', tasks (db_at (S n)) !! id = Some r' /\ (r' = r \/ advanced r r')) /\
  (forall eid gen, has_event (db_at n) eid id gen -> has_event (db_at (S n)) eid id gen).
Proof.
  intros Hr Hu. destruct Hbehaviour as [_ Hnext].
  destruct (Hnext n) as [->|Hstep]; [by eauto|].
  apply system_step_db in Hstep as [->|(c & Hc & ->)]; [by eauto|].
  apply call_advances; auto using si_db, behaviour_inv.
Qed.

(** From [n] on the task is seen advanced. *)
Definition moved (n : nat) (id : string) (r : task_row) : Prop :=
  exists k r', (n <= k)%nat /\ tasks (db_at k) !! id = Some r' /\ advanced r r'.

Lemma moved_earlier n k id r : (n <= k)%nat -> moved k id r -> moved n id r.
Proof. intros Hle (j & r' & Hj & H). exists j, r'. split; [lia|done]. Qed.

Lemma stays n k id r :
  (n <= k)%nat -> tasks (db_at n) !! id = Some r -> finished r = false ->
  moved n id r \/
  (tasks (db_at k) !! id = Some r /\
   forall eid gen, has_event (db_at n) eid id gen -> has_event (db_at k) eid id gen).
Proof.
  intros Hle Hr Hu. induction Hle as [|k Hle [IH|[IH Hev]]]; [by auto|by auto|].
  destruct (next_row k id r IH Hu) as [(r' & Hr' & [->|Hadv]) Hev'].
  - right. auto.
  - left. exists (S k), r'. split; [lia|done].
Qed.

(** ** Pending tasks *)

Lemma queued_moves n id r eid :
  tasks (db_at n) !! id = Some r -> status r = StatusPending ->
  has_event (db_at n) eid id (generation r) ->
  mkOutboxMessage eid id ∈ sys_queue (e n) \/ mkOutboxMessage eid id ∈ mis_lost (sys_mishaps (e n)) ->
  moved n id r.
Proof.
  intros Hr Hp Hev Hq. destruct (fair_workers Hfair n _ Hq) as (k & Hle & Hw).
  destruct (stays n k id r Hle Hr) as [Hm|[Hrk Hevk]];
    [unfold finished, has_status; by rewrite Hp|done|].
  exfalso. destruct (Hevk _ _ Hev) as (ev & He & Ha & Hg).
  pose proof (si_workers _ (behaviour_inv k) _ ev Hw He r) as Hspent.
  rewrite Ha in Hspent. specialize (Hspent Hrk Hp). lia.
Qed.

(** An event that stays keeps its creation time, and stays published. *)
Lemma next_event n eid ev ev' :
  outbox (db_at n) !! eid = Some ev -> outbox (db_at (S n)) !! eid = Some ev' ->
  event_created_at ev' = event_created_at ev /\ (published_at ev' = None -> published_at ev = None).
Proof.
  intros He He'. destruct Hbehaviour as [_ Hnext].
  destruct (Hnext n) as [Heq|Hstep]; [rewrite Heq in He'; by simplify_eq|].
  apply system_step_db in Hstep as [Heq|(c & Hc & Heq)]; rewrite Heq in He'; [by simplify_eq|].
  destruct (event_life _ _ _ c _ eid ev ev' (si_db _ (behaviour_inv n)) Hc He He')
    as (_ & _ & _ & _ & Hcreated & _ & Hpub & _).
  split; [done|]. intros Hnone. destruct (published_at ev) eqn:Hp; [|done].
  rewrite Hpub in Hnone by done. congruence.
Qed.

(** The event of an unfinished task that does not move. *)
Lemma stays_event n k id r eid ev :
  (n <= k)%nat -> tasks (db_at n) !! id = Some r -> finished r = false ->
  outbox (db_at n) !! eid = Some ev -> aggregate_id ev = id ->
  moved n id r \/
  (tasks (db_at k) !! id = Some r /\
   exists ev', outbox (db_at k) !! eid = Some ev' /\ aggregate_id ev' = id /\
     event_generation ev' = event_generation ev /\ event_created_at ev' = event_created_at ev).
Proof.
  intros Hle Hr Hu He Ha. induction Hle as [|k Hle [IH|[IH (ev1 & He1 & Ha1 & Hg1 & Hc1)]]]; [by eauto 8|by auto|].
  destruct (next_row k id r IH Hu) as [(r' & Hr' & [->|Hadv]) Hev].
  - right. split; [done|]. destruct (Hev eid (event_generation ev1)) as (ev' & He' & Ha' & Hg'); [by exists ev1|].
    exists ev'. destruct (next_event k eid ev1 ev' He1 He') as [Hc _]. split_and!; congruence.
  - left. exists (S k), r'. split; [lia|done].
Qed.

(** Unpublished events that are not younger than [t]. *)
Definition backlog (t : time) (d : db) : gset string :=
  dom (filter (fun kv => published_at kv.2 = None /\ event_created_at kv.2 <= t) (outbox d)).

Lemma elem_of_backlog t d eid :
  eid ∈ backlog t d <->
  exists ev, outbox d !! eid = Some ev /\ published_at ev = None /\ event_created_at ev <= t.
Proof.
  unfold backlog. rewrite elem_of_dom. unfold is_Some. setoid_rewrite map_lookup_filter_Some. done.
Qed.

Lemma backlog_shrinks t n0 n k :
  (forall n eid ev, (n0 <= n)%nat -> outbox (db_at (S n)) !! eid = Some ev -> event_created_at ev <= t ->
     is_Some (outbox (db_at n) !! eid)) ->
  (n0 <= n)%nat -> (n <= k)%nat -> backlog t (db_at k) ⊆ backlog t (db_at n).
Proof.
  intros Hclock Hn0 Hle. induction Hle as [|k Hle IH]; [done|]. etrans; [|exact IH].
  intros eid (ev & He & Hp & Hc)%elem_of_backlog. destruct (Hclock k eid ev ltac:(lia) He Hc) as [ev0 He0].
  destruct (next_event k eid ev0 ev He0 He) as [Hc0 Hp0]. apply elem_of_backlog.
  exists ev0. split_and!; [done|auto|lia].
Qed.

(** The batches take the oldest events first: a round that leaves an event
    publishes one from before it. *)
Lemma published_or_moves n0 n id r eid ev :
  (forall n eid' ev', (n0 <= n)%nat -> outbox (db_at (S n)) !! eid' = Some ev' ->
     event_created_at ev' <= event_created_at ev -> is_Some (outbox (db_at n) !! eid')) ->
  (n0 <= n)%nat -> tasks (db_at n) !! id = Some r -> finished r = false ->
  outbox (db_at n) !! eid = Some ev -> aggregate_id ev = id ->
  moved n id r \/ exists k, (n <= k)%nat /\ eid ∈ sys_confirmed (e k).
Proof.
  remember (event_created_at ev) as t eqn:Ht. intros Hclock.
  remember (size (backlog t (db_at n))) as sz eqn:Hsz. revert n ev Ht Hsz.
  induction (lt_wf sz) as [sz _ IH]. intros n ev Ht -> Hn0 Hr Hu He Ha.
  destruct (fair_publishers Hfair n eid)
    as (k & Hle & locked & now & limit & token & until & events & Hlim & Hlock & Hfree & Hrun & Hpub).
  destruct (stays_event n k id r eid ev Hle Hr Hu He Ha) as [Hm|[Hrk (ev1 & He1 & Ha1 & _ & Hc1)]]; [by left|].
  destruct (published_at ev1) eqn:Hp1.
  { right. exists k. split; [done|]. by eapply (si_published _ (behaviour_inv k)). }
  destruct (claimed_or_older returning_order Hreturning _ _ _ _ _ _ _ _ _ eid ev1 Hrun Hlim He1)
    as [Hin|(eid' & ev' & Hin & He' & Hp' & Hc')]; [split; [by apply Hfree|done]| |].
  { destruct (Hpub _ Hin) as (j & Hj & Hconf & _). right. exists j. split; [lia|done]. }
  destruct (Hpub _ Hin) as (j & Hj & _ & Hmarked).
  destruct (stays_event k j id r eid ev1 ltac:(lia) Hrk Hu He1 Ha1) as [Hm|[Hrj (ev2 & He2 & Ha2 & _ & Hc2)]].
  { left. by eapply moved_earlier. }
  destruct (IH (size (backlog t (db_at j)))) with (n := j) (ev := ev2)
    as [Hm|(k2 & Hk2 & Hconf)]; [|congruence|done|lia|done..| |].
  - apply subset_size. split; [apply (backlog_shrinks t n0); auto with lia|].
    intros Hsub. assert (Hold : eid' ∈ backlog t (db_at n)).
    { apply (backlog_shrinks t n0 n k Hclock Hn0 Hle), elem_of_backlog. exists ev'. split_and!; [done..|lia]. }
    apply Hsub, elem_of_backlog in Hold as (ev3 & He3 & Hp3 & _). destruct (Hmarked _ He3). congruence.
  - left. eapply moved_earlier; [|exact Hm]. lia.
  - right. exists k2. split; [lia|done].
Qed.

Lemma pending_moves n id r :
  tasks (db_at n) !! id = Some r -> status r = StatusPending -> moved n id r.
Proof.
  intros Hr Hp.
  assert (Hu : finished r = false) by (unfold finished, has_status; by rewrite Hp).
  destruct (pending_has_event (e n) id r (behaviour_inv n) Hr Hp) as (eid & ev & He & Ha & Hg & _).
  destruct (fair_event_clock Hfair (event_created_at ev)) as [n0 Hclock].
  destruct (stays_event n (n `max` n0) id r eid ev ltac:(lia) Hr Hu He Ha)
    as [Hm|[Hr1 (ev1 & He1 & Ha1 & Hg1 & Hc1)]]; [done|]. rewrite <- Hc1 in Hclock.
  apply (moved_earlier n (n `max` n0)); [lia|].
  destruct (published_or_moves n0 (n `max` n0) id r eid ev1) as [Hm|(k & Hle & Hconf)]; [auto with lia|lia|done..| |].
  { done. }
  destruct (stays_event _ k id r eid ev1 Hle Hr1 Hu He1 Ha1) as [Hm|[Hrk (ev2 & He2 & Ha2 & Hg2 & _)]]; [done|].
  apply (moved_earlier _ k); [done|].
  destruct (si_confirmed _ (behaviour_inv k) eid ev2 He2 Hconf) as [Hspent|Hq].
  - exfalso. unfold spent in Hspent. rewrite Ha2 in Hspent. specialize (Hspent r Hrk Hp). lia.
  - rewrite Ha2 in Hq. apply (queued_moves k id r eid); [done..| |done]. exists ev2. split_and!; [done..|lia].
Qed.

(** ** Tasks with a deadline *)

(** Rows whose deadline is not after [t]. *)
Definition ahead (t : time) (d : db) : gmap string task_row :=
  filter (fun kr => waiting kr.2 = true /\ due_key kr.2 <= t) (tasks d).

Lemma lookup_ahead t d id r :
  ahead t d !! id = Some r <-> tasks d !! id = Some r /\ waiting r = true /\ due_key r <= t.
Proof. unfold ahead. rewrite map_lookup_filter_Some. done. Qed.

Lemma ahead_shrinks t n0 n k :
  (forall n id r, (n0 <= n)%nat -> tasks (db_at (S n)) !! id = Some r -> waiting r = true ->
     due_key r <= t -> tasks (db_at n) !! id = Some r) ->
  (n0 <= n)%nat -> (n <= k)%nat -> ahead t (db_at k) ⊆ ahead t (db_at n).
Proof.
  intros Hclock Hn0 Hle. induction Hle as [|k Hle IH]; [done|]. etrans; [|exact IH].
  apply map_subseteq_spec. intros id r (Hr & Hw & Hd)%lookup_ahead. apply lookup_ahead.
  split; [|done]. apply Hclock; [lia|done..].
Qed.

(** A deadline that has passed makes its row due. *)
Lemma past_due now r :
  state_ok r = true -> waiting r = true -> due_key r < now -> task_due now r = true.
Proof.
  unfold state_ok, task_due, due_key, has_status. intros Hst Hw%waiting_spec.
  destruct Hw as [Hw|Hw]; rewrite Hw in *; reflect_bools;
    destruct (next_attempt_at r), (lease_until r); simpl in *; try done; intros; lia.
Qed.

Lemma scheduled_not_waiting now r : waiting (scheduled_row now r) = false.
Proof. unfold scheduled_row. by destruct (exhausted now r). Qed.

(** A run that finds a row due and leaves it takes another from ahead of it. *)
Lemma scheduled_or_fewer_ahead locked now limit acc d d' id r :
  db_inv d -> ScheduleDue Sum256 NoFault locked now limit d = (Ok acc, d') ->
  tasks d !! id = Some r -> waiting r = true -> due_key r < now -> 0 < limit -> id ∉ locked ->
  tasks d' !! id = Some (scheduled_row now r) \/
  (tasks d' !! id = Some r /\
   exists id' r', ahead (due_key r) d !! id' = Some r' /\ ahead (due_key r) d' !! id' = None).
Proof.
  intros Hinv Hrun Hr Hw Hdue Hlim Hlock.
  apply ScheduleDue_Ok in Hrun as (_ & _ & _ & Hdone & Hkeep & _); [|done].
  destruct (decide (id ∈ (schedule_candidates locked now limit d).*1)) as [Hin|Hnot]; [left|right].
  { apply list_elem_of_fmap in Hin as ([k row] & -> & Hin). simpl in *.
    apply schedule_candidates_spec in Hin as Hs. destruct Hs as (Hrow & _). simplify_eq. by apply Hdone. }
  assert (Hout : (id, r) ∉ schedule_candidates locked now limit d).
  { intros Hin. apply Hnot. by apply (list_elem_of_fmap_2 fst _ (id, r)). }
  assert (Hd : task_due now r = true)
    by (apply past_due; [by apply (inv_states d Hinv id)|done..]).
  assert (Hsel : task_due now r && bool_decide (id ∉ locked) = true)
    by (rewrite Hd; by apply bool_decide_eq_true).
  split; [by rewrite Hkeep|].
  assert (Hlen := sql_first_full limit due_key _ (tasks d) id r ltac:(lia) Hr Hsel Hout).
  fold (schedule_candidates locked now limit d) in Hlen.
  assert (Hex : exists id' r', (id', r') ∈ schedule_candidates locked now limit d).
  { destruct (schedule_candidates locked now limit d) as [|[id' r'] rest]; [simpl in Hlen; lia|].
    exists id', r'. left. }
  destruct Hex as (id' & r' & Hin). apply schedule_candidates_spec in Hin as Hs. destruct Hs as (Hr' & Hd' & _).
  exists id', r'. split.
  - apply lookup_ahead. split_and!; [done| |].
    * apply waiting_spec. by eapply task_due_status.
    * exact (sql_first_oldest _ _ _ _ _ _ _ _ Hin Hr Hsel Hout).
  - apply eq_None_not_Some. intros [row (Hrow & Hwr & _)%lookup_ahead].
    rewrite (Hdone id' r' Hin) in Hrow. simplify_eq. by rewrite scheduled_not_waiting in Hwr.
Qed.

Lemma waiting_moves_from n0 n id r :
  (forall n id' r', (n0 <= n)%nat -> tasks (db_at (S n)) !! id' = Some r' -> waiting r' = true ->
     due_key r' <= due_key r -> tasks (db_at n) !! id' = Some r') ->
  (n0 <= n)%nat -> tasks (db_at n) !! id = Some r -> waiting r = true -> moved n id r.
Proof.
  intros Hclock. remember (size (ahead (due_key r) (db_at n))) as sz eqn:Hsz.
  revert n Hsz. induction (lt_wf sz) as [sz _ IH]. intros n -> Hn0 Hr Hw.
  assert (Hu : finished r = false).
  { apply finished_false. apply waiting_spec in Hw as [-> | ->]; by split. }
  destruct (fair_scheduler Hfair n id (due_key r + 1))
    as (k & locked & now & limit & acc & Hle & Hnow & Hlim & Hlock & Hrun).
  destruct (stays n k id r Hle Hr Hu) as [Hm|[Hrk _]]; [done|].
  destruct (scheduled_or_fewer_ahead locked now limit acc _ _ id r (si_db _ (behaviour_inv k)) Hrun)
    as [Hdone|[Hkeep (id' & r' & Hin & Hout)]]; [done|done|lia|done|done| |].
  - exists (S k), (scheduled_row now r). split_and!; [lia|done|].
    apply (scheduled_advanced now now), past_due; [|done|lia].
    by apply (inv_states _ (si_db _ (behaviour_inv k)) id).
  - apply (moved_earlier n (S k)); [lia|]. eapply IH; [|done|lia|done|done].
    apply map_subset_size. split; [apply (ahead_shrinks _ n0 n (S k)); auto with lia|].
    intros Hsub. apply (transitivity (ahead_shrinks _ n0 n k Hclock Hn0 Hle)) in Hsub. pose proof (lookup_weaken _ _ _ _ Hin Hsub). congruence.
Qed.

Lemma waiting_moves n id r :
  tasks (db_at n) !! id = Some r -> waiting r = true -> moved n id r.
Proof.
  intros Hr Hw. destruct (fair_clock Hfair (due_key r)) as [n0 Hclock].
  assert (Hu : finished r = false).
  { apply finished_false. apply waiting_spec in Hw as [-> | ->]; by split. }
  destruct (stays n (n `max` n0) id r ltac:(lia) Hr Hu) as [Hm|[Hr1 _]]; [done|].
  apply (moved_earlier n (n `max` n0)); [lia|].
  apply (waiting_moves_from n0); [|lia|done|done]. intros. by eapply Hclock.
Qed.

Lemma unfinished_moves n id r :
  tasks (db_at n) !! id = Some r -> finished r = false -> moved n id r.
Proof.
  intros Hr [Hu1 Hu2]%finished_false.
  destruct (status r) eqn:Hst; [by apply pending_moves| | |done|done];
    apply waiting_moves; try done; apply waiting_spec; auto.
Qed.

Lemma finishes n id r :
  tasks (db_at n) !! id = Some r ->
  exists k r', (n <= k)%nat /\ tasks (db_at k) !! id = Some r' /\ fixed r' = fixed r /\ finished r' = true.
Proof.
  intros Hr. remember (work_left r) as w eqn:Hw. revert n r Hw Hr.
  induction (lt_wf w) as [w _ IH]. intros n r -> Hr.
  destruct (finished r) eqn:Hu; [by exists n, r|].
  destruct (unfinished_moves n id r Hr Hu) as (k & r1 & Hle & Hr1 & Hfix & [Hfin|Hless]).
  - by exists k, r1.
  - destruct (IH _ Hless k r1 eq_refl Hr1) as (j & r2 & Hj & Hr2 & Hfix2 & Hst).
    exists j, r2. split_and!; [lia|done|congruence|done].
Qed.
End Behaviours.

(** C1 (liveness): every accepted notification is finished in the end.  In any
    infinite behaviour of the system, with calls that fail before or after
    their commit, processes that die and messages delivered twice, as long as
    publishers, workers and the scheduler complete a round now and then, no
    message is lost before its claim is answered, and the clock advances, a
    task that is stored is later seen delivered or dead, with the request it
    was accepted with.  No task starves, although each round chooses its own
    batch: publishers take the oldest event first, the scheduler the oldest
    deadline, and a task uses up its attempts. *)
Theorem every_task_finishes jsonb Sum256 returning_order (e : nat -> system) n id r :
  (forall l, returning_order l ≡ₚ l) ->
  behaviour jsonb Sum256 returning_order e -> fair Sum256 returning_order e ->
  tasks (sys_db (e n)) !! id = Some r ->
  exists k r', (n <= k)%nat /\ tasks (sys_db (e k)) !! id = Some r' /\ fixed r' = fixed r /\
    (status r' = StatusDelivered \/ status r' = StatusDead).
Proof.
  intros Hreturning Hbehaviour Hfair Hr.
  destruct (finishes _ _ _ e Hbehaviour Hfair Hreturning n id r Hr) as (k & r' & H).
  exists k, r'. by rewrite <- finished_spec.
Qed.

(** ** A behaviour with a retry

    One task is accepted and published, claimed, fails, waits, is scheduled
    again, published, claimed and delivered; then nothing more happens. *)

Definition after_call (c : store_call) (s : system) : system :=
  mkSystem (sample_call c (sys_db s)) (sys_queue s) (sys_confirmed s) (sys_workers s)
    (note_events (sample_call c (sys_db s)) (sys_seen s)) (sys_mishaps s).

Definition after_claim (m : OutboxMessage) (now until : time) (s : system) : system :=
  mkSystem (sample_call (CallClaimDelivery NoFault now (MsgNotificationID m) "lease-1" until) (sys_db s))
    (sys_queue s) (sys_confirmed s) (m :: sys_workers s) (sys_seen s) (sys_mishaps s).

Definition after_mark (eid : string) (at_ : time) (s : system) : system :=
  mkSystem (sample_call (CallMarkPublished NoFault eid "pub-1" at_) (sys_db s)) (sys_queue s)
    (sys_confirmed s) (sys_workers s) (sys_seen s) (sys_mishaps s).

Definition after_round (now : time) : system -> system :=
  after_call (CallClaimOutbox NoFault ∅ now 10 "pub-1" (now + 500)).

Definition first_message : OutboxMessage := mkOutboxMessage "e1" "n1".
Definition retry_message : OutboxMessage :=
  mkOutboxMessage (retry_event_id sample_sum "n1" 1) "n1".

Definition live_taken : system := after_round 1500 sample_system.
Definition live_marked : system := after_mark "e1" 1600 live_taken.
Definition live_claimed : system := after_claim first_message 3000 5000 live_marked.
Definition live_failed : system :=
  after_call (CallApplyDeliveryResult NoFault "n1" "lease-1" (failed_result (Some 6000))) live_claimed.
Definition live_scheduled : system := after_call (CallScheduleDue NoFault ∅ 7000 10) live_failed.
Definition live_retaken : system := after_round 7100 live_scheduled.
Definition live_published : system :=
  mkSystem (sys_db live_retaken) (retry_message :: sys_queue live_retaken)
    ({[MsgEventID retry_message]} ∪ sys_confirmed live_retaken) (sys_workers live_retaken)
    (sys_seen live_retaken) (sys_mishaps live_retaken).
Definition live_remarked : system := after_mark (MsgEventID retry_message) 7200 live_published.
Definition live_reclaimed : system := after_claim retry_message 8000 9000 live_remarked.
Definition live_delivered : system :=
  after_call (CallApplyDeliveryResult NoFault "n1" "lease-1"
                (mkAttemptResult Delivered 200 "" "" None 8500)) live_reclaimed.

Definition live_behaviour (n : nat) : system :=
  match n with
  | 0 => sample_system | 1 => live_taken | 2 => live_marked | 3 => live_claimed | 4 => live_failed
  | 5 => live_scheduled | 6 => live_retaken | 7 => live_published | 8 => live_remarked
  | 9 => live_reclaimed | _ => live_delivered
  end%nat.

Local Abbreviation sample_step := (system_step sample_jsonb sample_sum sample_order).

Lemma after_call_step c s :
  open_call c = true -> bool_decide (sys_seen s ⊆ dom (outbox (sys_db s))) = true ->
  sample_step s (after_call c s).
Proof.
  intros Hc Hseen%bool_decide_eq_true. apply sys_call; [done|].
  intros eid Hn _ Hin. apply Hseen, elem_of_dom in Hin. rewrite Hn in Hin. by destruct Hin.
Qed.

Definition claim_answered (id : string) (now until : time) (d : db) : bool :=
  match fst (ClaimDelivery NoFault now id "lease-1" until d) with Ok _ => true | Err _ => false end.

Lemma after_claim_step m now until s :
  bool_decide (m ∈ sys_queue s) = true ->
  claim_answered (MsgNotificationID m) now until (sys_db s) = true ->
  sample_step s (after_claim m now until s).
Proof.
  intros Hm%bool_decide_eq_true Hc. unfold claim_answered in Hc.
  unfold after_claim, sample_call, run_call.
  destruct (ClaimDelivery _ _ _ _ _ _) as [[r|err] d'] eqn:H; [|done].
  simpl. eapply sys_claim; [exact Hm|exact H].
Qed.

Lemma after_mark_step eid at_ s :
  bool_decide (eid ∈ sys_confirmed s) = true -> sample_step s (after_mark eid at_ s).
Proof. intros Heid%bool_decide_eq_true. by apply sys_mark. Qed.

Lemma live_behaviour_steps : behaviour sample_jsonb sample_sum sample_order live_behaviour.
Proof.
  split; [apply sample_system_reachable|].
  intros [|[|[|[|[|[|[|[|[|[|n]]]]]]]]]]; [right..|by left]; simpl.
  - apply after_call_step; vm_compute; reflexivity.
  - apply after_mark_step. vm_compute. reflexivity.
  - apply after_claim_step; vm_compute; reflexivity.
  - apply after_call_step; vm_compute; reflexivity.
  - apply after_call_step; vm_compute; reflexivity.
  - apply after_call_step; vm_compute; reflexivity.
  - apply sys_publish.
    + apply (bool_decide_eq_true_1 (MsgEventID retry_message ∈ sys_seen live_retaken)).
      vm_compute. reflexivity.
    + intros ev He. vm_compute in He. by injection He as <-.
  - apply after_mark_step. vm_compute. reflexivity.
  - apply after_claim_step; vm_compute; reflexivity.
  - apply after_call_step; vm_compute; reflexivity.
Qed.

(** In the end no row is pending or waiting, every event is published and every
    message was answered. *)
Lemma live_end_events :
  map_Forall (fun _ ev => is_Some (published_at ev)) (outbox (sys_db live_delivered)).
Proof. apply (bool_decide_eq_true_1 _). vm_compute. reflexivity. Qed.

Lemma live_end_rows :
  map_Forall (fun _ r => finished r = true) (tasks (sys_db live_delivered)).
Proof. apply (bool_decide_eq_true_1 _). vm_compute. reflexivity. Qed.

Lemma live_answered n m :
  m ∈ sys_queue (live_behaviour n) -> m ∈ sys_workers live_delivered.
Proof.
  assert (Hall : forall s, bool_decide (Forall (fun m => m ∈ sys_workers live_delivered) (sys_queue s)) = true ->
    m ∈ sys_queue s -> m ∈ sys_workers live_delivered).
  { intros s Hs%bool_decide_eq_true Hm. rewrite list.Forall_forall in Hs. by apply Hs. }
  apply Hall. destruct n as [|[|[|[|[|[|[|[|[|[|n]]]]]]]]]]; vm_compute; reflexivity.
Qed.

Lemma live_scheduler_idle t :
  exists acc, ScheduleDue sample_sum NoFault ∅ t 10 (sys_db live_delivered)
    = (Ok acc, sys_db live_delivered).
Proof. eexists. vm_compute. reflexivity. Qed.

Lemma live_publisher_idle t :
  ClaimOutbox sample_order NoFault ∅ t 10 "pub-1" t (sys_db live_delivered)
    = (Ok [], sys_db live_delivered).
Proof. vm_compute. reflexivity. Qed.

Lemma live_fair : fair sample_sum sample_order live_behaviour.
Proof.
  split.
  - intros n eid. exists (10 + n)%nat. split; [lia|].
    exists ∅, 9000, 10, "pub-1"%string, 9000, []. change (live_behaviour (10 + n)) with live_delivered.
    split; [lia|]. split; [apply not_elem_of_empty|]. split.
    { intros ev Hev Hp. apply live_end_events in Hev. rewrite Hp in Hev. by destruct Hev. }
    split; [apply live_publisher_idle|]. intros id Hid. by apply not_elem_of_nil in Hid.
  - intros t. exists 10%nat. intros n eid ev Hle He _. do 10 (destruct n as [|n]; [lia|]). by exists ev.
  - intros n m [Hm|Hm]; [exists (10 + n)%nat; split; [lia|]; by apply (live_answered n)|].
    exfalso. revert Hm. do 10 (destruct n as [|n]; [by apply not_elem_of_nil|]). by apply not_elem_of_nil.
  - intros n id t. destruct (live_scheduler_idle t) as [acc Hrun].
    exists (10 + n)%nat, ∅, t, 10, acc. split; [lia|]. split; [lia|]. split; [lia|].
    split; [apply not_elem_of_empty|exact Hrun].
  - intros t. exists 10%nat. intros n id r Hle Hr _ _.
    do 10 (destruct n as [|n]; [lia|]). exact Hr.
Qed.

Lemma every_task_finishes_witness :
  exists k r', tasks (sys_db (live_behaviour k)) !! "n1"%string = Some r' /\
    (status r' = StatusDelivered \/ status r' = StatusDead).
Proof.
  destruct (every_task_finishes sample_jsonb sample_sum sample_order live_behaviour
    0%nat "n1" (row_of_task (sample_request "n1" "k1" 1000) "{}")
    (fun l => Permutation_refl l) live_behaviour_steps live_fair)
    as (k & r' & _ & Hr & _ & Hst).
  - vm_compute. reflexivity.
  - exists k, r'. split; [exact Hr|exact Hst].
Defined.
