(* ===== verification/HttpApi.v ===== *)
(** * The HTTP API (src/internal/transport/httpapi)

    Authentication, the three handlers and the token sets that guard them,
    against the interfaces of the services.  The JSON decoder is a parameter,
    which [Payload.v] instantiates; a request arrives with the endpoint that
    the mux of [Router.v] matched it to. *)

From S2P Require Import Prelude GoTime GoStrings GoText Notification Table Schema Store StoreSpec StoreRefine Samples.

Open Scope string_scope.
Open Scope Z_scope.

(** ** Interfaces *)

Class Creator (W : Type) := {
  creator_Create : string -> string -> string -> string -> M W (Task * bool);
}.
Class Querier (W : Type) := { querier_Get : string -> string -> M W View }.
Class Replayer (W : Type) := { replayer_Replay : string -> string -> M W () }.

(** ** Responses *)

Inductive response_body :=
| ErrorBody (code message : string)
| CreatedBody (notificationID : string) (st : Status)
| ViewBody (view : View)
| ReplayBody (notificationID : string).

Record response := mkResponse { resp_status : Z; resp_body : response_body }.

Definition writeError (status : Z) (code message : string) : response :=
  mkResponse status (ErrorBody code message).

(** ** Requests *)

Record createRequest := mkCreateRequest { InDestinationID : string; InPayload : string }.

(** The endpoint that the router matched, with its path value. *)
Inductive endpoint :=
| PostNotification
| GetNotification (notificationID : string)
| PostReplay (notificationID : string).

Record request := mkRequest {
  req_endpoint : endpoint;
  req_Authorization : string;
  req_IdempotencyKey : string;
  req_body : string;
}.

(** What can be read of the body, and the error that ends it. *)
Record reader := mkReader { visible : string; ends_with : error }.

Definition MaxRequestBodyBytes : Z := 262144.

(** [http.MaxBytesReader]. *)
Definition MaxBytesReader (body : string) (limit : Z) : reader :=
  if len body <=? limit then mkReader body (Sentinel IoEOF)
  else mkReader (byte_prefix limit body) MaxBytesError.

Section Api.
Context (range_order : gmap string string -> list (string * string)).
Context (Decode : reader -> result createRequest * reader)
        (DecodeAny : reader -> result () * reader).

(** ** auth.go *)

Definition authenticate_caller (tokens : gmap string string) (authorization : string) : string :=
  let provided := TrimPrefix authorization "Bearer " in
  foldl (fun caller '(token, identity) =>
    if (len token =? len provided) && bool_decide (token = provided) then identity else caller)
    "" (range_order tokens).

Definition authenticate {W} (tokens : gmap string string) (next : string -> request -> W -> response * W)
    (r : request) (w : W) : response * W :=
  let caller := authenticate_caller tokens (req_Authorization r) in
  if bool_decide (caller = "")
  then (writeError 401 "unauthorized" "authentication required", w)
  else next caller r w.

(** ** json.go *)

Definition decodeJSON (body : string) : result createRequest :=
  match Decode (MaxBytesReader body MaxRequestBodyBytes) with
  | (Err e, _) => Err e
  | (Ok input, rest) =>
      match DecodeAny rest with
      | (Ok _, _) => Err (Message "multiple JSON values")
      | (Err e, _) => if errors_Is e IoEOF then Ok input else Err e
      end
  end.

(** ** create.go *)

Definition createHandler {W} `{Creator W} (caller : string) (r : request) (w : W) : response * W :=
  let idempotencyKey := strings_TrimSpace (req_IdempotencyKey r) in
  if bool_decide (idempotencyKey = "") || (256 <? len idempotencyKey)
  then (writeError 400 "invalid_idempotency_key"
          "Idempotency-Key is required and must not exceed 256 characters", w)
  else
    match decodeJSON (req_body r) with
    | Err e =>
        if errors_As_MaxBytes e
        then (writeError 413 "request_too_large" "request body exceeds 256 KiB", w)
        else (writeError 400 "invalid_json" "request body must be one valid JSON object", w)
    | Ok input =>
        if bool_decide (InDestinationID input = "") || (len (InPayload input) =? 0)
        then (writeError 400 "invalid_request" "destination_id and payload are required", w)
        else
          let '(res, w) := creator_Create caller idempotencyKey (InDestinationID input)
                             (InPayload input) w in
          (match res with
           | Ok (task, _) => mkResponse 202 (CreatedBody (TaskID task) (TaskStatus task))
           | Err e =>
               if errors_Is e IntakeErrIdempotencyConflict
               then writeError 409 "idempotency_conflict"
                      "Idempotency-Key was already used for a different request"
               else if errors_Is e ErrUnknownDestination
               then writeError 422 "unknown_destination" "destination_id is not registered"
               else writeError 500 "internal_error" "request could not be accepted"
           end, w)
    end.

(** ** query.go *)

Definition queryHandler {W} `{Querier W} (id caller : string) (r : request) (w : W) : response * W :=
  if bool_decide (id = "")
  then (writeError 400 "invalid_notification_id" "notification id is required", w)
  else
    let '(res, w) := querier_Get caller id w in
    (match res with
     | Ok view => mkResponse 200 (ViewBody view)
     | Err e =>
         if errors_Is e ErrTaskNotFound then writeError 404 "not_found" "notification not found"
         else writeError 500 "internal_error" "notification could not be queried"
     end, w).

Definition replayHandler {W} `{Replayer W} (id caller : string) (r : request) (w : W) : response * W :=
  let '(res, w) := replayer_Replay caller id w in
  (match res with
   | Ok _ => mkResponse 202 (ReplayBody id)
   | Err e =>
       if errors_Is e ErrNotDead then writeError 409 "not_dead" "only dead notifications can be replayed"
       else writeError 500 "internal_error" "notification could not be replayed"
   end, w).

(** ** router.go *)

Definition NewRouter {W} `{Creator W} `{Querier W} `{Replayer W}
    (CallerTokens AdminTokens : gmap string string) (r : request) (w : W) : response * W :=
  match req_endpoint r with
  | PostNotification => authenticate CallerTokens createHandler r w
  | GetNotification id => authenticate CallerTokens (queryHandler id) r w
  | PostReplay id => authenticate AdminTokens (replayHandler id) r w
  end.

(** ** Authentication *)

Context (range_order_perm : forall m, range_order m ≡ₚ map_to_list m).

Lemma authenticate_fold provided l caller :
  NoDup l.*1 ->
  foldl (fun caller '(token, identity) =>
    if (len token =? len provided) && bool_decide (token = provided) then identity else caller) caller l
  = match list_to_map (M := gmap string string) l !! provided with
    | Some identity => identity
    | None => caller
    end.
Proof.
  revert caller. induction l as [|[token identity] l IH]; intros caller Hnd; [done|].
  rewrite fmap_cons in Hnd. apply list.NoDup_cons in Hnd as [Hnew Hnd].
  simpl. rewrite IH by done. destruct (decide (token = provided)) as [->|Hne].
  - rewrite lookup_insert_eq, not_elem_of_list_to_map_1 by done.
    rewrite Z.eqb_refl. by rewrite bool_decide_eq_true_2.
  - rewrite lookup_insert_ne by done. rewrite bool_decide_eq_false_2 by done.
    by rewrite andb_false_r.
Qed.

Lemma authenticate_caller_spec tokens authorization :
  authenticate_caller tokens authorization = default "" (tokens !! TrimPrefix authorization "Bearer ").
Proof.
  unfold authenticate_caller. rewrite authenticate_fold.
  - assert (list_to_map (range_order tokens) = tokens) as ->.
    { rewrite <- (list_to_map_to_list tokens) at 2. apply list_to_map_proper; [|done].
      rewrite range_order_perm. apply NoDup_fst_map_to_list. }
    by destruct (tokens !! _).
  - rewrite range_order_perm. apply NoDup_fst_map_to_list.
Qed.

(** The tokens that guard an endpoint. *)
Definition tokens_of (CallerTokens AdminTokens : gmap string string) (e : endpoint) :=
  match e with PostReplay _ => AdminTokens | _ => CallerTokens end.

(** Nothing happens without a token.  A request whose token is
    not one of those that guard its endpoint (the callers' for creating and
    reading, the administrators' for replaying) is answered 401 and reaches no
    service; with a token, the handler runs under the identity of exactly that
    token, never under one the request names, and whatever else goes wrong
    before the service is called leaves the world unchanged. *)
Theorem api_authorised {W} `{Creator W} `{Querier W} `{Replayer W} CallerTokens AdminTokens r (w : W) :
  let identity := tokens_of CallerTokens AdminTokens (req_endpoint r)
                    !! TrimPrefix (req_Authorization r) "Bearer " in
  (default "" identity = "" ->
     NewRouter CallerTokens AdminTokens r w
       = (writeError 401 "unauthorized" "authentication required", w)) /\
  (forall caller, identity = Some caller -> caller <> "" ->
     NewRouter CallerTokens AdminTokens r w =
       match req_endpoint r with
       | PostNotification => createHandler caller r w
       | GetNotification id => queryHandler id caller r w
       | PostReplay id => replayHandler id caller r w
       end) /\
  (forall caller, resp_status (fst (createHandler caller r w)) ∈ [400; 413] ->
     snd (createHandler caller r w) = w).
Proof.
  intros identity. split_and!.
  - intros Hid. unfold NewRouter, authenticate, identity in *.
    destruct (req_endpoint r); simpl in *; rewrite authenticate_caller_spec, Hid; done.
  - intros caller Hid Hne. unfold NewRouter, authenticate, identity in *.
    destruct (req_endpoint r); simpl in *; rewrite authenticate_caller_spec, Hid; simpl;
      by rewrite bool_decide_eq_false_2.
  - intros caller. unfold createHandler. case_match; [done|].
    destruct (decodeJSON _) as [input|e]; [|by destruct (errors_As_MaxBytes e)].
    case_match; [done|]. destruct (creator_Create _ _ _ _ w) as [[[task dup]|e] w']; simpl.
    + intros Hin. set_solver.
    + intros Hin. exfalso. repeat case_match; simpl in Hin; set_solver.
Qed.

(** ** Callers see their own notifications only *)

#[global] Instance store_repository (f : fault) (eid_fault : fault) : QueryRepository db := {|
  GetForCaller := PgGetForCaller f;
  ReplayDeadAtomic := PgReplayDeadAtomic eid_fault;
|}.

#[global] Instance store_querier (f f' : fault) : Querier db := {|
  querier_Get := @Get db (store_repository f f');
|}.

(** Isolation of callers.  The query of a notification answers
    200 only to the caller that created it, with the state stored for it; a
    notification of another caller is answered exactly like one that does not
    exist (an identifier that is not text for PostgreSQL is a failure of the
    statement, the same for both); and a query changes nothing. *)
Theorem query_isolated f f' id caller r d :
  let '(resp, d') := @queryHandler db (store_querier f f') id caller r d in
  d' = d /\
  (resp_status resp = 200 -> exists row, tasks d !! id = Some row /\ caller_id (fixed row) = caller /\
     resp_body resp = ViewBody (view_of (queried_task id row))) /\
  (id <> "" -> f = NoFault ->
     (forall row, tasks d !! id = Some row -> caller_id (fixed row) <> caller) ->
     resp = if text_ok id && text_ok caller then writeError 404 "not_found" "notification not found"
            else writeError 500 "internal_error" "notification could not be queried").
Proof.
  unfold queryHandler. destruct (bool_decide (id = "")) eqn:Hid.
  { split_and!; [done|done|]. intros Hne. by apply bool_decide_eq_true in Hid. }
  unfold querier_Get, store_querier, Get, GetForCaller, store_repository, PgGetForCaller.
  unfold statement, atomically, wrapM, texts, mbind, M_bind, gets, throw, mret, M_ret.
  cbn [forallb]. rewrite andb_true_r. destruct f, (text_ok id && text_ok caller); simpl; try by split_and!.
  destruct (tasks d !! id) as [row|] eqn:Hrow; simpl.
  - destruct (decide (caller_id (fixed row) = caller)) as [Hc|Hc].
    + rewrite bool_decide_eq_true_2 by done. simpl.
      split_and!; [done|intros _; by exists row|]. intros _ _ Hno. by destruct (Hno row).
    + rewrite bool_decide_eq_false_2 by done. by split_and!.
  - by split_and!.
Qed.
End Api.

(** ** Instances *)

#[local] Instance sample_creator : Creator db := {|
  creator_Create _ _ _ _ := throw (Sentinel ErrUnknownDestination);
|}.
#[local] Instance sample_replayer : Replayer db := {| replayer_Replay _ _ := throw (Sentinel ErrNotDead) |}.

Definition sample_tokens : gmap string string := {["t-orders" := "orders"]}.

Definition sample_decode_request (rd : reader) : result createRequest * reader := (Err (ends_with rd), rd).
Definition sample_decode_any (rd : reader) : result () * reader := (Err (ends_with rd), rd).

Lemma api_authorised_witness :
  fst (NewRouter map_to_list sample_decode_request sample_decode_any (H0 := store_querier NoFault NoFault)
         sample_tokens ∅ (mkRequest (PostReplay "n1") "Bearer t-orders" "" "") (after history_dead))
    = writeError 401 "unauthorized" "authentication required".
Proof.
  destruct (api_authorised map_to_list sample_decode_request sample_decode_any
    (fun m => Permutation_refl (map_to_list m)) (H0 := store_querier NoFault NoFault) sample_tokens ∅
    (mkRequest (PostReplay "n1") "Bearer t-orders" "" "") (after history_dead)) as [H _].
  rewrite H; [reflexivity|]. vm_compute. reflexivity.
Defined.

Lemma query_isolated_witness :
  resp_status (fst (@queryHandler db (store_querier NoFault NoFault) "n1" "billing"
    (mkRequest (GetNotification "n1") "" "" "") (after history_dead))) = 404.
Proof.
  pose proof (query_isolated NoFault NoFault "n1" "billing"
    (mkRequest (GetNotification "n1") "" "" "") (after history_dead)) as H.
  destruct (@queryHandler db (store_querier NoFault NoFault) "n1" "billing"
    (mkRequest (GetNotification "n1") "" "" "") (after history_dead)) as [resp d'].
  destruct H as (_ & _ & H). simpl. rewrite H; [reflexivity|discriminate|reflexivity|].
  intros row Hrow. vm_compute in Hrow. injection Hrow as <-. discriminate.
Defined.
