(* ===== verification/Config.v ===== *)
(** * Runtime configuration (src/internal/config/config.go) *)

From S2P Require Import Prelude GoTime GoStrings GoText.

Open Scope string_scope.
Open Scope Z_scope.

Inductive Role := RoleAPI | RolePublisher | RoleWorker | RoleScheduler | RoleAll.

#[global] Instance Role_eq_dec : EqDecision Role.
Proof. solve_decision. Defined.

Definition role_string (role : Role) : string :=
  match role with
  | RoleAPI => "api" | RolePublisher => "publisher" | RoleWorker => "worker"
  | RoleScheduler => "scheduler" | RoleAll => "all"
  end.

Record Runtime := mkRuntime {
  RuntimeRole : Role;
  DatabaseURL : string;
  RabbitMQURL : string;
  DestinationsFile : string;
  HTTPAddr : string;
  MetricsAddr : string;
  CallerTokens : gmap string string;
  AdminTokens : gmap string string;
  ShutdownTimeout : duration;
}.

Section Config.
Context (Quote : string -> string).

Definition ParseRole (value : string) : result Role :=
  match list_find (fun role => role_string role = value)
          [RoleAPI; RolePublisher; RoleWorker; RoleScheduler; RoleAll] with
  | Some (_, role) => Ok role
  | None => Err (Message ("unsupported role " ++ Quote value))
  end.

(** The loop body for one entry of a token list. *)
Definition add_token (result : gmap string string) (entry : string) : gmap string string :=
  match Split2 ":"%char (strings_TrimSpace entry) with
  | (token, Some identity) =>
      if negb (bool_decide (token = "")) && negb (bool_decide (identity = ""))
      then <[token := identity]> result else result
  | (_, None) => result
  end.

Definition parseTokens (value : string) : gmap string string :=
  foldl add_token ∅ (Split ","%char value).

(** The closure [get] of [LoadRuntime]. *)
Definition get_env (lookup : string -> option string) (key : string) : string :=
  strings_TrimSpace (default "" (lookup key)).

Definition LoadRuntime (role : Role) (lookup : string -> option string) : result Runtime :=
  let get := get_env lookup in
  let api := bool_decide (role = RoleAPI) || bool_decide (role = RoleAll) in
  return_if bool_decide (get "DATABASE_URL" = "") with Message "DATABASE_URL is required";
  return_if (bool_decide (role = RolePublisher) || bool_decide (role = RoleWorker)
             || bool_decide (role = RoleAll)) && bool_decide (get "RABBITMQ_URL" = "")
    with Message "RABBITMQ_URL is required";
  return_if (bool_decide (role = RoleAPI) || bool_decide (role = RoleWorker)
             || bool_decide (role = RoleAll)) && bool_decide (get "DESTINATIONS_FILE" = "")
    with Message "DESTINATIONS_FILE is required";
  let config http metrics callers admins :=
    {| RuntimeRole := role; DatabaseURL := get "DATABASE_URL"; RabbitMQURL := get "RABBITMQ_URL";
       DestinationsFile := get "DESTINATIONS_FILE"; HTTPAddr := http; MetricsAddr := metrics;
       CallerTokens := callers; AdminTokens := admins; ShutdownTimeout := 10 * Second |} in
  if api then
    let callers := parseTokens (get "CALLER_TOKENS") in
    let admins := parseTokens (get "ADMIN_TOKENS") in
    return_if bool_decide (callers = ∅) || bool_decide (admins = ∅)
      with Message "CALLER_TOKENS and ADMIN_TOKENS are required";
    Ok (config (if bool_decide (get "HTTP_ADDR" = "") then ":8080" else get "HTTP_ADDR") ""
          callers admins)
  else
    Ok (config (get "HTTP_ADDR")
          (if bool_decide (get "METRICS_ADDR" = "") then ":9090" else get "METRICS_ADDR") ∅ ∅).

(** Names and roles correspond. *)
Lemma ParseRole_string role : ParseRole (role_string role) = Ok role.
Proof. by destruct role. Qed.

Lemma parseTokens_nonempty value token identity :
  parseTokens value !! token = Some identity -> token <> "" /\ identity <> "".
Proof.
  unfold parseTokens. generalize (Split ","%char value). intros l.
  assert (H : forall m, (forall t i, m !! t = Some i -> t <> "" /\ i <> "") ->
    forall t i, foldl add_token m l !! t = Some i -> t <> "" /\ i <> "").
  { induction l as [|entry l IH]; intros m Hm t i Ht; [by apply Hm|]. simpl in Ht.
    eapply IH; [|exact Ht]. intros t' i' Ht'. unfold add_token in Ht'.
    destruct (Split2 _ _) as [t0 [i0|]]; [|by apply Hm].
    destruct (negb _ && negb _) eqn:Hne; [|by apply Hm]. reflect_bools.
    apply lookup_insert_Some in Ht' as [[<- <-]|[_ Ht']]; [done|by apply Hm]. }
  apply H. intros t i Hti. by rewrite lookup_empty in Hti.
Qed.

(** The roles that talk to the broker, read the destinations, serve the API. *)
Definition uses_broker (role : Role) : bool :=
  match role with RolePublisher | RoleWorker | RoleAll => true | _ => false end.
Definition uses_destinations (role : Role) : bool :=
  match role with RoleAPI | RoleWorker | RoleAll => true | _ => false end.
Definition serves_api (role : Role) : bool :=
  match role with RoleAPI | RoleAll => true | _ => false end.

(** A configuration that loads is complete for its role: the
    database for every role, the broker for publishers and workers, the
    destinations for the API and workers, both token sets with non-empty
    tokens and identities for the API, and an address to listen on; a role
    that is not the API never holds tokens. *)
Theorem load_runtime_complete role lookup c :
  LoadRuntime role lookup = Ok c ->
  RuntimeRole c = role /\ DatabaseURL c <> "" /\ ShutdownTimeout c = 10 * Second /\
  (uses_broker role = true -> RabbitMQURL c <> "") /\
  (uses_destinations role = true -> DestinationsFile c <> "") /\
  (serves_api role = true ->
     CallerTokens c <> ∅ /\ AdminTokens c <> ∅ /\ HTTPAddr c <> "" /\
     forall token identity, CallerTokens c !! token = Some identity \/
       AdminTokens c !! token = Some identity -> token <> "" /\ identity <> "") /\
  (serves_api role = false -> CallerTokens c = ∅ /\ AdminTokens c = ∅ /\ MetricsAddr c <> "").
Proof.
  unfold LoadRuntime. cbv zeta. generalize (get_env lookup). intros get Hrun.
  destruct (bool_decide (get "DATABASE_URL" = "")) eqn:Hdb; [done|].
  destruct (_ && bool_decide (get "RABBITMQ_URL" = "")) eqn:Hmq; [done|].
  destruct (_ && bool_decide (get "DESTINATIONS_FILE" = "")) eqn:Hdf; [done|].
  apply bool_decide_eq_false in Hdb.
  pose proof (parseTokens_nonempty (get "CALLER_TOKENS")) as Hct.
  pose proof (parseTokens_nonempty (get "ADMIN_TOKENS")) as Hat.
  assert (Haddr : forall a b, b <> "" -> (if bool_decide (a = "") then b else a) <> "")
    by (intros a b Hb; destruct (bool_decide (a = "")) eqn:Ha; [exact Hb|];
        by apply bool_decide_eq_false in Ha).
  destruct role; simpl in *;
    try (destruct (_ || _) eqn:Htok in Hrun; [done|]); injection Hrun as <-; simpl; reflect_bools;
    split_and!; try done; intros _; split_and!; try done; try (by apply Haddr).
  all: intros token identity [Ht|Ht]; eauto.
Qed.
End Config.

(** ** Instance *)

Definition sample_lookup (key : string) : option string :=
  if bool_decide (key = "DATABASE_URL") then Some "postgres://db"
  else if bool_decide (key = "DESTINATIONS_FILE") then Some "configs/destinations.yaml"
  else if bool_decide (key = "CALLER_TOKENS") then Some "t-orders:orders, t-billing:billing,bad"
  else if bool_decide (key = "ADMIN_TOKENS") then Some "t-admin:ops" else None.

Definition sample_runtime : Runtime :=
  mkRuntime RoleAPI "postgres://db" "" "configs/destinations.yaml" ":8080" ""
    (<["t-billing" := "billing"]> {["t-orders" := "orders"]}) {["t-admin" := "ops"]} (10 * Second).

Lemma load_runtime_complete_witness : DatabaseURL sample_runtime <> "".
Proof.
  refine (proj1 (proj2 (load_runtime_complete RoleAPI sample_lookup sample_runtime _))).
  vm_compute. reflexivity.
Defined.
