(* ===== verification/Services.v ===== *)
(** * The scheduler and the retention job (src/internal/retry, src/internal/retention)

    The rounds of the two periodic services against their repositories, the
    loops that repeat them, and the store behind the interfaces. *)

From S2P Require Import Prelude GoTime Notification Table Schema Store StoreSpec StoreRefine.

Class RetryRepository (W : Type) := { repo_ScheduleDue : time -> Z -> M W ScheduleResult }.
Class RetentionRepository (W : Type) := { repo_DeleteTerminalBefore : time -> Z -> M W Z }.

(** The clock and the observer of the services. *)
Class ServiceEnv (W : Type) := {
  service_now : W -> time * W;
  service_ObserveSchedule : ScheduleResult -> W -> W;
}.

(** ** retry/service.go *)

Definition retry_RunOnce {W} `{RetryRepository W} `{ServiceEnv W} (BatchSize : Z) : M W ScheduleResult :=
  fun w =>
  let '(now, w) := service_now w in
  match repo_ScheduleDue now BatchSize w with
  | (Err e, w) => (Err (Wrapped "schedule due notifications" e), w)
  | (Ok result, w) => (Ok result, service_ObserveSchedule result w)
  end.

(** ** retention/service.go *)

Definition retention_RunOnce {W} `{RetentionRepository W} `{ServiceEnv W} (Retention : duration)
    (BatchSize : Z) : M W Z :=
  fun w =>
  let '(now, w) := service_now w in
  wrapM "delete retained notifications"
    (repo_DeleteTerminalBefore (time_Add now (- Retention)) BatchSize) w.

(** The poll interval that the loops of the three services use. *)
Definition poll_interval (PollInterval : duration) : duration :=
  if PollInterval <=? 0 then Second else PollInterval.

(** [Run] of the scheduler for the rounds until [fuel] is used up or the loop
    ends: [done_before] and [done_after] are the context's error before a
    round and while waiting for the next tick. *)
Fixpoint retry_Run {W} `{RetryRepository W} `{ServiceEnv W} (BatchSize : Z)
    (done_before done_after : W -> option error) (fuel : nat) (w : W) : option error * W :=
  match fuel with
  | O => (None, w)
  | S fuel =>
      match done_before w with
      | Some e => (Some e, w)
      | None =>
          match retry_RunOnce BatchSize w with
          | (Err e, w) => (Some e, w)
          | (Ok _, w) =>
              match done_after w with
              | Some e => (Some e, w)
              | None => retry_Run BatchSize done_before done_after fuel w
              end
          end
      end
  end.

(** The rounds compose: fuel only bounds how many of them are observed. *)
Lemma retry_Run_add {W} `{RetryRepository W} `{ServiceEnv W} BatchSize done_before done_after n m (w : W) :
  retry_Run BatchSize done_before done_after (n + m) w =
    match retry_Run BatchSize done_before done_after n w with
    | (None, w') => retry_Run BatchSize done_before done_after m w'
    | stopped => stopped
    end.
Proof.
  revert w. induction n as [|n IH]; intros w; [done|]. cbn [Nat.add retry_Run].
  destruct (done_before w); [done|].
  destruct (retry_RunOnce BatchSize w) as [[result|e] w1]; [|done].
  by destruct (done_after w1).
Qed.

(** The loop around the retention job in [RunConfigured]: at every tick, unless
    the context is done by then ([cancelled]), a round whose result is thrown
    away; [ticks] of them. *)
Fixpoint cleaner_loop {W} `{RetentionRepository W} `{ServiceEnv W} (Retention : duration) (BatchSize : Z)
    (cancelled : W -> option error) (ticks : nat) (w : W) : option error * W :=
  match ticks with
  | O => (None, w)
  | S ticks =>
      match cancelled w with
      | Some e => (Some e, w)
      | None =>
          let '(_, w) := retention_RunOnce Retention BatchSize w in
          cleaner_loop Retention BatchSize cancelled ticks w
      end
  end.

(** ** Over the store *)

Record periodic := mkPeriodic {
  per_db : db;
  per_now : time;
  per_fault : fault;
  per_locked : gset string;
  per_observed : list ScheduleResult;
}.

Definition per_with_db (d : db) (w : periodic) : periodic :=
  mkPeriodic d (per_now w) (per_fault w) (per_locked w) (per_observed w).

Section Periodic.
Context (Sum256 : list Z -> list Z).

#[global] Instance periodic_retry : RetryRepository periodic := {|
  repo_ScheduleDue now limit w :=
    let '(r, d) := ScheduleDue Sum256 (per_fault w) (per_locked w) now limit (per_db w) in
    (r, per_with_db d w);
|}.

#[global] Instance periodic_retention : RetentionRepository periodic := {|
  repo_DeleteTerminalBefore cutoff limit w :=
    let '(r, d) := DeleteTerminalBefore (per_fault w) (per_locked w) cutoff limit (per_db w) in
    (r, per_with_db d w);
|}.

#[global] Instance periodic_env : ServiceEnv periodic := {|
  service_now w := (per_now w, w);
  service_ObserveSchedule result w :=
    mkPeriodic (per_db w) (per_now w) (per_fault w) (per_locked w) (per_observed w ++ [result]);
|}.

(** A round of the scheduler is one call of the store, reported exactly when
    it succeeded. *)
Lemma retry_RunOnce_store limit w :
  let '(r, w') := retry_RunOnce limit w in
  w' = mkPeriodic (snd (ScheduleDue Sum256 (per_fault w) (per_locked w) (per_now w) limit (per_db w)))
         (per_now w) (per_fault w) (per_locked w)
         (per_observed w ++ match r with Ok result => [result] | Err _ => [] end).
Proof.
  unfold retry_RunOnce. simpl.
  destruct (ScheduleDue _ _ _ _ _ _) as [[result|e] d]; [done|]. simpl. by rewrite app_nil_r.
Qed.

Lemma retention_RunOnce_store retention limit w :
  snd (retention_RunOnce retention limit w) =
    per_with_db (snd (DeleteTerminalBefore (per_fault w) (per_locked w) (per_now w - retention) limit
                        (per_db w))) w.
Proof.
  unfold retention_RunOnce, wrapM, time_Add. simpl. rewrite Z.add_opp_r.
  by destruct (DeleteTerminalBefore _ _ _ _ _) as [r d].
Qed.

(** The retention loop is not stopped by errors, and makes only abstract steps
    of the store. *)
Lemma cleaner_loop_refines retention limit cancelled ticks w :
  rtc store_step (per_db w) (per_db (cleaner_loop retention limit cancelled ticks w).2).
Proof.
  revert w. induction ticks as [|ticks IH]; intros w; [done|]. cbn [cleaner_loop].
  destruct (cancelled w) as [e|]; [done|]. pose proof (retention_RunOnce_store retention limit w) as Hround.
  destruct (retention_RunOnce retention limit w) as [r w']. simpl in Hround. subst w'.
  etrans; [|apply IH]. simpl. apply optional_step_rtc, DeleteTerminalBefore_refines.
Qed.
End Periodic.
