(* ===== verification/Rabbit.v ===== *)
(** * The message broker client (src/internal/messaging/rabbitmq)

    Opening and closing a client with its declarations ([topology.go]), the
    publisher's wait for the broker's answers ([publisher.go]), and the
    consumer's check of message bodies ([consumer.go]).  The AMQP library is a
    class of operations; it delivers returned messages and confirmations on two
    channels, and a [select] with several ready cases may take any of them, so
    that the outcome of a publication is a relation. *)

From S2P Require Import Prelude GoStrings OutboxService.

Open Scope string_scope.
Open Scope Z_scope.

(** ** The library *)

(** The calls of [amqp091-go] that open, declare and close. *)
Class Amqp (W Conn Chan : Type) := {
  amqp_Dial : string -> M W Conn;
  conn_Channel : Conn -> M W Chan;
  conn_Close : Conn -> M W ();
  conn_IsClosed : Conn -> W -> bool;
  chan_Close : Chan -> M W ();
  chan_ExchangeDeclare (channel : Chan) (name kind : string)
    (durable autoDelete internal noWait : bool) (args : list (string * string)) : M W ();
  chan_QueueDeclare (channel : Chan) (name : string)
    (durable autoDelete exclusive noWait : bool) (args : list (string * string)) : M W ();
  chan_QueueBind (channel : Chan) (name key exchange : string) (noWait : bool)
    (args : list (string * string)) : M W ();
  chan_Confirm (channel : Chan) (noWait : bool) : M W ();
}.

(** [_ = f()]. *)
Definition ignore {W} (m : M W ()) (w : W) : W := (m w).2.

(** ** topology.go *)

Record Topology := mkTopology { Exchange : string; Queue : string; RoutingKey : string }.

Section Client.
Context {W Conn Chan : Type} `{Amqp W Conn Chan}.

Definition declare (channel : Chan) (topology : Topology) : M W () :=
  _ ← wrapM "declare exchange"
        (chan_ExchangeDeclare channel (Exchange topology) "direct" true false false false []);
  _ ← wrapM "declare queue"
        (chan_QueueDeclare channel (Queue topology) true false false false
           [("x-queue-type", "quorum")]);
  wrapM "bind queue"
    (chan_QueueBind channel (Queue topology) (RoutingKey topology) (Exchange topology) false []).

(** ** publisher.go: opening and closing *)

(** The two notification channels belong to the channel; they are the state of
    the publications below. *)
Record Client := mkClient { connection : Conn; channel : Chan; topology : Topology }.

Definition Open (rawURL : string) (topology : Topology) : M W Client := fun w =>
  match amqp_Dial rawURL w with
  | (Err e, w) => (Err (Wrapped "dial rabbitmq" e), w)
  | (Ok connection, w) =>
    match conn_Channel connection w with
    | (Err e, w) => (Err (Wrapped "open rabbitmq channel" e), ignore (conn_Close connection) w)
    | (Ok channel, w) =>
      match declare channel topology w with
      | (Err e, w) => (Err e, ignore (conn_Close connection) (ignore (chan_Close channel) w))
      | (Ok _, w) =>
        match chan_Confirm channel false w with
        | (Err e, w) =>
            (Err (Wrapped "enable confirms" e),
             ignore (conn_Close connection) (ignore (chan_Close channel) w))
        | (Ok _, w) => (Ok (mkClient connection channel topology), w)
        end
      end
    end
  end.

(** [errors.Join] of two results; of a single error it is that error here. *)
Definition errors_Join (e1 e2 : option error) : option error :=
  match e1, e2 with
  | None, None => None
  | Some e, None | None, Some e => Some e
  | Some e1, Some e2 => Some (Joined e1 e2)
  end.

Definition err_of {A} (r : result A) : option error :=
  match r with Ok _ => None | Err e => Some e end.

Definition Close (client : Client) (w : W) : option error * W :=
  let '(connectionErr, w) := conn_Close (connection client) w in
  let '(channelErr, w) := chan_Close (channel client) w in
  (errors_Join (err_of channelErr) (err_of connectionErr), w).

Definition Healthy (client : Client) (w : W) : option error * W :=
  (if conn_IsClosed (connection client) w
   then Some (Message "rabbitmq connection is closed") else None, w).
End Client.

Arguments mkClient {Conn Chan}.
Arguments Client : clear implicits.

(** The two notification channels, in order of arrival, and whether the
    connection has closed the channel of confirmations. *)
Record channels := mkChannels {
  returns : list string;
  confirms : list bool;
  confirms_closed : bool;
}.

(** ** publisher.go: publications *)

Definition returned_error (replyText : string) : error :=
  Message ("message returned by broker: " +:+ replyText).

(** The outer and the inner [select] of [Publish], after the message was handed
    to the library; [ctx] is the error of the context once it is done. *)
Inductive await_confirm (ctx : option error) (ch : channels) : result () -> channels -> Prop :=
| await_returned text rest :
    returns ch = text :: rest ->
    await_confirm ctx ch (Err (returned_error text)) (mkChannels rest (confirms ch) (confirms_closed ch))
| await_nacked rest :
    confirms ch = false :: rest ->
    await_confirm ctx ch (Err (Sentinel ErrConfirmLost))
      (mkChannels (returns ch) rest (confirms_closed ch))
| await_closed :
    confirms ch = [] -> confirms_closed ch = true ->
    await_confirm ctx ch (Err (Sentinel ErrConfirmLost)) ch
| await_acked_returned rest text rest' :
    confirms ch = true :: rest -> returns ch = text :: rest' ->
    await_confirm ctx ch (Err (returned_error text)) (mkChannels rest' rest (confirms_closed ch))
| await_acked rest :
    confirms ch = true :: rest -> returns ch = [] ->
    await_confirm ctx ch (Ok ()) (mkChannels [] rest (confirms_closed ch))
| await_done e :
    ctx = Some e -> await_confirm ctx ch (Err (Joined (Sentinel ErrConfirmLost) e)) ch.

(** The broker's answer to one message: an optional return, then a
    confirmation. *)
Record answer := mkAnswer { answer_return : option string; answer_ack : bool }.

Definition arrive (a : answer) (ch : channels) : channels :=
  mkChannels (returns ch ++ match answer_return a with Some t => [t] | None => [] end)
    (confirms ch ++ [answer_ack a]) (confirms_closed ch).

(** A call of [Publish] whose message gets the answer [a]: the answer arrives
    before the call leaves its [select], or ([late]) after. *)
Inductive publish (ctx : option error) (a : answer) (ch : channels) : result () -> channels -> Prop :=
| publish_answered r ch' :
    await_confirm ctx (arrive a ch) r ch' -> publish ctx a ch r ch'
| publish_late r ch' :
    await_confirm ctx ch r ch' -> publish ctx a ch r (arrive a ch').

(** [amqp.Publishing] as [Publish] fills it; [DeliveryMode] 2 is persistent. *)
Record Publishing := mkPublishing {
  DeliveryMode : Z;
  ContentType : string;
  MessageId : string;
  CorrelationId : string;
  PublishingBody : string;
}.

Definition publishing_of (message : OutboxMessage) (body : string) : Publishing :=
  mkPublishing 2 "application/json" (MsgEventID message) (MsgNotificationID message) body.

(** The whole of [Publish]: [marshal] is [json.Marshal]; [send] is
    [PublishWithContext] with the exchange, the routing key, [mandatory] and
    [immediate].  The mutex makes the calls of one client a sequence. *)
Inductive Publish (marshal : OutboxMessage -> result string)
    (send : string -> string -> bool -> bool -> Publishing -> option error)
    (topology : Topology) (ctx : option error) (message : OutboxMessage) (a : answer) (ch : channels)
    : result () -> channels -> Prop :=
| Publish_not_encoded e :
    marshal message = Err e ->
    Publish marshal send topology ctx message a ch (Err (Wrapped "marshal message" e)) ch
| Publish_not_sent body e :
    marshal message = Ok body ->
    send (Exchange topology) (RoutingKey topology) true false (publishing_of message body) = Some e ->
    Publish marshal send topology ctx message a ch (Err (Wrapped "publish message" e)) ch
| Publish_sent body r ch' :
    marshal message = Ok body ->
    send (Exchange topology) (RoutingKey topology) true false (publishing_of message body) = None ->
    publish ctx a ch r ch' ->
    Publish marshal send topology ctx message a ch r ch'.

Definition idle : channels := mkChannels [] [] false.

(** With nothing left over from an earlier call, success means that the broker
    has accepted the message and could route it. *)
Lemma publish_confirmed ctx a r ch' :
  publish ctx a idle r ch' -> r = Ok () -> answer_ack a = true /\ answer_return a = None /\ ch' = idle.
Proof.
  intros Hp ->. destruct a as [ret ack]. inversion Hp as [r0 ch0 Hw|r0 ch0 Hw]; subst.
  - inversion Hw as [| | | |rest Hc Hr|]; subst; simpl in *. simplify_eq/=.
    by destruct ret.
  - inversion Hw as [| | | |rest Hc Hr|]; subst; done.
Qed.

(** What a publish that reports success means.  On channels with
    nothing left over, it means that the broker accepted this very message and
    did not return it.  But a call may leave its confirmation behind: the
    confirmation of a returned message, or one that comes after the context
    was done, is taken by the next call for its own, which then reports
    success for a message the broker refused. *)
Theorem publish_success :
  (forall ctx a r ch', publish ctx a idle r ch' -> r = Ok () ->
     answer_ack a = true /\ answer_return a = None /\ ch' = idle) /\
  (exists first second ch1 ch2,
     publish None first idle (Err (returned_error "NO_ROUTE")) ch1 /\
     answer_ack second = false /\
     publish None second ch1 (Ok ()) ch2).
Proof.
  split; [intros ctx a r ch'; apply publish_confirmed|].
  exists (mkAnswer (Some "NO_ROUTE"%string) true), (mkAnswer None false), (mkChannels [] [true] false),
    (mkChannels [] [false] false). split_and!.
  - apply publish_answered. by apply (await_returned None (mkChannels ["NO_ROUTE"%string] [true] false)).
  - done.
  - apply publish_answered. by apply (await_acked None (mkChannels [] [true; false] false)).
Qed.

(** Success of the whole call on idle channels. *)
Lemma Publish_confirmed marshal send topology ctx message a ch' :
  Publish marshal send topology ctx message a idle (Ok ()) ch' ->
  (exists body, marshal message = Ok body) /\ answer_ack a = true /\ answer_return a = None /\ ch' = idle.
Proof.
  intros Hp. inversion Hp as [| |body r ch1 Hm Hs Hw]; subst. split; [by eexists|].
  by eapply publish_confirmed.
Qed.

(** ** consumer.go *)

(** What the consumer does with a body: [None] rejects it for good, otherwise
    the message goes to the worker; [unmarshal] is the JSON decoder. *)
Definition consume_body (unmarshal : string -> option OutboxMessage) (body : string)
    : option OutboxMessage :=
  match unmarshal body with
  | None => None
  | Some message =>
      if bool_decide (MsgEventID message = ""%string)
         || bool_decide (MsgNotificationID message = ""%string)
      then None else Some message
  end.

(** The answer of [Consume], given that of the channel's [ConsumeWithContext];
    the goroutine that it starts on success is in [Worker.v]. *)
Definition Consume {A} (rawDeliveries : result A) : result A := wrap "consume messages" rawDeliveries.

(** Messages of the publisher survive the trip. *)
Lemma consume_published unmarshal marshal message :
  (forall m, unmarshal (marshal m) = Some m) ->
  MsgEventID message <> ""%string -> MsgNotificationID message <> ""%string ->
  consume_body unmarshal (marshal message) = Some message.
Proof.
  intros Hround He Hn. unfold consume_body. rewrite Hround.
  by rewrite !bool_decide_eq_false_2.
Qed.

(** ** A broker with scripted failures *)

(** The script says which calls fail, by their number; connections and
    channels are named by the number of the call that made them. *)
Record broker := mkBroker {
  script : nat -> option error;
  calls : nat;
  open_conns : list nat;
  open_chans : list (nat * nat);
  declared : list string;
  confirming : list (nat * nat);
}.

(** One call: it fails as the script says, or has its effect; [always] happens
    in both cases. *)
Definition call {A} (always : broker -> broker) (effect : nat -> broker -> A * broker) : M broker A :=
  fun b =>
  let n := calls b in
  let b := always (mkBroker (script b) (S n) (open_conns b) (open_chans b) (declared b) (confirming b)) in
  match script b n with
  | Some e => (Err e, b)
  | None => let '(a, b) := effect n b in (Ok a, b)
  end.

Definition set_open (conns : list nat) (chans : list (nat * nat)) (b : broker) : broker :=
  mkBroker (script b) (calls b) conns chans (declared b) (confirming b).

(** Closing a connection closes its channels, even when it reports an error. *)
Definition close_conn (c : nat) (b : broker) : broker :=
  set_open (filter (fun c' => c' <> c) (open_conns b)) (filter (fun ch => ch.1 <> c) (open_chans b)) b.

Definition close_chan (ch : nat * nat) (b : broker) : broker :=
  set_open (open_conns b) (filter (fun ch' => ch' <> ch) (open_chans b)) b.

Definition declares (what : string) : M broker () :=
  call id (fun _ b => ((), mkBroker (script b) (calls b) (open_conns b) (open_chans b)
                             (declared b ++ [what])%list (confirming b))).

#[global] Instance broker_Amqp : Amqp broker nat (nat * nat) := {|
  amqp_Dial _ := call id (fun n b => (n, set_open (open_conns b ++ [n])%list (open_chans b) b));
  conn_Channel c := call id (fun n b => ((c, n), set_open (open_conns b) (open_chans b ++ [(c, n)])%list b));
  conn_Close c := call (close_conn c) (fun _ b => ((), b));
  conn_IsClosed c b := negb (bool_decide (c ∈ open_conns b));
  chan_Close ch := call (close_chan ch) (fun _ b => ((), b));
  chan_ExchangeDeclare _ name kind _ _ _ _ _ := declares ("exchange " +:+ name +:+ " " +:+ kind);
  chan_QueueDeclare _ name _ _ _ _ _ := declares ("queue " +:+ name);
  chan_QueueBind _ name key exchange _ _ := declares ("bind " +:+ name +:+ " " +:+ key +:+ " " +:+ exchange);
  chan_Confirm ch _ := call id (fun _ b =>
    ((), mkBroker (script b) (calls b) (open_conns b) (open_chans b) (declared b) (confirming b ++ [ch])%list));
|}.

(** Numbers of later calls are not in use. *)
Definition fresh (b : broker) : Prop :=
  Forall (fun c => (c < calls b)%nat) (open_conns b) /\
  Forall (fun ch => (ch.1 < calls b)%nat) (open_chans b).

(** The broker after a call without effect. *)
Definition tick (b : broker) : broker :=
  mkBroker (script b) (S (calls b)) (open_conns b) (open_chans b) (declared b) (confirming b).

(** Nothing was opened or closed in between. *)
Definition same_open (b b' : broker) : Prop :=
  open_conns b' = open_conns b /\ open_chans b' = open_chans b /\ confirming b' = confirming b.

Lemma Dial_spec url b :
  amqp_Dial url b =
    match script b (calls b) with
    | Some e => (Err e, tick b)
    | None => (Ok (calls b), set_open (open_conns b ++ [calls b])%list (open_chans b) (tick b))
    end.
Proof. simpl. unfold call. by destruct (script _ _). Qed.

Lemma Channel_spec c b :
  conn_Channel c b =
    match script b (calls b) with
    | Some e => (Err e, tick b)
    | None => (Ok (c, calls b), set_open (open_conns b) (open_chans b ++ [(c, calls b)])%list (tick b))
    end.
Proof. simpl. unfold call. by destruct (script _ _). Qed.

Lemma Confirm_spec (ch : nat * nat) b :
  match chan_Confirm ch false b with
  | (Err _, b') => same_open b b'
  | (Ok _, b') => open_conns b' = open_conns b /\ open_chans b' = open_chans b /\
      declared b' = declared b /\ confirming b' = (confirming b ++ [ch])%list
  end.
Proof. simpl. unfold call, same_open. by destruct (script _ _). Qed.

Lemma ignore_close_conn c b : ignore (conn_Close c) b = close_conn c (tick b).
Proof. unfold ignore. simpl. unfold call. by destruct (script _ _). Qed.

Lemma ignore_close_chan ch b : ignore (chan_Close ch) b = close_chan ch (tick b).
Proof. unfold ignore. simpl. unfold call. by destruct (script _ _). Qed.

Lemma Close_broker client b :
  (Close client b).2 = close_chan (channel client) (tick (close_conn (connection client) (tick b))).
Proof.
  unfold Close. rewrite <- ignore_close_conn, <- ignore_close_chan. unfold ignore.
  destruct (conn_Close (connection client) b) as [ce b1]. cbn [snd].
  by destruct (chan_Close (channel client) b1).
Qed.

Lemma declares_spec what b :
  match declares what b with
  | (Err _, b') => same_open b b'
  | (Ok _, b') => same_open b b' /\ declared b' = (declared b ++ [what])%list
  end.
Proof. unfold declares, call, same_open. by destruct (script _ _). Qed.

Lemma declare_spec (ch : nat * nat) t b :
  match declare ch t b with
  | (Err _, b') => same_open b b'
  | (Ok _, b') => same_open b b' /\
      declared b' = (declared b ++ ["exchange " +:+ Exchange t +:+ " direct"; "queue " +:+ Queue t;
        "bind " +:+ Queue t +:+ " " +:+ RoutingKey t +:+ " " +:+ Exchange t])%list
  end.
Proof.
  unfold declare, wrapM, mbind, M_bind.
  cbn [chan_ExchangeDeclare chan_QueueDeclare chan_QueueBind broker_Amqp].
  pose proof (declares_spec ("exchange " +:+ Exchange t +:+ " " +:+ "direct") b) as Hspec1.
  destruct (declares _ b) as [[[]|e1] b1]; [|done]. destruct Hspec1 as [(? & ? & ?) Hd1]. cbn [wrap].
  pose proof (declares_spec ("queue " +:+ Queue t) b1) as Hspec2.
  destruct (declares _ b1) as [[[]|e2] b2]; unfold same_open in *; [|destruct Hspec2 as (? & ? & ?); split_and!; congruence].
  destruct Hspec2 as [(? & ? & ?) Hd2]. cbn [wrap].
  pose proof (declares_spec ("bind " +:+ Queue t +:+ " " +:+ RoutingKey t +:+ " " +:+ Exchange t) b2) as Hspec3.
  destruct (declares _ b2) as [[[]|e3] b3]; unfold same_open in *; cbn [wrap].
  - destruct Hspec3 as [(? & ? & ?) Hd3]. split_and!; [congruence..|]. rewrite Hd3, Hd2, Hd1.
    by rewrite <- !app_assoc.
  - destruct Hspec3 as (? & ? & ?). split_and!; congruence.
Qed.

Lemma filter_all {A} (P : A -> Prop) `{forall x, Decision (P x)} l :
  Forall P l -> filter P l = l.
Proof. induction 1 as [|x l Hx _ IH]; [done|]. by rewrite list.filter_cons_True, IH. Qed.

(** Closing what was just opened gives back the connections and channels of
    before. *)
Lemma close_just_opened b b' n chans :
  fresh b -> (calls b <= n)%nat ->
  open_conns b' = (open_conns b ++ [n])%list -> open_chans b' = (open_chans b ++ chans)%list ->
  Forall (fun ch => ch.1 = n) chans ->
  open_conns (close_conn n b') = open_conns b /\ open_chans (close_conn n b') = open_chans b.
Proof.
  intros [Hc Hh] Hn Ec Eh Hchans. simpl. rewrite Ec, Eh, !list.filter_app. split.
  - rewrite (list.filter_cons_False (fun c => c <> n)) by naive_solver. rewrite app_nil_r.
    apply filter_all. eapply list.Forall_impl; [exact Hc|]. simpl. lia.
  - rewrite filter_all by (eapply list.Forall_impl; [exact Hh|]; simpl; lia).
    assert (filter (fun ch => ch.1 <> n) chans = []) as ->; [|by rewrite app_nil_r].
    clear Eh. induction Hchans as [|ch chans Hch _ IH]; [done|].
    rewrite list.filter_cons_False by naive_solver. exact IH.
Qed.

Lemma close_chan_absent ch b : ch ∉ open_chans b -> open_chans (close_chan ch b) = open_chans b.
Proof.
  intros Hn. simpl. apply filter_all. apply Forall_forall. intros ch' Hin%list_elem_of_In. naive_solver.
Qed.

(** In whatever order the two are closed. *)
Lemma give_back b b3 n ch :
  fresh b -> (calls b <= n)%nat -> ch.1 = n ->
  open_conns b3 = (open_conns b ++ [n])%list -> open_chans b3 = (open_chans b ++ [ch])%list ->
  let b4 := close_conn n (tick (close_chan ch (tick b3))) in
  let b5 := close_chan ch (tick (close_conn n (tick b3))) in
  (open_conns b4 = open_conns b /\ open_chans b4 = open_chans b) /\
  (open_conns b5 = open_conns b /\ open_chans b5 = open_chans b).
Proof.
  intros Hfresh Hn Hch1 Ec Eh.
  assert (Hch : ch ∉ open_chans b).
  { destruct Hfresh as [_ Hh]. intros Hin. eapply list.Forall_forall in Hh; [|exact Hin]. simpl in Hh. lia. }
  split.
  - apply (close_just_opened b _ n []); [done|done|by simpl; rewrite Ec| |done].
    simpl. rewrite Eh, app_nil_r, list.filter_app, list.filter_cons_False by naive_solver.
    rewrite app_nil_r. apply filter_all, Forall_forall. intros ch' Hin%list_elem_of_In. naive_solver.
  - destruct (close_just_opened b (tick b3) n [ch]) as [Hc Hh];
      [done|done|by simpl; rewrite Ec|by simpl; rewrite Eh|by constructor|].
    split; [exact Hc|]. rewrite close_chan_absent; [exact Hh|].
    cbn [tick open_chans]. by rewrite Hh.
Qed.

(** C33 (safety): opening a client leaves nothing behind.  Whatever calls of the
    library fail: when [Open] returns an error, the connections and channels
    that are open are those that were open before; when it succeeds, one
    connection and one channel on it are added, the exchange, the queue and the
    binding are declared in this order, and confirmations are enabled on the
    channel; and [Close] then gives back both, even if it reports errors. *)
Theorem open_releases url t b :
  fresh b ->
  match Open url t b with
  | (Err _, b') => open_conns b' = open_conns b /\ open_chans b' = open_chans b
  | (Ok client, b') =>
      open_conns b' = (open_conns b ++ [connection client])%list /\
      open_chans b' = (open_chans b ++ [channel client])%list /\ (channel client).1 = connection client /\
      topology client = t /\ confirming b' = (confirming b ++ [channel client])%list /\
      declared b' = (declared b ++ ["exchange " +:+ Exchange t +:+ " direct"; "queue " +:+ Queue t;
        "bind " +:+ Queue t +:+ " " +:+ RoutingKey t +:+ " " +:+ Exchange t])%list /\
      open_conns (Close client b').2 = open_conns b /\ open_chans (Close client b').2 = open_chans b
  end.
Proof.
  intros Hfresh. set (n := calls b).
  set (b1 := set_open (open_conns b ++ [n])%list (open_chans b) (tick b)).
  set (ch := (n, S n)).
  set (b2 := set_open (open_conns b1) (open_chans b1 ++ [ch])%list (tick b1)).
  assert (Hback : forall b3, open_conns b3 = open_conns b2 -> open_chans b3 = open_chans b2 -> _)
    by (intros b3 Ec Eh; exact (give_back b b3 n ch Hfresh (le_n n) eq_refl Ec Eh)).
  unfold Open. rewrite Dial_spec. destruct (script b (calls b)) as [e|]; [done|]. fold n b1.
  rewrite Channel_spec. change (script b1 (calls b1)) with (script b (S n)).
  destruct (script b (S n)) as [e|].
  { rewrite ignore_close_conn. by apply (close_just_opened b _ n []);
      [done|done|done|simpl; rewrite app_nil_r|constructor]. }
  change (n, calls b1) with ch. fold b2. pose proof (declare_spec ch t b2) as Hd.
  destruct (declare ch t b2) as [[[]|e] b3].
  2: { destruct Hd as (Ec & Eh & _). rewrite ignore_close_conn, ignore_close_chan.
       exact (proj1 (Hback b3 Ec Eh)). }
  destruct Hd as ((Ec & Eh & Ef) & Hdecl). pose proof (Confirm_spec ch b3) as Hf.
  destruct (chan_Confirm ch false b3) as [[[]|e] b4].
  2: { destruct Hf as (Ec' & Eh' & _). rewrite ignore_close_conn, ignore_close_chan.
       destruct (Hback b4) as [Hb _]; [congruence..|exact Hb]. }
  destruct Hf as (Ec' & Eh' & Ed' & Ef'). rewrite Close_broker. cbn [connection channel topology].
  split_and!; [by rewrite Ec', Ec|by rewrite Eh', Eh|done|done|by rewrite Ef', Ef|by rewrite Ed', Hdecl|..].
  all: destruct (Hback b4) as [_ [Hc Hh]]; [congruence..|]; assumption.
Qed.

(** The queue cannot be declared. *)
Definition sample_broker : broker :=
  mkBroker (fun n => if (n =? 3)%nat then Some (Message "precondition failed") else None) 0 [] [] [] [].

Definition sample_topology : Topology := mkTopology "notifications" "notifications" "notification.ready".

Lemma open_releases_witness :
  (Open "amqp://" sample_topology sample_broker).1 =
    Err (Wrapped "declare queue" (Message "precondition failed")) /\
  open_conns (Open "amqp://" sample_topology sample_broker).2 = [].
Proof.
  split; [vm_compute; reflexivity|].
  refine (proj1 (open_releases "amqp://" sample_topology sample_broker _)). split; constructor.
Defined.
