(* ===== verification/Worker.v ===== *)
(** * The worker process (messaging/rabbitmq/consumer.go, app/bootstrap.go)

    Two goroutines joined by an unbuffered channel: the one that [Consume]
    starts checks the bodies that the library delivers, the worker's loop of
    [RunConfigured] handles one message at a time and settles it.  Deliveries,
    the loss of the connection and the cancellation come from outside. *)

From S2P Require Import Prelude GoTime GoStrings Notification Table Schema Store StoreSpec Delivery OutboxService Rabbit.

(** ** State *)

(** [amqp.Delivery]. *)
Record raw_delivery := mkRaw {
  DeliveryTag : nat;
  RawBody : string;
  RawRedelivered : bool;
}.

(** [rabbitmq.Delivery]. *)
Record consumed := mkConsumed {
  ConsumedMessage : OutboxMessage;
  ConsumedRedelivered : bool;
  ConsumedRaw : raw_delivery;
}.

(** How a delivery is settled: [Ack(false)], [Nack(false, requeue)],
    [Reject(false)]. *)
Inductive settlement := SettledAck | SettledNack (requeue : bool).

(** The consumer's goroutine: ranging over the deliveries, offering one to the
    worker, or finished, perhaps without having handed the last one over. *)
Inductive consumer_state :=
| Ranging
| Offering (delivery : consumed)
| ConsumerDone (left_over : option consumed).

(** The worker's loop: receiving, handling, or past the loop with the result
    that it has sent to [errChannel]; a panic ends the process. *)
Inductive worker_state :=
| Receiving
| Handling (delivery : consumed)
| WorkerDone (result : option error)
| Panicked (delivery : consumed).

Record process (W : Type) := mkProcess {
  received : list raw_delivery;
  incoming : list raw_delivery;
  library_closed : bool;
  ctx_err : option error;
  consumer : consumer_state;
  worker : worker_state;
  world : W;
  rejected : list raw_delivery;
  settled : list (consumed * settlement);
}.
Arguments mkProcess {W}.
Arguments received {W}. Arguments incoming {W}. Arguments library_closed {W}.
Arguments ctx_err {W}. Arguments consumer {W}. Arguments worker {W}.
Arguments world {W}. Arguments rejected {W}. Arguments settled {W}.

Section Worker.
Context {W : Type} (unmarshal : string -> option OutboxMessage)
        (Handle : OutboxMessage -> W -> option Disposition * W).

Definition initial_process (w : W) : process W :=
  mkProcess [] [] false None Ranging Receiving w [] [].

(** The [switch] on the disposition. *)
Definition settle (disposition : Disposition) : settlement :=
  match disposition with
  | Ack => SettledAck
  | Requeue => SettledNack true
  | Reject => SettledNack false
  end.

Definition with_consumer (c : consumer_state) (rest : list raw_delivery) (p : process W) : process W :=
  mkProcess (received p) rest (library_closed p) (ctx_err p) c (worker p) (world p) (rejected p) (settled p).

Definition with_worker (k : worker_state) (p : process W) : process W :=
  mkProcess (received p) (incoming p) (library_closed p) (ctx_err p) (consumer p) k (world p)
    (rejected p) (settled p).

Definition body_message (raw : raw_delivery) : option OutboxMessage := consume_body unmarshal (RawBody raw).

Inductive process_step (p : process W) : process W -> Prop :=
(* the library and the surroundings *)
| library_delivers raw :
    library_closed p = false ->
    process_step p (mkProcess (received p ++ [raw]) (incoming p ++ [raw]) false (ctx_err p) (consumer p)
                      (worker p) (world p) (rejected p) (settled p))
| library_closes :
    process_step p (mkProcess (received p) (incoming p) true (ctx_err p) (consumer p) (worker p)
                      (world p) (rejected p) (settled p))
| ctx_done e :
    ctx_err p = None ->
    process_step p (mkProcess (received p) (incoming p) (library_closed p) (Some e) (consumer p)
                      (worker p) (world p) (rejected p) (settled p))
| world_changes w :
    process_step p (mkProcess (received p) (incoming p) (library_closed p) (ctx_err p) (consumer p)
                      (worker p) w (rejected p) (settled p))
(* the goroutine of [Consume] *)
| consumer_rejects raw rest :
    consumer p = Ranging -> incoming p = raw :: rest -> body_message raw = None ->
    process_step p (mkProcess (received p) rest (library_closed p) (ctx_err p) Ranging (worker p)
                      (world p) (rejected p ++ [raw]) (settled p))
| consumer_offers raw rest message :
    consumer p = Ranging -> incoming p = raw :: rest -> body_message raw = Some message ->
    process_step p (with_consumer (Offering (mkConsumed message (RawRedelivered raw) raw)) rest p)
| consumer_cancelled delivery e :
    consumer p = Offering delivery -> ctx_err p = Some e ->
    process_step p (with_consumer (ConsumerDone (Some delivery)) (incoming p) p)
| consumer_ends :
    consumer p = Ranging -> incoming p = [] -> library_closed p = true ->
    process_step p (with_consumer (ConsumerDone None) [] p)
(* the worker's loop *)
| worker_receives delivery :
    consumer p = Offering delivery -> worker p = Receiving ->
    process_step p (with_worker (Handling delivery) (with_consumer Ranging (incoming p) p))
| worker_settles delivery disposition w' :
    worker p = Handling delivery ->
    Handle (ConsumedMessage delivery) (world p) = (Some disposition, w') ->
    process_step p (mkProcess (received p) (incoming p) (library_closed p) (ctx_err p) (consumer p)
                      Receiving w' (rejected p) (settled p ++ [(delivery, settle disposition)]))
| worker_panics delivery w' :
    worker p = Handling delivery -> Handle (ConsumedMessage delivery) (world p) = (None, w') ->
    process_step p (mkProcess (received p) (incoming p) (library_closed p) (ctx_err p) (consumer p)
                      (Panicked delivery) w' (rejected p) (settled p))
| worker_ends left_over :
    worker p = Receiving -> consumer p = ConsumerDone left_over ->
    process_step p (with_worker (WorkerDone (ctx_err p)) p).

Definition process_reachable (w : W) (p : process W) : Prop := rtc process_step (initial_process w) p.

(** ** The invariant *)

(** What the worker has taken, and what the consumer offers it. *)
Definition held (k : worker_state) : list consumed :=
  match k with Handling d | Panicked d => [d] | Receiving | WorkerDone _ => [] end.

Definition offered (c : consumer_state) : list consumed :=
  match c with Offering d => [d] | Ranging => [] | ConsumerDone o => option_list o end.

Definition decodable (raw : raw_delivery) : Prop := body_message raw <> None.

(** All messages past the check, in order. *)
Definition passed (p : process W) : list consumed :=
  ((settled p).*1 ++ held (worker p) ++ offered (consumer p))%list.

Record process_inv (p : process W) : Prop := {
  inv_passed :
    filter decodable (received p) = ((ConsumedRaw <$> passed p) ++ filter decodable (incoming p))%list;
  inv_rejected :
    filter (fun raw => ~ decodable raw) (received p) =
      (rejected p ++ filter (fun raw => ~ decodable raw) (incoming p))%list;
  inv_decoded : Forall (fun c => body_message (ConsumedRaw c) = Some (ConsumedMessage c)) (passed p);
  inv_settled : Forall (fun cs => exists disposition w w',
    Handle (ConsumedMessage cs.1) w = (Some disposition, w') /\ cs.2 = settle disposition) (settled p);
  inv_done : forall r, worker p = WorkerDone r -> exists left_over, consumer p = ConsumerDone left_over;
  inv_lost : ctx_err p = None -> forall left_over, consumer p = ConsumerDone left_over ->
    left_over = None /\ library_closed p = true /\ incoming p = [];
}.

Lemma process_inv_initial w : process_inv (initial_process w).
Proof. by constructor; try constructor. Qed.

Lemma filter_decodable_cons raw rest message :
  body_message raw = Some message ->
  filter decodable (raw :: rest) = raw :: filter decodable rest /\
  filter (fun raw => ~ decodable raw) (raw :: rest) = filter (fun raw => ~ decodable raw) rest.
Proof.
  intros Hm. assert (decodable raw) by (unfold decodable; congruence).
  split; [by rewrite list.filter_cons_True|rewrite list.filter_cons_False; tauto].
Qed.

Lemma filter_undecodable_cons raw rest :
  body_message raw = None ->
  filter decodable (raw :: rest) = filter decodable rest /\
  filter (fun raw => ~ decodable raw) (raw :: rest) = raw :: filter (fun raw => ~ decodable raw) rest.
Proof.
  intros Hm. assert (~ decodable raw) by (unfold decodable; tauto).
  by rewrite list.filter_cons_False, list.filter_cons_True.
Qed.

(** A step that moves no message. *)
Lemma process_inv_same p p' :
  process_inv p -> received p' = received p -> incoming p' = incoming p -> rejected p' = rejected p ->
  settled p' = settled p -> passed p' = passed p ->
  (forall r, worker p' = WorkerDone r -> exists left_over, consumer p' = ConsumerDone left_over) ->
  (ctx_err p' = None -> forall left_over, consumer p' = ConsumerDone left_over ->
    left_over = None /\ library_closed p' = true /\ incoming p' = []) ->
  process_inv p'.
Proof.
  intros [] Hr Hi Hj Hs Hp Hd Hl. constructor; [..|exact Hd|exact Hl]; by rewrite ?Hr, ?Hi, ?Hj, ?Hs, ?Hp.
Qed.

Lemma process_step_preserves p p' : process_step p p' -> process_inv p -> process_inv p'.
Proof.
  intros Hstep Hinv. pose proof Hinv as [Hpass Hrej Hdec Hset Hdone Hlost].
  destruct Hstep as [raw Hopen| |e He|w|raw rest Hc Hin Hm|raw rest message Hc Hin Hm|delivery e Hc He|Hc Hin Hcl
    |delivery Hc Hw|delivery disposition w' Hw Hrun|delivery w' Hw Hrun|left_over Hw Hc].
  - constructor; simpl; try done.
    + rewrite !list.filter_app, Hpass. unfold passed. simpl. by rewrite <- app_assoc.
    + by rewrite !list.filter_app, Hrej, <- app_assoc.
    + intros Hctx o Ho. destruct (Hlost Hctx o Ho) as (_ & Hcl & _). congruence.
  - apply (process_inv_same p); try done. intros Hctx o Ho. destruct (Hlost Hctx o Ho) as (-> & _ & ->). done.
  - by apply (process_inv_same p).
  - by apply (process_inv_same p).
  - destruct (filter_undecodable_cons raw rest Hm) as [Hf1 Hf2]. rewrite Hin in *.
    constructor; simpl; unfold passed in *; simpl; rewrite ?Hc in *; simpl in *; try done.
    + by rewrite Hpass, Hf1.
    + by rewrite Hrej, Hf2, <- app_assoc.
  - destruct (filter_decodable_cons raw rest message Hm) as [Hf1 Hf2]. rewrite Hin in *.
    constructor; simpl; unfold passed in *; simpl; rewrite ?Hc in *; simpl in *; try done.
    + rewrite Hpass, Hf1, !fmap_app, !app_nil_r. simpl. by rewrite <- !app_assoc.
    + by rewrite Hrej, Hf2.
    + rewrite app_nil_r in Hdec. rewrite !list.Forall_app in *. destruct Hdec as [? ?].
      split_and!; [done|done|by constructor].
    + intros r Hr. by destruct (Hdone r Hr) as [? ?].
  - apply (process_inv_same p); try done; simpl; [unfold passed; simpl; by rewrite Hc|eauto|congruence].
  - apply (process_inv_same p); try done; simpl; [unfold passed; simpl; by rewrite Hc|eauto|].
    intros _ o [= <-]. done.
  - apply (process_inv_same p); try done. unfold passed. simpl. by rewrite Hc, Hw.
  - constructor; simpl; unfold passed in *; simpl; rewrite ?Hw in *; simpl in *; try done.
    + rewrite Hpass, !fmap_app. simpl. by rewrite <- !app_assoc.
    + rewrite fmap_app, <- app_assoc. exact Hdec.
    + apply list.Forall_app. split; [done|]. constructor; [|constructor]. by exists disposition, (world p), w'.
  - apply (process_inv_same p); try done. unfold passed. simpl. by rewrite Hw.
  - apply (process_inv_same p); try done; [unfold passed; simpl; by rewrite Hw|eauto].
Qed.

(** The result that the loop sends: the error of the context, or none when the
    connection was lost with everything settled. *)
Definition exit_ok (p : process W) : Prop :=
  match worker p with
  | WorkerDone None => consumer p = ConsumerDone None /\ library_closed p = true /\ incoming p = []
  | WorkerDone (Some e) => ctx_err p = Some e
  | _ => True
  end.

Lemma process_step_exit p p' : process_step p p' -> process_inv p -> exit_ok p -> exit_ok p'.
Proof.
  intros Hstep Hinv. pose proof (inv_lost p Hinv) as Hlost. unfold exit_ok.
  destruct Hstep as [raw Hopen| |e He|w|raw rest Hc Hin Hm|raw rest message Hc Hin Hm|delivery e Hc He|Hc Hin Hcl
    |delivery Hc Hw|delivery disposition w' Hw Hrun|delivery w' Hw Hrun|left_over Hw Hc]; simpl.
  all: try (destruct (worker p) as [| |[e0|]|]; try done; naive_solver congruence).
  - intros _. destruct (ctx_err p) as [e|] eqn:He; [done|].
    destruct (Hlost eq_refl left_over Hc) as (-> & ? & ?). done.
Qed.

Lemma process_reachable_exit w p : process_reachable w p -> process_inv p /\ exit_ok p.
Proof.
  unfold process_reachable. intros Hr.
  assert (Hgo : forall p0 p1, rtc process_step p0 p1 -> process_inv p0 -> exit_ok p0 ->
    process_inv p1 /\ exit_ok p1).
  { induction 1; [done|]. eauto using process_step_preserves, process_step_exit. }
  eapply Hgo; [exact Hr|apply process_inv_initial|done].
Qed.
End Worker.

(** ** Correctness *)

Section WorkerDelivery.
Context {W : Type} `{DeliveryRepository W} `{DeliverySender W} `{CapacityLimiter W} `{DeliveryEnv W}.
Context (unmarshal : string -> option OutboxMessage) (leaseTTL : duration).

(** The call of the loop. *)
Definition worker_Handle (m : OutboxMessage) : W -> option Disposition * W :=
  Handle leaseTTL (mkMessage (MsgEventID m) (MsgNotificationID m)).

(** C13 (safety): a worker process loses no message.  At any moment the messages
    it was given, in the order in which they came, are those that it has
    settled, at most one that it is handling, at most one that waits for it,
    and those not read yet; only the undecodable ones are rejected.  A settled
    message was either put back into the queue or acknowledged, never
    discarded, and acknowledged only after the store had refused the claim of
    its task or had answered the call that stores its result. *)
Theorem no_message_lost w p :
  process_reachable unmarshal worker_Handle w p ->
  filter (decodable unmarshal) (received p) =
    ((ConsumedRaw <$> ((settled p).*1 ++ held (worker p) ++ offered (consumer p)))
     ++ filter (decodable unmarshal) (incoming p))%list /\
  filter (fun raw => ~ decodable unmarshal raw) (received p) =
    (rejected p ++ filter (fun raw => ~ decodable unmarshal raw) (incoming p))%list /\
  forall c s, (c, s) ∈ settled p ->
    consume_body unmarshal (RawBody (ConsumedRaw c)) = Some (ConsumedMessage c) /\
    (s = SettledNack true \/
     (s = SettledAck /\ settled_in_store (W := W) (MsgNotificationID (ConsumedMessage c)))).
Proof.
  intros Hr. destruct (process_reachable_exit _ _ _ _ Hr) as [[Hpass Hrej Hdec Hset _ _] _].
  split_and!; [done|done|]. intros c s Hin. split.
  - apply (list.Forall_forall _ _) with (x := c) in Hdec; [done|]. unfold passed.
    apply elem_of_app. left. apply list_elem_of_fmap. by exists (c, s).
  - apply (list.Forall_forall _ _) with (x := (c, s)) in Hset; [|done].
    destruct Hset as (disposition & w1 & w2 & Hrun & Hs). simpl in Hrun, Hs. subst s.
    unfold worker_Handle in Hrun. apply Handle_disposition in Hrun.
    destruct Hrun as [->|[-> Hstore]]; [by left|right]. done.
Qed.

(** How the worker's loop ends.  It sends the error of the
    context when the process is being stopped.  When it ends without that, the
    library has closed the deliveries, so the connection is gone: then it has
    settled or rejected everything it was given, and the result that it sends
    is nil. *)
Theorem worker_result w p r :
  process_reachable unmarshal worker_Handle w p -> worker p = WorkerDone r ->
  match r with
  | Some e => ctx_err p = Some e
  | None => library_closed p = true /\
      filter (decodable unmarshal) (received p) = ConsumedRaw <$> (settled p).*1 /\
      filter (fun raw => ~ decodable unmarshal raw) (received p) = rejected p
  end.
Proof.
  intros Hr Hw. destruct (process_reachable_exit _ _ _ _ Hr) as [[Hpass Hrej _ _ _ _] Hexit].
  unfold exit_ok, passed in *. rewrite Hw in *. destruct r as [e|]; [done|].
  destruct Hexit as (Hc & Hcl & Hin). rewrite Hc, Hin in *. simpl in *.
  by rewrite !app_nil_r in *.
Qed.
End WorkerDelivery.

(** ** Instances *)

Definition sample_unmarshal (body : string) : option OutboxMessage :=
  if bool_decide (body = "e1 n1"%string) then Some (mkOutboxMessage "e1" "n1") else None.

Definition bad_raw : raw_delivery := mkRaw 1 "{}" false.
Definition good_raw : raw_delivery := mkRaw 2 "e1 n1" false.

Definition sample_consumed : consumed := mkConsumed (mkOutboxMessage "e1" "n1") false good_raw.

Definition sample_world : Delivery.worker := start (sample_script busy_result) empty_db.

(** A message that nobody can decode, one whose task is gone, and then the
    connection breaks. *)
Definition sample_process : process Delivery.worker :=
  mkProcess [bad_raw; good_raw] [] true None (ConsumerDone None) (WorkerDone None)
    (worker_Handle Minute (mkOutboxMessage "e1" "n1") sample_world).2 [bad_raw]
    [(sample_consumed, SettledAck)].

#[local] Arguments worker_Handle : simpl never.

(** Take a step and compute the state it leads to. *)
Local Ltac take_step H := eapply rtc_l; [by apply H|simpl].

Lemma sample_process_reachable :
  process_reachable sample_unmarshal (worker_Handle Minute) sample_world sample_process.
Proof.
  unfold process_reachable, initial_process.
  take_step (library_delivers sample_unmarshal (worker_Handle Minute)
               (initial_process sample_world) bad_raw).
  take_step (library_delivers sample_unmarshal (worker_Handle Minute)
               (mkProcess [bad_raw] [bad_raw] false None Ranging Receiving sample_world [] []) good_raw).
  eapply rtc_l; [by apply (consumer_rejects _ _ _ bad_raw [good_raw])|simpl].
  eapply rtc_l; [by apply (consumer_offers _ _ _ good_raw [] (mkOutboxMessage "e1" "n1"))|].
  unfold with_consumer. simpl.
  eapply rtc_l; [by apply (worker_receives _ _ _ sample_consumed)|]. unfold with_worker, with_consumer. simpl.
  eapply rtc_l; [eapply (worker_settles _ _ _ sample_consumed Ack
    (worker_Handle Minute (mkOutboxMessage "e1" "n1") sample_world).2); [done|vm_compute; reflexivity]|simpl].
  eapply rtc_l; [by apply library_closes|simpl].
  eapply rtc_l; [by apply consumer_ends|]. unfold with_consumer. simpl.
  apply rtc_once. eapply (worker_ends _ _ (mkProcess _ _ _ _ _ _ _ _ _) None); done.
Qed.

Lemma no_message_lost_witness :
  settled sample_process = [(sample_consumed, SettledAck)] /\
  (SettledAck = SettledNack true \/
   SettledAck = SettledAck /\ settled_in_store (W := Delivery.worker) "n1").
Proof.
  split; [reflexivity|].
  refine (proj2 (proj2 (proj2 (no_message_lost sample_unmarshal Minute sample_world sample_process
    sample_process_reachable)) sample_consumed SettledAck _)).
  left.
Defined.

Lemma worker_result_witness : library_closed sample_process = true /\ rejected sample_process = [bad_raw].
Proof.
  destruct (worker_result sample_unmarshal Minute sample_world sample_process None
    sample_process_reachable eq_refl) as (Hclosed & _ & Hrejected).
  split; [exact Hclosed|]. rewrite <- Hrejected. vm_compute. reflexivity.
Defined.
