(* ===== verification/Supervisor.v ===== *)
(** * Supervision of roles (src/internal/app/app.go)

    [Run] starts one goroutine per role and waits until it is told to stop or a
    role returns; it then stops the claims of every role, cancels their
    context and drains them for a bounded time.  The caller, the goroutines and
    the surroundings are the actors of one step relation; a [select] with
    several ready cases may take any of them. *)

From S2P Require Import Prelude GoTime.

Implicit Types (err : option error) (n : nat).

(** ** State *)

(** A goroutine: inside [role.Run], sending its result, and past
    [workers.Done]. *)
Inductive role_state :=
| Running
| Sending err
| RoleDone err.

(** What made the first [select] of [Run] go on. *)
Inductive cause := ParentDone | RoleReturned err.

(** Where [Run] is: at the first [select], calling [StopClaims] of the role
    with the given index, before [cancel()], draining, or returned. *)
Inductive pc :=
| Waiting
| Stopping (next : nat) (why : cause)
| Cancelling (why : cause)
| Draining
| Returned err.

Inductive event := StopClaims (role : nat) | Cancel.

#[global] Instance event_eq_dec : EqDecision event.
Proof. solve_decision. Defined.

Record supervisor := mkSupervisor {
  parent_done : bool;
  roles : list role_state;
  errorsChannel : list (option error);
  sup_pc : pc;
  sup_log : list event;
}.

(** [Run] after it has started its goroutines. *)
Definition start n : supervisor := mkSupervisor false (replicate n Running) [] Waiting [].

Definition set_role (i : nat) (r : role_state) (s : supervisor) : supervisor :=
  mkSupervisor (parent_done s) (<[i := r]> (roles s)) (errorsChannel s) (sup_pc s) (sup_log s).

Definition goto (p : pc) (s : supervisor) : supervisor :=
  mkSupervisor (parent_done s) (roles s) (errorsChannel s) p (sup_log s).

Definition record_event (e : event) (s : supervisor) : supervisor :=
  mkSupervisor (parent_done s) (roles s) (errorsChannel s) (sup_pc s) (sup_log s ++ [e]).

(** [shutdownTimeout] as [Run] uses it. *)
Definition effective_timeout (shutdownTimeout : duration) : duration :=
  if shutdownTimeout <=? 0 then 10 * Second else shutdownTimeout.

Definition role_done (r : role_state) : bool :=
  match r with RoleDone _ => true | _ => false end.

(** [err != nil && !errors.Is(err, context.Canceled)]. *)
Definition fatal err : option error :=
  match err with
  | Some e => if errors_Is e ContextCanceled then None else Some e
  | None => None
  end.

(** Where [Run] goes after [cancel()]. *)
Definition after_cancel (why : cause) : pc :=
  match why with
  | ParentDone => Draining
  | RoleReturned err =>
      match fatal err with
      | Some e => Returned (Some (Wrapped "role failed" e))
      | None => Draining
      end
  end.

(** ** Steps *)

Section Supervisor.

(** [fmt.Errorf("graceful shutdown exceeded %s", shutdownTimeout)]. *)
Context (exceeded : duration -> error) (shutdownTimeout : duration).

Inductive sup_step (s : supervisor) : supervisor -> Prop :=
(* the surroundings *)
| parent_cancelled :
    parent_done s = false ->
    sup_step s (mkSupervisor true (roles s) (errorsChannel s) (sup_pc s) (sup_log s))
(* the goroutines: [errorsChannel <- role.Run(ctx)], a channel with room for
   one result of each role, then [workers.Done()] *)
| role_returns i err :
    roles s !! i = Some Running -> sup_step s (set_role i (Sending err) s)
| role_sends i err :
    roles s !! i = Some (Sending err) ->
    (length (errorsChannel s) < length (roles s))%nat ->
    sup_step s (mkSupervisor (parent_done s) (<[i := RoleDone err]> (roles s))
                  (errorsChannel s ++ [err]) (sup_pc s) (sup_log s))
(* [Run] *)
| select_parent :
    sup_pc s = Waiting -> parent_done s = true -> sup_step s (goto (Stopping 0 ParentDone) s)
| select_error err rest :
    sup_pc s = Waiting -> errorsChannel s = err :: rest ->
    sup_step s (mkSupervisor (parent_done s) (roles s) rest (Stopping 0 (RoleReturned err)) (sup_log s))
| stop_claims i why :
    sup_pc s = Stopping i why -> (i < length (roles s))%nat ->
    sup_step s (record_event (StopClaims i) (goto (Stopping (S i) why) s))
| stopped_claims i why :
    sup_pc s = Stopping i why -> (length (roles s) <= i)%nat ->
    sup_step s (goto (Cancelling why) s)
| cancel why :
    sup_pc s = Cancelling why ->
    sup_step s (record_event Cancel (goto (after_cancel why) s))
| drained :
    sup_pc s = Draining -> forallb role_done (roles s) = true ->
    sup_step s (goto (Returned None) s)
| timed_out :
    sup_pc s = Draining ->
    sup_step s (goto (Returned (Some (exceeded (effective_timeout shutdownTimeout)))) s).

Definition sup_reachable n (s : supervisor) : Prop := rtc sup_step (start n) s.

(** ** The invariant *)

(** The results sent are those in the channel and the one [Run] has taken. *)
Definition taken (p : pc) : nat :=
  match p with
  | Stopping _ (RoleReturned _) | Cancelling (RoleReturned _) => 1
  | _ => 0
  end.

Definition logged n (p : pc) : list event :=
  match p with
  | Waiting => []
  | Stopping i _ => StopClaims <$> seq 0 i
  | Cancelling _ => StopClaims <$> seq 0 n
  | Draining | Returned _ => (StopClaims <$> seq 0 n) ++ [Cancel]
  end.

(** The result that stopped [Run] comes from a role. *)
Definition from_role err (s : supervisor) : Prop := RoleDone err ∈ roles s.

Definition pc_ok (s : supervisor) : Prop :=
  match sup_pc s with
  | Waiting | Draining => True
  | Stopping i why =>
      (i <= length (roles s))%nat /\
      match why with ParentDone => True | RoleReturned err => from_role err s end
  | Cancelling why => match why with ParentDone => True | RoleReturned err => from_role err s end
  | Returned None => forallb role_done (roles s) = true
  | Returned (Some e) =>
      e = exceeded (effective_timeout shutdownTimeout) \/
      exists e', e = Wrapped "role failed" e' /\ errors_Is e' ContextCanceled = false /\
        from_role (Some e') s
  end.

Record sup_inv n (s : supervisor) : Prop := {
  inv_roles : length (roles s) = n;
  inv_sent : (length (errorsChannel s) + taken (sup_pc s) <= length (filter role_done (roles s)))%nat;
  inv_errors : forall err, err ∈ errorsChannel s -> from_role err s;
  inv_log : sup_log s = logged n (sup_pc s);
  inv_pc : pc_ok s;
}.

Lemma filter_insert_done (l : list role_state) i r r' :
  l !! i = Some r -> role_done r = false ->
  length (filter role_done (<[i := r']> l)) =
    (length (filter role_done l) + if role_done r' then 1 else 0)%nat.
Proof.
  revert i. induction l as [|x l IH]; intros [|i] Hi Hr; simplify_eq/=.
  - rewrite !filter_cons. rewrite Hr. simpl. destruct (role_done r'); simpl; lia.
  - rewrite !filter_cons. destruct (role_done x); simpl; rewrite (IH i) by done; lia.
Qed.

Lemma from_role_insert err s i r r' :
  roles s !! i = Some r -> role_done r = false -> from_role err s ->
  RoleDone err ∈ <[i := r']> (roles s).
Proof.
  unfold from_role. intros Hi Hr Hin. apply list_elem_of_lookup in Hin as [j Hj].
  apply list_elem_of_lookup. exists j. rewrite list_lookup_insert_ne; [done|]. intros ->.
  by simplify_eq/=.
Qed.

Lemma sup_inv_start n : sup_inv n (start n).
Proof.
  constructor; simpl; [by rewrite length_replicate|lia|set_solver|done|done].
Qed.

Lemma from_role_keep err s i r r' errs p l :
  roles s !! i = Some r -> role_done r = false -> from_role err s ->
  from_role err (mkSupervisor (parent_done s) (<[i := r']> (roles s)) errs p l).
Proof. intros. by eapply from_role_insert. Qed.

(** A step of a goroutine keeps what is known about the rest. *)
Lemma pc_ok_role s i r r' errs :
  roles s !! i = Some r -> role_done r = false -> pc_ok s ->
  pc_ok (mkSupervisor (parent_done s) (<[i := r']> (roles s)) errs (sup_pc s) (sup_log s)).
Proof.
  intros Hi Hr. unfold pc_ok. simpl. rewrite length_insert.
  destruct (sup_pc s) as [|k [|err]|[|err]| |[e|]]; try done.
  - intros [Hk Herr]. split; [done|]. by eapply from_role_keep.
  - intros Herr. by eapply from_role_keep.
  - intros [->|(e' & -> & Hf & Herr)]; [by left|right]. exists e'. split_and!; [done..|].
    by eapply from_role_keep.
  - intros Hall. exfalso. apply forallb_forall with (x := r) in Hall; [congruence|].
    apply list_elem_of_In. by eapply list_elem_of_lookup_2.
Qed.

Lemma after_cancel_ok s why log :
  match why with ParentDone => True | RoleReturned err => from_role err s end ->
  pc_ok (mkSupervisor (parent_done s) (roles s) (errorsChannel s) (after_cancel why) log).
Proof.
  destruct why as [|[e|]]; simpl; intros Hrole; [done| |done].
  unfold pc_ok, after_cancel, fatal. simpl.
  destruct (errors_Is e ContextCanceled) eqn:He; [done|]. right. by exists e.
Qed.

Lemma logged_after_cancel n why : logged n (after_cancel why) = (StopClaims <$> seq 0 n) ++ [Cancel].
Proof. destruct why as [|err]; [done|]. simpl. by destruct (fatal err). Qed.

Lemma logged_stop n i why why' :
  logged n (Stopping (S i) why) = logged n (Stopping i why') ++ [StopClaims i].
Proof. unfold logged. by rewrite seq_S, fmap_app. Qed.

Lemma taken_after_cancel why : taken (after_cancel why) = 0%nat.
Proof. destruct why as [|err]; [done|]. simpl. by destruct (fatal err). Qed.

Lemma sup_step_preserves n s s' : sup_step s s' -> sup_inv n s -> sup_inv n s'.
Proof.
  intros Hstep [Hlen Hsent Herrs Hlog Hpc].
  destruct Hstep as [|i err Hi|i err Hi Hroom|Hp|err rest Hp He|i why Hp Hi|i why Hp Hi|why Hp|Hp Hd|Hp];
    [by constructor|..].
  - constructor; simpl; rewrite ?length_insert; try done.
    + rewrite (filter_insert_done _ _ _ _ Hi) by done. simpl. lia.
    + intros err' Hin. eapply from_role_insert; [done|done|]. by apply Herrs.
    + by eapply pc_ok_role.
  - constructor; simpl; rewrite ?length_insert; try done.
    + rewrite (filter_insert_done _ _ _ _ Hi), length_app by done. simpl. lia.
    + intros err' [Hin| ->%list_elem_of_singleton]%elem_of_app.
      * eapply from_role_insert; [done|done|]. by apply Herrs.
      * unfold from_role. simpl. apply list_elem_of_lookup. exists i.
        apply list_lookup_insert_eq. by eapply lookup_lt_Some.
    + by eapply pc_ok_role.
  - constructor; simpl; rewrite ?Hp in *; simpl in *; try done. split; [lia|done].
  - constructor; simpl; rewrite ?Hp, ?He in *; simpl in *; try done; [lia|..].
    + intros err' Hin. apply Herrs. by right.
    + split; [lia|]. apply Herrs. left.
  - constructor; unfold pc_ok in *; cbn [roles errorsChannel sup_pc sup_log record_event goto];
      rewrite ?Hp in *; try done.
    + by rewrite Hlog, (logged_stop _ _ _ why).
    + destruct Hpc as [_ Hpc]. split; [lia|done].
  - constructor; simpl; unfold pc_ok in *; rewrite ?Hp in *; simpl in *; try done.
    + destruct Hpc as [Hpc _]. rewrite Hlog. do 2 f_equal. lia.
    + by destruct Hpc.
  - constructor; simpl; try done.
    + rewrite taken_after_cancel. lia.
    + by rewrite logged_after_cancel, Hlog, Hp.
    + apply after_cancel_ok. unfold pc_ok in Hpc. by rewrite Hp in Hpc.
  - constructor; simpl; rewrite ?Hp in *; simpl in *; done.
  - constructor; simpl; rewrite ?Hp in *; simpl in *; try done. by left.
Qed.

Lemma sup_reachable_inv n s : sup_reachable n s -> sup_inv n s.
Proof.
  intros Hr. unfold sup_reachable in Hr.
  enough (H : forall s0 s1, rtc sup_step s0 s1 -> sup_inv n s0 -> sup_inv n s1)
    by (eapply H; [exact Hr|apply sup_inv_start]).
  induction 1; [done|]. intros. eauto using sup_step_preserves.
Qed.

(** ** Termination *)

Definition role_weight (r : role_state) : nat :=
  match r with Running => 2 | Sending _ => 1 | RoleDone _ => 0 end.

(** The steps that are left: of the surroundings, the goroutines, and [Run]. *)
Definition measure n (s : supervisor) : nat :=
  (if parent_done s then 0 else 1) + sum_list_with role_weight (roles s) +
  match sup_pc s with
  | Waiting => n + 4
  | Stopping i _ => n - i + 3
  | Cancelling _ => 2
  | Draining => 1
  | Returned _ => 0
  end.

Lemma sum_weight_insert (l : list role_state) i r r' :
  l !! i = Some r ->
  (sum_list_with role_weight (<[i := r']> l) + role_weight r =
   sum_list_with role_weight l + role_weight r')%nat.
Proof.
  revert i. induction l as [|x l IH]; intros [|i] Hi; simplify_eq/=; [lia|].
  specialize (IH i Hi). lia.
Qed.

Lemma sup_step_measure n s s' :
  length (roles s) = n -> sup_step s s' -> (measure n s' < measure n s)%nat.
Proof.
  intros Hlen Hstep. unfold measure.
  destruct Hstep as [Hp|i err Hi|i err Hi Hroom|Hp|err rest Hp He|i why Hp Hi|i why Hp Hi|why Hp|Hp Hd|Hp];
    simpl; rewrite ?Hp; try lia.
  - pose proof (sum_weight_insert _ _ _ (Sending err) Hi). simpl in *. lia.
  - pose proof (sum_weight_insert _ _ _ (RoleDone err) Hi). simpl in *. lia.
  - destruct why as [|err]; simpl; [lia|]. destruct (fatal err); lia.
Qed.

Lemma sup_nsteps_measure n k s s' :
  nsteps sup_step k s s' -> sup_inv n s -> (k + measure n s' <= measure n s)%nat.
Proof.
  induction 1 as [s|k s s1 s' Hstep _ IH]; intros Hinv; [lia|].
  pose proof (sup_step_measure n s s1 (inv_roles _ _ Hinv) Hstep).
  specialize (IH (sup_step_preserves _ _ _ Hstep Hinv)). lia.
Qed.

Lemma sum_weight_start n : sum_list_with role_weight (replicate n Running) = (2 * n)%nat.
Proof. induction n as [|n IH]; simpl; lia. Qed.

(** A goroutine with a result can always send it: the channel has room for all
    of them, whether or not [Run] still receives. *)
Lemma send_never_blocks n s i err :
  sup_inv n s -> roles s !! i = Some (Sending err) ->
  (length (errorsChannel s) < length (roles s))%nat.
Proof.
  intros Hinv Hi. pose proof (inv_sent _ _ Hinv) as Hsent.
  enough (length (filter role_done (roles s)) < length (roles s))%nat by lia.
  pose proof (filter_insert_done (roles s) i _ (RoleDone err) Hi eq_refl) as Hins.
  pose proof (length_filter role_done (<[i := RoleDone err]> (roles s))) as Hle.
  rewrite length_insert in Hle. simpl in Hins. lia.
Qed.

(** ** Correctness *)

(** C23 (functional): what the supervisor promises when it returns.  It has
    called [StopClaims] of every role, each once and in their order, and
    cancelled their context after that, before it returns.  It returns nil only
    when every role has returned; ["role failed"] only with an error that a
    role returned, other than a cancellation; and otherwise that the drain
    exceeded its time, which is ten seconds unless a positive one is given. *)
Theorem supervisor_result n s r :
  sup_reachable n s -> sup_pc s = Returned r ->
  sup_log s = (StopClaims <$> seq 0 n) ++ [Cancel] /\
  match r with
  | None => length (roles s) = n /\ forall i role, roles s !! i = Some role -> role_done role = true
  | Some e =>
      e = exceeded (if shutdownTimeout <=? 0 then 10 * Second else shutdownTimeout) \/
      exists i e', roles s !! i = Some (RoleDone (Some e')) /\
        errors_Is e' ContextCanceled = false /\ e = Wrapped "role failed" e'
  end.
Proof.
  intros Hr Hp. destruct (sup_reachable_inv _ _ Hr) as [Hlen _ _ Hlog Hpc].
  unfold pc_ok in Hpc. rewrite Hp in *. split; [done|].
  destruct r as [e|].
  - destruct Hpc as [->|(e' & -> & Hf & Hin)]; [by left|right].
    apply list_elem_of_lookup in Hin as [i Hi]. by exists i, e'.
  - split; [done|]. intros i role Hi. eapply forallb_forall; [exact Hpc|].
    apply list_elem_of_In. by eapply list_elem_of_lookup_2.
Qed.

(** C22 (termination): the supervisor never hangs.  Every run of it, with [n]
    roles that return when they like or never, ends after at most [3n+5] steps
    of all actors; no goroutine is ever left blocked on sending its result; and
    once it is asked to stop or has a result, some step of [Run] itself is
    possible until it has returned, whatever the roles do. *)
Theorem supervisor_terminates n k s :
  nsteps sup_step k (start n) s ->
  (k <= 3 * n + 5)%nat /\
  (forall i err, roles s !! i = Some (Sending err) -> exists s', sup_step s s' /\
     roles s' !! i = Some (RoleDone err)) /\
  (parent_done s = true \/ errorsChannel s <> [] \/ sup_pc s <> Waiting ->
     (exists r, sup_pc s = Returned r) \/
     exists s', sup_step s s' /\ sup_pc s' <> sup_pc s).
Proof.
  intros Hn. pose proof (sup_nsteps_measure n k _ _ Hn (sup_inv_start n)) as Hk.
  assert (Hinv : sup_inv n s) by (apply sup_reachable_inv; by eapply rtc_nsteps_2).
  split_and!.
  - unfold measure in Hk. simpl in Hk. rewrite sum_weight_start in Hk. lia.
  - intros i err Hi. eexists. split.
    + apply (role_sends s i err Hi). by eapply send_never_blocks.
    + simpl. apply list_lookup_insert_eq. by eapply lookup_lt_Some.
  - intros Hgo. destruct (sup_pc s) as [|i why|why| |r] eqn:Hp; [| | | |by eauto]; right.
    + destruct (parent_done s) eqn:Hd; [eexists; split; [by apply select_parent|done]|].
      destruct (errorsChannel s) as [|err rest] eqn:He; [naive_solver|].
      eexists. split; [by apply (select_error s err rest)|done].
    + destruct (decide (i < length (roles s))%nat).
      * eexists. split; [by apply (stop_claims s i why)|]. simpl. intros [=]. lia.
      * eexists. split; [apply (stopped_claims s i why); [done|lia]|done].
    + eexists. split; [by apply (cancel s why)|]. simpl.
      destruct why as [|err]; simpl; [done|]. by destruct (fatal err).
    + eexists. split; [by apply timed_out|done].
Qed.
End Supervisor.

(** ** Instances *)

(** A role fails, the other one is stopped. *)
Definition sample_failed : supervisor :=
  mkSupervisor false [RoleDone (Some (Message "boom")); Running] []
    (Returned (Some (Wrapped "role failed" (Message "boom"))))
    [StopClaims 0; StopClaims 1; Cancel].

Definition sample_exceeded (d : duration) : error := Message "graceful shutdown exceeded".

Lemma sample_failed_steps : nsteps (sup_step sample_exceeded 0) 7 (start 2) sample_failed.
Proof.
  eapply nsteps_l; [by apply (role_returns _ _ _ 0 (Some (Message "boom")))|].
  eapply nsteps_l; [apply (role_sends _ _ _ 0 (Some (Message "boom"))); simpl; [done|lia]|].
  eapply nsteps_l; [by apply (select_error _ _ _ (Some (Message "boom")) [])|].
  eapply nsteps_l; [apply (stop_claims _ _ _ 0); simpl; [done|lia]|].
  eapply nsteps_l; [apply (stop_claims _ _ _ 1); simpl; [done|lia]|].
  eapply nsteps_l; [apply (stopped_claims _ _ _ 2); simpl; [done|lia]|].
  eapply nsteps_l; [by apply (cancel _ _ _ (RoleReturned (Some (Message "boom"))))|].
  apply nsteps_O.
Qed.

Lemma supervisor_result_witness :
  sup_log sample_failed = [StopClaims 0; StopClaims 1; Cancel].
Proof.
  refine (proj1 (supervisor_result sample_exceeded 0 2 sample_failed _ _ eq_refl)).
  eapply rtc_nsteps_2, sample_failed_steps.
Defined.

Lemma supervisor_terminates_witness : (7 <= 3 * 2 + 5)%nat.
Proof. exact (proj1 (supervisor_terminates sample_exceeded 0 2 7 sample_failed sample_failed_steps)). Defined.
