(* ===== verification/Observability.v ===== *)
(** * Observability (src/internal/observability)

    The role-aware health endpoint ([health.go]), the redacting handler of
    [log/slog] ([logging.go]) and the counters ([metrics.go]).  A Prometheus
    counter is its value; the exposition format is outside. *)

From S2P Require Import Prelude GoTime GoStrings Notification.

Open Scope string_scope.
Open Scope Z_scope.

(** ** health.go *)

(** A [Check]; [None] in [Checks] is the nil function. *)
Definition Check (W : Type) : Type := W -> option error * W.

Record Checks (W : Type) := mkChecks {
  check_Postgres : option (Check W);
  check_RabbitMQ : option (Check W);
  check_Destinations : option (Check W);
}.
Arguments mkChecks {W}.
Arguments check_Postgres {W}.
Arguments check_RabbitMQ {W}.
Arguments check_Destinations {W}.

Section Health.
Context {W : Type}.

Definition one_of (role : string) (l : list string) : bool := bool_decide (role ∈ l).

(** The checks of [/readyz] for a role. *)
Definition required (role : string) (checks : Checks W) : list (option (Check W)) :=
  ([check_Postgres checks]
   ++ (if one_of role ["publisher"; "worker"; "all"] then [check_RabbitMQ checks] else [])
   ++ (if one_of role ["api"; "worker"; "all"] then [check_Destinations checks] else []))%list.

(** The loop over them: the first that is nil or fails ends it. *)
Fixpoint all_pass (l : list (option (Check W))) (w : W) : bool * W :=
  match l with
  | [] => (true, w)
  | None :: _ => (false, w)
  | Some check :: rest =>
      match check w with
      | (Some _, w) => (false, w)
      | (None, w) => all_pass rest w
      end
  end.

(** The status code and the ["status"] of the body, if it is a JSON object. *)
Definition ServeHealth (role : string) (checks : Checks W) (path : string) (w : W)
    : (Z * option string) * W :=
  if bool_decide (path = "/livez") then ((200, Some "ok"), w)
  else if negb (bool_decide (path = "/readyz")) then ((404, None), w)
  else
    match all_pass (required role checks) w with
    | (true, w) => ((200, Some "ready"), w)
    | (false, w) => ((503, Some "not_ready"), w)
    end.
End Health.

(** ** logging.go *)

(** [slog.Value]: a group, a [LogValuer] with the value it resolves to, or any
    other kind, by its text. *)
Inductive value :=
| VText (text : string)
| VGroup (attributes : list (string * value))
| VLogValuer (resolved : value).

Abbreviation Attr := (string * value)%type (only parsing).

Definition is_empty_group (v : value) : bool := match v with VGroup [] => true | _ => false end.

(** [slog.GroupValue] and [Record.AddAttrs] leave out empty groups. *)
Definition without_empty (l : list Attr) : list Attr :=
  filter (fun a => is_empty_group a.2 = false) l.

(** [strings.Contains]. *)
Fixpoint Contains (s substr : string) : bool :=
  String.prefix substr s || match s with EmptyString => false | String _ s => Contains s substr end.

Section Redact.
Context (unicode_ToLower : Z -> Z).

Definition strings_ToLower (s : string) : string := strings_Map unicode_ToLower s.

Definition fragments : list string :=
  ["authorization"; "token"; "secret"; "password"; "body"; "payload"].

(** Whether [redact] hides the attribute of a key. *)
Definition sensitive (key : string) : bool :=
  existsb (Contains (strings_ToLower key)) fragments.

(** [redact]: the value that the attribute [key] gets.  It overwrites the
    children of a group in place before it copies them ([left_behind]). *)
Fixpoint redact_value (key : string) (v : value) : value :=
  if sensitive key then VText "[REDACTED]"
  else
    match v with
    | VGroup children =>
        VGroup (without_empty (map (fun child => (child.1, redact_value child.1 child.2)) children))
    | _ => v
    end.

Definition redact (attribute : Attr) : Attr := (attribute.1, redact_value attribute.1 attribute.2).

(** What the caller's own attribute holds after [redact]: the elements of the
    slice of a group that was not hidden have been replaced. *)
Definition left_behind (attribute : Attr) : Attr :=
  if sensitive attribute.1 then attribute
  else match attribute.2 with
       | VGroup children => (attribute.1, VGroup (map redact children))
       | _ => attribute
       end.
End Redact.

(** [slog.Record] without the program counter. *)
Record log_record := mkLogRecord {
  rec_time : time;
  rec_level : Z;
  rec_message : string;
  rec_attrs : list (string * value);
}.

(** [slog.Handler], with the handlers it derives. *)
Class Handler (H : Type) := {
  h_Enabled : Z -> H -> bool;
  h_Handle : log_record -> H -> option error * H;
  h_WithAttrs : list (string * value) -> H -> H;
  h_WithGroup : string -> H -> H;
}.

Record redactingHandler (H : Type) := mkRedactingHandler { next : H }.
Arguments mkRedactingHandler {H}.
Arguments next {H}.

#[global] Instance redacting_Handler (unicode_ToLower : Z -> Z) {H} `{Handler H} :
  Handler (redactingHandler H) := {|
  h_Enabled level handler := h_Enabled level (next handler);
  h_Handle record handler :=
    let copy := mkLogRecord (rec_time record) (rec_level record) (rec_message record)
                  (without_empty (map (redact unicode_ToLower) (rec_attrs record))) in
    let '(err, n) := h_Handle copy (next handler) in (err, mkRedactingHandler n);
  h_WithAttrs attributes handler :=
    mkRedactingHandler (h_WithAttrs (map (redact unicode_ToLower) attributes) (next handler));
  h_WithGroup name handler := mkRedactingHandler (h_WithGroup name (next handler));
|}.

(** ** metrics.go *)

Record Metrics := mkMetrics {
  Accepted : gmap string Z;
  OutboxPublish : gmap string Z;
  DeliveryAttempts : gmap string Z;
  DeadCounter : Z;
  RetryScheduled : Z;
  RecoveredLeasesCounter : Z;
}.

Definition NewMetrics : Metrics := mkMetrics ∅ ∅ ∅ 0 0 0.

(** [WithLabelValues(label).Inc()]: the counter of a label starts at zero. *)
Definition inc (label : string) (m : gmap string Z) : gmap string Z :=
  <[label := default 0 (m !! label) + 1]> m.

Definition ObserveIntake (outcome : string) (m : Metrics) : Metrics :=
  mkMetrics (inc outcome (Accepted m)) (OutboxPublish m) (DeliveryAttempts m) (DeadCounter m)
    (RetryScheduled m) (RecoveredLeasesCounter m).

Definition ObserveOutboxPublish (outcome : string) (m : Metrics) : Metrics :=
  mkMetrics (Accepted m) (inc outcome (OutboxPublish m)) (DeliveryAttempts m) (DeadCounter m)
    (RetryScheduled m) (RecoveredLeasesCounter m).

Definition ObserveDelivery (outcome : string) (m : Metrics) : Metrics :=
  mkMetrics (Accepted m) (OutboxPublish m) (inc outcome (DeliveryAttempts m))
    (if bool_decide (outcome = "dead") then DeadCounter m + 1 else DeadCounter m)
    (RetryScheduled m) (RecoveredLeasesCounter m).

Definition ObserveSchedule (result : ScheduleResult) (m : Metrics) : Metrics :=
  mkMetrics (Accepted m) (OutboxPublish m) (DeliveryAttempts m)
    (DeadCounter m + Dead result)
    (RetryScheduled m + Scheduled result)
    (RecoveredLeasesCounter m + RecoveredLeases result).

(** ** What a handler can print *)

(** The texts of a value, each with the keys that lead to it; values that
    resolve themselves are resolved by the handler that prints them. *)
Fixpoint leaves (v : value) : list (list string * string) :=
  match v with
  | VText text => [([], text)]
  | VGroup children =>
      concat (map (fun child => map (fun l => (child.1 :: l.1, l.2)) (leaves child.2)) children)
  | VLogValuer resolved => leaves resolved
  end.

Definition attr_leaves (l : list Attr) : list (list string * string) := leaves (VGroup l).

(** A printed attribute: the groups that [WithGroup] has opened, its keys, and
    its text. *)
Record printed := mkPrinted { in_groups : list string; keys : list string; text : string }.

Definition print_attrs (groups : list string) (l : list Attr) : list printed :=
  map (fun leaf => mkPrinted groups leaf.1 leaf.2) (attr_leaves l).

(** A handler of the standard library: the groups that are open, the
    attributes printed with every record, and the lines written. *)
Record std_handler := mkStdHandler {
  std_groups : list string;
  std_attrs : list printed;
  std_lines : list (string * list printed);
}.

#[global] Instance std_Handler : Handler std_handler := {|
  h_Enabled _ _ := true;
  h_Handle record h :=
    (None, mkStdHandler (std_groups h) (std_attrs h)
       (std_lines h ++ [(rec_message record, std_attrs h ++ print_attrs (std_groups h) (rec_attrs record))])%list);
  h_WithAttrs l h :=
    mkStdHandler (std_groups h) (std_attrs h ++ print_attrs (std_groups h) l)%list (std_lines h);
  h_WithGroup name h := mkStdHandler (std_groups h ++ [name])%list (std_attrs h) (std_lines h);
|}.

(** How loggers are derived from one another. *)
Inductive derivation := WithAttrs (attributes : list (string * value)) | WithGroup (name : string).

Definition derive {H} `{Handler H} (h : H) (d : derivation) : H :=
  match d with WithAttrs l => h_WithAttrs l h | WithGroup name => h_WithGroup name h end.

(** The attributes of the line that a derived logger writes for a record. *)
Definition written (groups : list string) (ds : list derivation) (attributes : list (string * value))
    : list printed :=
  let h := foldl derive (mkStdHandler groups [] []) ds in
  (std_attrs h ++ print_attrs (std_groups h) attributes)%list.

(** ** Redaction *)

(** Values whose text is known when the record is handled. *)
Fixpoint resolved (v : value) : bool :=
  match v with
  | VText _ => true
  | VGroup children => forallb (fun child => resolved child.2) children
  | VLogValuer _ => false
  end.

Lemma value_induction (P : value -> Prop) :
  (forall t, P (VText t)) ->
  (forall children, Forall (fun child => P child.2) children -> P (VGroup children)) ->
  (forall v, P v -> P (VLogValuer v)) ->
  forall v, P v.
Proof.
  intros Ht Hg Hl. fix IH 1. intros [t|children|v]; [apply Ht| |apply Hl, IH].
  apply Hg. induction children as [|[k v] children IHc]; constructor; [apply IH|exact IHc].
Qed.

Section Redaction.
Context (unicode_ToLower : Z -> Z).

Local Abbreviation sensitive := (sensitive unicode_ToLower).
Local Abbreviation redact_value := (redact_value unicode_ToLower).
Local Abbreviation redact := (redact unicode_ToLower).

Definition hidden (path : list string) : bool := existsb sensitive path.

Lemma leaves_without_empty children : leaves (VGroup (without_empty children)) = leaves (VGroup children).
Proof.
  induction children as [|[k v] children IH]; [done|]. unfold without_empty.
  rewrite filter_cons. case_decide as Hv.
  - cbn [leaves map concat] in *. f_equal. exact IH.
  - cbn [leaves map concat] in *. fold (without_empty children). rewrite IH.
    destruct v as [|[|]|]; done.
Qed.

Lemma leaves_redacted_group k children :
  sensitive k = false ->
  leaves (redact_value k (VGroup children)) = leaves (VGroup (map redact children)).
Proof. intros Hk. cbn [Observability.redact_value]. rewrite Hk. apply leaves_without_empty. Qed.

Lemma elem_of_group_leaves path t children :
  (path, t) ∈ leaves (VGroup children) <->
  exists k v path', (k, v) ∈ children /\ path = k :: path' /\ (path', t) ∈ leaves v.
Proof.
  induction children as [|[k v] children IH]; cbn [leaves map concat].
  - split; [by intros ?%not_elem_of_nil|]. intros (k & v & p & []%not_elem_of_nil & _).
  - rewrite elem_of_app, (list_elem_of_fmap _ (leaves v)). cbn [leaves] in IH. rewrite IH. split.
    + intros [([p t'] & [= -> ->] & Hin)|(k' & v' & p & Hin & -> & Hp)].
      * exists k, v, p. split_and!; [left|done|done].
      * exists k', v', p. split_and!; [by right|done|done].
    + intros (k' & v' & p & [[= -> ->]|Hin]%elem_of_cons & -> & Hp); [left|right; eauto 6].
      by exists (p, t).
Qed.

(** Whatever is printed below a sensitive key is the placeholder. *)
Lemma redacted_leaves v k path t :
  resolved v = true -> (path, t) ∈ leaves (redact_value k v) -> hidden (k :: path) = true ->
  t = "[REDACTED]".
Proof.
  revert k path t. induction v as [text|children IH|v _] using value_induction; intros k path t Hr Hin Hh;
    [| |done].
  - cbn [Observability.redact_value] in Hin. destruct (sensitive k) eqn:Hk.
    + by apply list_elem_of_singleton in Hin as [= -> ->].
    + apply list_elem_of_singleton in Hin as [= -> ->]. unfold hidden in Hh. simpl in Hh.
      by rewrite Hk in Hh.
  - destruct (sensitive k) eqn:Hk.
    + cbn [Observability.redact_value] in Hin. rewrite Hk in Hin.
      by apply list_elem_of_singleton in Hin as [= -> ->].
    + rewrite leaves_redacted_group in Hin by done.
      apply elem_of_group_leaves in Hin as (k' & v' & path' & Hin & -> & Hleaf).
      apply list_elem_of_fmap in Hin as ([k0 v0] & [= -> ->] & Hin).
      apply list_elem_of_In in Hin.
      rewrite Forall_forall in IH. simpl in Hr. rewrite forallb_forall in Hr.
      eapply (IH (k0, v0) Hin k0 path' t); [by apply (Hr (k0, v0))|done|].
      unfold hidden in Hh |- *. cbn [existsb] in Hh |- *. by rewrite Hk in Hh.
Qed.

(** The leaves of the attribute [k] that no sensitive key leads to. *)
Definition visible (k : string) (l : list (list string * string)) : list (list string * string) :=
  filter (fun leaf => hidden (k :: leaf.1) = false) l.

Lemma visible_sensitive k l : sensitive k = true -> visible k l = [].
Proof.
  intros Hk. unfold visible. induction l as [|leaf l IH]; [done|].
  rewrite filter_cons, IH. case_decide as Hh; [|done]. unfold hidden in Hh. cbn [existsb] in Hh.
  by rewrite Hk in Hh.
Qed.

Lemma visible_app k l l' : visible k (l ++ l') = (visible k l ++ visible k l')%list.
Proof. apply list.filter_app. Qed.

Lemma visible_below k k' l :
  sensitive k = false ->
  visible k (map (fun leaf => (k' :: leaf.1, leaf.2)) l) =
    map (fun leaf => (k' :: leaf.1, leaf.2)) (visible k' l).
Proof.
  intros Hk. unfold visible. induction l as [|[path t] l IH]; [done|].
  assert (Heq : hidden (k :: k' :: path) = hidden (k' :: path)).
  { unfold hidden at 1. cbn [existsb]. by rewrite Hk. }
  cbn [map]. rewrite !filter_cons, IH. cbn [fst snd]. repeat case_decide; [done|congruence..|done].
Qed.

(** Whatever is printed below other keys is printed as before. *)
Lemma kept_leaves v k : visible k (leaves (redact_value k v)) = visible k (leaves v).
Proof.
  revert k. induction v as [text|children IH|v _] using value_induction; intros k;
    (destruct (sensitive k) eqn:Hk; [by rewrite !visible_sensitive|]).
  - cbn [Observability.redact_value]. by rewrite Hk.
  - rewrite leaves_redacted_group by done.
    induction IH as [|[k' v'] children Hv _ IH]; [done|].
    cbn [leaves map concat] in *. by rewrite !visible_app, IH, !visible_below, Hv.
  - cbn [Observability.redact_value]. by rewrite Hk.
Qed.

(** The same for a list of attributes, as both [Handle] and [WithAttrs] treat
    it. *)
Lemma redacted_attrs l path t :
  forallb (fun a => resolved a.2) l = true -> (path, t) ∈ attr_leaves (map redact l) ->
  hidden path = true -> t = "[REDACTED]".
Proof.
  intros Hr Hin Hh. apply elem_of_group_leaves in Hin as (k & v & path' & Hin & -> & Hleaf).
  apply list_elem_of_fmap in Hin as ([k0 v0] & [= -> ->] & Hin).
  apply (redacted_leaves v0 k0 path'); [|done|done].
  apply list_elem_of_In in Hin. by apply (proj1 (forallb_forall _ _) Hr (k0, v0)).
Qed.

Lemma kept_attrs l :
  filter (fun leaf => hidden leaf.1 = false) (attr_leaves (map redact l)) =
  filter (fun leaf => hidden leaf.1 = false) (attr_leaves l).
Proof.
  induction l as [|[k v] l IH]; [done|]. unfold attr_leaves in *. cbn [leaves map concat] in *.
  rewrite !list.filter_app, IH. f_equal.
  assert (Hcons : forall ls, filter (fun leaf => hidden leaf.1 = false)
      (map (fun leaf => (k :: leaf.1, leaf.2)) ls) = map (fun leaf => (k :: leaf.1, leaf.2)) (visible k ls)).
  { intros ls. unfold visible. induction ls as [|[p t] ls IHs]; [done|]. cbn [map].
    rewrite !filter_cons, IHs. cbn [fst snd]. by case_decide. }
  unfold Observability.redact. cbn [fst snd]. by rewrite !Hcons, kept_leaves.
Qed.

Lemma redact_value_idempotent v k : redact_value k (redact_value k v) = redact_value k v.
Proof.
  revert k. induction v as [text|children IH|v _] using value_induction; intros k;
    cbn [Observability.redact_value]; destruct (sensitive k) eqn:Hk;
    cbn [Observability.redact_value]; rewrite ?Hk; try done.
  f_equal. unfold without_empty.
  induction IH as [|[k' v'] children Hv _ IH]; [done|]. cbn [map fst snd].
  rewrite !filter_cons. case_decide as He; cbn [fst snd] in *; [|done].
  cbn [map fst snd]. rewrite filter_cons, Hv. cbn [fst snd]. rewrite decide_True by done.
  by rewrite IH.
Qed.

(** Overwriting the caller's slice does not show in what is printed: a second
    visit to the same slice gives the same attribute. *)
Lemma redact_left_behind a : redact (left_behind unicode_ToLower a) = redact a.
Proof.
  destruct a as [k v]. unfold left_behind, Observability.redact. cbn [fst snd].
  destruct (sensitive k) eqn:Hk; [done|]. destruct v as [|children|]; [done| |done].
  cbn [fst snd]. f_equal. cbn [Observability.redact_value]. rewrite Hk. do 2 f_equal.
  rewrite map_map. apply map_ext. intros [k' v']. cbn [fst snd Observability.redact].
  by rewrite redact_value_idempotent.
Qed.

(** [ps'] is [ps] with the texts below sensitive keys replaced. *)
Definition redacted_from (ps ps' : list printed) : Prop :=
  (forall p, p ∈ ps' -> hidden (keys p) = true -> text p = "[REDACTED]") /\
  filter (fun p => hidden (keys p) = false) ps' = filter (fun p => hidden (keys p) = false) ps.

Lemma redacted_from_app ps1 ps1' ps2 ps2' :
  redacted_from ps1 ps1' -> redacted_from ps2 ps2' -> redacted_from (ps1 ++ ps2) (ps1' ++ ps2').
Proof.
  intros [H1 K1] [H2 K2]. split; [intros p [?|?]%elem_of_app; auto|].
  by rewrite !list.filter_app, K1, K2.
Qed.

Lemma filter_print groups ls :
  filter (fun p => hidden (keys p) = false)
    (map (fun leaf : list string * string => mkPrinted groups leaf.1 leaf.2) ls) =
  map (fun leaf => mkPrinted groups leaf.1 leaf.2) (filter (fun leaf => hidden leaf.1 = false) ls).
Proof.
  induction ls as [|[path t] ls IH]; [done|]. cbn [map]. rewrite !filter_cons, IH. cbn [keys fst].
  by case_decide.
Qed.

Lemma print_redacted groups l :
  forallb (fun a => resolved a.2) l = true ->
  redacted_from (print_attrs groups l) (print_attrs groups (map redact l)).
Proof.
  intros Hr. unfold print_attrs. split.
  - intros p Hin Hh. apply list_elem_of_fmap in Hin as ([path t] & -> & Hin). simpl in *.
    by apply (redacted_attrs l path).
  - by rewrite !filter_print, kept_attrs.
Qed.

Definition derivation_resolved (d : derivation) : bool :=
  match d with WithAttrs l => forallb (fun a => resolved a.2) l | WithGroup _ => true end.

(** A logger derived from the redacting handler carries the same groups, and
    the attributes of the plain one through [redact]. *)
Lemma derive_redacting ds h h' :
  forallb derivation_resolved ds = true ->
  std_groups h' = std_groups h -> std_lines h' = std_lines h ->
  redacted_from (std_attrs h) (std_attrs h') ->
  let d := foldl derive h ds in
  exists d', foldl (derive (H0 := redacting_Handler unicode_ToLower)) (mkRedactingHandler h') ds
             = mkRedactingHandler d' /\
    std_groups d' = std_groups d /\ std_lines d = std_lines h /\ std_lines d' = std_lines d /\
    redacted_from (std_attrs d) (std_attrs d').
Proof.
  revert h h'. induction ds as [|d ds IH]; intros h h' Hr Hg Hl Ha; [by exists h'|].
  cbn [forallb] in Hr. apply andb_true_iff in Hr as [Hd Hr]. cbn [foldl].
  destruct d as [l|g]; cbn [derive h_WithAttrs h_WithGroup redacting_Handler next std_Handler] in *.
  - destruct (IH (mkStdHandler (std_groups h) (std_attrs h ++ print_attrs (std_groups h) l) (std_lines h))
               (mkStdHandler (std_groups h') (std_attrs h' ++ print_attrs (std_groups h') (map redact l))
                  (std_lines h')) Hr) as (d' & -> & H); [done|done| |by exists d'].
    simpl. rewrite Hg. by apply redacted_from_app, print_redacted.
  - destruct (IH (mkStdHandler (std_groups h ++ [g]) (std_attrs h) (std_lines h))
               (mkStdHandler (std_groups h' ++ [g]) (std_attrs h') (std_lines h')) Hr)
      as (d' & -> & H); [simpl; by rewrite Hg|done|done|by exists d'].
Qed.

(** C34 (safety): log redaction.  A record logged through a redacting handler,
    after any sequence of [WithAttrs] and [WithGroup], is one line with the
    message, in which every text below a sensitive key, however deep in nested
    groups, is the placeholder, and every other attribute is printed exactly as
    without redaction, in the same order; provided that no value resolves
    itself later. *)
Theorem log_redaction ds record :
  forallb derivation_resolved ds = true ->
  forallb (fun a => resolved a.2) (rec_attrs record) = true ->
  let h0 := mkStdHandler [] [] [] in
  let plain := (h_Handle record (foldl derive h0 ds)).2 in
  let redacting := (h_Handle (Handler := redacting_Handler unicode_ToLower) record
    (foldl (derive (H0 := redacting_Handler unicode_ToLower)) (mkRedactingHandler h0) ds)).2 in
  exists ps ps', std_lines plain = [(rec_message record, ps)] /\
    std_lines (next redacting) = [(rec_message record, ps')] /\
    (forall p, p ∈ ps' -> hidden (keys p) = true -> text p = "[REDACTED]") /\
    filter (fun p => hidden (keys p) = false) ps' = filter (fun p => hidden (keys p) = false) ps.
Proof.
  intros Hds Hrec h0 plain redacting.
  destruct (derive_redacting ds h0 h0 Hds) as (d' & Hd' & Hg & Hl & Hl' & Ha); [done|done|by split; [intros p ?%not_elem_of_nil|]|].
  unfold plain, redacting. rewrite Hd'. cbn [h_Handle redacting_Handler std_Handler next snd fst std_lines].
  rewrite Hl', Hl, Hg. eexists _, _. split; [done|]. split; [done|].
  cbn [rec_attrs rec_message]. apply redacted_from_app; [done|].
  unfold print_attrs at 2. unfold attr_leaves. rewrite leaves_without_empty. by apply print_redacted.
Qed.

(** On ASCII, [unicode.ToLower] only turns capital letters into small ones. *)
Definition ascii_lower (r : Z) : Z := if (65 <=? r) && (r <=? 90) then r + 32 else r.

Context (ToLower_ascii : forall r, 0 <= r < 128 -> unicode_ToLower r = ascii_lower r).

Lemma sensitive_ascii key :
  forallb (fun r => (0 <=? r) && (r <? 128)) (runes key) = true ->
  sensitive key = Observability.sensitive ascii_lower key.
Proof.
  intros Hascii. unfold Observability.sensitive. do 2 f_equal.
  unfold strings_ToLower, strings_Map. do 2 f_equal. apply list_fmap_ext. intros i r Hr.
  f_equal. apply ToLower_ascii. apply list_elem_of_lookup_2, list_elem_of_In in Hr.
  pose proof (proj1 (forallb_forall _ _) Hascii r Hr) as Hb. simpl in Hb. lia.
Qed.

(** What the redaction
    does not see.  A value that resolves itself only when it is printed, like a
    credentials object under an innocent key, and an attribute inside a group
    that [WithGroup] opened under a sensitive name, are printed as they are. *)
Theorem redaction_bypassed secret :
  let log ds record := std_lines (next (h_Handle (Handler := redacting_Handler unicode_ToLower) record
    (foldl (derive (H0 := redacting_Handler unicode_ToLower))
       (mkRedactingHandler (mkStdHandler [] [] [])) ds)).2) in
  log [] (mkLogRecord 0 0 "login" [("user", VLogValuer (VGroup [("password", VText secret)]))]) =
    [("login", [mkPrinted [] ["user"; "password"] secret])] /\
  log [WithGroup "secret"] (mkLogRecord 0 0 "login" [("value", VText secret)]) =
    [("login", [mkPrinted ["secret"] ["value"] secret])].
Proof.
  assert (Hu : sensitive "user" = false) by (rewrite sensitive_ascii; by vm_compute).
  assert (Hv : sensitive "value" = false) by (rewrite sensitive_ascii; by vm_compute).
  split; cbn [foldl derive h_WithGroup h_Handle redacting_Handler std_Handler next snd fst rec_attrs map].
  - unfold Observability.redact. cbn [fst snd Observability.redact_value]. by rewrite Hu.
  - unfold Observability.redact. cbn [fst snd Observability.redact_value]. by rewrite Hv.
Qed.
End Redaction.

(** ** Readiness *)

(** A check that notes that it has run. *)
Definition probe (name : string) (err : option error) : Check (list string) :=
  fun ran => (err, (ran ++ [name])%list).

Definition probes (pg rabbit dest : option (option error)) : Checks (list string) :=
  mkChecks (probe "postgres" <$> pg) (probe "rabbitmq" <$> rabbit) (probe "destinations" <$> dest).

(** The dependencies of a role, with the results of their checks. *)
Definition dependencies (role : string) (pg rabbit dest : option (option error))
    : list (string * option (option error)) :=
  ([("postgres", pg)]
   ++ (if one_of role ["publisher"; "worker"; "all"] then [("rabbitmq", rabbit)] else [])
   ++ (if one_of role ["api"; "worker"; "all"] then [("destinations", dest)] else []))%list.

Definition healthy (r : option (option error)) : bool := bool_decide (r = Some None).

(** The checks up to the first one that fails, which is the last to run. *)
Fixpoint until_failure (l : list (string * option (option error))) : list string :=
  match l with
  | [] => []
  | (_, None) :: _ => []
  | (name, Some (Some _)) :: _ => [name]
  | (name, Some None) :: rest => name :: until_failure rest
  end.

Definition probe_of (d : string * option (option error)) : option (Check (list string)) :=
  probe d.1 <$> d.2.

Lemma all_pass_probes (l : list (string * option (option error))) ran :
  all_pass (map probe_of l) ran =
    (forallb (fun d => healthy d.2) l, (ran ++ until_failure l)%list).
Proof.
  revert ran. induction l as [|[name [[e|]|]] l IH]; intros ran; simpl; rewrite ?app_nil_r; [done..| |done].
  rewrite IH. by rewrite <- app_assoc.
Qed.

(** Liveness never probes anything.  Readiness probes, in a
    fixed order and up to the first failure, PostgreSQL for every role,
    RabbitMQ for publishers and workers, and the destinations for the API and
    workers; it is ready exactly when all of these exist and pass, whatever the
    state of the others. *)
Theorem readiness role pg rabbit dest :
  ServeHealth role (probes pg rabbit dest) "/livez" [] = ((200, Some "ok"), []) /\
  ServeHealth role (probes pg rabbit dest) "/readyz" [] =
    ((if forallb (fun d => healthy d.2) (dependencies role pg rabbit dest)
      then (200, Some "ready") else (503, Some "not_ready")),
     until_failure (dependencies role pg rabbit dest)) /\
  forall path, path <> "/livez" -> path <> "/readyz" ->
    ServeHealth role (probes pg rabbit dest) path [] = ((404, None), []).
Proof.
  assert (Hreq : required role (probes pg rabbit dest) =
            map probe_of (dependencies role pg rabbit dest)).
  { unfold required, dependencies. by repeat case_match. }
  split_and!; [done| |].
  - unfold ServeHealth. rewrite Hreq, all_pass_probes. simpl. by destruct (_ && _).
  - intros path Hl Hr. unfold ServeHealth. by rewrite bool_decide_eq_false_2, bool_decide_eq_false_2.
Qed.

(** ** Counters *)

(** What the services report. *)
Inductive observation :=
| Intake (outcome : string) | Publication (outcome : string)
| DeliveryMade (outcome : string) | Round (result : ScheduleResult).

Definition observe (m : Metrics) (o : observation) : Metrics :=
  match o with
  | Intake outcome => ObserveIntake outcome m
  | Publication outcome => ObserveOutboxPublish outcome m
  | DeliveryMade outcome => ObserveDelivery outcome m
  | Round result => ObserveSchedule result m
  end.

(** Tasks that an observation reports dead. *)
Definition deaths (o : observation) : Z :=
  match o with
  | DeliveryMade outcome => Z.b2z (bool_decide (outcome = "dead"))
  | Round result => Dead result
  | _ => 0
  end.

Lemma dead_counter os m :
  DeadCounter (foldl observe m os) = DeadCounter m + foldr (fun o n => deaths o + n) 0 os.
Proof.
  revert m. induction os as [|o os IH]; intros m; cbn [foldl foldr]; [lia|]. rewrite IH.
  destruct o as [outcome|outcome|outcome|result]; simpl; [lia|lia| |lia].
  case_bool_decide; simpl; lia.
Qed.

(** ** Instances *)

Definition sample_log : log_record :=
  mkLogRecord 0 0 "delivery"
    [("notification_id", VText "n-1"); ("Authorization", VText "Bearer t");
     ("request", VGroup [("method", VText "POST"); ("body", VText "{}")])].

Example redacted_line :
  std_lines (next (h_Handle (Handler := redacting_Handler ascii_lower) sample_log
    (mkRedactingHandler (mkStdHandler [] [] []))).2) =
  [("delivery", [mkPrinted [] ["notification_id"] "n-1"; mkPrinted [] ["Authorization"] "[REDACTED]";
                 mkPrinted [] ["request"; "method"] "POST"; mkPrinted [] ["request"; "body"] "[REDACTED]"])].
Proof. vm_compute. reflexivity. Qed.

Lemma log_redaction_witness :
  exists ps ps' : list printed, length ps = 5%nat /\
    filter (fun p => hidden ascii_lower (keys p) = false) ps' =
      filter (fun p => hidden ascii_lower (keys p) = false) ps.
Proof.
  destruct (log_redaction ascii_lower [WithAttrs [("api_token", VText "t")]; WithGroup "http"] sample_log
    eq_refl eq_refl) as (ps & ps' & Hps & _ & _ & Hkept).
  exists ps, ps'. split; [|exact Hkept]. vm_compute in Hps. by injection Hps as <-.
Defined.

Lemma redaction_bypassed_witness :
  std_lines (next (h_Handle (Handler := redacting_Handler ascii_lower)
    (mkLogRecord 0 0 "login" [("user", VLogValuer (VGroup [("password", VText "hunter2")]))])
    (mkRedactingHandler (mkStdHandler [] [] []))).2) =
  [("login", [mkPrinted [] ["user"; "password"] "hunter2"])].
Proof. exact (proj1 (redaction_bypassed ascii_lower (fun r _ => eq_refl) "hunter2")). Defined.

Lemma readiness_witness :
  ServeHealth "api" (probes (Some None) (Some (Some (Message "down"))) (Some None)) "/readyz" [] =
    ((200, Some "ready"), ["postgres"; "destinations"]).
Proof.
  exact (proj1 (proj2 (readiness "api" (Some None) (Some (Some (Message "down"))) (Some None)))).
Defined.
