(* ===== verification/Bootstrap.v ===== *)
(** * The process: wiring and exit status (app/bootstrap.go, cmd/notifier/main.go)

    [RunConfigured] opens what its role needs, starts the goroutines of the
    role, and waits; its [defer]s give everything back in the opposite order.
    The answers of the libraries and what ends the wait are given by a record;
    the result is the error and the sequence of what was opened, started and
    released. *)

From S2P Require Import Prelude GoTime GoStrings Notification Table Schema Store StoreRefine Destination Sender OutboxService Rabbit Observability Config Delivery Worker.

Open Scope string_scope.
Open Scope Z_scope.

(** ** What a process holds and runs *)

Inductive resource := Pool | PublisherRabbit | WorkerRabbit | Server (addr : string).

#[global] Instance resource_eq_dec : EqDecision resource.
Proof. solve_decision. Defined.

(** The goroutines, with the settings they are given. *)
Inductive service :=
| ServeHTTP (addr : string) (api : bool)
| OutboxPublisher (config : OutboxConfig)
| DeliveryWorker (sender : SenderConfig) (consumerTag : string) (leaseTTL : duration)
| RetryScheduler (batchSize : Z) (pollInterval : duration)
| RetentionCleaner (retention : duration) (batchSize : Z) (every : duration).

Inductive boot_event :=
| Opened (r : resource)
| Started (s : service)
| Released (r : resource).

(** What ends the last [select]: the context, or a result of a goroutine. *)
Inductive ending := CtxDone | ServiceReturned (err : option error).

Record boot_env := mkBootEnv {
  pgxpool_New : string -> result ();
  pool_Ping : result ();
  destination_Load : string -> result (gmap string Destination);
  broker_Open : resource -> string -> Topology -> result ();
  NewBoundedJitter : result ();
  amqp_Consume : string -> result ();
  boot_ending : ending;
}.

(** The events so far and the [defer]s, last first. *)
Record boot := mkBoot { boot_events : list boot_event; boot_defers : list resource }.

(** ** bootstrap.go *)

Definition note (e : boot_event) : M boot () :=
  modify (fun b => mkBoot (boot_events b ++ [e])%list (boot_defers b)).

Definition defer (r : resource) : M boot () := modify (fun b => mkBoot (boot_events b) (r :: boot_defers b)).

(** [r, err := ...; if err != nil { return err }; defer r.Close()]. *)
Definition acquire (r : resource) (opening : result ()) : M boot () :=
  _ ← lift opening;
  _ ← note (Opened r);
  defer r.

Definition when (c : bool) (m : M boot ()) : M boot () := if c then m else mret ().

Definition is_role (role : Role) (roles : list Role) : bool := bool_decide (role ∈ roles).

Definition topology : Topology := mkTopology "notifications" "notifications" "notification.ready".

(** The server of the role: the API with the operational endpoints, or these
    alone. *)
Definition serve (cfg : Runtime) : M boot () :=
  let api := is_role (RuntimeRole cfg) [RoleAPI; RoleAll] in
  let addr := if api then HTTPAddr cfg else MetricsAddr cfg in
  _ ← note (Started (ServeHTTP addr api));
  defer (Server addr).

Definition start_worker (env : boot_env) : M boot () :=
  _ ← lift (NewBoundedJitter env);
  _ ← lift (Consume (amqp_Consume env "notifier-worker"));
  note (Started (DeliveryWorker (mkSenderConfig false 1024) "notifier-worker" Minute)).

Definition start_scheduler : M boot () :=
  _ ← note (Started (RetryScheduler 100 Second));
  note (Started (RetentionCleaner (30 * 24 * Hour) 500 Hour)).

(** The last [select]. *)
Definition await (e : ending) : M boot () :=
  match e with
  | CtxDone | ServiceReturned None => mret ()
  | ServiceReturned (Some runErr) =>
      if errors_Is runErr ContextCanceled then mret () else throw runErr
  end.

Definition run_body (env : boot_env) (cfg : Runtime) : M boot () :=
  let role := RuntimeRole cfg in
  _ ← acquire Pool (wrap "open postgres" (pgxpool_New env (DatabaseURL cfg)));
  _ ← lift (wrap "ping postgres" (pool_Ping env));
  _ ← when (is_role role [RoleAPI; RoleWorker; RoleAll])
        (_ ← lift (destination_Load env (DestinationsFile cfg)); mret ());
  _ ← when (is_role role [RolePublisher; RoleAll])
        (acquire PublisherRabbit (broker_Open env PublisherRabbit (RabbitMQURL cfg) topology));
  _ ← when (is_role role [RoleWorker; RoleAll])
        (acquire WorkerRabbit (broker_Open env WorkerRabbit (RabbitMQURL cfg) topology));
  _ ← serve cfg;
  _ ← when (is_role role [RolePublisher; RoleAll])
        (note (Started (OutboxPublisher (mkOutboxConfig 100 Minute (250 * Millisecond)))));
  _ ← when (is_role role [RoleWorker; RoleAll]) (start_worker env);
  _ ← when (is_role role [RoleScheduler; RoleAll]) start_scheduler;
  await (boot_ending env).

Definition RunConfigured (env : boot_env) (cfg : Runtime) : result () * list boot_event :=
  let '(r, b) := run_body env cfg (mkBoot [] []) in
  (r, (boot_events b ++ (Released <$> boot_defers b))%list).

(** [errChannel := make(chan error, 5)]. *)
Definition errChannel_capacity : nat := 5.

(** The checks given to the health handler. *)
Definition boot_checks {W} (role : Role) (postgres publisherRabbit workerRabbit : Check W) : Checks W :=
  {| check_Postgres := Some postgres;
     check_RabbitMQ :=
       if is_role role [RolePublisher; RoleAll] then Some publisherRabbit
       else if is_role role [RoleWorker; RoleAll] then Some workerRabbit
       else None;
     check_Destinations := Some (fun w => (None, w)) |}.

(** [newID]: sixteen random bytes in hexadecimal; [None] is the panic without
    a source of randomness. *)
Definition newID (rand_Read : option (list Z)) : option string := hex_encode <$> rand_Read.

(** ** main.go *)

(** The exit status of [main]: of the role flag, the environment and
    [RunConfigured]. *)
Definition main (Quote : string -> string) (roleValue : string) (lookupEnv : string -> option string)
    (run : Runtime -> result ()) : Z :=
  match ParseRole Quote roleValue with
  | Err _ => 2
  | Ok role =>
      match LoadRuntime role lookupEnv with
      | Err _ => 2
      | Ok runtimeConfig => match run runtimeConfig with Err _ => 1 | Ok _ => 0 end
      end
  end.

(** ** Everything opened is released *)

(** What a later release gives back. *)
Definition acquired (e : boot_event) : option resource :=
  match e with
  | Opened r => Some r
  | Started (ServeHTTP addr _) => Some (Server addr)
  | Started _ | Released _ => None
  end.

Definition started (e : boot_event) : option service :=
  match e with Started s => Some s | _ => None end.

(** The [defer]s are what was acquired, last first, and nothing is released
    before the end. *)
Definition tidy (b : boot) : Prop :=
  boot_defers b = reverse (omap acquired (boot_events b)) /\
  forall r, Released r ∉ boot_events b.

Definition keeps_tidy {A} (m : M boot A) : Prop := forall b, tidy b -> tidy (m b).2.

Lemma keeps_tidy_ret {A} (a : A) : keeps_tidy (mret a).
Proof. by intros b. Qed.

Lemma keeps_tidy_lift {A} (r : result A) : keeps_tidy (lift r).
Proof. by intros b. Qed.

Lemma keeps_tidy_bind {A B} (m : M boot A) (f : A -> M boot B) :
  keeps_tidy m -> (forall a, keeps_tidy (f a)) -> keeps_tidy (m ≫= f).
Proof.
  intros Hm Hf b Hb. specialize (Hm b Hb). unfold mbind, M_bind. destruct (m b) as [[a|e] b']; [by apply Hf|done].
Qed.

Lemma keeps_tidy_when c m : keeps_tidy m -> keeps_tidy (when c m).
Proof. intros Hm. destruct c; [exact Hm|by intros b]. Qed.

Lemma keeps_tidy_note e :
  acquired e = None -> (forall r, e <> Released r) -> keeps_tidy (note e).
Proof.
  intros He Hr b [Hd Hn]. split; simpl.
  - rewrite omap_app, Hd. simpl. by rewrite He, app_nil_r.
  - intros r [Hin|Hin%list_elem_of_singleton]%elem_of_app; [by eapply Hn|by eapply Hr].
Qed.

Lemma keeps_tidy_hold e r :
  acquired e = Some r -> (forall r', e <> Released r') -> keeps_tidy (_ ← note e; defer r).
Proof.
  intros He Hr b [Hd Hn]. split; simpl.
  - rewrite omap_app, Hd, reverse_app. simpl. by rewrite He.
  - intros r' [Hin|Hin%list_elem_of_singleton]%elem_of_app; [by eapply Hn|by eapply Hr].
Qed.

Lemma keeps_tidy_acquire r opening : keeps_tidy (acquire r opening).
Proof. apply keeps_tidy_bind; [apply keeps_tidy_lift|]. intros _. by apply (keeps_tidy_hold (Opened r)). Qed.

Lemma keeps_tidy_await e : keeps_tidy (await e).
Proof. intros b Hb. destruct e as [|[e|]]; simpl; [done| |done]. by destruct (errors_Is e ContextCanceled). Qed.

#[local] Hint Resolve keeps_tidy_ret keeps_tidy_lift keeps_tidy_bind keeps_tidy_when keeps_tidy_note
  keeps_tidy_hold keeps_tidy_acquire keeps_tidy_await : notifier.

Lemma run_body_tidy env cfg : keeps_tidy (run_body env cfg).
Proof.
  assert (Hserve : keeps_tidy (serve cfg)) by (by apply keeps_tidy_hold).
  assert (Hworker : keeps_tidy (start_worker env)) by (unfold start_worker; auto 8 with notifier).
  assert (Hscheduler : keeps_tidy start_scheduler) by (unfold start_scheduler; auto 8 with notifier).
  unfold run_body. repeat (apply keeps_tidy_bind; [auto 8 with notifier|intros _]). auto with notifier.
Qed.

(** C31 (safety): a process gives back what it has taken.  Whatever the answers
    of the libraries and however the run ends, everything that it has opened or
    served is released exactly once, in the opposite order, after all else. *)
Theorem run_configured_releases env cfg :
  exists setup, (RunConfigured env cfg).2 = (setup ++ (Released <$> reverse (omap acquired setup)))%list /\
    forall r, Released r ∉ setup.
Proof.
  unfold RunConfigured. pose proof (run_body_tidy env cfg (mkBoot [] [])) as H.
  destruct (run_body env cfg (mkBoot [] [])) as [r b]. destruct H as [Hd Hn].
  { split; [done|]. intros r0. apply not_elem_of_nil. }
  exists (boot_events b). simpl in *. by rewrite Hd.
Qed.

(** ** The goroutines of a role *)

Definition the_publisher : service := OutboxPublisher (mkOutboxConfig 100 Minute (250 * Millisecond)).
Definition the_worker : service := DeliveryWorker (mkSenderConfig false 1024) "notifier-worker" Minute.
Definition the_scheduler : list service :=
  [RetryScheduler 100 Second; RetentionCleaner (30 * 24 * Hour) 500 Hour].

Definition services_of (cfg : Runtime) : list service :=
  match RuntimeRole cfg with
  | RoleAPI => [ServeHTTP (HTTPAddr cfg) true]
  | RolePublisher => [ServeHTTP (MetricsAddr cfg) false; the_publisher]
  | RoleWorker => [ServeHTTP (MetricsAddr cfg) false; the_worker]
  | RoleScheduler => ServeHTTP (MetricsAddr cfg) false :: the_scheduler
  | RoleAll => [ServeHTTP (HTTPAddr cfg) true; the_publisher; the_worker] ++ the_scheduler
  end%list.

(** The result of a run that was set up, by what ended it. *)
Definition result_of_ending (e : ending) : result () :=
  match e with
  | ServiceReturned (Some runErr) => if errors_Is runErr ContextCanceled then Ok () else Err runErr
  | _ => Ok ()
  end.

(** Compute the role tests of the code for the role at hand. *)
Local Ltac compute_roles :=
  repeat match goal with
  | |- context [is_role ?r ?l] =>
      let v := eval vm_compute in (is_role r l) in change (is_role r l) with v
  end; cbn [when].

(** Take both cases of the next answer of a library. *)
Local Ltac next_answer :=
  match goal with
  | |- context [match ?x with Ok _ => _ | Err _ => _ end] =>
      match type of x with result _ => destruct x as [[]|?] end
  end.

Lemma await_result e b : await e b = (result_of_ending e, b).
Proof. destruct e as [|[e|]]; [done| |done]. simpl. by destruct (errors_Is e ContextCanceled). Qed.

(** The run, by role and by the answers of the libraries. *)
Definition run_spec (env : boot_env) (cfg : Runtime) (r : result ()) (events : list boot_event) : Prop :=
  (omap started events `prefix_of` services_of cfg) /\
  (length (omap started events) <= errChannel_capacity)%nat /\
  (omap started events = services_of cfg -> r = result_of_ending (boot_ending env)) /\
  (omap started events <> services_of cfg -> is_Ok r = false).

Lemma run_configured_cases env cfg :
  run_spec env cfg (RunConfigured env cfg).1 (RunConfigured env cfg).2.
Proof.
  unfold run_spec, RunConfigured, run_body, services_of, acquire, serve, start_worker, start_scheduler.
  destruct (RuntimeRole cfg); compute_roles.
  all: unfold lift, wrap, note, defer, modify, mbind, M_bind, mret, M_ret.
  all: repeat (next_answer; simpl).
  all: rewrite ?await_result; unfold errChannel_capacity; simpl; split_and!; try done; try lia;
    try (eexists; reflexivity); intros Hne; by destruct Hne.
Qed.

(** What a process runs.  Each role starts its own goroutines
    with fixed settings, in a fixed order, as far as its libraries answer, and
    all of them exactly when the set-up succeeds; then the result is nil for a
    stop, a nil result or a cancellation, and otherwise the error of the
    goroutine that returned first.  There are never more goroutines than
    [errChannel] has room for, so that none is left blocked on its result. *)
Theorem run_configured_services env cfg :
  let '(r, events) := RunConfigured env cfg in
  (omap started events `prefix_of` services_of cfg) /\
  (length (omap started events) <= errChannel_capacity)%nat /\
  (omap started events = services_of cfg -> r = result_of_ending (boot_ending env)) /\
  (omap started events <> services_of cfg -> is_Ok r = false).
Proof. pose proof (run_configured_cases env cfg) as Hspec. by destruct (RunConfigured env cfg). Qed.

(** ** The end of a run *)

(** C32 (error): a worker that loses its broker ends as if it had been stopped.
    When the broker's connection breaks while the process is not being stopped,
    the worker's loop ends, and what it sends is a nil result; if this ends the
    wait of [RunConfigured], the process returns nil and exits with status
    zero, without a message. *)
Theorem broker_loss_exits_zero {W} `{DeliveryRepository W} `{DeliverySender W} `{CapacityLimiter W}
    `{DeliveryEnv W} unmarshal leaseTTL (w : W) p res Quote roleValue lookupEnv role cfg env :
  process_reachable unmarshal (worker_Handle leaseTTL) w p -> worker p = WorkerDone res ->
  ctx_err p = None ->
  ParseRole Quote roleValue = Ok role -> LoadRuntime role lookupEnv = Ok cfg ->
  omap started (RunConfigured env cfg).2 = services_of cfg -> boot_ending env = ServiceReturned res ->
  library_closed p = true /\ res = None /\
  main Quote roleValue lookupEnv (fun cfg => (RunConfigured env cfg).1) = 0.
Proof.
  intros Hp Hw Hctx Hrole Hcfg Hstarted Hend.
  destruct (process_reachable_exit _ _ _ _ Hp) as [_ Hexit]. unfold exit_ok in Hexit. rewrite Hw in Hexit.
  destruct res as [e|]; [congruence|]. destruct Hexit as (_ & Hclosed & _). split_and!; [done|done|].
  destruct (run_configured_cases env cfg) as (_ & _ & Hres & _).
  unfold main. rewrite Hrole, Hcfg, (Hres Hstarted), Hend. done.
Qed.

(** ** Readiness of a process *)

(** Readiness as it is wired.  In every role the checks that
    the role requires exist.  The endpoint says ready exactly when PostgreSQL
    answers and the broker connection of the publisher, or of the worker in the
    worker's own role, is open; the worker's connection of a process that runs
    all roles is not looked at. *)
Theorem readiness_wired {W} role (postgres publisherRabbit workerRabbit : Check W) (w : W) :
  let ready := ((200, Some "ready") : Z * option string) in
  let not_ready := ((503, Some "not_ready") : Z * option string) in
  let answer := (ServeHealth (role_string role)
                   (boot_checks role postgres publisherRabbit workerRabbit) "/readyz" w).1 in
  (None ∉ required (role_string role) (boot_checks role postgres publisherRabbit workerRabbit)) /\
  match postgres w with
  | (Some _, _) => answer = not_ready
  | (None, w') =>
      let rabbit := match role with
                    | RolePublisher | RoleAll => (publisherRabbit w').1
                    | RoleWorker => (workerRabbit w').1
                    | RoleAPI | RoleScheduler => None
                    end in
      answer = match rabbit with None => ready | Some _ => not_ready end
  end.
Proof.
  unfold boot_checks, ServeHealth.
  destruct role; compute_roles; unfold required; cbn [one_of role_string check_Postgres check_RabbitMQ
    check_Destinations]; split; try (simpl; set_solver).
  all: destruct (postgres w) as [[e|] w'] eqn:Hpg; simpl; rewrite Hpg; [done|].
  all: destruct (publisherRabbit w') as [[e|] w1], (workerRabbit w') as [[e'|] w2]; done.
Qed.

(** ** Identifiers *)

Definition hex_value (c : ascii) : option Z :=
  let b := byte_val c in
  if (48 <=? b) && (b <=? 57) then Some (b - 48)
  else if (97 <=? b) && (b <=? 102) then Some (b - 87)
  else if (65 <=? b) && (b <=? 70) then Some (b - 55)
  else None.

(** [hex.DecodeString]. *)
Fixpoint hex_decode (s : string) : option (list Z) :=
  match s with
  | EmptyString => Some []
  | String _ EmptyString => None
  | String c1 (String c2 s) =>
      match hex_value c1, hex_value c2, hex_decode s with
      | Some h, Some l, Some rest => Some (16 * h + l :: rest)
      | _, _, _ => None
      end
  end.

Lemma hex_value_digit d : 0 <= d < 16 -> hex_value (hex_digit d) = Some d.
Proof.
  intros Hd. unfold hex_value, hex_digit.
  rewrite byte_val_of by (unfold is_byte; destruct (d <? 10) eqn:?; lia).
  destruct (d <? 10) eqn:Hlt.
  - replace ((48 <=? 48 + d) && (48 + d <=? 57)) with true by lia. f_equal. lia.
  - replace ((48 <=? 87 + d) && (87 + d <=? 57)) with false by lia.
    replace ((97 <=? 87 + d) && (87 + d <=? 102)) with true by lia. f_equal. lia.
Qed.

Lemma hex_roundtrip l : Forall is_byte l -> hex_decode (hex_encode l) = Some l.
Proof.
  induction 1 as [|b l Hb _ IH]; [done|]. unfold is_byte in Hb.
  cbn [hex_encode foldr hex_decode]. fold (hex_encode l).
  rewrite !hex_value_digit by (pose proof (Z.div_mod b 16); pose proof (Z.mod_pos_bound b 16); lia).
  rewrite IH. f_equal. f_equal. pose proof (Z.div_mod b 16). lia.
Qed.

(** Identifiers.  An identifier made of sixteen random bytes can
    be decoded to them again, so different bytes never give the same
    identifier; it is a text of 32 characters that the schema accepts as a key,
    and different from the identifiers of other lengths. *)
Theorem newID_roundtrip value :
  Forall is_byte value -> length value = 16%nat ->
  exists id, newID (Some value) = Some id /\ hex_decode id = Some value /\
    (forall value', Forall is_byte value' -> newID (Some value') = Some id -> value' = value) /\
    len id = 32 /\ text_between 1 128 id = true.
Proof.
  intros Hv Hl. destruct (hex_encode_bytes value Hv) as [Hb Hlen]. rewrite Hl in Hlen.
  exists (hex_encode value). split_and!; [done|by apply hex_roundtrip| |done|].
  - intros value' Hv' [= Heq]. pose proof (hex_roundtrip value' Hv') as H1. rewrite Heq in H1.
    pose proof (hex_roundtrip value Hv). congruence.
  - apply ascii_text_between; [done|lia].
Qed.

(** ** Instances *)

Definition sample_env (e : ending) : boot_env :=
  mkBootEnv (fun _ => Ok ()) (Ok ()) (fun _ => Ok ∅) (fun _ _ _ => Ok ()) (Ok ()) (fun _ => Ok ()) e.

Definition worker_environment (key : string) : option string :=
  if bool_decide (key = "DATABASE_URL") then Some "postgres://db"
  else if bool_decide (key = "RABBITMQ_URL") then Some "amqp://mq"
  else if bool_decide (key = "DESTINATIONS_FILE") then Some "destinations.yaml"
  else None.

Definition worker_runtime : Runtime :=
  mkRuntime RoleWorker "postgres://db" "amqp://mq" "destinations.yaml" "" ":9090" ∅ ∅ (10 * Second).

Lemma broker_loss_exits_zero_witness :
  main id "worker" worker_environment
    (fun cfg => (RunConfigured (sample_env (ServiceReturned None)) cfg).1) = 0.
Proof.
  refine (proj2 (proj2 (broker_loss_exits_zero sample_unmarshal Minute sample_world sample_process None id
    "worker" worker_environment RoleWorker worker_runtime (sample_env (ServiceReturned None))
    sample_process_reachable eq_refl eq_refl eq_refl _ _ eq_refl))); vm_compute; reflexivity.
Defined.

Lemma newID_roundtrip_witness :
  newID (Some (replicate 16 171)) = Some "abababababababababababababababab" /\
  hex_decode "abababababababababababababababab" = Some (replicate 16 171).
Proof.
  destruct (newID_roundtrip (replicate 16 171)) as (id & Hid & Hdec & _).
  - repeat constructor; done.
  - reflexivity.
  - vm_compute in Hid. injection Hid as <-. split; [reflexivity|exact Hdec].
Defined.
