(* ===== verification/Json.v ===== *)
(** * JSON as Go's encoding/json reads and writes it

    The values that a decoder with [UseNumber] builds, its reader (white
    space, escapes, surrogates, invalid UTF-8, the limit on nesting, the three
    ways to end), the encoder with its escapes, and the decoding of objects
    into structs.  A text is a list of bytes.  The grammar of RFC 8259 is given
    as a relation, [renders]; the reader accepts exactly the texts of this
    relation, and the encoder writes texts of it. *)

From S2P Require Import Prelude GoTime GoStrings GoText.

(** ** Values *)

(** The members of an object keep their order and their duplicates until
    [canon] makes a map of them; a number keeps its literal. *)
Inductive json :=
| JNull
| JBool (b : bool)
| JNumber (literal : string)
| JString (s : string)
| JArray (items : list json)
| JObject (members : list (string * json)).

(** ** Reading *)

(** A step of reading: a result with the rest of the text, a character that
    cannot stand where it stands, or the end of the text too early. *)
Inductive scan (A : Type) :=
| Scanned (a : A) (rest : list Z)
| Malformed
| Truncated
| OutOfFuel.
Arguments Scanned {A} a rest.
Arguments Malformed {A}.
Arguments Truncated {A}.
Arguments OutOfFuel {A}.

Definition scan_bind {A B} (m : scan A) (k : A -> list Z -> scan B) : scan B :=
  match m with
  | Scanned a rest => k a rest
  | Malformed => Malformed
  | Truncated => Truncated
  | OutOfFuel => OutOfFuel
  end.

Notation "'let?' a , r := m 'in' k" := (scan_bind m (fun a r => k))
  (at level 200, a name, r name, m at level 100, k at level 200).

Definition is_ws (b : Z) : bool := (b =? 32) || (b =? 9) || (b =? 10) || (b =? 13).
Definition skip_ws : list Z -> list Z := drop_while is_ws.

#[global] Arguments is_ws _ : simpl never.
#[global] Arguments is_digit _ : simpl never.

(** *** Numbers *)

Fixpoint span_digits (l : list Z) : list Z * list Z :=
  match l with
  | b :: l' => if is_digit b then let '(d, r) := span_digits l' in (b :: d, r) else ([], l)
  | [] => ([], [])
  end.

Definition scan_digits (l : list Z) : scan (list Z) :=
  match l with
  | [] => Truncated
  | b :: _ => if is_digit b then let '(d, r) := span_digits l in Scanned d r else Malformed
  end.

Definition scan_sign (l : list Z) : scan (list Z) :=
  match l with
  | b :: l' => if b =? 45 then Scanned [45] l' else Scanned [] l
  | [] => Scanned [] []
  end.

Definition scan_integer (l : list Z) : scan (list Z) :=
  match l with
  | b :: l' => if b =? 48 then Scanned [48] l' else scan_digits l
  | [] => Truncated
  end.

Definition scan_fraction (l : list Z) : scan (list Z) :=
  match l with
  | b :: l' => if b =? 46 then let? d, r := scan_digits l' in Scanned (46 :: d) r else Scanned [] l
  | [] => Scanned [] []
  end.

Definition scan_exponent (l : list Z) : scan (list Z) :=
  match l with
  | b :: l' =>
      if (b =? 101) || (b =? 69) then
        match l' with
        | s :: l'' =>
            if (s =? 43) || (s =? 45)
            then let? d, r := scan_digits l'' in Scanned (b :: s :: d) r
            else let? d, r := scan_digits l' in Scanned (b :: d) r
        | [] => Truncated
        end
      else Scanned [] l
  | [] => Scanned [] []
  end.

Definition scan_number (l : list Z) : scan (list Z) :=
  let? s, l1 := scan_sign l in
  let? i, l2 := scan_integer l1 in
  let? f, l3 := scan_fraction l2 in
  let? e, l4 := scan_exponent l3 in
  Scanned (s ++ i ++ f ++ e) l4.

(** *** Strings *)

Definition hex_of (b : Z) : option Z :=
  if is_digit b then Some (b - 48)
  else if (97 <=? b) && (b <=? 102) then Some (b - 87)
  else if (65 <=? b) && (b <=? 70) then Some (b - 55)
  else None.

Definition is_hex (b : Z) : bool := bool_decide (is_Some (hex_of b)).

#[global] Arguments hex_of _ : simpl never.
#[global] Arguments is_hex _ : simpl never.

Definition hex4 (a b c d : Z) : Z :=
  let h x := default 0 (hex_of x) in
  ((h a * 16 + h b) * 16 + h c) * 16 + h d.

(** The characters that may follow a backslash, apart from [u], and the runes
    that they stand for. *)
Definition escape_value (e : Z) : option Z :=
  if (e =? 34) || (e =? 92) || (e =? 47) then Some e
  else if e =? 98 then Some 8
  else if e =? 102 then Some 12
  else if e =? 110 then Some 10
  else if e =? 114 then Some 13
  else if e =? 116 then Some 9
  else None.

(** The text up to the closing quote, whose escapes are checked only. *)
Fixpoint scan_string (l : list Z) : scan (list Z) :=
  match l with
  | [] => Truncated
  | b :: l1 =>
      if b =? 34 then Scanned [] l1
      else if b =? 92 then
        match l1 with
        | [] => Truncated
        | e :: l2 =>
            if e =? 117 then
              match l2 with
              | h1 :: h2 :: h3 :: h4 :: l3 =>
                  if is_hex h1 && is_hex h2 && is_hex h3 && is_hex h4
                  then let? raw, r := scan_string l3 in Scanned (b :: e :: h1 :: h2 :: h3 :: h4 :: raw) r
                  else Malformed
              | _ => if forallb is_hex l2 then Truncated else Malformed
              end
            else if bool_decide (is_Some (escape_value e))
            then let? raw, r := scan_string l2 in Scanned (b :: e :: raw) r
            else Malformed
        end
      else if b <? 32 then Malformed
      else let? raw, r := scan_string l1 in Scanned (b :: raw) r
  end.

Definition high_surrogate (r : Z) : bool := (55296 <=? r) && (r <=? 56319).
Definition low_surrogate (r : Z) : bool := (56320 <=? r) && (r <=? 57343).

(** The runes that a checked text stands for; half a surrogate pair is
    [RuneError]. *)
Fixpoint unescape (l : list Z) : list Z :=
  match l with
  | [] => []
  | c :: l1 =>
      if c =? 92 then
        match l1 with
        | [] => []
        | e :: l2 =>
            if e =? 117 then
              match l2 with
              | h1 :: h2 :: h3 :: h4 :: l3 =>
                  let r := hex4 h1 h2 h3 h4 in
                  if high_surrogate r || low_surrogate r then
                    match l3 with
                    | b :: u :: g1 :: g2 :: g3 :: g4 :: l4 =>
                        let r' := hex4 g1 g2 g3 g4 in
                        if (b =? 92) && (u =? 117) && high_surrogate r && low_surrogate r'
                        then ((r - 55296) * 1024 + (r' - 56320) + 65536) :: unescape l4
                        else RuneError :: unescape l3
                    | _ => RuneError :: unescape l3
                    end
                  else r :: unescape l3
              | _ => []
              end
            else default RuneError (escape_value e) :: unescape l2
        end
      else c :: unescape l1
  end.

(** The string of a checked text; bytes that are not UTF-8 become
    [RuneError]. *)
Definition unquote (raw : list Z) : string :=
  of_bytes (concat (encode_rune <$> unescape (default RuneError <$> decode raw))).

(** *** Values *)

Definition maxNestingDepth : Z := 10000.

Fixpoint scan_literal (word l : list Z) : scan () :=
  match word, l with
  | [], _ => Scanned () l
  | _ :: _, [] => Truncated
  | w :: word', b :: l' => if b =? w then scan_literal word' l' else Malformed
  end.

(** The next character that is not white space. *)
Definition next_char {A} (l : list Z) (k : Z -> list Z -> scan A) : scan A :=
  match skip_ws l with
  | [] => Truncated
  | b :: l' => k b l'
  end.

(** The opening of an array or object: one more open container, or the closing
    character at once. *)
Definition open_container {A} (depth close : Z) (empty : A) (l : list Z) (k : scan A) : scan A :=
  if maxNestingDepth <=? depth then Malformed
  else next_char l (fun c l' => if c =? close then Scanned empty l' else k).

(** [depth] counts the arrays and objects that are open. *)
Fixpoint parse_value (n : nat) (depth : Z) (l : list Z) : scan json :=
  match n with
  | O => OutOfFuel
  | S n =>
      next_char l (fun b l1 =>
        if b =? 123 then
          open_container depth 125 (JObject []) l1
            (let? ms, r := parse_members n (depth + 1) l1 in Scanned (JObject ms) r)
        else if b =? 91 then
          open_container depth 93 (JArray []) l1
            (let? vs, r := parse_items n (depth + 1) l1 in Scanned (JArray vs) r)
        else if b =? 34 then let? raw, r := scan_string l1 in Scanned (JString (unquote raw)) r
        else if (b =? 45) || is_digit b then
          let? d, r := scan_number (b :: l1) in Scanned (JNumber (of_bytes d)) r
        else if b =? 116 then let? _, r := scan_literal [114; 117; 101] l1 in Scanned (JBool true) r
        else if b =? 102 then let? _, r := scan_literal [97; 108; 115; 101] l1 in Scanned (JBool false) r
        else if b =? 110 then let? _, r := scan_literal [117; 108; 108] l1 in Scanned JNull r
        else Malformed)
  end
with parse_items (n : nat) (depth : Z) (l : list Z) : scan (list json) :=
  match n with
  | O => OutOfFuel
  | S n =>
      let? v, r := parse_value n depth l in
      next_char r (fun b r1 =>
        if b =? 44 then let? vs, r2 := parse_items n depth r1 in Scanned (v :: vs) r2
        else if b =? 93 then Scanned [v] r1
        else Malformed)
  end
with parse_members (n : nat) (depth : Z) (l : list Z) : scan (list (string * json)) :=
  match n with
  | O => OutOfFuel
  | S n =>
      next_char l (fun b l1 =>
        if b =? 34 then
          let? raw, r := scan_string l1 in
          next_char r (fun c r1 =>
            if c =? 58 then
              let? v, r2 := parse_value n depth r1 in
              next_char r2 (fun e r3 =>
                if e =? 44
                then let? ms, r4 := parse_members n depth r3 in Scanned ((unquote raw, v) :: ms) r4
                else if e =? 125 then Scanned [(unquote raw, v)] r3
                else Malformed)
            else Malformed)
        else Malformed)
  end.

(** Every call but the first of a value reads a character. *)
Definition parse_fuel (l : list Z) : nat := 2 * length l + 1.

(** [Decoder.Decode] up to the next value, on what can still be read of its
    reader and the error that ends it ([io.EOF] or that of a limited reader).
    A value that has no closing character is known to be complete only by what
    follows it. *)
Definition self_delimiting (v : json) : bool :=
  match v with JArray _ | JObject _ => true | _ => false end.

Definition read_value (ends : error) (l : list Z) : result json * list Z :=
  let at_EOF := bool_decide (ends = Sentinel IoEOF) in
  match skip_ws l with
  | [] => (Err ends, [])
  | _ :: _ =>
      match parse_value (parse_fuel l) 0 l with
      | Scanned v r =>
          if match r with [] => negb (self_delimiting v) && negb at_EOF | _ => false end
          then (Err ends, [])
          else (Ok v, r)
      | Truncated => (Err (if at_EOF then Message "unexpected EOF" else ends), [])
      | Malformed | OutOfFuel => (Err (Message "invalid character"), l)
      end
  end.

(** ** Writing *)

Definition hex_char (d : Z) : Z := if d <? 10 then 48 + d else 87 + d.

(** What stands for a unit of text between quotes: an invalid byte is
    [RuneError], escaped; the characters special to HTML and the two line
    separators of Unicode are escaped, too. *)
Definition escape_rune (u : option Z) : list Z :=
  match u with
  | None => [92; 117; 102; 102; 102; 100]
  | Some r =>
      if (r =? 34) || (r =? 92) then [92; r]
      else if r =? 8 then [92; 98]
      else if r =? 12 then [92; 102]
      else if r =? 10 then [92; 110]
      else if r =? 13 then [92; 114]
      else if r =? 9 then [92; 116]
      else if (r <? 32) || (r =? 60) || (r =? 62) || (r =? 38)
      then [92; 117; 48; 48; hex_char (r / 16); hex_char (r mod 16)]
      else if (r =? 8232) || (r =? 8233) then [92; 117; 50; 48; 50; hex_char (r mod 16)]
      else [r]
  end.

Definition escape (s : string) : list Z :=
  concat (encode_rune <$> concat (escape_rune <$> decode (bytes s))).

Definition quote (s : string) : list Z := 34 :: escape s ++ [34].

Fixpoint commas (ts : list (list Z)) : list Z :=
  match ts with
  | [] => []
  | [t] => t
  | t :: ts => t ++ 44 :: commas ts
  end.

Fixpoint encode (v : json) : list Z :=
  match v with
  | JNull => [110; 117; 108; 108]
  | JBool true => [116; 114; 117; 101]
  | JBool false => [102; 97; 108; 115; 101]
  | JNumber d => bytes d
  | JString s => quote s
  | JArray vs => 91 :: commas (map encode vs) ++ [93]
  | JObject ms => 123 :: commas (map (fun m => quote m.1 ++ 58 :: encode m.2) ms) ++ [125]
  end.

(** [isValidNumber]. *)
Definition is_number (d : list Z) : bool :=
  match scan_number d with Scanned _ [] => true | _ => false end.

Fixpoint numbers_ok (v : json) : bool :=
  match v with
  | JNumber d => is_number (bytes d)
  | JArray vs => forallb numbers_ok vs
  | JObject ms => forallb (fun m => numbers_ok m.2) ms
  | _ => true
  end.

Definition Marshal (v : json) : result string :=
  if numbers_ok v then Ok (of_bytes (encode v)) else Err (Message "invalid number literal").

(** ** Maps *)

(** [m[k] = v] on the sorted members of a map. *)
Fixpoint put (k : string) (v : json) (l : list (string * json)) : list (string * json) :=
  match l with
  | [] => [(k, v)]
  | (k', v') :: l' =>
      match String.compare k k' with
      | Eq => (k, v) :: l'
      | Lt => (k, v) :: l
      | Gt => (k', v') :: put k v l'
      end
  end.

(** A value as decoding into [any] keeps it: objects are maps, in which a later
    member replaces an earlier one, and which are written by ascending keys. *)
Fixpoint canon (v : json) : json :=
  match v with
  | JArray vs => JArray (map canon vs)
  | JObject ms => JObject (foldl (fun l m => put m.1 m.2 l) [] (map (fun m => (m.1, canon m.2)) ms))
  | _ => v
  end.

(** [Decoder.Decode] into [any], with [UseNumber]. *)
Definition decode_any (ends : error) (l : list Z) : result json * list Z :=
  let '(r, rest) := read_value ends l in
  (v ← r; Ok (canon v), rest).

(** ** Structs *)

(** The members of an object whose text follows its opening brace, with the
    texts of their values, which a [json.RawMessage] keeps. *)
Fixpoint member_texts (n : nat) (depth : Z) (l : list Z) : scan (list (string * json * list Z)) :=
  match n with
  | O => OutOfFuel
  | S n =>
      next_char l (fun b l1 =>
        if b =? 34 then
          let? raw, r := scan_string l1 in
          next_char r (fun c r1 =>
            if c =? 58 then
              let? v, r2 := parse_value n depth r1 in
              let text := take (length (skip_ws r1) - length r2) (skip_ws r1) in
              next_char r2 (fun e r3 =>
                if e =? 44
                then let? ms, r4 := member_texts n depth r3 in Scanned ((unquote raw, v, text) :: ms) r4
                else if e =? 125 then Scanned [(unquote raw, v, text)] r3
                else Malformed)
            else Malformed)
        else Malformed)
  end.

(** The name under which a struct field is found: ASCII letters in upper case,
    and the two other letters that fold to ASCII ones. *)
Definition fold_rune (r : Z) : Z :=
  if is_lower r then r - 32 else if r =? 383 then 83 else if r =? 8490 then 75 else r.

Definition same_field (key name : string) : bool :=
  bool_decide (fold_rune <$> runes key = fold_rune <$> runes name).

(** The members of an object, one after the other; a member that does not fit
    is passed over, and the first such error is the result in the end. *)
Definition set_fields {R} (set : string -> json -> list Z -> R -> result R)
    (fields : list (string * json * list Z)) (zero : R) : result R :=
  let '(r, failed) :=
    foldl (fun '(r, failed) '(key, v, text) =>
      match set key v text r with
      | Ok r' => (r', failed)
      | Err e => (r, Some (default e failed))
      end) (zero, None) fields in
  match failed with Some e => Err e | None => Ok r end.

(** Decoding the value [v] at the start of the text [l] into a struct: [null]
    leaves it as it is. *)
Definition decode_struct {R} (set : string -> json -> list Z -> R -> result R) (zero : R)
    (v : json) (l : list Z) : result R :=
  match v with
  | JNull | JObject [] => Ok zero
  | JObject _ =>
      let l1 := drop 1 (skip_ws l) in
      match member_texts (parse_fuel l) 1 l1 with
      | Scanned fields _ => set_fields set fields zero
      | _ => Err (Message "invalid character")
      end
  | _ => Err (Message "cannot unmarshal value into Go struct")
  end.

(** A field of type [string]. *)
Definition string_field (v : json) (old : string) : result string :=
  match v with
  | JString s => Ok s
  | JNull => Ok old
  | _ => Err (Message "cannot unmarshal value into Go struct field of type string")
  end.

(** [json.Unmarshal]: the whole text is one value. *)
Definition Unmarshal_struct {R} (set : string -> json -> list Z -> R -> result R) (zero : R)
    (data : string) : result R :=
  let l := bytes data in
  match parse_value (parse_fuel l) 0 l with
  | Scanned v r =>
      match skip_ws r with
      | [] => decode_struct set zero v l
      | _ => Err (Message "invalid character after top-level value")
      end
  | Truncated => Err (Message "unexpected end of JSON input")
  | _ => Err (Message "invalid character")
  end.
