(* ===== verification/JsonGrammar.v ===== *)
(** * The grammar of JSON, and the reader that accepts exactly its texts

    [renders v t]: the text [t] is one of those that stand for the value [v].
    The reader is complete and sound for it, it always has enough fuel, and
    the encoder writes a text of the grammar. *)

From S2P Require Import Prelude GoTime GoStrings GoText Json.

(** ** The grammar *)

Definition all_ws (w : list Z) : Prop := Forall (fun b => is_ws b = true) w.

(** A checked text between quotes, and a complete number. *)
Definition raw_ok (raw : list Z) : Prop := scan_string (raw ++ [34]) = Scanned raw [].
Definition number_ok (d : list Z) : Prop := scan_number d = Scanned d [].

Inductive renders : json -> list Z -> Prop :=
| renders_null : renders JNull [110; 117; 108; 108]
| renders_true : renders (JBool true) [116; 114; 117; 101]
| renders_false : renders (JBool false) [102; 97; 108; 115; 101]
| renders_number d : number_ok d -> renders (JNumber (of_bytes d)) d
| renders_string raw : raw_ok raw -> renders (JString (unquote raw)) (34 :: raw ++ [34])
| renders_empty_array w : all_ws w -> renders (JArray []) (91 :: w ++ [93])
| renders_array vs t : renders_items vs t -> renders (JArray vs) (91 :: t ++ [93])
| renders_empty_object w : all_ws w -> renders (JObject []) (123 :: w ++ [125])
| renders_object ms t : renders_members ms t -> renders (JObject ms) (123 :: t ++ [125])
with renders_items : list json -> list Z -> Prop :=
| renders_last_item v w1 t w2 : all_ws w1 -> renders v t -> all_ws w2 ->
    renders_items [v] (w1 ++ t ++ w2)
| renders_more_items v vs w1 t w2 t' : all_ws w1 -> renders v t -> all_ws w2 ->
    renders_items vs t' -> renders_items (v :: vs) (w1 ++ t ++ w2 ++ 44 :: t')
with renders_members : list (string * json) -> list Z -> Prop :=
| renders_last_member k v w t : renders_member k v w t -> renders_members [(k, v)] t
| renders_more_members k v w ms t t' : renders_member k v w t -> renders_members ms t' ->
    renders_members ((k, v) :: ms) (t ++ 44 :: t')
with renders_member : string -> json -> list Z -> list Z -> Prop :=
| renders_pair raw v w1 w2 w3 t w4 :
    all_ws w1 -> raw_ok raw -> all_ws w2 -> all_ws w3 -> renders v t -> all_ws w4 ->
    renders_member (unquote raw) v t (w1 ++ 34 :: raw ++ 34 :: w2 ++ 58 :: w3 ++ t ++ w4).

Scheme renders_mut := Minimality for renders Sort Prop
with renders_items_mut := Minimality for renders_items Sort Prop
with renders_members_mut := Minimality for renders_members Sort Prop
with renders_member_mut := Minimality for renders_member Sort Prop.
Combined Scheme renders_ind_all from renders_mut, renders_items_mut, renders_members_mut, renders_member_mut.

(** ** White space *)

Lemma skip_ws_app w l : all_ws w -> skip_ws (w ++ l) = skip_ws l.
Proof. unfold skip_ws. induction 1 as [|b w Hb _ IH]; [done|]. simpl. by rewrite Hb. Qed.

Lemma skip_ws_nonws b l : is_ws b = false -> skip_ws (b :: l) = b :: l.
Proof. intros Hb. unfold skip_ws. simpl. by rewrite Hb. Qed.

Lemma skip_ws_split l : exists w, l = w ++ skip_ws l /\ all_ws w.
Proof.
  unfold skip_ws. induction l as [|b l (w & Hl & Hw)]; [by exists []; split; [|constructor]|].
  simpl. destruct (is_ws b) eqn:Hb; [|by exists []; split; [|constructor]].
  exists (b :: w). split; [simpl; by f_equal|by constructor].
Qed.

Lemma next_char_app {A} w b l (k : Z -> list Z -> scan A) :
  all_ws w -> is_ws b = false -> next_char (w ++ b :: l) k = k b l.
Proof. intros Hw Hb. unfold next_char. by rewrite skip_ws_app, skip_ws_nonws. Qed.

(** Where a result comes from. *)
Lemma next_char_Scanned {A} l (k : Z -> list Z -> scan A) a r :
  next_char l k = Scanned a r ->
  exists w b l', l = w ++ b :: l' /\ all_ws w /\ is_ws b = false /\ k b l' = Scanned a r.
Proof.
  unfold next_char. destruct (skip_ws_split l) as (w & Hl & Hw).
  destruct (skip_ws l) as [|b l'] eqn:Hs; [done|]. intros Hk. exists w, b, l'. split_and!; [done..| |done].
  clear Hl Hk Hw. revert Hs. unfold skip_ws. induction l as [|c l IH]; [done|]. simpl. destruct (is_ws c) eqn:Hc; [done|].
  by intros [= <- <-].
Qed.

Lemma scan_bind_Scanned {A B} (m : scan A) (k : A -> list Z -> scan B) b r :
  scan_bind m k = Scanned b r -> exists a r', m = Scanned a r' /\ k a r' = Scanned b r.
Proof. destruct m; simpl; [|done..]. by eauto. Qed.

(** ** Numbers *)

(** The text does not go on with a character of [P]. *)
Definition stops (P : Z -> bool) (l : list Z) : Prop :=
  match l with [] => True | b :: _ => P b = false end.

(** What follows a number does not continue it. *)
Definition number_char (b : Z) : bool := is_digit b || (b =? 46) || (b =? 101) || (b =? 69).
Definition number_end : list Z -> Prop := stops number_char.

Lemma stops_app P l r : l <> [] -> stops P l -> stops P (l ++ r).
Proof. by destruct l. Qed.

Lemma stops_weaken (P Q : Z -> bool) l :
  (forall b, Q b = true -> P b = true) -> stops P l -> stops Q l.
Proof.
  intros HPQ. destruct l as [|b l]; [done|]. simpl. intros HP.
  destruct (Q b) eqn:HQ; [|done]. rewrite (HPQ b HQ) in HP. done.
Qed.

(** A part of a number: it takes its characters from the text, at least one of
    them unless it is optional, and takes the same ones before every text that
    does not continue it. *)
Definition part_of (p : list Z -> scan (list Z)) (starts continues : Z -> bool) : Prop :=
  forall l d r, p l = Scanned d r ->
    l = d ++ r /\ match d with [] => True | b :: _ => starts b = true end /\
    forall r', stops (if d is [] then starts else continues) r' -> p (d ++ r') = Scanned d r'.

Lemma span_digits_split l d r :
  span_digits l = (d, r) ->
  l = d ++ r /\ match d with [] => True | b :: _ => is_digit b = true end /\
  forall r', stops is_digit r' -> span_digits (d ++ r') = (d, r').
Proof.
  revert d r. induction l as [|b l IH]; simpl; intros d r.
  - intros [= <- <-]. split_and!; [done..|]. intros [|c r'] Hr; [done|]. simpl in *. by rewrite Hr.
  - destruct (is_digit b) eqn:Hb.
    + destruct (span_digits l) as [d' r'] eqn:Hs. intros [= <- <-].
      destruct (IH d' r' eq_refl) as (-> & _ & Hst). split_and!; [done..|].
      intros r'' Hr. simpl. by rewrite Hb, Hst.
    + intros [= <- <-]. split_and!; [done..|]. intros [|c r'] Hr; [done|]. simpl in *. by rewrite Hr.
Qed.

Lemma digits_part l d r :
  scan_digits l = Scanned d r ->
  l = d ++ r /\ d <> [] /\ match d with [] => True | b :: _ => is_digit b = true end /\
  forall r', stops is_digit r' -> scan_digits (d ++ r') = Scanned d r'.
Proof.
  unfold scan_digits. destruct l as [|b l]; [done|]. destruct (is_digit b) eqn:Hb; [|done].
  destruct (span_digits (b :: l)) as [d' r'] eqn:Hs. intros [= <- <-].
  pose proof (span_digits_split _ _ _ Hs) as (Hl & Hd & Hst).
  destruct d' as [|c d']; [simpl in Hs; rewrite Hb in Hs; by destruct (span_digits l)|].
  split_and!; [done..|]. intros r'' Hr. rewrite Hst by done. simpl. by rewrite Hd.
Qed.

Lemma sign_part : part_of scan_sign (fun b => b =? 45) (fun _ => false).
Proof.
  intros [|b l] d r; simpl; [|destruct (b =? 45) eqn:Hb; reflect_bools; subst]; intros [= <- <-];
    (split_and!; [done..|]); intros [|c r'] Hr; simpl in *; try done; by rewrite Hr.
Qed.

Lemma integer_part l d r :
  scan_integer l = Scanned d r ->
  l = d ++ r /\ match d with [] => False | b :: _ => is_digit b = true end /\
  forall r', stops is_digit r' -> scan_integer (d ++ r') = Scanned d r'.
Proof.
  destruct l as [|b l]; [done|]. cbn [scan_integer]. destruct (b =? 48) eqn:Hb.
  - intros [= <- <-]. reflect_bools; subst. by split_and!.
  - intros (Hl & Hne & Hd & Hst)%digits_part. destruct d as [|c d]; [done|].
    split_and!; [done..|]. intros r' Hr. injection Hl as <- Hl. simpl. rewrite Hb. by apply (Hst r').
Qed.

Lemma fraction_part : part_of scan_fraction (fun b => b =? 46) is_digit.
Proof.
  intros [|b l] d r; simpl.
  - intros [= <- <-]. split_and!; [done..|]. intros [|c r'] Hr; simpl in *; [done|by rewrite Hr].
  - destruct (b =? 46) eqn:Hb.
    + intros (d' & r0 & (-> & Hne & _ & Hst)%digits_part & [= <- <-])%scan_bind_Scanned.
      reflect_bools; subst. split_and!; [done..|]. intros r' Hr. simpl. by rewrite Hst.
    + intros [= <- <-]. split_and!; [done..|]. intros [|c r'] Hr; simpl in *; [done|by rewrite Hr].
Qed.

Lemma exponent_part : part_of scan_exponent (fun b => (b =? 101) || (b =? 69)) is_digit.
Proof.
  assert (Hnil : forall r', stops (fun b => (b =? 101) || (b =? 69)) r' ->
            scan_exponent r' = Scanned [] r').
  { intros [|c r'] Hr; simpl in *; [done|by rewrite Hr]. }
  intros [|b l] d r; simpl; [intros [= <- <-]; by split_and!|].
  destruct ((b =? 101) || (b =? 69)) eqn:Hb; [|intros [= <- <-]; by split_and!].
  destruct l as [|s l]; [done|]. destruct ((s =? 43) || (s =? 45)) eqn:Hs.
  - intros (d' & r0 & (-> & Hne & _ & Hst)%digits_part & [= <- <-])%scan_bind_Scanned.
    split_and!; [done..|]. intros r' Hr. simpl. by rewrite Hb, Hs, Hst.
  - intros (d' & r0 & (Hl & Hne & Hd & Hst)%digits_part & [= <- <-])%scan_bind_Scanned.
    destruct d' as [|c d']; [done|]. injection Hl as <- ->. split_and!; [done..|].
    intros r' Hr. simpl. rewrite Hb, Hs. simpl in Hst. by rewrite Hst.
Qed.

Lemma scan_number_spec l d r :
  scan_number l = Scanned d r ->
  l = d ++ r /\ (exists b d', d = b :: d' /\ ((b =? 45) || is_digit b = true)) /\
  forall r', number_end r' -> scan_number (d ++ r') = Scanned d r'.
Proof.
  unfold scan_number. intros (s & l1 & Hs & H)%scan_bind_Scanned.
  apply scan_bind_Scanned in H as (i & l2 & Hi & H). apply scan_bind_Scanned in H as (f & l3 & Hf & H).
  apply scan_bind_Scanned in H as (e & l4 & He & [= <- <-]).
  apply sign_part in Hs as (-> & Hs & Hss). apply integer_part in Hi as (-> & Hi & His).
  apply fraction_part in Hf as (-> & Hf & Hfs). apply exponent_part in He as (-> & He & Hes).
  destruct i as [|b i]; [done|]. split_and!.
  - by rewrite <- !app_assoc.
  - destruct s as [|c s]; [exists b, (i ++ f ++ e)|exists c, (s ++ (b :: i) ++ f ++ e)]; (split; [done|]).
    + by rewrite Hi, orb_true_r.
    + by rewrite Hs.
  - intros r' Hr. rewrite <- !app_assoc. rewrite Hss; cbn [scan_bind].
    2: { destruct s; [|done]. simpl. unfold is_digit in Hi. lia. }
    assert (Hr3 : stops (if e is [] then (fun b => (b =? 101) || (b =? 69)) else is_digit) r').
    { eapply stops_weaken; [|exact Hr]. intros c. unfold number_char. destruct e; lia. }
    rewrite His; cbn [scan_bind].
    2: { destruct f as [|c f]; simpl in *; [|unfold is_digit; lia].
         destruct e as [|c e]; simpl in *; [|unfold is_digit; lia].
         eapply stops_weaken; [|exact Hr]. intros c. unfold number_char. lia. }
    rewrite Hfs; cbn [scan_bind].
    2: { destruct e as [|c e]; simpl in *.
         - eapply stops_weaken; [|exact Hr]. intros c. unfold number_char. destruct f; lia.
         - destruct f; unfold is_digit; lia. }
    by rewrite Hes.
Qed.

Lemma number_ok_scan d r : number_ok d -> number_end r -> scan_number (d ++ r) = Scanned d r.
Proof. intros (_ & _ & H)%scan_number_spec Hr. by apply H. Qed.

Lemma scan_number_ok l d r : scan_number l = Scanned d r -> l = d ++ r /\ number_ok d.
Proof.
  intros (Hl & _ & H)%scan_number_spec. split; [done|]. unfold number_ok.
  rewrite <- (app_nil_r d) at 1. by apply H.
Qed.

(** ** Strings *)

Lemma scan_string_spec l raw r :
  scan_string l = Scanned raw r ->
  l = raw ++ 34 :: r /\ forall r', scan_string (raw ++ 34 :: r') = Scanned raw r'.
Proof.
  remember (length l) as n eqn:Hn. revert l raw r Hn. induction (lt_wf n) as [n _ IH].
  assert (Hrec : forall l0 raw r, (length l0 < n)%nat -> scan_string l0 = Scanned raw r ->
    l0 = raw ++ 34 :: r /\ forall r', scan_string (raw ++ 34 :: r') = Scanned raw r').
  { intros l0 raw r Hl. exact (IH _ Hl l0 raw r eq_refl). }
  clear IH. intros [|b l1] raw r ->; [done|]. simpl in *.
  destruct (b =? 34) eqn:H34.
  { intros [= <- <-]. reflect_bools; subst. split; [done|]. by intros r'. }
  destruct (b =? 92) eqn:H92.
  - destruct l1 as [|e l2]; [done|]. destruct (e =? 117) eqn:Hu.
    + destruct l2 as [|h1 [|h2 [|h3 [|h4 l3]]]]; try (intros H; split_matches_in H; done).
      destruct (is_hex h1 && is_hex h2 && is_hex h3 && is_hex h4) eqn:Hh; [|done].
      intros (raw' & r0 & Hs & [= <- <-])%scan_bind_Scanned. apply Hrec in Hs as [-> Hst]; [|simpl; lia].
      split; [done|]. intros r'. cbn [app scan_string]. by rewrite H34, H92, Hu, Hh, Hst.
    + case_bool_decide as He; [|done].
      intros (raw' & r0 & Hs & [= <- <-])%scan_bind_Scanned. apply Hrec in Hs as [-> Hst]; [|simpl; lia].
      split; [done|]. intros r'. cbn [app scan_string].
      by rewrite H34, H92, Hu, bool_decide_eq_true_2, Hst.
  - destruct (b <? 32) eqn:H32; [done|].
    intros (raw' & r0 & Hs & [= <- <-])%scan_bind_Scanned. apply Hrec in Hs as [-> Hst]; [|lia].
    split; [done|]. intros r'. cbn [app scan_string]. by rewrite H34, H92, H32, Hst.
Qed.

Lemma raw_ok_scan raw r : raw_ok raw -> scan_string (raw ++ 34 :: r) = Scanned raw r.
Proof. intros [_ H]%scan_string_spec. apply H. Qed.

Lemma scan_string_ok l raw r :
  scan_string l = Scanned raw r -> l = raw ++ 34 :: r /\ raw_ok raw.
Proof. intros [Hl H]%scan_string_spec. split; [done|apply H]. Qed.

Lemma scan_literal_spec word l u r : scan_literal word l = Scanned u r -> l = word ++ r.
Proof.
  revert l. induction word as [|w word IH]; intros [|b l]; simpl; try done; try (intros [= _ <-]; done).
  destruct (b =? w) eqn:Hb; [|done]. reflect_bools; subst. intros H%IH. by subst.
Qed.

Lemma scan_literal_app word r : scan_literal word (word ++ r) = Scanned () r.
Proof. induction word as [|w word IH]; simpl; [by destruct r|]. by rewrite Z.eqb_refl. Qed.

(** ** Completeness: the reader accepts every text of the grammar *)

(** Open containers of a value, at their deepest. *)
Fixpoint depth (v : json) : Z :=
  match v with
  | JArray vs => 1 + foldr (fun v d => depth v `max` d) 0 vs
  | JObject ms => 1 + foldr (fun m d => depth m.2 `max` d) 0 ms
  | _ => 0
  end.

Definition value_end (v : json) (r : list Z) : Prop :=
  match v with JNumber _ => number_end r | _ => True end.

Lemma renders_head v t : renders v t -> exists b t', t = b :: t' /\ is_ws b = false.
Proof.
  destruct 1 as [| | |d Hd| | | | |]; try (by eexists _, _).
  apply scan_number_spec in Hd as (_ & (b & d' & -> & Hb) & _). exists b, d'. split; [done|].
  unfold is_ws, is_digit in *. lia.
Qed.

Lemma open_container_empty {A} d close (empty : A) w r k :
  all_ws w -> is_ws close = false -> d < maxNestingDepth ->
  open_container d close empty (w ++ close :: r) k = Scanned empty r.
Proof.
  intros Hw Hc Hd. unfold open_container. rewrite (proj2 (Z.leb_gt _ _) Hd), next_char_app by done.
  by rewrite Z.eqb_refl.
Qed.

(** A text that starts, after white space, with another character than [close]. *)
Definition starts_other (close : Z) (t : list Z) : Prop :=
  exists w b t', t = w ++ b :: t' /\ all_ws w /\ is_ws b = false /\ b <> close.

Lemma open_container_other {A} d close (empty : A) t r k :
  starts_other close t -> d < maxNestingDepth ->
  open_container d close empty (t ++ r) k = k.
Proof.
  intros (w & b & t' & -> & Hw & Hb & Hne) Hd. unfold open_container.
  rewrite (proj2 (Z.leb_gt _ _) Hd), <- app_assoc. cbn [app]. rewrite next_char_app by done.
  by rewrite (proj2 (Z.eqb_neq b close) Hne).
Qed.

Lemma renders_items_head vs t : renders_items vs t -> starts_other 93 t.
Proof.
  assert (Hval : forall v w t r, all_ws w -> renders v t -> starts_other 93 (w ++ t ++ r)).
  { intros v w t' r Hw Hv. destruct (renders_head v t' Hv) as (b & t0 & Heq & Hb).
    exists w, b, (t0 ++ r). rewrite Heq. split_and!; [done..|]. intros ->.
    rewrite Heq in Hv. inversion Hv as [| | |d Hd He| | | | |]. subst.
    apply scan_number_spec in Hd as (_ & (b & d' & [= <- _] & Hb') & _). done. }
  destruct 1; by eapply Hval.
Qed.

Lemma renders_members_head ms t : renders_members ms t -> starts_other 125 t.
Proof.
  assert (Hval : forall k v w t r, renders_member k v w t -> starts_other 125 (t ++ r)).
  { intros k v w t' r Hm. destruct Hm as [raw v w1 w2 w3 t' w4 Hw1].
    exists w1, 34. eexists. split; [by rewrite <- app_assoc|]. by split_and!. }
  destruct 1 as [k v w t' Hm|k v w ms t' t'' Hm Hms]; [|by eapply Hval].
  rewrite <- (app_nil_r t'). by eapply Hval.
Qed.

Lemma fold_depth_nonneg {A} (f : A -> Z) (l : list A) : 0 <= foldr (fun x d => f x `max` d) 0 l.
Proof. induction l; simpl; lia. Qed.

Lemma value_end_ws v w b r :
  all_ws w -> number_char b = false -> value_end v (w ++ b :: r).
Proof.
  intros Hw Hb. destruct v; try done. destruct Hw as [|c w Hc _]; [done|]. simpl.
  unfold is_ws, number_char, is_digit in *. lia.
Qed.

(** One step of the reader on each form of a value. *)
Lemma parse_word n d w v word r :
  all_ws w -> (v, word) ∈ [(JNull, [110; 117; 108; 108]); (JBool true, [116; 114; 117; 101]);
                           (JBool false, [102; 97; 108; 115; 101])] ->
  parse_value (S n) d (w ++ word ++ r) = Scanned v r.
Proof.
  intros Hw Hin. cbn [parse_value].
  repeat (apply list.elem_of_cons in Hin as [[= -> ->]|Hin]; [cbn [app]; by rewrite next_char_app|]).
  by apply not_elem_of_nil in Hin.
Qed.

Lemma parse_number n d w t r :
  all_ws w -> number_ok t -> number_end r ->
  parse_value (S n) d (w ++ t ++ r) = Scanned (JNumber (of_bytes t)) r.
Proof.
  intros Hw Ht Hr. cbn [parse_value]. pose proof (number_ok_scan t r Ht Hr) as Hs.
  apply scan_number_spec in Ht as (_ & (b & t' & -> & Hb) & _). cbn [app] in *.
  rewrite next_char_app by (done || unfold is_ws, is_digit in *; lia).
  replace (b =? 123) with false by (unfold is_digit in *; lia).
  replace (b =? 91) with false by (unfold is_digit in *; lia).
  replace (b =? 34) with false by (unfold is_digit in *; lia).
  by rewrite Hb, Hs.
Qed.

Lemma parse_string n d w raw r :
  all_ws w -> raw_ok raw ->
  parse_value (S n) d (w ++ 34 :: raw ++ 34 :: r) = Scanned (JString (unquote raw)) r.
Proof.
  intros Hw Hraw. cbn [parse_value]. rewrite next_char_app by done. simpl. by rewrite raw_ok_scan.
Qed.

Lemma parse_empty_array n d w w' r :
  all_ws w -> all_ws w' -> d < maxNestingDepth ->
  parse_value (S n) d (w ++ 91 :: w' ++ 93 :: r) = Scanned (JArray []) r.
Proof.
  intros Hw Hw' Hd. cbn [parse_value]. rewrite next_char_app by done. by apply open_container_empty.
Qed.

Lemma parse_array n d w t r vs :
  all_ws w -> starts_other 93 t -> d < maxNestingDepth ->
  parse_items n (d + 1) (t ++ 93 :: r) = Scanned vs r ->
  parse_value (S n) d (w ++ 91 :: t ++ 93 :: r) = Scanned (JArray vs) r.
Proof.
  intros Hw Ht Hd H. cbn [parse_value]. rewrite next_char_app by done. simpl.
  rewrite open_container_other by done. by rewrite H.
Qed.

Lemma parse_empty_object n d w w' r :
  all_ws w -> all_ws w' -> d < maxNestingDepth ->
  parse_value (S n) d (w ++ 123 :: w' ++ 125 :: r) = Scanned (JObject []) r.
Proof.
  intros Hw Hw' Hd. cbn [parse_value]. rewrite next_char_app by done. by apply open_container_empty.
Qed.

Lemma parse_object n d w t r ms :
  all_ws w -> starts_other 125 t -> d < maxNestingDepth ->
  parse_members n (d + 1) (t ++ 125 :: r) = Scanned ms r ->
  parse_value (S n) d (w ++ 123 :: t ++ 125 :: r) = Scanned (JObject ms) r.
Proof.
  intros Hw Ht Hd H. cbn [parse_value]. rewrite next_char_app by done. simpl.
  rewrite open_container_other by done. by rewrite H.
Qed.

Lemma parse_item n d w1 t w2 b v r :
  all_ws w2 -> is_ws b = false -> parse_value n d (w1 ++ t ++ w2 ++ b :: r) = Scanned v (w2 ++ b :: r) ->
  parse_items (S n) d (w1 ++ t ++ w2 ++ b :: r) =
    if b =? 44 then let? vs, r2 := parse_items n d r in Scanned (v :: vs) r2
    else if b =? 93 then Scanned [v] r else Malformed.
Proof. intros Hw2 Hb H. cbn [parse_items]. rewrite H. cbn [scan_bind]. by rewrite next_char_app. Qed.

Lemma parse_member n d raw w1 w2 w3 t w4 e v r :
  all_ws w1 -> raw_ok raw -> all_ws w2 -> all_ws w4 -> is_ws e = false ->
  parse_value n d (w3 ++ t ++ w4 ++ e :: r) = Scanned v (w4 ++ e :: r) ->
  parse_members (S n) d (w1 ++ 34 :: raw ++ 34 :: w2 ++ 58 :: w3 ++ t ++ w4 ++ e :: r) =
    if e =? 44 then let? ms, r4 := parse_members n d r in Scanned ((unquote raw, v) :: ms) r4
    else if e =? 125 then Scanned [(unquote raw, v)] r else Malformed.
Proof.
  intros Hw1 Hraw Hw2 Hw4 He H. cbn [parse_members]. rewrite next_char_app by done. cbn [Z.eqb Pos.eqb].
  rewrite raw_ok_scan by done. cbn [scan_bind]. rewrite next_char_app by done. cbn [Z.eqb Pos.eqb].
  rewrite H. cbn [scan_bind]. by rewrite next_char_app.
Qed.

Ltac with_fuel n := destruct n as [|n]; [exfalso; simpl in *; lia|].
Ltac lengths := simpl in *; rewrite ?length_app in *; simpl in *; rewrite ?length_app in *; simpl in *;
  rewrite ?length_app in *; simpl in *; rewrite ?length_app in *; lia.

Lemma parse_complete_all :
  (forall v t, renders v t -> forall n d w r, (2 * length t + 1 <= n)%nat -> all_ws w ->
     depth v + d <= maxNestingDepth -> value_end v r -> parse_value n d (w ++ t ++ r) = Scanned v r) /\
  (forall vs t, renders_items vs t -> forall n d r, (2 * length t + 2 <= n)%nat ->
     foldr (fun v d => depth v `max` d) 0 vs + d <= maxNestingDepth ->
     parse_items n d (t ++ 93 :: r) = Scanned vs r) /\
  (forall ms t, renders_members ms t -> forall n d r, (2 * length t + 2 <= n)%nat ->
     foldr (fun m d => depth m.2 `max` d) 0 ms + d <= maxNestingDepth ->
     parse_members n d (t ++ 125 :: r) = Scanned ms r) /\
  (forall k v t0 t, renders_member k v t0 t -> forall n d r e, (2 * length t + 1 <= n)%nat ->
     e = 44 \/ e = 125 -> depth v + d <= maxNestingDepth ->
     parse_members (S n) d (t ++ e :: r) =
       if e =? 44 then let? ms, r4 := parse_members n d r in Scanned ((k, v) :: ms) r4
       else if e =? 125 then Scanned [(k, v)] r else Malformed).
Proof.
  apply renders_ind_all.
  1-3: intros n d w r Hn Hw Hd Hr; with_fuel n; apply parse_word; [done|set_solver].
  - intros t Ht n d w r Hn Hw Hd Hr. with_fuel n. by apply parse_number.
  - intros raw Hraw n d w r Hn Hw Hd Hr. with_fuel n. simpl. rewrite <- app_assoc. by apply parse_string.
  - intros w' Hw' n d w r Hn Hw Hd Hr. with_fuel n. simpl. rewrite <- app_assoc.
    apply parse_empty_array; simpl in *; done || lia.
  - intros vs t Hvs IH n d w r Hn Hw Hd Hr. with_fuel n. simpl in *. rewrite <- app_assoc.
    pose proof (fold_depth_nonneg depth vs).
    apply parse_array; [done|by eapply renders_items_head|lia|]. apply IH; [lengths|lia].
  - intros w' Hw' n d w r Hn Hw Hd Hr. with_fuel n. simpl. rewrite <- app_assoc.
    apply parse_empty_object; simpl in *; done || lia.
  - intros ms t Hms IH n d w r Hn Hw Hd Hr. with_fuel n. simpl in *. rewrite <- app_assoc.
    pose proof (fold_depth_nonneg (fun m => depth m.2) ms).
    apply parse_object; [done|by eapply renders_members_head|lia|]. apply IH; [lengths|lia].
  - intros v w1 t w2 Hw1 Hv IH Hw2 n d r Hn Hd. with_fuel n. rewrite <- !app_assoc.
    rewrite (parse_item n d w1 t w2 93 v r); [done..|]. simpl in Hd.
    apply IH; [lengths|done|lia|by apply value_end_ws].
  - intros v vs w1 t w2 t' Hw1 Hv IH Hw2 Hvs IHs n d r Hn Hd. with_fuel n.
    rewrite <- !app_assoc. cbn [app]. simpl in Hd.
    rewrite (parse_item n d w1 t w2 44 v (t' ++ 93 :: r)); [|done..|].
    + simpl. rewrite IHs; [done|lengths|lia].
    + apply IH; [lengths|done|lia|by apply value_end_ws].
  - intros k v t0 t Hm IH n d r Hn Hd. with_fuel n. simpl in Hd. rewrite IH; [done|lengths|by right|lia].
  - intros k v t0 ms t t' Hm IH Hms IHs n d r Hn Hd. with_fuel n. simpl in Hd.
    rewrite <- app_assoc. cbn [app]. rewrite IH; [|lengths|by left|lia]. simpl.
    rewrite IHs; [done|lengths|lia].
  - intros raw v w1 w2 w3 t w4 Hw1 Hraw Hw2 Hw3 Hv IH Hw4 n d r e Hn He Hd.
    repeat (rewrite <- app_assoc; cbn [app]).
    apply parse_member; [done..|by destruct He as [->| ->]|].
    apply IH; [lengths|done|lia|]. apply value_end_ws; [done|]. by destruct He as [->| ->].
Qed.

Lemma parse_complete v t d w r :
  renders v t -> all_ws w -> depth v + d <= maxNestingDepth -> value_end v r ->
  parse_value (parse_fuel (w ++ t ++ r)) d (w ++ t ++ r) = Scanned v r.
Proof. intros. apply parse_complete_all; [done| |done..]. unfold parse_fuel. rewrite !length_app. lia. Qed.

(** ** Soundness: what the reader accepts is a text of the grammar *)

Definition fits (depth d : Z) : Prop := depth = 0 \/ depth + d <= maxNestingDepth.

Definition value_sound (n : nat) : Prop := forall d l v r,
  parse_value n d l = Scanned v r ->
  exists w t, l = w ++ t ++ r /\ all_ws w /\ renders v t /\ fits (depth v) d.

Definition items_sound (n : nat) : Prop := forall d l vs r,
  parse_items n d l = Scanned vs r ->
  exists t, l = t ++ 93 :: r /\ renders_items vs t /\ fits (foldr (fun v d => depth v `max` d) 0 vs) d.

Definition members_sound (n : nat) : Prop := forall d l ms r,
  parse_members n d l = Scanned ms r ->
  exists t, l = t ++ 125 :: r /\ renders_members ms t /\
    fits (foldr (fun m d => depth m.2 `max` d) 0 ms) d.

Lemma fits_max a b d : fits a d -> fits b d -> fits (a `max` b) d.
Proof. unfold fits. lia. Qed.

Lemma fits_nil d : fits 0 d.
Proof. by left. Qed.

Lemma open_container_Scanned {A} d close (empty : A) l k v r :
  open_container d close empty l k = Scanned v r ->
  d < maxNestingDepth /\
  ((exists w, l = w ++ close :: r /\ all_ws w /\ v = empty) \/ k = Scanned v r).
Proof.
  unfold open_container. destruct (maxNestingDepth <=? d) eqn:Hd; [done|]. reflect_bools.
  intros (w & b & l' & -> & Hw & _ & H)%next_char_Scanned. split; [done|].
  destruct (b =? close) eqn:Hb; [|by right]. injection H as -> ->. reflect_bools; subst. left. by exists w.
Qed.

Lemma value_sound_step n : items_sound n -> members_sound n -> value_sound (S n).
Proof.
  intros Hitems Hmembers d l v r H. cbn [parse_value] in H.
  apply next_char_Scanned in H as (w & b & l1 & -> & Hw & _ & H).
  cut (exists t, b :: l1 = t ++ r /\ renders v t /\ fits (depth v) d).
  { intros (t & -> & Ht & Hf). by exists w, t. }
  destruct (b =? 123) eqn:Hb.
  { reflect_bools; subst. apply open_container_Scanned in H as [Hd [(w' & -> & Hw' & ->)|H]].
    - exists (123 :: w' ++ [125]). split_and!; [simpl; by rewrite <- app_assoc|by constructor|right; simpl; lia].
    - apply scan_bind_Scanned in H as (ms & r' & (t & -> & Hms & Hf)%Hmembers & [= <- <-]).
      exists (123 :: t ++ [125]). split_and!; [simpl; by rewrite <- app_assoc|by constructor|].
      right. simpl. unfold fits in Hf. lia. }
  clear Hb. destruct (b =? 91) eqn:Hb.
  { reflect_bools; subst. apply open_container_Scanned in H as [Hd [(w' & -> & Hw' & ->)|H]].
    - exists (91 :: w' ++ [93]). split_and!; [simpl; by rewrite <- app_assoc|by constructor|right; simpl; lia].
    - apply scan_bind_Scanned in H as (vs & r' & (t & -> & Hvs & Hf)%Hitems & [= <- <-]).
      exists (91 :: t ++ [93]). split_and!; [simpl; by rewrite <- app_assoc|by constructor|].
      right. simpl. unfold fits in Hf. lia. }
  clear Hb. destruct (b =? 34) eqn:Hb.
  { reflect_bools; subst. apply scan_bind_Scanned in H as (raw & r' & (-> & Hr)%scan_string_ok & [= <- <-]).
    exists (34 :: raw ++ [34]). split_and!; [simpl; by rewrite <- app_assoc|by constructor|by left]. }
  clear Hb. destruct ((b =? 45) || is_digit b) eqn:Hb.
  { apply scan_bind_Scanned in H as (t & r' & (-> & Ht)%scan_number_ok & [= <- <-]).
    exists t. split_and!; [done|by constructor|by left]. }
  clear Hb. repeat (match type of H with
    (if ?c then _ else _) = _ => destruct c eqn:Hb; reflect_bools; subst;
      [apply scan_bind_Scanned in H as (u & r' & ->%scan_literal_spec & [= <- <-]);
       eexists (_ :: _); split_and!; [done|by constructor|by left]|clear Hb] end).
  done.
Qed.

Lemma items_sound_step n : value_sound n -> items_sound n -> items_sound (S n).
Proof.
  intros Hvalue Hitems d l vs r H. cbn [parse_items] in H.
  apply scan_bind_Scanned in H as (v & r' & (w & t & -> & Hw & Ht & Hf)%Hvalue & H).
  apply next_char_Scanned in H as (w' & b & r1 & -> & Hw' & _ & H).
  destruct (b =? 44) eqn:H44; [|destruct (b =? 93) eqn:H93; [|done]]; reflect_bools; subst.
  - apply scan_bind_Scanned in H as (vs' & r2 & (t' & -> & Hvs & Hf')%Hitems & [= <- <-]).
    exists (w ++ t ++ w' ++ 44 :: t'). split_and!; [|by constructor|by apply fits_max].
    by repeat (rewrite <- app_assoc; cbn [app]).
  - injection H as <- <-. exists (w ++ t ++ w').
    split_and!; [by rewrite <- !app_assoc|by apply renders_last_item|by apply fits_max, fits_nil].
Qed.

Lemma members_sound_step n : value_sound n -> members_sound n -> members_sound (S n).
Proof.
  intros Hvalue Hmembers d l ms r H. cbn [parse_members] in H.
  apply next_char_Scanned in H as (w1 & b & l1 & -> & Hw1 & _ & H).
  destruct (b =? 34) eqn:Hb; [|done]. reflect_bools; subst.
  apply scan_bind_Scanned in H as (raw & r' & (-> & Hraw)%scan_string_ok & H).
  apply next_char_Scanned in H as (w2 & c & r1 & -> & Hw2 & _ & H).
  destruct (c =? 58) eqn:Hc; [|done]. reflect_bools; subst.
  apply scan_bind_Scanned in H as (v & r2 & (w3 & t & -> & Hw3 & Ht & Hf)%Hvalue & H).
  apply next_char_Scanned in H as (w4 & e & r3 & -> & Hw4 & _ & H).
  pose proof (renders_pair raw v w1 w2 w3 t w4 Hw1 Hraw Hw2 Hw3 Ht Hw4) as Hm.
  destruct (e =? 44) eqn:H44; [|destruct (e =? 125) eqn:H125; [|done]]; reflect_bools; subst.
  - apply scan_bind_Scanned in H as (ms' & r4 & (t' & -> & Hms & Hf')%Hmembers & [= <- <-]).
    eexists. split_and!; [|by eapply renders_more_members|by apply fits_max].
    by repeat (rewrite <- app_assoc; cbn [app]).
  - injection H as <- <-. eexists. split_and!; [|by eapply renders_last_member|by apply fits_max, fits_nil].
    by repeat (rewrite <- app_assoc; cbn [app]).
Qed.

Lemma parse_sound_all n : value_sound n /\ items_sound n /\ members_sound n.
Proof.
  induction n as [|n (Hv & Hi & Hm)]; [by split_and!; intros ????|].
  split_and!; [by apply value_sound_step|by apply items_sound_step|by apply members_sound_step].
Qed.

Lemma parse_sound n d l v r :
  parse_value n d l = Scanned v r ->
  exists w t, l = w ++ t ++ r /\ all_ws w /\ renders v t /\ fits (depth v) d.
Proof. apply parse_sound_all. Qed.

(** ** The fuel is enough *)

Lemma next_char_fuel {A} l (k : Z -> list Z -> scan A) :
  next_char l k = OutOfFuel -> exists b l', (length l' < length l)%nat /\ k b l' = OutOfFuel.
Proof.
  unfold next_char. destruct (skip_ws_split l) as (w & Hl & _). destruct (skip_ws l) as [|b l']; [done|].
  intros Hk. exists b, l'. split; [|done]. rewrite Hl, length_app. simpl. lia.
Qed.

Lemma scan_bind_fuel {A B} (m : scan A) (k : A -> list Z -> scan B) :
  scan_bind m k = OutOfFuel -> m = OutOfFuel \/ exists a r, m = Scanned a r /\ k a r = OutOfFuel.
Proof. destruct m; simpl; [|done..|by left]. by eauto. Qed.

Lemma scan_number_fuel l : scan_number l <> OutOfFuel.
Proof.
  assert (Hd : forall l, scan_digits l <> OutOfFuel).
  { intros [|b l']; simpl; [done|]. destruct (is_digit b); [|done]. by destruct (span_digits l'). }
  unfold scan_number. intros [H|(? & ? & _ & H)]%scan_bind_fuel.
  { destruct l as [|b l]; [done|]. simpl in H. by destruct (b =? 45). }
  apply scan_bind_fuel in H as [H|(? & l2 & _ & H)].
  { destruct x0 as [|b x0]; [done|]. cbn [scan_integer] in H. destruct (b =? 48); [done|]. by apply Hd in H. }
  apply scan_bind_fuel in H as [H|(? & l3 & _ & H)].
  { destruct l2 as [|b l2]; [done|]. simpl in H. destruct (b =? 46); [|done].
    apply scan_bind_fuel in H as [H|(? & ? & _ & H)]; [by apply Hd in H|done]. }
  apply scan_bind_fuel in H as [H|(? & ? & _ & H)]; [|done].
  destruct l3 as [|b [|s l3]]; simpl in H; repeat case_match; try done;
    apply scan_bind_fuel in H as [H|(? & ? & _ & H)]; try done; by apply Hd in H.
Qed.

Lemma scan_literal_fuel word l : scan_literal word l <> OutOfFuel.
Proof. revert l. induction word as [|w word IH]; intros [|b l]; simpl; try done. by destruct (b =? w). Qed.

Lemma scan_string_fuel l : scan_string l <> OutOfFuel.
Proof.
  remember (length l) as n eqn:Hn. revert l Hn. induction (lt_wf n) as [n _ IH].
  assert (Hrec : forall l0, (length l0 < n)%nat -> scan_string l0 <> OutOfFuel).
  { intros l0 Hl. exact (IH _ Hl l0 eq_refl). }
  clear IH. intros [|b l1] ->; [done|]. simpl in *. intros H. split_matches_in H.
  all: apply scan_bind_fuel in H as [H|(? & ? & _ & H)]; [|done].
  all: eapply Hrec; [|exact H]; simpl; lia.
Qed.

Lemma parse_rest n d l v r : parse_value n d l = Scanned v r -> (length r < length l)%nat.
Proof.
  intros (w & t & -> & _ & Ht & _)%parse_sound. destruct (renders_head v t Ht) as (b & t' & -> & _).
  rewrite !length_app. simpl. lia.
Qed.

Lemma open_container_fuel {A} d close (empty : A) l k :
  open_container d close empty l k = OutOfFuel -> k = OutOfFuel.
Proof.
  unfold open_container. destruct (maxNestingDepth <=? d); [done|].
  intros (b & l' & _ & H)%next_char_fuel. by destruct (b =? close).
Qed.

Lemma parse_fuel_all n :
  (forall d l, (2 * length l + 1 <= n)%nat -> parse_value n d l <> OutOfFuel) /\
  (forall d l, (2 * length l + 2 <= n)%nat -> parse_items n d l <> OutOfFuel) /\
  (forall d l, (2 * length l + 2 <= n)%nat -> parse_members n d l <> OutOfFuel).
Proof.
  induction n as [|n (Hv & Hi & Hm)]; [split_and!; lia|]. split_and!; intros d l Hn H.
  - cbn [parse_value] in H. apply next_char_fuel in H as (b & l' & Hl & H).
    repeat (match type of H with (if ?c then _ else _) = _ => destruct c end).
    all: try (apply open_container_fuel in H).
    all: try (apply scan_bind_fuel in H as [H|(? & ? & _ & H)]); try done.
    + eapply Hm; [|exact H]. lia.
    + eapply Hi; [|exact H]. lia.
    + by apply scan_string_fuel in H.
    + by apply scan_number_fuel in H.
    + by apply scan_literal_fuel in H.
    + by apply scan_literal_fuel in H.
    + by apply scan_literal_fuel in H.
  - cbn [parse_items] in H. apply scan_bind_fuel in H as [H|(v & r & Hr%parse_rest & H)].
    + eapply Hv; [|exact H]. lia.
    + apply next_char_fuel in H as (b & l' & Hl & H). destruct (b =? 44); [|by destruct (b =? 93)].
      apply scan_bind_fuel in H as [H|(? & ? & _ & H)]; [|done]. eapply Hi; [|exact H]. lia.
  - cbn [parse_members] in H. apply next_char_fuel in H as (b & l1 & Hl & H). destruct (b =? 34); [|done].
    apply scan_bind_fuel in H as [H|(raw & r & [Hr _]%scan_string_ok & H)]; [by apply scan_string_fuel in H|].
    assert (Hlr : (length r < length l1)%nat) by (rewrite Hr, length_app; simpl; lia).
    apply next_char_fuel in H as (c & r1 & Hl1 & H). destruct (c =? 58); [|done].
    apply scan_bind_fuel in H as [H|(v & r2 & Hr2%parse_rest & H)]; [eapply Hv; [|exact H]; lia|].
    apply next_char_fuel in H as (e & r3 & Hl3 & H). destruct (e =? 44); [|by destruct (e =? 125)].
    apply scan_bind_fuel in H as [H|(? & ? & _ & H)]; [|done]. eapply Hm; [|exact H]. lia.
Qed.

Lemma parse_fuel_enough d l : parse_value (parse_fuel l) d l <> OutOfFuel.
Proof. apply parse_fuel_all. unfold parse_fuel. lia. Qed.

(** ** The encoder writes texts of the grammar *)

Definition unit_scalar (u : option Z) : Prop := from_option (fun r => scalar r = true) True u.

Lemma decode_scalar l : Forall is_byte l -> Forall unit_scalar (decode l).
Proof.
  unfold decode. induction l as [|u rest Hu Hok _ IH] using units_ind; [by constructor|].
  rewrite Hu, fmap_cons. intros [H1 H2]%Forall_app. constructor; [|by apply IH].
  unfold unit_ok in Hok. destruct u as [[r|] bs]; simpl in *; [by apply Hok|done].
Qed.

Lemma encode_rune_ascii r : 0 <= r < 128 -> encode_rune r = [r].
Proof.
  intros Hr. unfold encode_rune. replace (scalar r) with true by (unfold scalar; lia).
  by replace (r <? 128) with true by lia.
Qed.

Lemma concat_encode_ascii rs :
  Forall (fun r => 0 <= r < 128) rs -> concat (encode_rune <$> rs) = rs.
Proof.
  induction 1 as [|r rs Hr _ IH]; [done|]. rewrite fmap_cons. cbn [concat].
  by rewrite encode_rune_ascii, IH.
Qed.

Lemma hex_char_range d : 0 <= d < 16 -> 48 <= hex_char d < 128.
Proof. unfold hex_char. intros Hd. destruct (d <? 10) eqn:?; lia. Qed.

Lemma hex_of_char d : 0 <= d < 16 -> hex_of (hex_char d) = Some d.
Proof.
  intros Hd. unfold hex_of, hex_char, is_digit. destruct (d <? 10) eqn:?.
  - replace ((48 <=? 48 + d) && (48 + d <=? 57)) with true by lia. f_equal. lia.
  - replace ((48 <=? 87 + d) && (87 + d <=? 57)) with false by lia.
    replace ((97 <=? 87 + d) && (87 + d <=? 102)) with true by lia. f_equal. lia.
Qed.

Lemma is_hex_char d : 0 <= d < 16 -> is_hex (hex_char d) = true.
Proof. intros Hd. unfold is_hex. rewrite hex_of_char by done. by apply bool_decide_eq_true_2. Qed.

(** The three ways to write a unit. *)
Inductive unit_text : option Z -> list Z -> Prop :=
| unit_short r e : escape_value e = Some r -> e <> 117 -> 0 <= e < 128 -> unit_text (Some r) [92; e]
| unit_hex u a b c d :
    is_hex a && is_hex b && is_hex c && is_hex d = true ->
    0 <= a < 128 -> 0 <= b < 128 -> 0 <= c < 128 -> 0 <= d < 128 ->
    hex4 a b c d = default RuneError u ->
    high_surrogate (hex4 a b c d) || low_surrogate (hex4 a b c d) = false ->
    unit_text u [92; 117; a; b; c; d]
| unit_plain r : scalar r = true -> 32 <= r -> r <> 34 -> r <> 92 -> unit_text (Some r) [r].

Lemma escape_rune_text u : unit_scalar u -> unit_text u (escape_rune u).
Proof.
  destruct u as [r|]; [|intros _; by apply unit_hex]. simpl. intros Hs.
  destruct ((r =? 34) || (r =? 92)) eqn:H1.
  { apply unit_short; [unfold escape_value; by replace ((r =? 34) || (r =? 92) || (r =? 47)) with true by lia|lia..]. }
  repeat match goal with |- unit_text _ (if r =? ?c then _ else _) =>
    let H := fresh in destruct (r =? c) eqn:H; [reflect_bools; subst; by apply unit_short|] end.
  destruct ((r <? 32) || (r =? 60) || (r =? 62) || (r =? 38)) eqn:Hc.
  { assert (Hr : 0 <= r < 64) by (unfold scalar in Hs; lia).
    pose proof (Z.div_mod r 16 ltac:(lia)). pose proof (Z.mod_pos_bound r 16 ltac:(lia)).
    assert (Hq : 0 <= r / 16 < 16) by lia.
    assert (Hv : hex4 48 48 (hex_char (r / 16)) (hex_char (r mod 16)) = r).
    { unfold hex4. rewrite !hex_of_char by lia. change (hex_of 48) with (Some 0). simpl. lia. }
    pose proof (hex_char_range (r / 16) Hq). pose proof (hex_char_range (r mod 16) ltac:(lia)).
    apply unit_hex; rewrite ?Hv, ?is_hex_char by lia; try done; try lia.
    unfold high_surrogate, low_surrogate. lia. }
  destruct ((r =? 8232) || (r =? 8233)) eqn:Hl.
  { assert (r = 8232 \/ r = 8233) as [-> | ->] by lia; by apply unit_hex. }
  apply unit_plain; [done|lia..].
Qed.

Lemma unit_text_scalar u e : unit_text u e -> Forall (fun r => scalar r = true) e.
Proof.
  destruct 1; repeat constructor; try done; unfold scalar; lia.
Qed.

Lemma scan_string_plain e l :
  Forall (fun b => 32 <= b /\ b <> 34 /\ b <> 92) e ->
  scan_string (e ++ l) = let? raw, r := scan_string l in Scanned (e ++ raw) r.
Proof.
  induction 1 as [|b e Hb _ IH]; simpl; [by destruct (scan_string l)|].
  rewrite (proj2 (Z.eqb_neq b 34)), (proj2 (Z.eqb_neq b 92)), (proj2 (Z.ltb_ge b 32)) by lia.
  rewrite IH. by destruct (scan_string l).
Qed.

Lemma encode_rune_above r : scalar r = true -> 128 <= r -> Forall (fun b => 128 <= b) (encode_rune r).
Proof.
  intros Hs Hr. unfold encode_rune. rewrite Hs. unfold scalar in Hs. div_facts r.
  repeat case_match; reflect_bools; repeat constructor; lia.
Qed.

Lemma scan_string_unit u e l :
  unit_text u e ->
  let t := concat (encode_rune <$> e) in
  scan_string (t ++ l) = let? raw, r := scan_string l in Scanned (t ++ raw) r.
Proof.
  destruct 1 as [r e He Hne Hr|u a b c d Hh Ha Hb Hc Hd _ _|r Hs H32 H34 H92]; intros t.
  - subst t. rewrite concat_encode_ascii by (repeat constructor; lia). cbn [app scan_string].
    rewrite (proj2 (Z.eqb_neq e 117) Hne), bool_decide_eq_true_2 by (by rewrite He). done.
  - subst t. rewrite concat_encode_ascii by (repeat constructor; lia). cbn [app scan_string].
    rewrite Hh. done.
  - apply scan_string_plain. subst t. simpl. rewrite app_nil_r.
    destruct (decide (r < 128)).
    + rewrite encode_rune_ascii by lia. by repeat constructor.
    + eapply list.Forall_impl; [apply encode_rune_above; [done|lia]|]. simpl. intros ? ?. lia.
Qed.

Lemma escape_ok s : raw_ok (escape s).
Proof.
  unfold raw_ok, escape. pose proof (decode_scalar _ (bytes_range s)) as Hs.
  induction Hs as [|u us Hu _ IH]; [done|].
  rewrite fmap_cons. cbn [concat]. rewrite fmap_app, concat_app, <- app_assoc.
  rewrite (scan_string_unit u) by (by apply escape_rune_text). by rewrite IH.
Qed.

Lemma unescape_unit u e l : unit_text u e -> unescape (e ++ l) = default RuneError u :: unescape l.
Proof.
  destruct 1 as [r e He Hne _|u a b c d _ _ _ _ _ Hv Hs|r Hs H32 H34 H92]; cbn [app unescape].
  - by rewrite (proj2 (Z.eqb_neq e 117) Hne), He.
  - by rewrite Hs, Hv.
  - by rewrite (proj2 (Z.eqb_neq r 92) H92).
Qed.

(** Reading back what was written: the string, with [RuneError] for what is not
    UTF-8. *)
Lemma unquote_escape s : unquote (escape s) = strings_Map (fun r => r) s.
Proof.
  unfold unquote, escape, strings_Map, runes. rewrite decode_encode_runes, <- list_fmap_compose.
  pose proof (decode_scalar _ (bytes_range s)) as Hs. generalize dependent (decode (bytes s)). intros us Hs.
  f_equal. rewrite <- list_fmap_compose. rewrite (list_fmap_ext _ normal_rune) by done.
  assert (Hn : normal_rune <$> concat (escape_rune <$> us) = concat (escape_rune <$> us)).
  { assert (Hsr : Forall (fun r => scalar r = true) (concat (escape_rune <$> us))).
    { apply Forall_concat, Forall_fmap. eapply list.Forall_impl; [exact Hs|]. intros u Hu.
      by eapply unit_text_scalar, escape_rune_text. }
    rewrite <- (list_fmap_id (concat (escape_rune <$> us))) at 2. apply Forall_fmap_ext.
    eapply list.Forall_impl; [exact Hsr|]. intros r Hr. unfold normal_rune. by rewrite Hr. }
  rewrite Hn. rewrite list_fmap_compose. f_equal. f_equal. clear Hn.
  induction Hs as [|u us Hu _ IH]; [done|]. rewrite !fmap_cons. cbn [concat].
  rewrite (unescape_unit u) by (by apply escape_rune_text). by rewrite IH.
Qed.

Lemma unquote_valid raw : valid_utf8 (unquote raw) = true.
Proof.
  unfold valid_utf8, unquote. rewrite bytes_of_bytes by apply concat_encode_bytes.
  rewrite decode_encode_runes. by induction (unescape _); simpl.
Qed.

Lemma unquote_quote s : valid_utf8 s = true -> unquote (escape s) = s.
Proof. intros Hs. rewrite unquote_escape. by apply strings_Map_id. Qed.

(** Induction on values with the hypothesis for every element. *)
Section Induction.
Variable P : json -> Prop.
Hypothesis Hnull : P JNull.
Hypothesis Hbool : forall b, P (JBool b).
Hypothesis Hnumber : forall d, P (JNumber d).
Hypothesis Hstring : forall s, P (JString s).
Hypothesis Harray : forall vs, Forall P vs -> P (JArray vs).
Hypothesis Hobject : forall ms, Forall (fun m => P m.2) ms -> P (JObject ms).

Fixpoint json_nested_ind (v : json) : P v :=
  match v with
  | JNull => Hnull
  | JBool b => Hbool b
  | JNumber d => Hnumber d
  | JString s => Hstring s
  | JArray vs => Harray vs
      ((fix go vs : Forall P vs :=
          match vs with
          | [] => List.Forall_nil P
          | v :: vs => @List.Forall_cons json P v vs (json_nested_ind v) (go vs)
          end) vs)
  | JObject ms => Hobject ms
      ((fix go ms : Forall (fun m => P m.2) ms :=
          match ms with
          | [] => List.Forall_nil _
          | m :: ms => @List.Forall_cons _ (fun m => P m.2) m ms (json_nested_ind m.2) (go ms)
          end) ms)
  end.
End Induction.

(** Values whose numbers are JSON numbers and whose text is UTF-8: those that
    the reader yields. *)
Fixpoint well_formed (v : json) : bool :=
  match v with
  | JNumber d => is_number (bytes d)
  | JString s => valid_utf8 s
  | JArray vs => forallb well_formed vs
  | JObject ms => forallb (fun m => valid_utf8 m.1 && well_formed m.2) ms
  | _ => true
  end.

Lemma is_number_ok d : is_number d = true <-> number_ok d.
Proof.
  unfold is_number, number_ok. split; [|by intros ->].
  destruct (scan_number d) as [a [|b r]| | |] eqn:Hs; try done. intros _.
  apply scan_number_spec in Hs as (Heq & _ & _). by rewrite app_nil_r in Heq; subst.
Qed.

(** A number is ASCII text. *)
Definition number_byte (b : Z) : Prop := 43 <= b <= 101.

Lemma scan_digits_bytes l d r : scan_digits l = Scanned d r -> Forall number_byte d.
Proof.
  assert (Hspan : forall l d r, span_digits l = (d, r) -> Forall number_byte d).
  { clear. intros l. induction l as [|b l IH]; simpl; intros d r; [by intros [= <- <-]|].
    destruct (is_digit b) eqn:Hb; [|by intros [= <- <-]].
    destruct (span_digits l) as [d' r'] eqn:Hd. intros [= <- <-]. constructor; [|by eapply IH].
    unfold number_byte, is_digit in *. lia. }
  destruct l as [|b l]; [done|]. cbn [scan_digits]. destruct (is_digit b); [|done].
  destruct (span_digits (b :: l)) as [d' r'] eqn:Hd. intros [= <- <-]. by eapply Hspan.
Qed.

Lemma scan_number_bytes l d r : scan_number l = Scanned d r -> Forall number_byte d.
Proof.
  unfold scan_number. intros (s & l1 & Hs & H)%scan_bind_Scanned.
  apply scan_bind_Scanned in H as (i & l2 & Hi & H). apply scan_bind_Scanned in H as (f & l3 & Hf & H).
  apply scan_bind_Scanned in H as (e & l4 & He & [= <- <-]).
  repeat apply Forall_app_2.
  - destruct l as [|b l]; simpl in Hs; [|destruct (b =? 45)]; injection Hs as <- _; repeat constructor; done.
  - destruct l1 as [|b l1]; [done|]. cbn [scan_integer] in Hi. destruct (b =? 48).
    + injection Hi as <- _. by repeat constructor.
    + by eapply scan_digits_bytes.
  - destruct l2 as [|b l2]; simpl in Hf; [by injection Hf as <- _|].
    destruct (b =? 46); [|by injection Hf as <- _].
    apply scan_bind_Scanned in Hf as (d' & ? & Hd%scan_digits_bytes & [= <- _]). by constructor.
  - destruct l3 as [|b l3]; simpl in He; [by injection He as <- _|].
    destruct ((b =? 101) || (b =? 69)) eqn:Hb; [|by injection He as <- _].
    assert (number_byte b) by (unfold number_byte; lia).
    destruct l3 as [|c l3]; [done|]. destruct ((c =? 43) || (c =? 45)) eqn:Hc;
      apply scan_bind_Scanned in He as (d' & ? & Hd%scan_digits_bytes & [= <- _]); repeat constructor; try done;
      unfold number_byte; lia.
Qed.

Lemma number_ok_bytes d : number_ok d -> Forall is_byte d.
Proof.
  intros H%scan_number_bytes. eapply list.Forall_impl; [exact H|].
  unfold number_byte, is_byte. intros b Hb. lia.
Qed.

Lemma renders_wf_all :
  (forall v t, renders v t -> well_formed v = true) /\
  (forall vs t, renders_items vs t -> forallb well_formed vs = true) /\
  (forall ms t, renders_members ms t -> forallb (fun m => valid_utf8 m.1 && well_formed m.2) ms = true) /\
  (forall k v t0 t, renders_member k v t0 t -> valid_utf8 k && well_formed v = true).
Proof.
  apply renders_ind_all; simpl; intros; rewrite ?unquote_valid; simpl; reflect_bools;
    repeat (apply andb_true_iff; split); try done.
  rewrite bytes_of_bytes by (by apply number_ok_bytes). by apply is_number_ok.
Qed.

Lemma renders_well_formed v t : renders v t -> well_formed v = true.
Proof. apply renders_wf_all. Qed.

Lemma forallb_Forall {A} (f : A -> bool) l : forallb f l = true <-> Forall (fun x => f x = true) l.
Proof. induction l; simpl; rewrite ?andb_true_iff, ?list.Forall_cons; intuition constructor. Qed.

Lemma Forall_implied {A} (P Q : A -> Prop) l : Forall P l -> Forall (fun x => P x -> Q x) l -> Forall Q l.
Proof. induction 1; inversion_clear 1; constructor; auto. Qed.

Lemma encode_items vs :
  vs <> [] -> Forall (fun v => renders v (encode v)) vs -> renders_items vs (commas (map encode vs)).
Proof.
  intros Hne H. induction H as [|v vs Hv Hvs IH]; [done|]. destruct vs as [|v' vs].
  - simpl. rewrite <- (app_nil_r (encode v)). apply (renders_last_item v [] (encode v) []); [constructor|done|constructor].
  - cbn [map commas]. apply (renders_more_items v (v' :: vs) [] (encode v) []);
      [constructor|done|constructor|by apply IH].
Qed.

Lemma encode_member k v :
  valid_utf8 k = true -> renders v (encode v) ->
  renders_member k v (encode v) (quote k ++ 58 :: encode v).
Proof.
  intros Hk Hv. rewrite <- (unquote_quote k Hk) at 1.
  pose proof (renders_pair (escape k) v [] [] [] (encode v) [] ltac:(constructor) (escape_ok k)
    ltac:(constructor) ltac:(constructor) Hv ltac:(constructor)) as H.
  rewrite app_nil_r in H. cbn [app] in H.
  unfold quote. cbn [app]. by rewrite <- app_assoc.
Qed.

Lemma encode_members ms :
  ms <> [] -> Forall (fun m => valid_utf8 m.1 = true /\ renders m.2 (encode m.2)) ms ->
  renders_members ms (commas (map (fun m => quote m.1 ++ 58 :: encode m.2) ms)).
Proof.
  intros Hne H. induction H as [|[k v] ms [Hk Hv] Hms IH]; [done|].
  pose proof (encode_member k v Hk Hv) as Hm. destruct ms as [|m ms].
  - by eapply renders_last_member.
  - cbn [map commas]. eapply renders_more_members; [exact Hm|by apply IH].
Qed.

Lemma encode_renders v : well_formed v = true -> renders v (encode v).
Proof.
  induction v as [|[]|d|s|vs IH|ms IH] using json_nested_ind; simpl; intros Hwf.
  - constructor.
  - constructor.
  - constructor.
  - rewrite <- (of_bytes_bytes d) at 1. constructor. by apply is_number_ok.
  - rewrite <- (unquote_quote s Hwf) at 1. constructor. apply escape_ok.
  - destruct vs as [|v vs]; [apply (renders_empty_array []); constructor|]. constructor.
    apply encode_items; [done|]. apply forallb_Forall in Hwf. by eapply Forall_implied.
  - destruct ms as [|m ms]; [apply (renders_empty_object []); constructor|]. constructor.
    apply encode_members; [done|]. apply forallb_Forall in Hwf.
    eapply (Forall_implied _ _ _ Hwf), list.Forall_impl; [exact IH|]. simpl.
    intros [k v] IHv [? ?]%andb_true_iff. auto.
Qed.

(** ** Whole texts *)

(** A text that is one value, with white space around it, not nested too
    deep. *)
Definition json_text (v : json) (l : list Z) : Prop :=
  exists w1 t w2, l = w1 ++ t ++ w2 /\ all_ws w1 /\ renders v t /\ all_ws w2 /\ depth v <= maxNestingDepth.

Lemma all_ws_end v w : all_ws w -> value_end v w.
Proof.
  intros Hw. destruct v; try done. destruct Hw as [|b w Hb _]; [done|]. simpl.
  unfold is_ws, number_char, is_digit in *. lia.
Qed.

Lemma skip_ws_nil l : skip_ws l = [] <-> all_ws l.
Proof.
  split.
  - intros Hs. destruct (skip_ws_split l) as (w & Hl & Hw). rewrite Hs, app_nil_r in Hl. by subst.
  - intros Hw. rewrite <- (app_nil_r l). by rewrite skip_ws_app.
Qed.

Lemma json_text_parse v l :
  json_text v l <-> exists r, parse_value (parse_fuel l) 0 l = Scanned v r /\ skip_ws r = [].
Proof.
  split.
  - intros (w1 & t & w2 & -> & Hw1 & Ht & Hw2 & Hd). exists w2. split; [|by apply skip_ws_nil].
    apply parse_complete; [done..|lia|by apply all_ws_end].
  - intros (r & (w & t & -> & Hw & Ht & Hf)%parse_sound & Hr%skip_ws_nil). exists w, t, r.
    split_and!; [done..|]. unfold fits, maxNestingDepth in *. lia.
Qed.

(** A text stands for at most one value. *)
Lemma json_text_unique v1 v2 l : json_text v1 l -> json_text v2 l -> v1 = v2.
Proof. intros (r1 & H1 & _)%json_text_parse (r2 & H2 & _)%json_text_parse. congruence. Qed.

Lemma json_text_well_formed v l : json_text v l -> well_formed v = true.
Proof. intros (w1 & t & w2 & _ & _ & Ht & _). by eapply renders_well_formed. Qed.

Lemma encode_json_text v :
  well_formed v = true -> depth v <= maxNestingDepth -> json_text v (encode v).
Proof.
  intros Hv Hd. exists [], (encode v), []. rewrite app_nil_r.
  split_and!; [done|constructor|by apply encode_renders|constructor|done].
Qed.

(** Different values are written differently. *)
Lemma encode_inj v1 v2 : well_formed v1 = true -> well_formed v2 = true -> encode v1 = encode v2 -> v1 = v2.
Proof.
  intros H1%encode_renders H2%encode_renders Heq.
  set (d := - (depth v1 `max` depth v2)).
  pose proof (parse_complete v1 (encode v1) d [] [] H1 ltac:(constructor)) as P1.
  pose proof (parse_complete v2 (encode v2) d [] [] H2 ltac:(constructor)) as P2.
  rewrite Heq in P1. cut (Scanned v1 [] = Scanned v2 []); [by intros [= ->]|].
  rewrite <- P1, P2; [done|..]; try (by apply all_ws_end; constructor); unfold d, maxNestingDepth; lia.
Qed.

(** [Decoder.Decode] on a text that ends with [io.EOF]: after one value, a
    second call meets the end exactly when the text is that value alone. *)
Lemma read_value_text v l :
  json_text v l <-> exists r, read_value (Sentinel IoEOF) l = (Ok v, r) /\ skip_ws r = [].
Proof.
  rewrite json_text_parse. unfold read_value. rewrite bool_decide_eq_true_2 by done. simpl.
  split; intros (r & Hr & Hs); exists r.
  - assert (Hne : skip_ws l <> []).
    { intros Hl. apply parse_sound in Hr as (w & t & -> & Hw & Ht & _).
      rewrite skip_ws_app in Hl by done. destruct (renders_head v t Ht) as (b & t' & -> & Hb).
      cbn [app] in Hl. by rewrite skip_ws_nonws in Hl. }
    destruct (skip_ws l); [done|]. rewrite Hr. split; [|done]. by destruct r; rewrite ?andb_false_r.
  - destruct (skip_ws l); [done|]. split; [|done]. destruct (parse_value _ _ _); simplify_eq/=; try done.
    rewrite andb_false_r in Hr. destruct rest; by simplify_eq/=.
Qed.

Lemma read_value_end l : skip_ws l = [] -> read_value (Sentinel IoEOF) l = (Err (Sentinel IoEOF), []).
Proof. intros Hl. unfold read_value. by rewrite Hl. Qed.

Lemma read_value_error ends l e r :
  read_value ends l = (Err e, r) -> skip_ws l <> [] -> ends = Sentinel IoEOF -> errors_Is e IoEOF = false.
Proof.
  unfold read_value. intros H Hl ->. destruct (skip_ws l); [done|]. rewrite bool_decide_eq_true_2 in H by done.
  simpl in H. destruct (parse_value _ _ _) as [v r'| | |]; simplify_eq; try done.
  rewrite andb_false_r in H. by destruct r'; simplify_eq.
Qed.

(** What is written is a sequence of bytes. *)
Lemma commas_forall (P : Z -> Prop) ts : P 44 -> Forall (Forall P) ts -> Forall P (commas ts).
Proof.
  intros Hc. induction 1 as [|t ts Ht Hts IH]; [constructor|]. destruct ts as [|t' ts]; [done|].
  cbn [commas]. apply Forall_app_2; [done|]. by constructor.
Qed.

Lemma quote_bytes s : Forall is_byte (quote s).
Proof.
  unfold quote, escape. constructor; [done|]. apply Forall_app_2; [apply concat_encode_bytes|by repeat constructor].
Qed.

Lemma encode_bytes v : Forall is_byte (encode v).
Proof.
  induction v as [|[]|d|s|vs IH|ms IH] using json_nested_ind; cbn [encode]; try (by repeat constructor).
  - apply bytes_range.
  - apply quote_bytes.
  - constructor; [done|]. apply Forall_app_2; [|by repeat constructor].
    apply commas_forall; [done|]. by apply Forall_map.
  - constructor; [done|]. apply Forall_app_2; [|by repeat constructor].
    apply commas_forall; [done|]. apply Forall_map. eapply list.Forall_impl; [exact IH|]. intros m Hm.
    apply Forall_app_2; [apply quote_bytes|by constructor].
Qed.

(** It has no control characters, so that it is one line of text. *)
Definition printable (b : Z) : Prop := 32 <= b.

Lemma quote_printable s : Forall printable (quote s).
Proof.
  unfold quote, escape, printable. constructor; [lia|]. apply Forall_app_2; [|repeat constructor; lia].
  pose proof (decode_scalar _ (bytes_range s)) as Hs. induction Hs as [|u us Hu _ IH]; [constructor|].
  rewrite fmap_cons. cbn [concat]. rewrite fmap_app, concat_app. apply Forall_app_2; [|done].
  assert (Hhex : forall a, is_hex a = true -> 32 <= a).
  { unfold is_hex, hex_of, is_digit. intros a Ha%bool_decide_eq_true. destruct Ha as [x Ha]. repeat case_match; try done; lia. }
  destruct (escape_rune_text u Hu) as [r e He Hne Hr|u a b c d Hh Ha Hb Hc Hd _ _|r Hs' H32 _ _].
  - rewrite concat_encode_ascii by (repeat constructor; lia). repeat constructor; [lia|].
    unfold escape_value in He. repeat case_match; reflect_bools; try done; lia.
  - rewrite concat_encode_ascii by (repeat constructor; lia). reflect_bools.
    repeat constructor; try lia; by apply Hhex.
  - simpl. rewrite app_nil_r. destruct (decide (r < 128)).
    + rewrite encode_rune_ascii by lia. by repeat constructor.
    + eapply list.Forall_impl; [by apply encode_rune_above; [|lia]|]. simpl. lia.
Qed.

Lemma encode_printable v : well_formed v = true -> Forall printable (encode v).
Proof.
  induction v as [|[]|d|s|vs IH|ms IH] using json_nested_ind; cbn [encode well_formed]; intros Hwf;
    try (repeat constructor; unfold printable; lia).
  - apply is_number_ok, scan_number_bytes in Hwf. eapply list.Forall_impl; [exact Hwf|].
    unfold number_byte, printable. simpl. lia.
  - apply quote_printable.
  - constructor; [unfold printable; lia|]. apply Forall_app_2; [|repeat constructor; unfold printable; lia].
    apply commas_forall; [unfold printable; lia|]. apply Forall_map. apply forallb_Forall in Hwf.
    by eapply Forall_implied.
  - constructor; [unfold printable; lia|]. apply Forall_app_2; [|repeat constructor; unfold printable; lia].
    apply commas_forall; [unfold printable; lia|]. apply Forall_map. apply forallb_Forall in Hwf.
    eapply (Forall_implied _ _ _ Hwf), list.Forall_impl; [exact IH|]. cbv beta. intros m IHm [_ Hm]%andb_true_iff.
    apply Forall_app_2; [apply quote_printable|]. constructor; [unfold printable; lia|by apply IHm].
Qed.

Lemma bytes_encode v : bytes (of_bytes (encode v)) = encode v.
Proof. apply bytes_of_bytes, encode_bytes. Qed.

#[export] Hint Resolve json_text_well_formed renders_well_formed encode_bytes : notifier.
#[export] Hint Rewrite bytes_encode : go_strings.

(** ** Members with the texts of their values *)

Inductive renders_fields : list (string * json * list Z) -> list Z -> Prop :=
| renders_last_field k v t0 t : renders_member k v t0 t -> renders_fields [(k, v, t0)] t
| renders_more_fields k v t0 fs t t' : renders_member k v t0 t -> renders_fields fs t' ->
    renders_fields ((k, v, t0) :: fs) (t ++ 44 :: t').

Lemma renders_fields_members fs t : renders_fields fs t -> renders_members fs.*1 t.
Proof.
  induction 1 as [k v t0 t Hm|k v t0 fs t t' Hm _ IH]; [by eapply renders_last_member|].
  by eapply renders_more_members.
Qed.

Lemma renders_members_fields ms t : renders_members ms t -> exists fs, fs.*1 = ms /\ renders_fields fs t.
Proof.
  induction 1 as [k v t0 t Hm|k v t0 ms t t' Hm _ (fs & <- & IH)].
  - exists [(k, v, t0)]. split; [done|by apply renders_last_field].
  - exists ((k, v, t0) :: fs). split; [done|by apply renders_more_fields].
Qed.

Lemma member_texts_step n d k v t0 t e r :
  renders_member k v t0 t -> (2 * length t + 1 <= n)%nat -> e = 44 \/ e = 125 ->
  depth v + d <= maxNestingDepth ->
  member_texts (S n) d (t ++ e :: r) =
    if e =? 44 then let? fs, r4 := member_texts n d r in Scanned ((k, v, t0) :: fs) r4
    else if e =? 125 then Scanned [(k, v, t0)] r else Malformed.
Proof.
  destruct 1 as [raw v w1 w2 w3 t w4 Hw1 Hraw Hw2 Hw3 Hv Hw4]. intros Hn He Hd.
  repeat (rewrite <- app_assoc; cbn [app]). cbn [member_texts].
  rewrite next_char_app by done. cbn [Z.eqb Pos.eqb]. rewrite raw_ok_scan by done. cbn [scan_bind].
  rewrite next_char_app by done. cbn [Z.eqb Pos.eqb].
  assert (Hparse : parse_value n d (w3 ++ t ++ w4 ++ e :: r) = Scanned v (w4 ++ e :: r)).
  { apply parse_complete_all; [done|lengths|done|done|]. apply value_end_ws; [done|]. by destruct He as [->| ->]. }
  rewrite Hparse. cbn [scan_bind]. rewrite next_char_app by (done || by destruct He as [->| ->]).
  assert (Htext : take (length (skip_ws (w3 ++ t ++ w4 ++ e :: r)) - length (w4 ++ e :: r))
                    (skip_ws (w3 ++ t ++ w4 ++ e :: r)) = t).
  { rewrite skip_ws_app by done. destruct (renders_head v t Hv) as (b & t' & -> & Hb). cbn [app].
    rewrite skip_ws_nonws by done. rewrite (app_comm_cons t' _ b), length_app, Nat.add_sub. by apply take_app_length. }
  by rewrite Htext.
Qed.

Lemma member_texts_complete fs t n d r :
  renders_fields fs t -> (2 * length t + 2 <= n)%nat ->
  foldr (fun m d => depth m.2 `max` d) 0 fs.*1 + d <= maxNestingDepth ->
  member_texts n d (t ++ 125 :: r) = Scanned fs r.
Proof.
  intros H. revert n d r. induction H as [k v t0 t Hm|k v t0 fs t t' Hm _ IH]; intros n d r Hn Hd;
    rewrite fmap_cons in Hd; cbn [foldr fst snd] in Hd.
  - with_fuel n. rewrite (member_texts_step n d k v t0); [done|done|lengths|by right|lia].
  - with_fuel n. rewrite <- app_assoc. cbn [app].
    rewrite (member_texts_step n d k v t0); [|done|lengths|by left|lia].
    simpl. rewrite IH; [done|lengths|lia].
Qed.

(** A text that a struct can be decoded from, with the members of its object;
    [null] and the empty object have none. *)
Inductive struct_text : list (string * json * list Z) -> list Z -> Prop :=
| struct_none l v : v = JNull \/ v = JObject [] -> json_text v l -> struct_text [] l
| struct_object fs w1 t w2 : all_ws w1 -> renders_fields fs t -> all_ws w2 ->
    depth (JObject fs.*1) <= maxNestingDepth -> struct_text fs (w1 ++ (123 :: t ++ [125]) ++ w2).

Lemma struct_text_json fs l :
  struct_text fs l -> exists v, json_text v l /\ (v = JNull \/ v = JObject fs.*1).
Proof.
  destruct 1 as [l v Hv Ht|fs w1 t w2 Hw1 Hfs Hw2 Hd].
  - exists v. split; [done|]. destruct Hv as [->| ->]; auto.
  - exists (JObject fs.*1). split; [|by right]. exists w1, (123 :: t ++ [125]), w2.
    split_and!; [done..| |done|done]. apply renders_object. by apply renders_fields_members.
Qed.

Lemma json_text_struct v l :
  json_text v l -> v = JNull \/ (exists ms, v = JObject ms) -> exists fs, struct_text fs l.
Proof.
  intros Htext [->|[ms ->]]; [exists []; eapply struct_none; [by left|done]|].
  pose proof Htext as (w1 & t & w2 & -> & Hw1 & Ht & Hw2 & Hd).
  inversion Ht as [| | | | | | |w Hw|ms' t' Hms]; subst.
  - exists []. eapply struct_none; [by right|done].
  - destruct (renders_members_fields ms t' Hms) as (fs & <- & Hfs). exists fs. by apply struct_object.
Qed.

(** Decoding into a struct goes through these members. *)
Lemma decode_struct_text {R} (set : string -> json -> list Z -> R -> result R) zero fs l v r :
  struct_text fs l -> json_text v (l) -> decode_struct set zero v (l ++ r) = set_fields set fs zero.
Proof.
  intros Hfs Hv. destruct Hfs as [l v' Hv' Ht|fs w1 t w2 Hw1 Hfs Hw2 Hd].
  - rewrite (json_text_unique v v' l Hv Ht). by destruct Hv' as [->| ->].
  - assert (Hobj : v = JObject fs.*1).
    { eapply json_text_unique; [done|]. exists w1, (123 :: t ++ [125]), w2. split_and!; try done.
      apply renders_object. by apply renders_fields_members. }
    subst v. unfold decode_struct. rewrite <- app_assoc, skip_ws_app by done. cbn [app].
    rewrite skip_ws_nonws by done. cbn [drop]. rewrite <- !app_assoc, drop_0. cbn [app].
    rewrite (member_texts_complete fs); [by destruct Hfs|done| |simpl in Hd; lia].
    unfold parse_fuel. lengths.
Qed.
