(* ===== verification/JsonCanon.v ===== *)
(** * Canonical values: objects as maps

    Decoding into [any] forgets the order of the members of an object and all
    but the last of those with equal keys.  Two objects become the same value
    exactly when they have the same members under this reading; a canonical
    value is written and read back unchanged. *)

From S2P Require Import Prelude GoTime GoStrings GoText Table Json JsonGrammar.

(** ** The order of keys *)

Definition key_lt (k1 k2 : string) : Prop := String.compare k1 k2 = Lt.

Lemma key_lt_irrefl k : ~ key_lt k k.
Proof. unfold key_lt. intros H. pose proof (String.compare_antisym k k) as Ha. by rewrite H in Ha. Qed.

Lemma key_lt_leb k1 k2 : key_lt k1 k2 <-> String.leb k1 k2 = true /\ k1 <> k2.
Proof.
  unfold key_lt, String.leb. destruct (String.compare k1 k2) eqn:Hc.
  - apply String.compare_eq_iff in Hc as ->. naive_solver.
  - split; [|done]. intros _. split; [done|]. intros ->. by apply key_lt_irrefl in Hc.
  - split; [done|]. by intros [? _].
Qed.

Lemma key_lt_antisym k1 k2 : key_lt k1 k2 -> key_lt k2 k1 -> False.
Proof. unfold key_lt. rewrite String.compare_antisym. destruct (String.compare k2 k1); done. Qed.

#[global] Instance key_lt_trans : Transitive key_lt.
Proof.
  intros k1 k2 k3 H12 H23. apply key_lt_leb. split.
  - apply key_lt_leb in H12 as [H12 _], H23 as [H23 _]. by eapply leb_trans.
  - intros ->. by eapply key_lt_antisym.
Qed.

Lemma compare_Gt k1 k2 : String.compare k1 k2 = Gt -> key_lt k2 k1.
Proof. unfold key_lt. rewrite String.compare_antisym. destruct (String.compare k2 k1); done. Qed.

(** ** Sorted members *)

Definition sorted_members : list (string * json) -> Prop :=
  StronglySorted (fun m1 m2 => key_lt m1.1 m2.1).

Fixpoint map_get (k : string) (l : list (string * json)) : option json :=
  match l with
  | [] => None
  | (k', v) :: l => if bool_decide (k = k') then Some v else map_get k l
  end.

Lemma map_get_put k v k' l : map_get k' (put k v l) = if bool_decide (k' = k) then Some v else map_get k' l.
Proof.
  induction l as [|[k0 v0] l IH]; [done|]. simpl. destruct (String.compare k k0) eqn:Hc; simpl; [|done|].
  - apply String.compare_eq_iff in Hc as ->. repeat case_bool_decide; congruence.
  - rewrite IH. apply compare_Gt in Hc. repeat case_bool_decide; try done. subst.
    by apply key_lt_irrefl in Hc.
Qed.

Lemma put_forall (P : string * json -> Prop) k v l : P (k, v) -> Forall P l -> Forall P (put k v l).
Proof.
  intros Hkv. induction 1 as [|[k0 v0] l H0 Hl IH]; [by repeat constructor|].
  simpl. destruct (String.compare k k0); by repeat constructor.
Qed.

Lemma put_sorted k v l : sorted_members l -> sorted_members (put k v l).
Proof.
  unfold sorted_members. induction 1 as [|[k0 v0] l Hl IH Hall]; [by repeat constructor|].
  simpl. destruct (String.compare k k0) eqn:Hc.
  - apply String.compare_eq_iff in Hc as ->. by constructor.
  - constructor; [by constructor|]. constructor; [done|]. eapply list.Forall_impl; [exact Hall|].
    intros [k1 v1] Hk1. simpl in *. by etrans.
  - constructor; [done|]. apply put_forall; [by apply compare_Gt|done].
Qed.

Lemma map_get_above k l : Forall (fun m => key_lt k m.1) l -> map_get k l = None.
Proof.
  induction 1 as [|[k0 v0] l Hk _ IH]; [done|]. simpl in *. rewrite bool_decide_eq_false_2; [done|].
  intros ->. by apply key_lt_irrefl in Hk.
Qed.

(** Sorted members are a map: they are determined by their lookups. *)
Lemma sorted_members_ext l1 l2 :
  sorted_members l1 -> sorted_members l2 -> (forall k, map_get k l1 = map_get k l2) -> l1 = l2.
Proof.
  unfold sorted_members. intros H1. revert l2.
  induction H1 as [|[k1 v1] l1 Hl1 IH Hall1]; intros l2 H2 Heq.
  - destruct l2 as [|[k2 v2] l2]; [done|]. specialize (Heq k2). simpl in Heq.
    by rewrite bool_decide_eq_true_2 in Heq.
  - destruct H2 as [|[k2 v2] l2 Hl2 Hall2].
    { specialize (Heq k1). simpl in Heq. by rewrite bool_decide_eq_true_2 in Heq. }
    assert (k1 = k2) as ->.
    { pose proof (Heq k1) as Hk1. pose proof (Heq k2) as Hk2. simpl in *.
      rewrite bool_decide_eq_true_2 in Hk1 by done. rewrite (bool_decide_eq_true_2 (k2 = k2)) in Hk2 by done.
      destruct (String.compare k1 k2) eqn:Hc; [by apply String.compare_eq_iff in Hc| |apply compare_Gt in Hc];
        exfalso.
      - rewrite bool_decide_eq_false_2 in Hk1 by (intros ->; by apply key_lt_irrefl in Hc).
        rewrite map_get_above in Hk1; [done|]. eapply list.Forall_impl; [exact Hall2|]. intros m Hm. by etrans.
      - rewrite bool_decide_eq_false_2 in Hk2 by (intros ->; by apply key_lt_irrefl in Hc).
        rewrite map_get_above in Hk2; [done|]. eapply list.Forall_impl; [exact Hall1|]. intros m Hm. by etrans. }
    pose proof (Heq k2) as Hk. simpl in Hk. rewrite !bool_decide_eq_true_2 in Hk by done. injection Hk as ->.
    f_equal. apply IH; [done|]. intros k. specialize (Heq k). simpl in Heq. case_bool_decide as Hkk; [|done].
    subst. by rewrite !map_get_above.
Qed.

(** ** Members of an object *)

Definition put_all (ms l : list (string * json)) : list (string * json) :=
  foldl (fun l m => put m.1 m.2 l) l ms.

Lemma canon_object ms : canon (JObject ms) = JObject (put_all (map (fun m => (m.1, canon m.2)) ms) []).
Proof. done. Qed.

Lemma put_all_sorted ms l : sorted_members l -> sorted_members (put_all ms l).
Proof. revert l. induction ms as [|m ms IH]; intros l Hl; [done|]. by apply IH, put_sorted. Qed.

Lemma put_all_forall (P : string * json -> Prop) ms l : Forall P ms -> Forall P l -> Forall P (put_all ms l).
Proof.
  intros H. revert l. induction H as [|[k v] ms Hm _ IH]; intros l Hl; [done|]. by apply IH, put_forall.
Qed.

(** The value that an object has under a key: that of its last member. *)
Definition member (k : string) (ms : list (string * json)) : option json :=
  foldl (fun acc m => if bool_decide (k = m.1) then Some m.2 else acc) None ms.

Lemma map_get_put_all k ms l acc :
  map_get k l = canon <$> acc ->
  map_get k (put_all (map (fun m => (m.1, canon m.2)) ms) l)
    = canon <$> foldl (fun acc m => if bool_decide (k = m.1) then Some m.2 else acc) acc ms.
Proof.
  revert l acc. induction ms as [|[k0 v0] ms IH]; intros l acc Hl; [done|]. simpl. apply IH.
  rewrite map_get_put. by case_bool_decide.
Qed.

(** Objects are the same value exactly when every key has the same value in
    both, whatever the order of the members and however often a key occurs. *)
Lemma canon_object_eq ms1 ms2 :
  canon (JObject ms1) = canon (JObject ms2) <->
  forall k, canon <$> member k ms1 = canon <$> member k ms2.
Proof.
  rewrite !canon_object.
  assert (Hget : forall k ms, map_get k (put_all (map (fun m => (m.1, canon m.2)) ms) []) = canon <$> member k ms)
    by (intros k ms; by apply map_get_put_all).
  split.
  - intros [= Heq] k. by rewrite <- !Hget, Heq.
  - intros Heq. f_equal. apply sorted_members_ext; [apply put_all_sorted; constructor..|].
    intros k. by rewrite !Hget.
Qed.

(** ** Canonical values *)

Lemma put_all_above ms l :
  StronglySorted (fun m1 m2 => key_lt m1.1 m2.1) (l ++ ms) -> put_all ms l = l ++ ms.
Proof.
  revert l. induction ms as [|[k v] ms IH]; intros l Hs; [by rewrite app_nil_r|].
  assert (Hput : put k v l = l ++ [(k, v)]).
  { clear IH. induction l as [|[k0 v0] l IHl]; [done|]. simpl in Hs. inversion_clear Hs as [|?? Hs' Hall].
    simpl. assert (Hlt : key_lt k0 k) by (rewrite list.Forall_forall in Hall; apply (Hall (k, v)); set_solver).
    rewrite String.compare_antisym. rewrite Hlt. simpl. f_equal. by apply IHl. }
  simpl. rewrite Hput, IH; by rewrite <- app_assoc.
Qed.

Lemma canon_idem v : canon (canon v) = canon v.
Proof.
  induction v as [| | | |vs IH|ms IH] using json_nested_ind; try done.
  - simpl. f_equal. rewrite map_map. induction IH as [|v vs Hv _ IHvs]; [done|]. simpl. by f_equal.
  - rewrite (canon_object ms), canon_object. f_equal. set (l := put_all (map _ ms) []).
    assert (Hc : Forall (fun m => canon m.2 = m.2) l).
    { apply put_all_forall; [|constructor]. apply Forall_map. eapply list.Forall_impl; [exact IH|]. done. }
    replace (map _ l) with l.
    + apply (put_all_above l []). apply put_all_sorted. constructor.
    + clearbody l. induction Hc as [|[k v] l Hv _ IHl]; [done|]. simpl in *. by rewrite Hv, <- IHl.
Qed.

Lemma canon_well_formed v : well_formed v = true -> well_formed (canon v) = true.
Proof.
  induction v as [| | | |vs IH|ms IH] using json_nested_ind; try done; intros Hwf.
  - simpl in *. apply forallb_Forall in Hwf. apply forallb_Forall, Forall_map. by eapply Forall_implied.
  - rewrite canon_object. simpl in *. apply forallb_Forall in Hwf. apply forallb_Forall.
    apply put_all_forall; [|constructor]. apply Forall_map.
    eapply (Forall_implied _ _ _ Hwf), list.Forall_impl; [exact IH|]. simpl.
    intros m IHm [Hk Hv]%andb_true_iff. rewrite Hk. simpl. by apply IHm.
Qed.

Lemma fold_depth_le {A} (f : A -> Z) l b : 0 <= b -> Forall (fun x => f x <= b) l -> foldr (fun x d => f x `max` d) 0 l <= b.
Proof. intros Hb. induction 1; simpl; lia. Qed.

Lemma fold_depth_elem {A} (f : A -> Z) l : Forall (fun x => f x <= foldr (fun x d => f x `max` d) 0 l) l.
Proof.
  induction l as [|x l IH]; constructor; simpl; [lia|]. eapply list.Forall_impl; [exact IH|]. simpl. intros; lia.
Qed.

Lemma depth_canon v : depth (canon v) <= depth v.
Proof.
  induction v as [| | | |vs IH|ms IH] using json_nested_ind; try done.
  - simpl. apply Zplus_le_compat_l, fold_depth_le; [apply fold_depth_nonneg|]. apply Forall_map.
    eapply (Forall_implied _ _ _ (fold_depth_elem depth vs)), list.Forall_impl; [exact IH|]. simpl. lia.
  - rewrite canon_object. simpl. apply Zplus_le_compat_l, fold_depth_le; [apply fold_depth_nonneg|].
    apply put_all_forall; [|constructor]. apply Forall_map.
    eapply (Forall_implied _ _ _ (fold_depth_elem (fun m => depth m.2) ms)), list.Forall_impl; [exact IH|].
    simpl. lia.
Qed.

Lemma well_formed_numbers v : well_formed v = true -> numbers_ok v = true.
Proof.
  induction v as [| | | |vs IH|ms IH] using json_nested_ind; try done; simpl; intros Hwf.
  - apply forallb_Forall in Hwf. apply forallb_Forall. by eapply Forall_implied.
  - apply forallb_Forall in Hwf. apply forallb_Forall.
    eapply (Forall_implied _ _ _ Hwf), list.Forall_impl; [exact IH|]. simpl.
    intros m IHm [_ Hv]%andb_true_iff. by apply IHm.
Qed.

Lemma Marshal_well_formed v : well_formed v = true -> Marshal v = Ok (of_bytes (encode v)).
Proof. intros Hv. unfold Marshal. by rewrite well_formed_numbers. Qed.
