(* ===== verification/Payload.v ===== *)
(** * The JSON of requests, digests and messages

    The places of the program that read or write JSON, over the reader and
    the encoder of [Json.v]: the request digest (notification/hash.go), the
    body of a create request (transport/httpapi/json.go), and the message that
    the publisher sends and the worker receives (messaging/rabbitmq). *)

From S2P Require Import Prelude GoTime GoStrings GoText Notification Json JsonGrammar JsonCanon Hash OutboxService HttpApi Rabbit.

#[local] Open Scope list_scope.
#[local] Open Scope Z_scope.

(** ** The request digest *)

(** [decoder.Decode] into [any] on a payload; the rest is what a second call
    reads. *)
Definition DecodePayload (payload : string) : result json * string :=
  let '(r, rest) := decode_any (Sentinel IoEOF) (bytes payload) in (r, of_bytes rest).

Definition payload_is (v : json) (payload : string) : Prop := json_text v (bytes payload).

Lemma read_value_rest ends l v r : read_value ends l = (Ok v, r) -> exists t, l = t ++ r.
Proof.
  unfold read_value. destruct (skip_ws l); [done|]. destruct (parse_value _ _ _) as [v' r'| | |] eqn:Hp; try done.
  destruct (match r' with [] => _ | _ => _ end); [done|]. intros [= <- <-].
  apply parse_sound in Hp as (w & t & -> & _). exists (w ++ t). by rewrite <- app_assoc.
Qed.

(** The canonical text of a payload exists exactly when it is one JSON value. *)
Lemma canonical_of_text payload c :
  canonical_of DecodePayload Marshal payload = Some c <->
  exists v, payload_is v payload /\ c = of_bytes (encode (canon v)).
Proof.
  unfold canonical_of, DecodePayload, decode_any, payload_is.
  destruct (read_value (Sentinel IoEOF) (bytes payload)) as [[v|e] rest] eqn:Hread; cbn [mbind result_bind].
  - destruct (read_value_rest _ _ _ _ Hread) as [t Ht].
    pose proof (bytes_range payload) as Hb. rewrite Ht, Forall_app in Hb. rewrite bytes_of_bytes by apply Hb.
    destruct (decide (skip_ws rest = [])) as [Hws|Hws].
    + assert (Htext : json_text v (bytes payload)) by (apply read_value_text; by exists rest).
      rewrite read_value_end by done. cbn.
      rewrite Marshal_well_formed by eauto using canon_well_formed with notifier.
      split; [intros [= <-]; by exists v|]. intros (v' & Hv' & ->). by rewrite (json_text_unique v' v _ Hv' Htext).
    + split.
      * destruct (read_value (Sentinel IoEOF) rest) as [[v'|e] r'] eqn:Hread'; [done|].
        cbn. by rewrite (read_value_error _ _ _ _ Hread').
      * intros (v' & (r' & Hread' & Hr')%read_value_text & _). rewrite Hread in Hread'. by injection Hread' as -> ->.
  - split; [done|]. intros (v & (r & Hr & _)%read_value_text & _). by rewrite Hread in Hr.
Qed.

Section Digest.
Context (Sum256 : list Z -> list Z).

Local Abbreviation RequestHash := (Hash.RequestHash DecodePayload Marshal Sum256).

(** The digest of a value for a destination. *)
Definition digest (destinationID : string) (v : json) : string :=
  of_bytes (Sum256 (bytes destinationID ++ [0] ++ encode (canon v))).

Lemma RequestHash_digest destinationID payload h :
  RequestHash destinationID payload = Ok h <-> exists v, payload_is v payload /\ h = digest destinationID v.
Proof.
  rewrite RequestHash_canonical. unfold digest, hash_input. split.
  - intros (c & (v & Hv & ->)%canonical_of_text & ->). exists v. by rewrite bytes_encode.
  - intros (v & Hv & ->). exists (of_bytes (encode (canon v))). rewrite bytes_encode. split; [|done].
    apply canonical_of_text. by exists v.
Qed.

(** C9 (equivalence): what [RequestHash] computes.  It succeeds exactly on the
    payloads that are one JSON value, nested at most [maxNestingDepth] deep,
    and then hashes the destination and the value: the white space, the order
    of members, repeated members but the last, and the way in which characters
    are written do not matter; numbers count by their literal, and what is not
    Unicode text as U+FFFD; nothing else is forgotten, short of a collision of
    the hash function.  The canonical text is itself a payload with the same
    digest. *)
Theorem request_hash_value destinationID payload :
  (forall h, RequestHash destinationID payload = Ok h <->
     exists v, payload_is v payload /\ h = digest destinationID v) /\
  (forall v, payload_is v payload ->
     RequestHash destinationID (of_bytes (encode (canon v))) = RequestHash destinationID payload) /\
  (forall v payload' v', (forall l, Forall is_byte (Sum256 l)) ->
     payload_is v payload -> payload_is v' payload' ->
     (canon v = canon v' -> RequestHash destinationID payload = RequestHash destinationID payload') /\
     (RequestHash destinationID payload = RequestHash destinationID payload' ->
      canon v = canon v' \/ exists x y, x <> y /\ Sum256 x = Sum256 y)).
Proof.
  assert (Hok : forall p v, payload_is v p -> RequestHash destinationID p = Ok (digest destinationID v)).
  { intros p v Hv. apply RequestHash_digest. by exists v. }
  split; [intros h; apply RequestHash_digest|split].
  - intros v Hv. rewrite (Hok payload v Hv), (Hok _ (canon v)).
    + unfold digest. by rewrite canon_idem.
    + unfold payload_is. rewrite bytes_encode.
      apply encode_json_text; [by eauto using canon_well_formed with notifier|].
      destruct Hv as (_ & _ & _ & _ & _ & _ & _ & Hd). pose proof (depth_canon v). lia.
  - intros v payload' v' Hsum Hv Hv'. rewrite (Hok _ _ Hv), (Hok _ _ Hv'). unfold digest.
    split; [by intros ->|]. intros [= Heq%of_bytes_inj]; [|done..].
    destruct (decide (encode (canon v) = encode (canon v'))) as [He|Hne].
    + left. apply encode_inj; [by eauto using canon_well_formed with notifier..|done].
    + right. eexists _, _. split; [|exact Heq]. intros ?. simplify_list_eq.
Qed.

End Digest.

(** ** Structs *)

Section Fields.
Context {R : Type} (set : string -> json -> list Z -> R -> result R).

(** A failed member is remembered to the end. *)
Lemma set_fields_fold fs r failed :
  let '(r', failed') :=
    foldl (fun '(r, failed) '(key, v, text) =>
      match set key v text r with
      | Ok r' => (r', failed)
      | Err e => (r, Some (default e failed))
      end) (r, failed) fs in
  match failed with
  | Some e => failed' = Some e
  | None =>
      match failed' with
      | Some e => exists k v t r0, (k, v, t) ∈ fs /\ set k v t r0 = Err e
      | None => forall P : R -> Prop, P r ->
          (forall k v t r r', (k, v, t) ∈ fs -> set k v t r = Ok r' -> P r -> P r') -> P r'
      end
  end.
Proof.
  revert r failed. induction fs as [|[[k v] t] fs IH]; intros r failed.
  { simpl. by destruct failed. }
  simpl. destruct (set k v t r) as [r1|e] eqn:Hset.
  - specialize (IH r1 failed). destruct (foldl _ _ _) as [r' failed']. destruct failed as [e|]; [done|].
    destruct failed' as [e|].
    + destruct IH as (k0 & v0 & t0 & r0 & Hin & H0). exists k0, v0, t0, r0. split; [by right|done].
    + intros P HP Hstep. apply IH.
      * eapply Hstep; [left|exact Hset|done].
      * intros ?????? . eapply Hstep. by right.
  - specialize (IH r (Some (default e failed))). destruct (foldl _ _ _) as [r' failed'].
    destruct failed as [e0|]; simpl in *; [done|]. rewrite IH. exists k, v, t, r. split; [left|done].
Qed.

Lemma set_fields_error fs zero e :
  set_fields set fs zero = Err e -> exists k v t r, (k, v, t) ∈ fs /\ set k v t r = Err e.
Proof.
  unfold set_fields. pose proof (set_fields_fold fs zero None) as H.
  destruct (foldl _ _ _) as [r' [e'|]]; [|done]. by intros [= ->].
Qed.

(** What every member keeps holds of the result. *)
Lemma set_fields_inv (P : R -> Prop) fs zero r :
  set_fields set fs zero = Ok r -> P zero ->
  (forall k v t r r', (k, v, t) ∈ fs -> set k v t r = Ok r' -> P r -> P r') -> P r.
Proof.
  unfold set_fields. pose proof (set_fields_fold fs zero None) as H.
  destruct (foldl _ _ _) as [r' [e'|]]; [done|]. intros [= ->] HP Hstep. by apply H.
Qed.

Lemma decode_struct_value zero v l r :
  decode_struct set zero v l = Ok r -> v = JNull \/ exists ms, v = JObject ms.
Proof. destruct v; simpl; try done; eauto. Qed.

(** [json.Unmarshal] into a struct. *)
Lemma Unmarshal_struct_Ok zero data r :
  Unmarshal_struct set zero data = Ok r <->
  exists fs, struct_text fs (bytes data) /\ set_fields set fs zero = Ok r.
Proof.
  unfold Unmarshal_struct. split.
  - destruct (parse_value _ _ _) as [v rest| | |] eqn:Hp; try done.
    destruct (skip_ws rest) eqn:Hs; [|done]. intros Hd.
    assert (Ht : json_text v (bytes data)) by (apply json_text_parse; by exists rest).
    destruct (json_text_struct v _ Ht (decode_struct_value _ _ _ _ Hd)) as (fs & Hfs).
    exists fs. split; [done|]. rewrite <- (decode_struct_text set zero fs (bytes data) v []); [|done..].
    by rewrite app_nil_r.
  - intros (fs & Hfs & Hset). destruct (struct_text_json _ _ Hfs) as (v & Hv & _).
    pose proof Hv as (rest & -> & ->)%json_text_parse. rewrite <- (app_nil_r (bytes data)).
    by rewrite (decode_struct_text set zero fs).
Qed.
End Fields.

Lemma elem_of_renders_fields fs t k v t0 :
  renders_fields fs t -> (k, v, t0) ∈ fs -> renders v t0 /\ Forall (fun b => b ∈ t) t0.
Proof.
  assert (Hm : forall k v t0 t, renders_member k v t0 t -> renders v t0 /\ Forall (fun b => b ∈ t) t0).
  { destruct 1 as [raw v1 w1 w2 w3 t1 w4]. split; [done|]. apply list.Forall_forall. intros b Hb. set_solver. }
  induction 1 as [k1 v1 t1 t Hr|k1 v1 t1 fs t t' Hr _ IH]; intros Hin.
  - apply list_elem_of_singleton in Hin as [= -> -> ->]. by eapply Hm.
  - apply list.elem_of_cons in Hin as [[= -> -> ->]|Hin].
    + destruct (Hm _ _ _ _ Hr) as [? HF]. split; [done|]. eapply list.Forall_impl; [exact HF|]. set_solver.
    + destruct (IH Hin) as [? HF]. split; [done|]. eapply list.Forall_impl; [exact HF|]. set_solver.
Qed.

(** The text of a member's value is a text of its own. *)
Lemma struct_text_member fs s k v t0 :
  struct_text fs (bytes s) -> (k, v, t0) ∈ fs -> payload_is v (of_bytes t0).
Proof.
  intros Htext Hin. remember (bytes s) as l eqn:Hl.
  destruct Htext as [l v' _ _|fs w1 t w2 Hw1 Hfs Hw2 Hd]; [by apply not_elem_of_nil in Hin|].
  destruct (elem_of_renders_fields _ _ _ _ _ Hfs Hin) as [Ht0 HF].
  assert (Hb : Forall is_byte t0).
  { pose proof (bytes_range s) as Hs. rewrite <- Hl in Hs. rewrite list.Forall_forall in *. intros b Hb.
    apply Hs. apply HF in Hb. set_solver. }
  exists [], t0, []. rewrite bytes_of_bytes, app_nil_r by done. split_and!; try done; try constructor.
  assert (Hkv : (k, v) ∈ fs.*1) by (apply list_elem_of_fmap; by exists (k, v, t0)).
  pose proof (fold_depth_elem (fun m : string * json => depth m.2) fs.*1) as He.
  rewrite list.Forall_forall in He. specialize (He (k, v) Hkv). cbn [depth snd] in Hd, He. lia.
Qed.

(** ** The body of a create request *)

(** The fields of [createRequest]; [DisallowUnknownFields] refuses any other
    member. *)
Definition create_field (key : string) (v : json) (text : list Z) (input : createRequest)
    : result createRequest :=
  if same_field key "destination_id" then
    s ← string_field v (InDestinationID input); Ok (mkCreateRequest s (InPayload input))
  else if same_field key "payload" then Ok (mkCreateRequest (InDestinationID input) (of_bytes text))
  else Err (Message "json: unknown field").

Definition no_request : createRequest := mkCreateRequest "" "".

(** [decoder.Decode(target)] and [decoder.Decode(&trailing)]. *)
Definition DecodeRequest (rd : reader) : result createRequest * reader :=
  let l := bytes (visible rd) in
  let '(r, rest) := read_value (ends_with rd) l in
  (v ← r; decode_struct create_field no_request v l, mkReader (of_bytes rest) (ends_with rd)).

Definition DecodeTrailing (rd : reader) : result () * reader :=
  let '(r, rest) := read_value (ends_with rd) (bytes (visible rd)) in
  (_ ← r; Ok (), mkReader (of_bytes rest) (ends_with rd)).

Local Abbreviation decode_body := (decodeJSON DecodeRequest DecodeTrailing).

Lemma create_field_error key v text input e :
  create_field key v text input = Err e -> exists m, e = Message m.
Proof.
  unfold create_field. destruct (same_field key _).
  - destruct v; simpl; intros [=]; eauto.
  - destruct (same_field key _); intros [=]; eauto.
Qed.

Lemma decode_struct_error v l e :
  decode_struct create_field no_request v l = Err e -> exists m, e = Message m.
Proof.
  unfold decode_struct. destruct v as [| | | | |[|m ms]]; try (by intros [=]; eauto).
  destruct (member_texts _ _ _); [|by intros [=]; eauto..].
  intros (k & v & t & r & _ & H)%set_fields_error. by eapply create_field_error.
Qed.

Lemma read_value_err ends l e rest :
  read_value ends l = (Err e, rest) -> e = ends \/ exists m, e = Message m.
Proof.
  unfold read_value. destruct (skip_ws l); [intros [= <- _]; by left|].
  destruct (parse_value _ _ _) as [v r| | |]; [|by intros [= <- _]; eauto|case_bool_decide|by intros [= <- _]; eauto].
  - destruct (match r with [] => _ | _ => _ end); intros [=]; by left.
  - intros [= <- _]; eauto.
  - intros [= <- _]; by left.
Qed.

(** A body within the limit. *)
Lemma decode_small body input :
  len body <= MaxRequestBodyBytes ->
  decode_body body = Ok input <->
  exists fs, struct_text fs (bytes body) /\ set_fields create_field fs no_request = Ok input.
Proof.
  intros Hlen. unfold decodeJSON, MaxBytesReader. rewrite (proj2 (Z.leb_le _ _) Hlen).
  unfold DecodeRequest at 1. cbn [visible ends_with].
  destruct (read_value (Sentinel IoEOF) (bytes body)) as [[v|e] rest] eqn:Hread; cbn [mbind result_bind].
  2: { split; [done|]. intros (fs & Hfs & _). destruct (struct_text_json _ _ Hfs) as (v & Hv & _).
       apply read_value_text in Hv as (r & Hr & _). by rewrite Hread in Hr. }
  destruct (read_value_rest _ _ _ _ Hread) as [t Ht].
  assert (Hbytes : bytes (of_bytes rest) = rest).
  { pose proof (bytes_range body) as Hb. rewrite Ht, Forall_app in Hb. apply bytes_of_bytes, Hb. }
  destruct (decide (skip_ws rest = [])) as [Hws|Hws].
  - assert (Htext : json_text v (bytes body)) by (apply read_value_text; by exists rest).
    transitivity (decode_struct create_field no_request v (bytes body) = Ok input).
    { destruct (decode_struct _ _ _ _); [|done]. unfold DecodeTrailing. cbn [visible ends_with].
      by rewrite Hbytes, read_value_end. }
    split.
    + intros Hd. destruct (json_text_struct v _ Htext (decode_struct_value _ _ _ _ _ Hd)) as (fs & Hfs).
      exists fs. split; [done|].
      rewrite <- (decode_struct_text create_field _ fs (bytes body) v []); [by rewrite app_nil_r|done..].
    + intros (fs & Hfs & Hset). rewrite <- (app_nil_r (bytes body)). by rewrite (decode_struct_text _ _ fs).
  - split.
    + destruct (decode_struct _ _ _ _); [|done]. unfold DecodeTrailing. cbn [visible ends_with]. rewrite Hbytes.
      destruct (read_value (Sentinel IoEOF) rest) as [[v'|e] r'] eqn:Hr; [done|]. cbn.
      by rewrite (read_value_error _ _ _ _ Hr).
    + intros (fs & Hfs & _). destruct (struct_text_json _ _ Hfs) as (v' & Hv & _).
      apply read_value_text in Hv as (r & Hr & Hs). rewrite Hread in Hr. by simplify_eq.
Qed.

(** A body over the limit is refused, whatever it says. *)
Lemma decode_large body input : MaxRequestBodyBytes < len body -> decode_body body <> Ok input.
Proof.
  intros Hlen. unfold decodeJSON, MaxBytesReader. rewrite (proj2 (Z.leb_gt _ _) Hlen).
  set (rd := mkReader (byte_prefix MaxRequestBodyBytes body) MaxBytesError).
  assert (Hends : ends_with (DecodeRequest rd).2 = MaxBytesError).
  { unfold DecodeRequest. by destruct (read_value _ _). }
  destruct (DecodeRequest rd) as [[input'|e] rest]; [|done]. simpl in Hends.
  unfold DecodeTrailing. rewrite Hends.
  destruct (read_value MaxBytesError _) as [[v|e] r'] eqn:Hr; [done|]. cbn.
  by destruct (read_value_err _ _ _ _ Hr) as [->|[m ->]].
Qed.

Lemma decode_error body e :
  len body <= MaxRequestBodyBytes -> decode_body body = Err e -> errors_As_MaxBytes e = false.
Proof.
  intros Hlen. unfold decodeJSON, MaxBytesReader. rewrite (proj2 (Z.leb_le _ _) Hlen).
  unfold DecodeRequest at 1. cbn [visible ends_with].
  destruct (read_value _ _) as [[v|e'] rest] eqn:Hread; cbn [mbind result_bind].
  2: { intros [= <-]. by destruct (read_value_err _ _ _ _ Hread) as [->|[m ->]]. }
  destruct (decode_struct _ _ _ _) as [input|e'] eqn:Hd.
  - unfold DecodeTrailing. cbn [visible ends_with].
    destruct (read_value _ (bytes (of_bytes rest))) as [[v'|e'] r'] eqn:Hr; cbn; [by intros [= <-]|].
    destruct (read_value_err _ _ _ _ Hr) as [->|[m ->]]; simpl; by intros [= <-].
  - intros [= <-]. by destruct (decode_struct_error _ _ _ Hd) as [m ->].
Qed.

(** Any body. *)
Lemma decode_body_Ok body input :
  decode_body body = Ok input <->
  len body <= MaxRequestBodyBytes /\
  exists fs, struct_text fs (bytes body) /\ set_fields create_field fs no_request = Ok input.
Proof.
  destruct (Z.le_gt_cases (len body) MaxRequestBodyBytes) as [Hl|Hl].
  - rewrite decode_small by done. naive_solver.
  - split; [by intros ?%decode_large|lia].
Qed.

(** A payload that was read is a JSON value. *)
Lemma decoded_payload body input :
  decode_body body = Ok input -> InPayload input <> "" -> exists v, payload_is v (InPayload input).
Proof.
  intros (_ & fs & Hfs & Hset)%decode_body_Ok Hne.
  cut (InPayload input = "" \/ exists v, payload_is v (InPayload input)); [naive_solver|].
  eapply (set_fields_inv create_field
    (fun i => InPayload i = "" \/ exists v, payload_is v (InPayload i))); [exact Hset|by left|].
  intros k v t r r' Hin Hf Hr. unfold create_field in Hf. destruct (same_field k _).
  - destruct (string_field _ _); simplify_eq/=. done.
  - destruct (same_field k _); simplify_eq/=. right. exists v. by eapply struct_text_member.
Qed.

(** What a create request may say, member by member. *)
Definition create_member (m : string * json * list Z) : Prop :=
  let '(key, v, _) := m in
  (same_field key "destination_id" = true /\ (v = JNull \/ exists s, v = JString s)) \/
  same_field key "payload" = true.

Definition destination_member (m : string * json * list Z) : option string :=
  match m with
  | (key, JString s, _) => if same_field key "destination_id" then Some s else None
  | _ => None
  end.

Definition payload_member (m : string * json * list Z) : option string :=
  let '(key, _, text) := m in if same_field key "payload" then Some (of_bytes text) else None.

Definition request_of (zero : createRequest) (fs : list (string * json * list Z)) : createRequest :=
  mkCreateRequest (default (InDestinationID zero) (list.last (omap destination_member fs)))
    (default (InPayload zero) (list.last (omap payload_member fs))).

(** One name is not the other in another case. *)
Lemma names_differ key : same_field key "destination_id" = true -> same_field key "payload" = false.
Proof.
  unfold same_field. rewrite bool_decide_eq_true, bool_decide_eq_false. intros ->. vm_compute. discriminate.
Qed.

Lemma default_last_cons {A} (d x : A) l : default d (list.last (x :: l)) = default x (list.last l).
Proof. rewrite list.last_cons. by destruct (list.last l). Qed.

Lemma create_fold fs r :
  let '(r', failed) :=
    foldl (fun '(r, failed) '(key, v, text) =>
      match create_field key v text r with
      | Ok r' => (r', failed)
      | Err e => (r, Some (default e failed))
      end) (r, None) fs in
  match failed with
  | None => Forall create_member fs /\ r' = request_of r fs
  | Some _ => ~ Forall create_member fs
  end.
Proof.
  revert r. induction fs as [|[[k v] t] fs IH]; intros r; [by destruct r|]. simpl.
  destruct (create_field k v t r) as [r1|e] eqn:Hset.
  - assert (Hone : create_member (k, v, t) /\ request_of r ((k, v, t) :: fs) = request_of r1 fs).
    { unfold create_field in Hset. unfold request_of. cbn [omap list_omap destination_member payload_member create_member].
      destruct (same_field k "destination_id") eqn:Hd.
      - rewrite (names_differ k Hd). destruct v; simplify_eq/=; (split; [left; split; [done|by eauto]|]);
          cbn [InDestinationID InPayload]; by rewrite ?default_last_cons.
      - destruct (same_field k "payload") eqn:Hp; [|done]. injection Hset as <-.
        split; [by right|]. cbn [InDestinationID InPayload]. rewrite default_last_cons. by destruct v. }
    destruct Hone as [Hm Hr]. specialize (IH r1). destruct (foldl _ _ _) as [r' [e|]].
    + by intros [_ ?]%list.Forall_cons.
    + destruct IH as [? ->]. by rewrite Hr, list.Forall_cons.
  - pose proof (set_fields_fold create_field fs r (Some e)) as H. cbn [default] in H |- *.
    destruct (foldl _ _ _) as [r' failed']. rewrite H. intros [Hm _]%list.Forall_cons.
    unfold create_field in Hset. destruct (same_field k "destination_id") eqn:Hd.
    + destruct Hm as [[_ [->|[s ->]]]|Hm]; [discriminate Hset|discriminate Hset|]. by rewrite (names_differ k Hd) in Hm.
    + destruct Hm as [[? _]|Hm]; [congruence|]. by rewrite Hm in Hset.
Qed.

Lemma set_create_fields fs input :
  set_fields create_field fs no_request = Ok input <->
  Forall create_member fs /\ input = request_of no_request fs.
Proof.
  unfold set_fields. pose proof (create_fold fs no_request) as H. destruct (foldl _ _ _) as [r [e|]].
  - split; [done|]. by intros [? _].
  - destruct H as [? ->]. split; [by intros [= <-]|]. by intros [_ ->].
Qed.

(** C38 (functional): what the service reads in the body of a create request.  A
    body is accepted exactly when it has at most [MaxRequestBodyBytes] bytes
    and is one JSON object (or [null]) each of whose members is named
    [destination_id], with a string or [null], or [payload], with any value,
    in any case of letters.  What is read is the last string that is named
    [destination_id], and the text of the last value that is named [payload],
    which is a JSON value of its own: its digest always exists.  The error that
    answers 413 occurs only for a body over the limit. *)
Theorem create_body body :
  (forall input, decode_body body = Ok input <->
     len body <= MaxRequestBodyBytes /\
     exists fs, struct_text fs (bytes body) /\ Forall create_member fs /\
       input = mkCreateRequest (default "" (list.last (omap destination_member fs)))
                 (default "" (list.last (omap payload_member fs)))) /\
  (forall input, decode_body body = Ok input ->
     InPayload input = "" \/
     exists v, payload_is v (InPayload input) /\
       forall Sum256 destinationID,
         Hash.RequestHash DecodePayload Marshal Sum256 destinationID (InPayload input)
           = Ok (digest Sum256 destinationID v)) /\
  (forall e, decode_body body = Err e -> errors_As_MaxBytes e = true -> MaxRequestBodyBytes < len body).
Proof.
  split; [|split].
  - intros input. rewrite decode_body_Ok. setoid_rewrite set_create_fields. done.
  - intros input Hd. destruct (decide (InPayload input = "")) as [?|Hne]; [by left|right].
    destruct (decoded_payload body input Hd Hne) as [v Hv].
    exists v. split; [done|].
    intros Sum256 destinationID. apply RequestHash_digest. by exists v.
  - intros e He Hm. destruct (Z.le_gt_cases (len body) MaxRequestBodyBytes) as [Hl|Hl]; [|lia].
    by rewrite (decode_error body e) in Hm.
Qed.

(** The members of an encoded object of two members. *)
Lemma encode_two_fields k1 v1 k2 v2 :
  let v := JObject [(k1, v1); (k2, v2)] in
  well_formed v = true -> depth v <= maxNestingDepth ->
  struct_text [(k1, v1, encode v1); (k2, v2, encode v2)] (encode v).
Proof.
  intros v Hwf Hd. simpl in Hwf. reflect_bools.
  change (encode v) with (123 :: ((quote k1 ++ 58 :: encode v1) ++ 44 :: quote k2 ++ 58 :: encode v2) ++ [125]).
  rewrite <- (app_nil_r (123 :: _)). apply (struct_object _ [] _ []); [constructor| |constructor|done].
  apply renders_more_fields; [|apply renders_last_field]; apply encode_member; by try apply encode_renders.
Qed.

(** A client that marshals its request is understood as it meant. *)
Theorem create_body_roundtrip destinationID v :
  valid_utf8 destinationID = true -> well_formed v = true -> 1 + depth v <= maxNestingDepth ->
  let body := of_bytes (encode (JObject [("destination_id", JString destinationID); ("payload", v)])) in
  len body <= MaxRequestBodyBytes ->
  decode_body body = Ok (mkCreateRequest destinationID (of_bytes (encode v))).
Proof.
  intros Hd Hv Hdepth body Hlen. apply decode_small; [done|].
  exists [("destination_id", JString destinationID, quote destinationID); ("payload", v, encode v)].
  split; [|done]. unfold body. rewrite bytes_encode.
  apply (encode_two_fields _ (JString destinationID)); simpl; [by rewrite Hd, Hv|unfold maxNestingDepth in *; lia].
Qed.

(** ** Messages *)

Definition message_json (m : OutboxMessage) : json :=
  JObject [("event_id", JString (MsgEventID m)); ("notification_id", JString (MsgNotificationID m))].

(** [json.Marshal(message)]. *)
Definition marshal_message (m : OutboxMessage) : result string := Marshal (message_json m).

Definition message_field (key : string) (v : json) (text : list Z) (m : OutboxMessage) : result OutboxMessage :=
  if same_field key "event_id" then
    s ← string_field v (MsgEventID m); Ok (mkOutboxMessage s (MsgNotificationID m))
  else if same_field key "notification_id" then
    s ← string_field v (MsgNotificationID m); Ok (mkOutboxMessage (MsgEventID m) s)
  else Ok m.

(** [json.Unmarshal(raw.Body, &message)]. *)
Definition unmarshal_message (body : string) : option OutboxMessage :=
  match Unmarshal_struct message_field (mkOutboxMessage "" "") body with
  | Ok m => Some m
  | Err _ => None
  end.

(** C40 (roundtrip): the message on the wire.  The body that the publisher makes
    of a message whose identifiers are text is the message that the worker is
    given; and the worker is given a message exactly when the body is a JSON
    object (or [null]) whose [event_id] and [notification_id], in any case of
    letters, are strings that are not empty in the end, whatever else it
    holds. *)
Theorem message_roundtrip :
  (forall m, valid_utf8 (MsgEventID m) = true -> valid_utf8 (MsgNotificationID m) = true ->
     MsgEventID m <> "" -> MsgNotificationID m <> "" ->
     exists body, marshal_message m = Ok body /\ consume_body unmarshal_message body = Some m) /\
  (forall body m, consume_body unmarshal_message body = Some m <->
     MsgEventID m <> "" /\ MsgNotificationID m <> "" /\
     exists fs, struct_text fs (bytes body) /\
       set_fields message_field fs (mkOutboxMessage "" "") = Ok m).
Proof.
  assert (Haccept : forall body m, consume_body unmarshal_message body = Some m <->
     MsgEventID m <> "" /\ MsgNotificationID m <> "" /\
     exists fs, struct_text fs (bytes body) /\
       set_fields message_field fs (mkOutboxMessage "" "") = Ok m).
  { intros body m. rewrite <- (Unmarshal_struct_Ok message_field). unfold consume_body, unmarshal_message.
    destruct (Unmarshal_struct _ _ _) as [m'|e]; [|naive_solver].
    destruct (bool_decide _) eqn:He, (bool_decide (MsgNotificationID m' = _)) eqn:Hn; simpl;
      reflect_bools; naive_solver. }
  split; [|done]. intros [e n] He Hn Hne Hnn. simpl in *.
  assert (Hwf : well_formed (message_json (mkOutboxMessage e n)) = true) by (simpl; by rewrite He, Hn).
  exists (of_bytes (encode (message_json (mkOutboxMessage e n)))).
  split; [by apply Marshal_well_formed|]. apply Haccept. split_and!; [done..|].
  exists [("event_id", JString e, quote e); ("notification_id", JString n, quote n)].
  split; [|done]. rewrite bytes_encode. by apply (encode_two_fields _ (JString e) _ (JString n)).
Qed.
