(* ===== verification/Router.v ===== *)
(** * Requests to responses (src/internal/transport/httpapi)

    The mux of [NewRouter] with its three patterns, the path value it hands to
    the handlers, and the bytes of the responses: [ServeHTTP] takes a request
    as it arrives to the response as it leaves. *)

From S2P Require Import Prelude GoTime GoStrings GoText Notification Json JsonGrammar JsonCanon HttpApi Payload.

#[local] Open Scope list_scope.
#[local] Open Scope Z_scope.

(** ** http.ServeMux *)

(** [url.PathUnescape], which leaves a segment that is not well escaped as it
    is. *)
Fixpoint percent_decode (l : list Z) : option (list Z) :=
  match l with
  | [] => Some []
  | b :: l1 =>
      if b =? 37 then
        match l1 with
        | h1 :: h2 :: l2 =>
            match hex_of h1, hex_of h2 with
            | Some x, Some y => (cons (x * 16 + y)) <$> percent_decode l2
            | _, _ => None
            end
        | _ => None
        end
      else (cons b) <$> percent_decode l1
  end.

Definition pathUnescape (segment : string) : string :=
  match percent_decode (bytes segment) with
  | Some l => of_bytes l
  | None => segment
  end.

(** The path that [cleanPath] leaves alone: it starts with a slash and has no
    empty segment but the last, and no [.] or [..]. *)
Definition clean_segments (segments : list string) : bool :=
  match segments with
  | first :: (_ :: _) as rest =>
      bool_decide (first = "") &&
      forallb (fun s => negb (bool_decide (s = "."))  && negb (bool_decide (s = ".."))) rest &&
      forallb (fun s => negb (bool_decide (s = ""))) (take (length rest - 1) rest)
  | _ => false
  end.

(** The keys under which the segments are looked up; a slash at the end is a
    segment of its own. *)
Fixpoint route_keys (segments : list string) : list string :=
  match segments with
  | [] => []
  | [last] => [if bool_decide (last = "") then "/" else pathUnescape last]
  | s :: segments => pathUnescape s :: route_keys segments
  end.

(** A wildcard stands for one segment, but not for the slash at the end. *)
Inductive pattern_segment := Literal (s : string) | Wildcard.

Fixpoint match_segments (pattern : list pattern_segment) (keys : list string) : option (list string) :=
  match pattern, keys with
  | [], [] => Some []
  | Literal s :: pattern, k :: keys => if bool_decide (k = s) then match_segments pattern keys else None
  | Wildcard :: pattern, k :: keys =>
      if bool_decide (k = "/") then None else (cons k) <$> match_segments pattern keys
  | _, _ => None
  end.

Record route := mkRoute { route_method : string; route_pattern : list pattern_segment;
                          route_endpoint : string -> endpoint }.

(** The patterns that [NewRouter] registers. *)
Definition routes : list route :=
  [ mkRoute "POST" [Literal "v1"; Literal "notifications"] (fun _ => PostNotification);
    mkRoute "GET" [Literal "v1"; Literal "notifications"; Wildcard] GetNotification;
    mkRoute "POST" [Literal "v1"; Literal "admin"; Literal "notifications"; Wildcard; Literal "replay"]
      PostReplay ].

(** A [HEAD] request is served by a [GET] pattern. *)
Definition method_matches (method pattern : string) : bool :=
  bool_decide (method = pattern) || (bool_decide (method = "HEAD") && bool_decide (pattern = "GET")).

Inductive mux_answer := Matched (e : endpoint) | MovedPermanently | MethodNotAllowed | NotFound.

Definition path_matches (keys : list string) (r : route) : option endpoint :=
  (fun values => route_endpoint r (default "" (head values))) <$> match_segments (route_pattern r) keys.

(** [ServeMux.findHandler] on the escaped path of the request.  The paths of
    [CONNECT] requests, which no pattern takes, are not cleaned. *)
Definition findHandler (method path : string) : mux_answer :=
  let segments := Split "/"%char path in
  if negb (bool_decide (method = "CONNECT")) && negb (clean_segments segments) then MovedPermanently
  else
    let keys := route_keys (drop 1 segments) in
    match omap (path_matches keys) (filter (fun r => method_matches method (route_method r) = true) routes) with
    | e :: _ => Matched e
    | [] => match omap (path_matches keys) routes with [] => NotFound | _ => MethodNotAllowed end
    end.

(** ** json.go: the text of a response *)

Section Response.
Context (time_text : time -> string).

Definition status_text (st : Status) : string :=
  match st with
  | StatusPending => "pending"
  | StatusDelivering => "delivering"
  | StatusRetryWait => "retry_wait"
  | StatusDelivered => "delivered"
  | StatusDead => "dead"
  end.

Definition JInt (n : Z) : json := JNumber (pretty n).
Definition JTime (t : time) : json := JString (time_text t).

(** Fields with [omitempty]. *)
Definition omit_nil (name : string) (t : option time) : list (string * json) :=
  match t with Some t => [(name, JTime t)] | None => [] end.
Definition omit_zero (name : string) (n : Z) : list (string * json) :=
  if n =? 0 then [] else [(name, JInt n)].
Definition omit_empty (name s : string) : list (string * json) :=
  if bool_decide (s = "") then [] else [(name, JString s)].

Definition view_json (v : View) : json :=
  JObject ([("notification_id", JString (ViewID v));
            ("destination_id", JString (ViewDestinationID v));
            ("status", JString (status_text (ViewStatus v)));
            ("attempt_count", JInt (ViewAttemptCount v))]
           ++ omit_nil "next_attempt_at" (ViewNextAttemptAt v)
           ++ omit_zero "last_http_status" (ViewLastHTTPStatus v)
           ++ omit_empty "last_error_code" (ViewLastErrorCode v)
           ++ omit_empty "last_error_message" (ViewLastError v)
           ++ [("created_at", JTime (ViewCreatedAt v)); ("updated_at", JTime (ViewUpdatedAt v))]
           ++ omit_nil "delivered_at" (ViewDeliveredAt v)
           ++ omit_nil "dead_at" (ViewDeadAt v)).

(** [errorResponse], [createResponse] and the map of a replay. *)
Definition error_json (code message : string) : json :=
  JObject [("error", JObject [("code", JString code); ("message", JString message)])].

Definition created_json (id : string) (st : Status) : json :=
  JObject [("notification_id", JString id); ("status", JString (status_text st))].

Definition replay_json (id : string) : json :=
  JObject [("notification_id", JString id); ("status", JString "pending")].

Definition response_json (b : response_body) : json :=
  match b with
  | ErrorBody code message => error_json code message
  | CreatedBody id st => created_json id st
  | ViewBody v => view_json v
  | ReplayBody id => replay_json id
  end.

(** What leaves the server: status, content type and body. *)
Record http_response := mkHttpResponse { http_status : Z; content_type : string; http_body : string }.

(** [Encoder.Encode] ends the value with a line feed. *)
Definition writeJSON (r : response) : http_response :=
  mkHttpResponse (resp_status r) "application/json" (of_bytes (encode (response_json (resp_body r)) ++ [10])).

Context (range_order : gmap string string -> list (string * string)).

(** The handler that [NewRouter] returns, on a request with its headers: the
    response of the program, or what the mux answers by itself. *)
Definition ServeHTTP {W} `{Creator W} `{Querier W} `{Replayer W}
    (CallerTokens AdminTokens : gmap string string)
    (method path authorization idempotencyKey body : string) (w : W) : (http_response + mux_answer) * W :=
  match findHandler method path with
  | Matched e =>
      let '(resp, w) := NewRouter range_order DecodeRequest DecodeTrailing CallerTokens AdminTokens
                          (mkRequest e authorization idempotencyKey body) w in
      (inl (writeJSON resp), w)
  | a => (inr a, w)
  end.

(** ** What the mux matches *)

Lemma match_literals ls rest keys values :
  match_segments (map Literal ls ++ rest) keys = Some values <->
  exists keys', keys = ls ++ keys' /\ match_segments rest keys' = Some values.
Proof.
  revert keys. induction ls as [|l ls IH]; intros keys; simpl.
  - split; [by exists keys|]. by intros (? & -> & ?).
  - destruct keys as [|k keys]; [split; [done|by intros (? & [=] & _)]|].
    case_bool_decide as Hk; [subst; rewrite IH|]; split.
    + intros (keys' & -> & H). by exists keys'.
    + intros (keys' & [= ->] & H). by exists keys'.
    + done.
    + by intros (? & [= -> _] & _).
Qed.

Lemma match_wildcard rest keys values :
  match_segments (Wildcard :: rest) keys = Some values <->
  exists k keys' values', keys = k :: keys' /\ values = k :: values' /\ k <> "/" /\
    match_segments rest keys' = Some values'.
Proof.
  destruct keys as [|k keys]; simpl; [split; [done|by intros (? & ? & ? & [=] & _)]|].
  case_bool_decide as Hk.
  - split; [done|]. by intros (? & ? & ? & [= -> ->] & _ & ? & _).
  - rewrite fmap_Some. split.
    + intros (values' & H & ->). by exists k, keys, values'.
    + intros (k' & keys' & values' & [= <- <-] & -> & _ & H). by exists values'.
Qed.

Lemma match_end keys values : match_segments [] keys = Some values <-> keys = [] /\ values = [].
Proof. destruct keys; simpl; naive_solver. Qed.
(** Each endpoint with its methods and its path. *)
Definition endpoint_methods (e : endpoint) : list string :=
  match e with GetNotification _ => ["GET"; "HEAD"] | _ => ["POST"] end.

Definition endpoint_keys (e : endpoint) : list string :=
  match e with
  | PostNotification => ["v1"; "notifications"]
  | GetNotification id => ["v1"; "notifications"; id]
  | PostReplay id => ["v1"; "admin"; "notifications"; id; "replay"]
  end.

Definition path_value (e : endpoint) : option string :=
  match e with PostNotification => None | GetNotification id | PostReplay id => Some id end.

Lemma endpoint_keys_inj e1 e2 : endpoint_keys e1 = endpoint_keys e2 -> e1 = e2.
Proof. destruct e1, e2; simpl; intros; by simplify_eq. Qed.

Lemma method_matches_POST m : method_matches m "POST" = true <-> m ∈ ["POST"].
Proof.
  unfold method_matches. rewrite list_elem_of_singleton, orb_true_iff, andb_true_iff, !bool_decide_eq_true.
  naive_solver.
Qed.

Lemma method_matches_GET m : method_matches m "GET" = true <-> m ∈ ["GET"; "HEAD"].
Proof. unfold method_matches. rewrite orb_true_iff, andb_true_iff, !bool_decide_eq_true. set_solver. Qed.

(** The route of an endpoint. *)
Definition route_of (e : endpoint) : route :=
  match e with
  | PostNotification => mkRoute "POST" [Literal "v1"; Literal "notifications"] (fun _ => PostNotification)
  | GetNotification _ => mkRoute "GET" [Literal "v1"; Literal "notifications"; Wildcard] GetNotification
  | PostReplay _ =>
      mkRoute "POST" [Literal "v1"; Literal "admin"; Literal "notifications"; Wildcard; Literal "replay"] PostReplay
  end.

Lemma route_of_in e : route_of e ∈ routes.
Proof. destruct e; unfold routes, route_of; repeat (rewrite list.elem_of_cons); auto. Qed.

Lemma route_of_methods e m : method_matches m (route_method (route_of e)) = true <-> m ∈ endpoint_methods e.
Proof. destruct e; [apply method_matches_POST|apply method_matches_GET|apply method_matches_POST]. Qed.

Lemma path_matches_of keys e :
  path_matches keys (route_of e) = Some e <-> keys = endpoint_keys e /\ path_value e <> Some "/".
Proof.
  unfold path_matches. rewrite fmap_Some. destruct e as [|id|id]; cbn [route_of route_pattern route_endpoint].
  - setoid_rewrite (match_literals ["v1"; "notifications"] []). setoid_rewrite match_end. split.
    + by intros (values & (keys' & -> & -> & ->) & _).
    + intros [-> _]. exists []. split; [|done]. by exists [].
  - setoid_rewrite (match_literals ["v1"; "notifications"] [Wildcard]). setoid_rewrite match_wildcard.
    setoid_rewrite match_end. split.
    + intros (values & (keys' & -> & (k & ks & vs & -> & -> & Hk & -> & ->)) & [= ->]).
      split; [done|]. by intros [= ->].
    + intros [-> Hv]. exists [id]. split; [|done]. exists [id]. split; [done|]. exists id, [], [].
      split_and!; try done. by intros ->.
  - setoid_rewrite (match_literals ["v1"; "admin"; "notifications"] [Wildcard; Literal "replay"]).
    setoid_rewrite match_wildcard. setoid_rewrite (match_literals ["replay"] []). setoid_rewrite match_end. split.
    + intros (values & (keys' & -> & (k & ks & vs & -> & -> & Hk & (ks' & -> & -> & ->))) & [= ->]).
      split; [done|]. by intros [= ->].
    + intros [-> Hv]. exists [id]. split; [|done]. exists [id; "replay"]. split; [done|].
      exists id, ["replay"], []. split_and!; try done; [by intros ->|]. by exists [].
Qed.

Lemma path_matches_route keys r e : r ∈ routes -> path_matches keys r = Some e -> r = route_of e.
Proof.
  intros Hr. unfold path_matches. rewrite fmap_Some. intros (values & _ & ->).
  apply list.elem_of_cons in Hr as [->|Hr]; [done|].
  apply list.elem_of_cons in Hr as [->|Hr]; [done|]. by apply list_elem_of_singleton in Hr as ->.
Qed.

(** The escaped segments of a clean path are not empty. *)
Lemma percent_decode_nonempty l : l <> [] -> percent_decode l <> Some [].
Proof.
  destruct l as [|b l]; [done|]. intros _. simpl. destruct (b =? 37).
  - destruct l as [|h1 [|h2 l]]; try done. destruct (hex_of h1), (hex_of h2); try done.
    by destruct (percent_decode l).
  - by destruct (percent_decode l).
Qed.

Lemma pathUnescape_nonempty s : s <> "" -> pathUnescape s <> "".
Proof.
  intros Hs. unfold pathUnescape. destruct (percent_decode (bytes s)) as [[|b l]|] eqn:Hp; [|done..].
  exfalso. apply (percent_decode_nonempty (bytes s)); [|done]. by destruct s.
Qed.

Lemma route_keys_nonempty segments :
  forallb (fun s => negb (bool_decide (s = ""))) (take (length segments - 1) segments) = true ->
  "" ∉ route_keys segments.
Proof.
  induction segments as [|s segments IH]; [intros _ H; by apply not_elem_of_nil in H|].
  destruct segments as [|s' segments].
  - intros _ Hin%list_elem_of_singleton. case_bool_decide as Hs; [done|].
    by apply pathUnescape_nonempty in Hs.
  - change (route_keys (s :: s' :: segments)) with (pathUnescape s :: route_keys (s' :: segments)).
    replace (length (s :: s' :: segments) - 1)%nat with (S (length (s' :: segments) - 1)) by (simpl; lia).
    cbn [take forallb]. intros [Hs%negb_true_iff%bool_decide_eq_false H]%andb_true_iff.
    intros [Heq|Hin]%list.elem_of_cons; [by apply (pathUnescape_nonempty s)|by apply IH].
Qed.

(** The segments after the first slash of a path. *)
Definition path_keys (path : string) : list string := route_keys (drop 1 (Split "/"%char path)).

Lemma clean_keys segments :
  clean_segments segments = true -> "" ∉ route_keys (drop 1 segments).
Proof.
  destruct segments as [|s [|s' segments]]; [done..|]. cbn [clean_segments drop].
  intros [_ H]%andb_true_iff. by apply route_keys_nonempty.
Qed.

(** The candidates of [findHandler]. *)
Lemma elem_of_candidates method keys e :
  e ∈ omap (path_matches keys) (filter (fun r => method_matches method (route_method r) = true) routes) <->
  method ∈ endpoint_methods e /\ keys = endpoint_keys e /\ path_value e <> Some "/".
Proof.
  rewrite list_elem_of_omap. setoid_rewrite list_elem_of_filter. split.
  - intros (r & [Hm Hr] & Hp). pose proof (path_matches_route _ _ _ Hr Hp) as ->.
    apply route_of_methods in Hm. by apply path_matches_of in Hp.
  - intros (Hm & Hk & Hv). exists (route_of e). split; [split|by apply path_matches_of].
    + by apply route_of_methods.
    + apply route_of_in.
Qed.

Lemma findHandler_Matched method path e :
  findHandler method path = Matched e <->
  clean_segments (Split "/"%char path) = true /\ method ∈ endpoint_methods e /\
  path_keys path = endpoint_keys e /\ path_value e <> Some "/".
Proof.
  unfold findHandler. fold (path_keys path). pose proof (elem_of_candidates method (path_keys path)) as Hfound.
  set (clean := clean_segments _). destruct (omap _ (filter _ _)) as [|e' found].
  - assert (Hno : ~ (method ∈ endpoint_methods e /\ path_keys path = endpoint_keys e /\ path_value e <> Some "/")).
    { rewrite <- Hfound. apply not_elem_of_nil. }
    split; [|by intros [_ ?]]. repeat case_match; done.
  - destruct (proj1 (Hfound e') ltac:(left)) as (Hm & Hk & Hv).
    rewrite bool_decide_eq_false_2 by (intros ->; destruct e'; set_solver). simpl.
    destruct clean; simpl; [|naive_solver]. split; [intros [= <-]; done|].
    intros (_ & _ & Hk' & _). f_equal. apply endpoint_keys_inj. congruence.
Qed.

(** C39 (functional): which requests reach a handler.  The mux hands a request
    to a handler exactly when its path is clean, its method is one of the
    endpoint's ([HEAD] is served like [GET]) and its segments, unescaped, are
    the endpoint's, with an identifier that is never empty in the place of the
    wildcard; the check of the query handler for an empty identifier never
    fires.  Every other request is answered by the mux and reaches neither the
    authentication nor a service. *)
Theorem routing method path :
  (forall e, findHandler method path = Matched e <->
     clean_segments (Split "/"%char path) = true /\ method ∈ endpoint_methods e /\
     path_keys path = endpoint_keys e /\ path_value e <> Some "/") /\
  (forall e, findHandler method path = Matched e -> path_value e <> Some "") /\
  (forall W (HC : Creator W) (HQ : Querier W) (HR : Replayer W) CallerTokens AdminTokens auth key body (w : W) a,
     findHandler method path = a -> (forall e, a <> Matched e) ->
     ServeHTTP CallerTokens AdminTokens method path auth key body w = (inr a, w)).
Proof.
  split; [intros e; apply findHandler_Matched|split].
  - intros e (Hclean & _ & Hk & _)%findHandler_Matched Hv. apply (clean_keys _ Hclean).
    fold (path_keys path). rewrite Hk. destruct e; simpl in *; simplify_eq; set_solver.
  - intros W HC HQ HR CallerTokens AdminTokens auth key body w a Ha Hne. unfold ServeHTTP. rewrite Ha.
    destruct a; [by destruct (Hne e)|done..].
Qed.

(** ** The text of a response *)

Lemma digits_number l :
  l <> [] -> Forall (fun b => is_digit b = true) l -> head l <> Some 48 -> number_ok l.
Proof.
  intros Hne HF H48. destruct HF as [|b l Hb HF]; [done|]. unfold number_ok, scan_number. simpl.
  replace (b =? 45) with false by (unfold is_digit in Hb; lia). cbn [scan_bind scan_integer].
  assert (Hb48 : (b =? 48) = false) by (apply Z.eqb_neq; intros ->; done). rewrite Hb48.
  assert (Hspan : span_digits l = (l, [])).
  { clear -HF. induction HF as [|c l Hc _ IH]; [done|]. simpl. by rewrite Hc, IH. }
  unfold scan_digits. rewrite Hb. cbn [span_digits]. rewrite Hb, Hspan. cbn [scan_bind scan_fraction scan_exponent].
  by rewrite !app_nil_r.
Qed.

Lemma pretty_go_digits x s :
  Forall (fun b => is_digit b = true) (bytes s) ->
  exists d, bytes (pretty_N_go x s) = d ++ bytes s /\ Forall (fun b => is_digit b = true) d /\
    ((0 < x)%N -> exists b d', d = b :: d' /\ b <> 48).
Proof.
  revert s. induction (N.lt_wf_0 x) as [x _ IH]. intros s Hs.
  destruct (N.eq_0_gt_0_cases x) as [->|Hx]; [by exists []|].
  rewrite pretty_N_go_step by done. set (c := pretty_N_char (x `mod` 10)).
  pose proof (N.mod_lt x 10 ltac:(done)) as Hmod.
  assert (Hc : is_digit (byte_val c) = true /\ ((x `mod` 10)%N <> 0%N -> byte_val c <> 48)).
  { subst c. clear -Hmod. generalize dependent (x `mod` 10)%N. intros m Hm.
    assert (m ∈ [0; 1; 2; 3; 4; 5; 6; 7; 8; 9]%N) as Hin by (rewrite !list.elem_of_cons; lia).
    repeat (apply list.elem_of_cons in Hin as [->|Hin]; [by split; vm_compute|]).
    by apply not_elem_of_nil in Hin. }
  destruct Hc as [Hd H0].
  destruct (IH (x `div` 10)%N ltac:(apply N.div_lt; lia) (String c s) ltac:(by constructor))
    as (d & Heq & HF & Hhead).
  exists (d ++ [byte_val c]). rewrite Heq. simpl. rewrite <- app_assoc. split_and!; [done| |].
  - apply Forall_app_2; [done|by constructor].
  - intros _. destruct (N.eq_0_gt_0_cases (x `div` 10)) as [Hz|Hz].
    + pose proof (N.div_mod' x 10). rewrite Hz in *. rewrite pretty_N_go_0 in Heq.
      destruct d as [|b d]; [|apply (f_equal length) in Heq; rewrite length_app in Heq; simpl in Heq; lia].
      exists (byte_val c), []. split; [done|]. apply H0. lia.
    + destruct (Hhead Hz) as (b & d' & -> & Hb). by exists b, (d' ++ [byte_val c]).
Qed.

Lemma JInt_number n : 0 <= n -> is_number (bytes (pretty n)) = true.
Proof.
  intros Hn. apply is_number_ok. destruct n as [|x|x]; [done| |lia].
  change (pretty (Z.pos x)) with (pretty_N_go (N.pos x) "").
  destruct (pretty_go_digits (N.pos x) "" ltac:(constructor)) as (d & Heq & HF & Hhead).
  rewrite app_nil_r in Heq. rewrite Heq. destruct (Hhead ltac:(lia)) as (b & d' & -> & Hb).
  apply digits_number; [done..|]. by intros [= ->].
Qed.

(** Text that a response can carry unchanged. *)
Definition view_ok (v : View) : bool :=
  valid_utf8 (ViewID v) && valid_utf8 (ViewDestinationID v) && valid_utf8 (ViewLastErrorCode v)
  && valid_utf8 (ViewLastError v) && (0 <=? ViewAttemptCount v) && (0 <=? ViewLastHTTPStatus v).

Definition response_ok (b : response_body) : bool :=
  match b with
  | ErrorBody code message => valid_utf8 code && valid_utf8 message
  | CreatedBody id _ | ReplayBody id => valid_utf8 id
  | ViewBody v => view_ok v
  end.

Context (time_text_valid : forall t, valid_utf8 (time_text t) = true).

Lemma view_json_well_formed v : view_ok v = true -> well_formed (view_json v) = true.
Proof.
  unfold view_ok. intros Hv. repeat apply andb_true_iff in Hv as [Hv ?].
  cbn [well_formed view_json]. rewrite !forallb_app.
  assert (Ht : forall name t, valid_utf8 name = true ->
     forallb (fun m => valid_utf8 m.1 && well_formed m.2) (omit_nil name t) = true).
  { intros name [t|] Hn; [|done]. simpl. by rewrite Hn, time_text_valid. }
  assert (Hs : forall name s, valid_utf8 name = true -> valid_utf8 s = true ->
     forallb (fun m => valid_utf8 m.1 && well_formed m.2) (omit_empty name s) = true).
  { intros name s Hn H'. unfold omit_empty. case_bool_decide; [done|]. simpl. by rewrite Hn, H'. }
  assert (Hz : forall name n, valid_utf8 name = true -> 0 <= n ->
     forallb (fun m => valid_utf8 m.1 && well_formed m.2) (omit_zero name n) = true).
  { intros name n Hn H'. unfold omit_zero. destruct (n =? 0); [done|]. simpl. by rewrite Hn, JInt_number. }
  rewrite !Ht, !Hs, !Hz by (done || lia). simpl. rewrite !time_text_valid, JInt_number by lia.
  rewrite Hv. repeat match goal with H : valid_utf8 _ = true |- _ => rewrite H; clear H end.
  by destruct (ViewStatus v).
Qed.

Lemma response_well_formed b : response_ok b = true -> well_formed (response_json b) = true.
Proof.
  destruct b as [code message|id st|v|id]; simpl; intros Hb.
  - apply andb_true_iff in Hb as [-> ->]. done.
  - rewrite Hb. by destruct st.
  - by apply view_json_well_formed.
  - by rewrite Hb.
Qed.

Lemma response_depth b : depth (response_json b) <= 2.
Proof.
  assert (H1 : forall A (f : A -> Z) l1 l2, foldr (fun x d => f x `max` d) 0 (l1 ++ l2)
            = foldr (fun x d => f x `max` d) 0 l1 `max` foldr (fun x d => f x `max` d) 0 l2).
  { intros A f l1 l2. pose proof (fold_depth_nonneg f l2). induction l1; simpl; lia. }
  assert (Ht : forall name t, foldr (fun m d => depth m.2 `max` d) 0 (omit_nil name t) = 0) by (by intros ? []).
  assert (Hs : forall name s, foldr (fun m d => depth m.2 `max` d) 0 (omit_empty name s) = 0).
  { intros. unfold omit_empty. by case_bool_decide. }
  assert (Hz : forall name n, foldr (fun m d => depth m.2 `max` d) 0 (omit_zero name n) = 0).
  { intros. unfold omit_zero. by destruct (n =? 0). }
  destruct b as [code message|id st|v|id]; [simpl; lia|simpl; lia| |simpl; lia].
  cbn [response_json view_json depth]. rewrite !H1, !Ht, !Hs, !Hz. simpl. lia.
Qed.

(** The responses.  The body of every response is one line that
    ends with the line feed of the encoder, and the line is one JSON text for
    the value of the response: a client that decodes it finds the fields of
    the program with their text unchanged. *)
Theorem response_text status b :
  response_ok b = true ->
  let resp := writeJSON (mkResponse status b) in
  http_status resp = status /\ content_type resp = "application/json" /\
  payload_is (response_json b) (http_body resp) /\
  (exists line, bytes (http_body resp) = line ++ [10] /\ 10 ∉ line) /\
  fst (DecodePayload (http_body resp)) = Ok (canon (response_json b)).
Proof.
  intros Hok resp. pose proof (response_well_formed b Hok) as Hwf.
  assert (Hbytes : bytes (http_body resp) = encode (response_json b) ++ [10]).
  { apply bytes_of_bytes, Forall_app_2; [apply encode_bytes|by repeat constructor]. }
  assert (Htext : payload_is (response_json b) (http_body resp)).
  { exists [], (encode (response_json b)), [10]. rewrite Hbytes.
    split_and!; [done|constructor|by apply encode_renders|by repeat constructor|].
    pose proof (response_depth b). unfold maxNestingDepth. lia. }
  split_and!; [done|done|done| |].
  - exists (encode (response_json b)). split; [done|]. intros Hin.
    pose proof (encode_printable _ Hwf) as Hp. rewrite list.Forall_forall in Hp.
    by apply Hp in Hin.
  - apply read_value_text in Htext as (r & Hr & _). unfold DecodePayload, decode_any. by rewrite Hr.
Qed.

End Response.
