(* ===== verification/Api.v ===== *)
(** * The API end to end

    A create request from its bytes to the rows of the store and the bytes of
    its response: the mux, authentication, the decoder, the intake service and
    the store together. *)

From S2P Require Import Prelude GoTime GoStrings GoText Notification Hash Destination Table Schema Store StoreSpec StoreRefine StoreProps IntakeStoreProps RetryStoreProps Samples OutboxService Intake HttpApi Rabbit Json JsonGrammar JsonCanon Payload Router.

#[local] Open Scope list_scope.
#[local] Open Scope Z_scope.

Section Api.
Context (Sum256 : list Z -> list Z) (jsonb : string -> option string)
        (time_text : time -> string) (range_order : gmap string string -> list (string * string)).
Context (range_order_perm : forall m, range_order m ≡ₚ map_to_list m).

(** The intake service over the store as the [Creator] of the API, for one call
    with the values of its clock and its generator.  A nil URL, on which the
    code panics, is not in a registry of validated destinations. *)
Definition store_creator (f f' : fault) (registry : gmap string Destination) (now : time)
    (taskID eventID : string) : Creator db :=
  {| creator_Create caller key destinationID payload := fun d =>
       match run_create DecodePayload Marshal Sum256 jsonb f f' registry now taskID eventID
               caller key destinationID payload d with
       | (Some (_, r), d') => (r, d')
       | (None, d') => (Err (Message "panic: nil URL"), d')
       end |}.

Lemma post_endpoint : findHandler "POST" "/v1/notifications" = Matched PostNotification.
Proof. by vm_compute. Qed.

(** A create request that passes the checks of the handler reaches the
    creator. *)
Lemma post_reaches {W} (HC : Creator W) (HQ : Querier W) (HR : Replayer W) CallerTokens AdminTokens
    authorization keyHeader body (w : W) caller input :
  CallerTokens !! TrimPrefix authorization "Bearer " = Some caller -> caller <> "" ->
  strings_TrimSpace keyHeader <> "" -> len (strings_TrimSpace keyHeader) <= 256 ->
  decodeJSON DecodeRequest DecodeTrailing body = Ok input ->
  InDestinationID input <> "" -> InPayload input <> "" ->
  ServeHTTP time_text range_order CallerTokens AdminTokens "POST" "/v1/notifications"
      authorization keyHeader body w =
    let '(res, w') := creator_Create caller (strings_TrimSpace keyHeader) (InDestinationID input)
                        (InPayload input) w in
    (inl (writeJSON time_text
       match res with
       | Ok (task, _) => mkResponse 202 (CreatedBody (TaskID task) (TaskStatus task))
       | Err e =>
           if errors_Is e IntakeErrIdempotencyConflict
           then writeError 409 "idempotency_conflict"
                  "Idempotency-Key was already used for a different request"
           else if errors_Is e ErrUnknownDestination
           then writeError 422 "unknown_destination" "destination_id is not registered"
           else writeError 500 "internal_error" "request could not be accepted"
       end), w').
Proof.
  intros Htok Hcaller Hkey Hlen Hdec Hdest Hpay. unfold ServeHTTP. rewrite post_endpoint.
  unfold NewRouter, authenticate. cbn [req_endpoint req_Authorization].
  rewrite authenticate_caller_spec by done. rewrite Htok. cbn [default from_option id].
  rewrite bool_decide_eq_false_2 by done. unfold createHandler. cbn [req_IdempotencyKey req_body].
  rewrite bool_decide_eq_false_2 by done. rewrite (proj2 (Z.ltb_ge _ _) Hlen). cbn [orb].
  rewrite Hdec. rewrite bool_decide_eq_false_2 by done.
  assert (Hp : (len (InPayload input) =? 0) = false).
  { unfold len. destruct (InPayload input); [done|]. apply Z.eqb_neq. simpl. lia. }
  rewrite Hp. cbn [orb]. by destruct (creator_Create _ _ _ _ w) as [[[task dup]|e] w'].
Qed.

(** The row that the intake stores for a request. *)
Definition accepted_row (row : task_row) (caller key destinationID url b hash : string) (target : Destination) : Prop :=
  status row = StatusPending /\ attempt_count row = 0 /\ generation row = 0 /\
  caller_id (fixed row) = caller /\ request_hash (fixed row) = hash /\
  snapshot_of_row (fixed row) =
    {| DestinationID := destinationID; Method := DestMethod target; URL := url;
       StaticHeaders := DestStaticHeaders target; SecretHeaders := DestSecretHeaders target;
       Body := b; Timeout := DestTimeout target; Retry := DestRetry target;
       ConcurrencyLimit := DestConcurrencyLimit target; SnapshotIdempotencyKey := key |}.

(** C7 (functional): a create request, end to end.  A request with a caller's
    token, an idempotency key and a body that names a registered destination
    and a payload is answered from the store.  If the caller has not used the
    key, the answer is 202 with the new identifier and the state [pending],
    and the store holds, in one transaction, the task with the settings of the
    destination and the digest of the payload's value, and one event.  If it
    has, nothing changes, and the answer is 202 with the first identifier and
    its present state when the payload is the same value for the same
    destination (the digests agree), and 409 when it is not. *)
Theorem post_notification url_Parse_IP lookupEnv {HQ : Querier db} {HR : Replayer db} registry now taskID eventID
    CallerTokens AdminTokens authorization keyHeader body caller input target u b d :
  (forall l, Forall is_byte (Sum256 l) /\ length (Sum256 l) = 32%nat) -> db_inv d ->
  CallerTokens !! TrimPrefix authorization "Bearer " = Some caller -> caller <> "" ->
  let key := strings_TrimSpace keyHeader in
  key <> "" -> len key <= 256 ->
  decodeJSON DecodeRequest DecodeTrailing body = Ok input ->
  InDestinationID input <> "" -> InPayload input <> "" ->
  let dest := InDestinationID input in
  registry !! dest = Some target -> DestURL target = Some u ->
  valid_destination url_Parse_IP lookupEnv target -> jsonb (InPayload input) = Some b ->
  storable caller key dest (URLString u) taskID eventID ->
  tasks d !! taskID = None -> outbox d !! eventID = None ->
  exists v resp d',
    payload_is v (InPayload input) /\
    ServeHTTP (H := store_creator NoFault NoFault registry now taskID eventID) time_text range_order
        CallerTokens AdminTokens "POST" "/v1/notifications" authorization keyHeader body d
      = (inl (writeJSON time_text resp), d') /\
    match sql_select (same_key caller key) (tasks d) with
    | [] =>
        resp = mkResponse 202 (CreatedBody taskID StatusPending) /\ db_inv d' /\
        exists row, accepted_row row caller key dest (URLString u) b (digest Sum256 dest v) target /\
          tasks d' = <[taskID := row]> (tasks d) /\
          outbox d' = <[eventID := row_of_event (new_event taskID eventID now)]> (outbox d)
    | (id, row) :: _ =>
        d' = d /\
        resp = if bool_decide (request_hash (fixed row) = digest Sum256 dest v)
               then mkResponse 202 (CreatedBody id (status row))
               else writeError 409 "idempotency_conflict"
                      "Idempotency-Key was already used for a different request"
    end.
Proof.
  intros Hsum Hinv Htok Hcaller key Hkey Hlen Hdec Hdest Hpay dest Hreg Hu Hv Hb Hst Hnew Hev.
  destruct (decoded_payload body input Hdec Hpay) as (v & Htext). exists v.
  set (hash := digest Sum256 dest v).
  destruct (run_create_NoFault DecodePayload Marshal Sum256 jsonb url_Parse_IP lookupEnv registry now taskID
    eventID caller key dest (InPayload input) target u hash b d) as [Hrun Hdb];
    try done; [apply RequestHash_digest; by exists v|].
  rewrite (post_reaches (store_creator NoFault NoFault registry now taskID eventID) HQ HR _ _ _ _ _ d caller input)
    by done.
  cbn [creator_Create store_creator]. fold key dest. rewrite Hrun. clear Hrun.
  destruct (sql_select (same_key caller key) (tasks d)) as [|[id row] l] eqn:Hsel.
  - eexists _, _. do 2 (split; [done|]). split_and!; [done|by apply Hdb|].
    eexists. split_and!; [|done|done]. apply row_of_new_task.
  - assert (Hrow : copy_hash (request_hash (fixed row)) = request_hash (fixed row)).
    { assert (Hin : (id, row) ∈ sql_select (same_key caller key) (tasks d)) by (rewrite Hsel; left).
      apply elem_of_sql_select in Hin as [Hin _].
      apply copy_hash_id, (task_row_ok_hash id), (sk_task_ok d (inv_schema d Hinv) id row Hin). }
    rewrite Hrow. destruct (decide (request_hash (fixed row) = hash)) as [He|He].
    + rewrite (bool_decide_eq_true_2 (_ = _)), (bool_decide_eq_false_2 (_ <> _)) by naive_solver.
      eexists _, d. split; [done|]. by split.
    + rewrite (bool_decide_eq_false_2 (_ = _)), (bool_decide_eq_true_2 (_ <> _)) by done.
      eexists _, d. split; [done|]. by split.
Qed.

(** ** Queries and replays *)

(** The replay service over the store, for one call with the values of its
    clock and its generator. *)
Definition store_replayer (f f' : fault) (now : time) (eventID : string) : Replayer db := {|
  replayer_Replay _ := @Replay db (store_repository f f') now eventID;
|}.

Lemma serve_authenticated {W} `{Creator W} `{Querier W} `{Replayer W} CallerTokens AdminTokens method path
    authorization keyHeader body (w : W) e :
  findHandler method path = Matched e ->
  let r := mkRequest e authorization keyHeader body in
  let caller := default "" (tokens_of CallerTokens AdminTokens e !! TrimPrefix authorization "Bearer ") in
  ServeHTTP time_text range_order CallerTokens AdminTokens method path authorization keyHeader body w =
    let '(resp, w') :=
      if bool_decide (caller = "") then (writeError 401 "unauthorized" "authentication required", w)
      else match e with
           | PostNotification => createHandler DecodeRequest DecodeTrailing caller r w
           | GetNotification id => queryHandler id caller r w
           | PostReplay id => replayHandler id caller r w
           end in
    (inl (writeJSON time_text resp), w').
Proof.
  intros He r caller. unfold ServeHTTP. rewrite He. unfold NewRouter, authenticate.
  destruct e; cbn [req_endpoint req_Authorization]; rewrite authenticate_caller_spec by done; done.
Qed.

(** What the store holds can be written as JSON. *)
Lemma stored_view_ok d id row :
  db_inv d -> tasks d !! id = Some row -> 0 <= default 0 (last_http_status row) ->
  view_ok (view_of (queried_task id row)) = true.
Proof.
  intros Hinv Hrow Hstatus. pose proof (sk_task_ok d (inv_schema d Hinv) id row Hrow) as Hok.
  apply task_row_ok_counts in Hok as (Hattempts & _).
  apply (sk_task_ok d (inv_schema d Hinv)), task_row_ok_texts in Hrow as (H1 & H2 & H3 & H4).
  unfold view_ok. cbn [view_of queried_task ViewID ViewDestinationID ViewLastErrorCode ViewLastError
    ViewAttemptCount ViewLastHTTPStatus TaskID Snapshot DestinationID LastErrorCode LastError AttemptCount
    LastHTTPStatus]. rewrite H1, H2, H3, H4. by rewrite !(proj2 (Z.leb_le _ _)).
Qed.

(** C8 (functional): a query, end to end.  A request for a notification with a
    caller's token is answered from the row of the store and changes nothing:
    200 with a body that is one JSON text for the fields of the row, if the
    caller has created it; and the same 404 for a notification of another
    caller as for one that does not exist.  An identifier that is not text for
    PostgreSQL (the path may spell any bytes: [%00], [%FF]) makes the statement
    fail, and the answer is 500, as for any other failure of the store. *)
Theorem get_notification {HC : Creator db} {HR : Replayer db} f' CallerTokens AdminTokens method path
    authorization keyHeader body caller id d :
  findHandler method path = Matched (GetNotification id) -> id <> "" ->
  CallerTokens !! TrimPrefix authorization "Bearer " = Some caller -> caller <> "" ->
  (forall t, valid_utf8 (time_text t) = true) -> db_inv d ->
  (forall row, tasks d !! id = Some row -> 0 <= default 0 (last_http_status row)) ->
  exists resp,
    ServeHTTP (H0 := store_querier NoFault f') time_text range_order CallerTokens AdminTokens method path
        authorization keyHeader body d
      = (inl (writeJSON time_text resp), d) /\
    if negb (text_ok id && text_ok caller)
    then resp = writeError 500 "internal_error" "notification could not be queried"
    else match tasks d !! id with
    | Some row =>
        if bool_decide (caller_id (fixed row) = caller)
        then resp = mkResponse 200 (ViewBody (view_of (queried_task id row))) /\
             payload_is (view_json time_text (view_of (queried_task id row)))
               (http_body (writeJSON time_text resp))
        else resp = writeError 404 "not_found" "notification not found"
    | None => resp = writeError 404 "not_found" "notification not found"
    end.
Proof.
  intros He Hid Htok Hcaller Htime Hinv Hstatus.
  rewrite (serve_authenticated _ _ _ _ _ _ _ _ _ He). cbn [tokens_of]. rewrite Htok. cbn [default from_option Datatypes.id].
  rewrite bool_decide_eq_false_2 by done. unfold queryHandler. rewrite bool_decide_eq_false_2 by done.
  assert (Hget : PgGetForCaller NoFault caller id d =
    (if negb (text_ok id && text_ok caller) then Err (Wrapped "get notification for caller" bad_text) else match tasks d !! id with
     | Some row => if bool_decide (caller_id (fixed row) = caller) then Ok (queried_task id row)
                   else Err (Sentinel ErrTaskNotFound)
     | None => Err (Sentinel ErrTaskNotFound)
     end, d)).
  { unfold PgGetForCaller, statement, atomically, wrapM, texts, mbind, M_bind, gets. cbn [forallb].
    rewrite andb_true_r. destruct (text_ok id && text_ok caller); [simpl|done].
    destruct (tasks d !! id) as [row|]; [|done]. by case_bool_decide. }
  cbn [querier_Get store_querier]. rewrite Get_result. cbn [GetForCaller store_repository]. rewrite Hget.
  destruct (text_ok id && text_ok caller); cbn [negb]; [|by eexists].
  destruct (tasks d !! id) as [row|] eqn:Hrow; [|by eexists].
  case_bool_decide; [|by eexists]. eexists. split; [done|]. split; [done|].
  apply (response_text time_text Htime 200 (ViewBody (view_of (queried_task id row)))).
  apply (stored_view_ok d); eauto.
Qed.

(** C25 (functional): a replay, end to end.  Only an administrator's token
    reaches it; any other is answered 401 and changes nothing.  A dead
    notification becomes pending in a new generation, with its request and its
    attempts kept and one new event, in one transaction, and the answer is 202;
    in any other state, or if there is none, the answer is 409 and nothing
    changes.  An identifier that is not text for PostgreSQL ([%00], [%FF] in
    the path) makes the statement fail: 500, and nothing changes. *)
Theorem replay_notification {HC : Creator db} {HQ : Querier db} f now eventID CallerTokens AdminTokens method path
    authorization keyHeader body id d :
  findHandler method path = Matched (PostReplay id) -> db_inv d ->
  text_between 1 64 eventID = true -> outbox d !! eventID = None ->
  (forall row, tasks d !! id = Some row -> generation row < 2 ^ 31 - 1) ->
  exists resp d',
    ServeHTTP (H1 := store_replayer f NoFault now eventID) time_text range_order CallerTokens AdminTokens method
        path authorization keyHeader body d
      = (inl (writeJSON time_text resp), d') /\
    db_inv d' /\
    if bool_decide (default "" (AdminTokens !! TrimPrefix authorization "Bearer ") = "")
    then resp = writeError 401 "unauthorized" "authentication required" /\ d' = d
    else if negb (text_ok id)
    then resp = writeError 500 "internal_error" "notification could not be replayed" /\ d' = d
    else
      match tasks d !! id with
      | Some row =>
          if has_status StatusDead row
          then resp = mkResponse 202 (ReplayBody id) /\
               tasks d' = <[id := set_replayed now row]> (tasks d) /\
               outbox d' = <[eventID := retry_event id (generation row + 1) now]> (outbox d)
          else resp = writeError 409 "not_dead" "only dead notifications can be replayed" /\ d' = d
      | None => resp = writeError 409 "not_dead" "only dead notifications can be replayed" /\ d' = d
      end.
Proof.
  intros He Hinv Hevent Hnew Hgen. rewrite (serve_authenticated _ _ _ _ _ _ _ _ _ He). cbn [tokens_of].
  case_bool_decide as Htok; [by eexists _, d|]. unfold replayHandler. cbn [replayer_Replay store_replayer].
  rewrite Replay_result. cbn [ReplayDeadAtomic store_repository].
  rewrite PgReplayDeadAtomic_NoFault, Hnew by done.
  destruct (text_ok id) eqn:Htext; cbn [negb]; [|by eexists _, d].
  destruct (tasks d !! id) as [row|] eqn:Hrow; [|by eexists _, d].
  destruct (has_status StatusDead row) eqn:Hst; [|by eexists _, d].
  pose proof (sk_task_ok d (inv_schema d Hinv) id row Hrow) as Hok.
  rewrite set_replayed_ok by eauto. eexists _, _. split; [done|]. split; [|done].
  pose proof (call_refines jsonb Sum256 (fun l => l) (CallReplayDeadAtomic NoFault id now eventID) d Hinv eq_refl) as Hsteps.
  cbn [run_call] in Hsteps. rewrite PgReplayDeadAtomic_NoFault, Htext, Hrow, Hst, set_replayed_ok, Hnew in Hsteps by eauto.
  by eapply store_steps_preserve.
Qed.

End Api.

(** ** Instances *)

(** JSON text written with single quotes. *)
Definition dq (s : string) : string := of_bytes (map (fun b => if b =? 39 then 34 else b) (bytes s)).

#[local] Instance sample_querier : Querier db := store_querier NoFault NoFault.
#[local] Instance sample_replayer : Replayer db := {| replayer_Replay _ _ := throw (Sentinel ErrNotDead) |}.

Definition sample_body : string := dq "{'destination_id':'inventory-system', 'payload' : {'b':[1], 'a':'x'} }".
Definition sample_payload : string := dq "{'b':[1], 'a':'x'}".
Definition sample_value : json := JObject [("b", JArray [JNumber "1"]); ("a", JString "x")].
Definition sample_time_text (t : time) : string := "2026-01-01T00:00:00Z".

(** The same value, written in another way. *)
Definition sample_other_payload : string := dq "{'a' : '\u0078', 'b' : [ 1 ]}".

Definition sample_post (taskID eventID body : string) (d : db) : (http_response + mux_answer) * db :=
  ServeHTTP (H := store_creator sample_sum sample_jsonb NoFault NoFault sample_registry 1000 taskID eventID)
    sample_time_text map_to_list {["t-orders" := "orders"]} ∅ "POST" "/v1/notifications" "Bearer t-orders"
    " k1 " body d.

Lemma sample_payload_is : payload_is sample_value sample_payload.
Proof. apply json_text_parse. exists []. split; [vm_compute; reflexivity|reflexivity]. Qed.

Lemma sample_other_is :
  payload_is (JObject [("a", JString "x"); ("b", JArray [JNumber "1"])]) sample_other_payload.
Proof. apply json_text_parse. exists []. split; [vm_compute; reflexivity|reflexivity]. Qed.

(** Another order of members, another way to write a character, other white
    space: the same digest. *)
Lemma request_hash_value_witness :
  Hash.RequestHash DecodePayload Marshal sample_digest "crm" sample_payload
    = Hash.RequestHash DecodePayload Marshal sample_digest "crm" sample_other_payload.
Proof.
  refine (proj1 (proj2 (proj2 (request_hash_value sample_digest "crm" sample_payload))
    sample_value sample_other_payload _ _ sample_payload_is sample_other_is) _).
  - intros l. apply Forall_fmap, Forall_true. intros b. apply Z.mod_pos_bound. lia.
  - reflexivity.
Defined.

Lemma create_body_witness :
  decodeJSON DecodeRequest DecodeTrailing sample_body = Ok (mkCreateRequest "inventory-system" sample_payload) /\
  exists v, payload_is v sample_payload.
Proof.
  assert (H : decodeJSON DecodeRequest DecodeTrailing sample_body
                = Ok (mkCreateRequest "inventory-system" sample_payload)) by (vm_compute; reflexivity).
  split; [exact H|].
  destruct (proj1 (proj2 (create_body sample_body)) _ H) as [He|(v & Hv & _)]; [discriminate He|by exists v].
Defined.

Lemma message_roundtrip_witness :
  exists body, marshal_message (mkOutboxMessage "e1" "n1") = Ok body /\
    consume_body unmarshal_message body = Some (mkOutboxMessage "e1" "n1").
Proof.
  apply (proj1 message_roundtrip (mkOutboxMessage "e1" "n1"));
    [reflexivity|reflexivity|discriminate|discriminate].
Defined.

Lemma routing_witness : findHandler "HEAD" "/v1/notifications/n%2D1" = Matched (GetNotification "n-1").
Proof.
  apply (proj1 (routing sample_time_text map_to_list "HEAD" "/v1/notifications/n%2D1")).
  split_and!; [reflexivity|right; left|reflexivity|discriminate].
Defined.

Lemma response_text_witness :
  fst (DecodePayload (http_body (writeJSON sample_time_text (mkResponse 202 (CreatedBody "n1" StatusPending)))))
    = Ok (JObject [("notification_id", JString "n1"); ("status", JString "pending")]).
Proof.
  destruct (response_text sample_time_text (fun _ => eq_refl) 202 (CreatedBody "n1" StatusPending) eq_refl)
    as (_ & _ & _ & _ & H).
  rewrite H. reflexivity.
Defined.

Lemma sample_destination_valid : valid_destination (fun _ => None) sample_env sample_destination.
Proof.
  exact (proj1 (parse_valid (fun _ => Some sample_url) (fun _ => None)
      sample_ParseDuration to_upper to_lower id map_to_list sample_env sample_fold_ascii
      sample_raw sample_destination sample_parsed)).
Qed.

Lemma post_notification_witness :
  fst (sample_post "n1" "e1" sample_body empty_db)
    = inl (writeJSON sample_time_text (mkResponse 202 (CreatedBody "n1" StatusPending))).
Proof.
  destruct (post_notification sample_sum sample_jsonb sample_time_text map_to_list
    (fun m => Permutation_refl (map_to_list m)) (fun _ => None) sample_env sample_registry 1000 "n1" "e1"
    {["t-orders" := "orders"]} ∅ "Bearer t-orders" " k1 " sample_body "orders"
    (mkCreateRequest "inventory-system" sample_payload) sample_destination sample_url sample_payload empty_db)
    as (v & resp & d' & _ & Hrun & Hresp).
  - exact sample_sum_bytes.
  - exact db_inv_empty.
  - reflexivity.
  - discriminate.
  - discriminate.
  - vm_compute. discriminate.
  - vm_compute. reflexivity.
  - discriminate.
  - discriminate.
  - reflexivity.
  - reflexivity.
  - exact sample_destination_valid.
  - reflexivity.
  - split; vm_compute; reflexivity.
  - reflexivity.
  - reflexivity.
  - unfold sample_post. rewrite Hrun. destruct Hresp as [-> _]. reflexivity.
Defined.

(** The whole of it, run: the same request again, and the same key with another
    payload. *)
Example post_again :
  (sample_post "n2" "e2" (dq "{'destination_id':'inventory-system','payload':{'a':'\u0078','b':[1]}}")
     (sample_post "n1" "e1" sample_body empty_db).2).1
    = inl (writeJSON sample_time_text (mkResponse 202 (CreatedBody "n1" StatusPending))) /\
  (sample_post "n2" "e2" (dq "{'destination_id':'inventory-system','payload':{'a':'x','b':[2]}}")
     (sample_post "n1" "e1" sample_body empty_db).2).1
    = inl (writeJSON sample_time_text (writeError 409 "idempotency_conflict"
             "Idempotency-Key was already used for a different request")).
Proof. split; vm_compute; reflexivity. Qed.

(** A caller reads its own dead notification, and an administrator replays it. *)
Definition sample_get_path : string := "/v1/notifications/n1".
Definition sample_replay_path : string := "/v1/admin/notifications/n1/replay".

#[local] Instance sample_api_creator : Creator db :=
  store_creator sample_sum sample_jsonb NoFault NoFault sample_registry 1000 "n3" "e3".

Lemma history_dead_inv : db_inv (after history_dead).
Proof. apply after_inv. vm_compute. reflexivity. Qed.

Lemma get_notification_witness :
  exists resp,
    ServeHTTP sample_time_text map_to_list {["t-orders" := "orders"]} ∅ "GET" sample_get_path
      "Bearer t-orders" "" "" (after history_dead)
      = (inl (writeJSON sample_time_text resp), after history_dead) /\ resp_status resp = 200.
Proof.
  destruct (get_notification sample_time_text map_to_list (fun m => Permutation_refl (map_to_list m)) NoFault
    {["t-orders" := "orders"]} ∅ "GET" sample_get_path "Bearer t-orders" "" "" "orders" "n1" (after history_dead))
    as (resp & Hrun & Hresp).
  - vm_compute. reflexivity.
  - discriminate.
  - reflexivity.
  - discriminate.
  - intros t. reflexivity.
  - exact history_dead_inv.
  - intros row Hrow. vm_compute in Hrow. injection Hrow as <-. vm_compute. discriminate.
  - exists resp. split; [exact Hrun|].
    destruct (tasks (after history_dead) !! "n1") as [row|] eqn:Hrow; vm_compute in Hrow; [|discriminate].
    injection Hrow as <-. destruct Hresp as [-> _]. reflexivity.
Defined.

Lemma replay_notification_witness :
  exists resp d',
    ServeHTTP (H1 := store_replayer NoFault NoFault 9000 "e9") sample_time_text map_to_list
      {["t-orders" := "orders"]} {["t-admin" := "ops"]} "POST" sample_replay_path
      "Bearer t-admin" "" "" (after history_dead)
      = (inl (writeJSON sample_time_text resp), d') /\ resp_status resp = 202 /\ db_inv d'.
Proof.
  destruct (replay_notification sample_sum sample_jsonb sample_time_text map_to_list
    (fun m => Permutation_refl (map_to_list m)) NoFault 9000 "e9"
    {["t-orders" := "orders"]} {["t-admin" := "ops"]} "POST" sample_replay_path "Bearer t-admin" "" "" "n1"
    (after history_dead)) as (resp & d' & Hrun & Hinv & Hresp).
  - vm_compute. reflexivity.
  - exact history_dead_inv.
  - reflexivity.
  - vm_compute. reflexivity.
  - intros row Hrow. vm_compute in Hrow. injection Hrow as <-. reflexivity.
  - exists resp, d'. split; [exact Hrun|]. split; [|exact Hinv]. revert Hresp. vm_compute (bool_decide _).
    destruct (tasks (after history_dead) !! "n1") as [row|] eqn:Hrow; vm_compute in Hrow; [|discriminate].
    injection Hrow as <-. intros [-> _]. reflexivity.
Defined.
