(* ===== verification/Columns.v ===== *)
(** * The JSONB columns of a task (store/postgres/intake.go, store/postgres/delivery.go)

    [CreateNotification] writes the headers and the retry delays of a task as
    JSON, [ClaimDelivery] reads them back.  [Schema.v] keeps these columns
    typed; this file models their texts, and shows that what is read is what
    was written, so that the typed columns stand for the real ones.

    [JSONB] itself is a parameter with what PostgreSQL documents of it: it
    keeps the value, but not the white space nor the order of the members of
    an object. *)

From S2P Require Import Prelude GoTime GoStrings GoText Notification Table Schema Store Json JsonGrammar JsonCanon Hash Destination Intake OutboxService HttpApi Payload Router Samples.

#[local] Open Scope list_scope.
#[local] Open Scope Z_scope.

(** ** Writing *)

(** [json.Marshal] of a map: the members by ascending keys. *)
Definition map_json {A} (value : A -> json) (m : gmap string A) : json :=
  JObject (put_all (map (fun p => (p.1, value p.2)) (map_to_list m)) []).

Definition strings_json (l : list string) : json := JArray (map JString l).

(** A nil map is [null]. *)
Definition header_json (h : Header) : json :=
  match h with Some m => map_json strings_json m | None => JNull end.

(** The delays of a registered destination are a nil slice when there are none. *)
Definition delays_json (l : list Z) : json :=
  match l with [] => JNull | _ => JArray (map JInt l) end.

Record columns := mkColumns { col_static : string; col_secret : string; col_delays : string }.

(** The three calls of [json.Marshal] in [CreateNotification]. *)
Definition marshal_columns (snapshot : DeliverySnapshot) : result columns :=
  staticHeaders ← wrap "marshal static headers" (Marshal (header_json (StaticHeaders snapshot)));
  secretHeaders ← wrap "marshal secret headers" (Marshal (map_json JString (SecretHeaders snapshot)));
  retryDelays ← wrap "marshal retry delays" (Marshal (delays_json (Delays (Retry snapshot))));
  Ok (mkColumns staticHeaders secretHeaders retryDelays).

(** ** Reading *)

Definition type_error : error := Message "json: cannot unmarshal value".

(** The text of one value. *)
Definition Unmarshal (data : string) : result json :=
  let l := bytes data in
  match parse_value (parse_fuel l) 0 l with
  | Scanned v r =>
      match skip_ws r with [] => Ok v | _ => Err (Message "invalid character after top-level value") end
  | Truncated => Err (Message "unexpected end of JSON input")
  | _ => Err (Message "invalid character")
  end.

(** Elements decoded into a zero value, which [null] leaves as it is. *)
Definition decode_string (v : json) : result string :=
  match v with JString s => Ok s | JNull => Ok "" | _ => Err type_error end.

Definition decode_int64 (v : json) : result Z :=
  match v with
  | JNumber d => match Atoi d with Some n => Ok n | None => Err type_error end
  | JNull => Ok 0
  | _ => Err type_error
  end.

Fixpoint decode_items {A} (item : json -> result A) (vs : list json) : result (list A) :=
  match vs with
  | [] => Ok []
  | v :: vs => a ← item v; l ← decode_items item vs; Ok (a :: l)
  end.

Definition decode_slice {A} (item : json -> result A) (v : json) : result (list A) :=
  match v with JArray vs => decode_items item vs | JNull => Ok [] | _ => Err type_error end.

(** Members in their order: a later one replaces an earlier one. *)
Definition decode_members {A} (item : json -> result A) (ms : list (string * json)) (m : gmap string A)
    : result (gmap string A) :=
  foldl (fun r member => m ← r; a ← item member.2; Ok (<[member.1 := a]> m)) (Ok m) ms.

(** Into a map: [null] makes it nil, the members are added to [m]. *)
Definition decode_map {A} (item : json -> result A) (v : json) (m : gmap string A)
    : result (option (gmap string A)) :=
  match v with
  | JNull => Ok None
  | JObject ms => m ← decode_members item ms m; Ok (Some m)
  | _ => Err type_error
  end.

(** The three calls of [json.Unmarshal] in [ClaimDelivery]. *)
Definition unmarshal_columns (c : columns) : result (Header * gmap string string * list Z) :=
  staticHeaders ← wrap "decode static headers"
    (v ← Unmarshal (col_static c); decode_map (decode_slice decode_string) v ∅);
  secretHeaders ← wrap "decode secret headers" (v ← Unmarshal (col_secret c); decode_map decode_string v ∅);
  retryDelays ← wrap "decode retry delays" (v ← Unmarshal (col_delays c); decode_slice decode_int64 v);
  Ok (staticHeaders, default ∅ secretHeaders, retryDelays).

(** ** What JSONB keeps *)

(** A value written by PostgreSQL: the members of objects may come in another
    order. *)
Inductive reordered : json -> json -> Prop :=
| reordered_scalar v :
    (forall vs, v <> JArray vs) -> (forall ms, v <> JObject ms) -> reordered v v
| reordered_array vs vs' : Forall2 reordered vs vs' -> reordered (JArray vs) (JArray vs')
| reordered_object ms ms1 ms' :
    ms ≡ₚ ms1 -> Forall2 (fun m m' => m.1 = m'.1 /\ reordered m.2 m'.2) ms1 ms' ->
    reordered (JObject ms) (JObject ms').

(** Values that [JSONB] takes and keeps: no zero character, natural numbers of
    64 bits, and keys that occur once. *)
Fixpoint jsonb_plain (v : json) : bool :=
  match v with
  | JNull | JBool _ => true
  | JNumber d => forallb is_digit (bytes d) && bool_decide (is_Some (Atoi d))
  | JString s => text_ok s
  | JArray vs => forallb jsonb_plain vs
  | JObject ms => bool_decide (NoDup ms.*1) && forallb (fun m => text_ok m.1 && jsonb_plain m.2) ms
  end.

(** A field of [JSONB] holds up to 256 MiB. *)
Definition jsonb_limit : Z := 2 ^ 28.

Definition keeps_values (jsonb : string -> option string) : Prop :=
  forall v s, payload_is v s -> jsonb_plain v = true -> len s < jsonb_limit ->
    exists s' v', jsonb s = Some s' /\ payload_is v' s' /\ reordered v v'.

(** The texts that a statement stores for the columns. *)
Definition stored_columns (jsonb : string -> option string) (c : columns) : option columns :=
  staticHeaders ← jsonb (col_static c);
  secretHeaders ← jsonb (col_secret c);
  retryDelays ← jsonb (col_delays c);
  Some (mkColumns staticHeaders secretHeaders retryDelays).

(** ** Decoding what was encoded *)

Lemma Unmarshal_text v s : payload_is v s -> Unmarshal s = Ok v.
Proof. intros (r & Hp & Hr)%json_text_parse. unfold Unmarshal. by rewrite Hp, Hr. Qed.

Lemma put_perm k v l : k ∉ l.*1 -> put k v l ≡ₚ (k, v) :: l.
Proof.
  induction l as [|[k0 v0] l IH]; intros Hk; [done|]. rewrite fmap_cons, not_elem_of_cons in Hk.
  destruct Hk as [Hne Hk]. simpl. destruct (String.compare k k0) eqn:Hc; [|done|].
  - by apply String.compare_eq_iff in Hc.
  - rewrite IH by done. apply Permutation_swap.
Qed.

Lemma put_all_perm ms l : NoDup (ms.*1 ++ l.*1) -> put_all ms l ≡ₚ ms ++ l.
Proof.
  revert l. induction ms as [|[k v] ms IH]; intros l Hnd; [done|]. simpl in Hnd.
  apply list.NoDup_cons in Hnd as [Hk Hnd]. rewrite not_elem_of_app in Hk. destruct Hk as [Hk1 Hk2].
  simpl. rewrite IH.
  - rewrite put_perm by done. symmetry. apply Permutation_middle.
  - rewrite put_perm by done. simpl. rewrite <- Permutation_middle. by constructor; [set_solver|].
Qed.

(** The members of a map, in some order. *)
Lemma map_json_perm {A} (value : A -> json) (m : gmap string A) :
  put_all (map (fun p => (p.1, value p.2)) (map_to_list m)) [] ≡ₚ (fun p => (p.1, value p.2)) <$> map_to_list m.
Proof.
  assert (Hkeys : (map (fun p : string * A => (p.1, value p.2)) (map_to_list m)).*1 = (map_to_list m).*1).
  { induction (map_to_list m) as [|p l IH]; [done|]. simpl. by f_equal. }
  rewrite put_all_perm; [by rewrite app_nil_r|]. rewrite app_nil_r, Hkeys. apply NoDup_fst_map_to_list.
Qed.

Section Items.
Context {A : Type} (item : json -> result A) (value : A -> json) (P : A -> Prop).
Hypothesis Hitem : forall a v, P a -> reordered (value a) v -> item v = Ok a.

Lemma decode_items_encoded l vs :
  Forall P l -> Forall2 reordered (map value l) vs -> decode_items item vs = Ok l.
Proof.
  intros HP. revert vs. induction HP as [|a l Ha _ IH]; intros vs H; inversion H as [|? v ? vs' Hv Hvs]; subst;
    [done|].
  simpl. by rewrite (Hitem a v Ha Hv), (IH vs' Hvs).
Qed.

Lemma decode_slice_encoded l v :
  Forall P l -> reordered (JArray (map value l)) v -> decode_slice item v = Ok l.
Proof.
  intros HP H. inversion H as [v0 Harr _|vs vs' Hall|]; subst; [by destruct (Harr _ eq_refl)|].
  by apply decode_items_encoded.
Qed.

Lemma decode_members_encoded l ms (m : gmap string A) :
  Forall2 (fun p m' => p.1 = m'.1 /\ reordered p.2 m'.2) ((fun p => (p.1, value p.2)) <$> l) ms ->
  Forall (fun p => P p.2) l -> NoDup l.*1 -> (forall k, k ∈ l.*1 -> m !! k = None) ->
  decode_members item ms m = Ok (list_to_map l ∪ m).
Proof.
  intros H HP. revert ms m H. induction HP as [|[k a] l Ha _ IH]; intros ms m H Hnd Hm; inversion H as [|? [k' v] ? ms' [Hk Hv] Hms]; subst.
  { unfold decode_members. cbn. by rewrite (left_id_L ∅ (∪)). }
  simpl in Hk, Hv. subst k'. rewrite fmap_cons in Hnd. apply list.NoDup_cons in Hnd as [Hk Hnd].
  unfold decode_members. cbn -[decode_members]. rewrite (Hitem a v Ha Hv). cbn.
  fold (decode_members item ms' (<[k:=a]> m)). rewrite IH; [|done|done|].
  - f_equal. rewrite <- insert_union_l, insert_union_r; [done|]. by apply not_elem_of_list_to_map_1.
  - intros k' Hk'. rewrite lookup_insert_ne by set_solver. apply Hm. simpl. by right.
Qed.

Lemma decode_map_encoded (m : gmap string A) v :
  map_Forall (fun _ => P) m -> reordered (map_json value m) v -> decode_map item v ∅ = Ok (Some m).
Proof.
  intros HP H. inversion H as [v0 _ Hobj| |ms ms1 ms' Hperm Hall]; subst; [by destruct (Hobj _ eq_refl)|].
  simpl. rewrite map_json_perm in Hperm. symmetry in Hperm.
  apply Permutation_map_inv in Hperm as (l & -> & Hl).
  rewrite map_Forall_to_list in HP. rewrite (decode_members_encoded l ms' ∅ Hall).
  - cbn. rewrite (right_id_L ∅ (∪)). do 2 f_equal. rewrite <- (list_to_map_to_list m).
    symmetry. apply list_to_map_proper; [|done]. apply NoDup_fst_map_to_list.
  - rewrite <- Hl. eapply list.Forall_impl; [exact HP|]. by intros [k a].
  - rewrite <- Hl. apply NoDup_fst_map_to_list.
  - intros k _. apply lookup_empty.
Qed.
End Items.

Lemma decode_string_encoded s v : reordered (JString s) v -> decode_string v = Ok s.
Proof. by inversion 1; subst. Qed.

Lemma decode_strings_encoded l v : reordered (strings_json l) v -> decode_slice decode_string v = Ok l.
Proof.
  apply (decode_slice_encoded decode_string JString (fun _ => True)); [|by apply Forall_true].
  intros s v' _. apply decode_string_encoded.
Qed.

(** *** Integers *)

Lemma digits_value_snoc l b : digits_value (l ++ [b]) = 10 * digits_value l + (b - 48).
Proof. unfold digits_value. by rewrite foldl_app. Qed.

Lemma pretty_char_value m : (m < 10)%N -> byte_val (pretty_N_char m) = 48 + Z.of_N m.
Proof.
  intros Hm. assert (m ∈ [0; 1; 2; 3; 4; 5; 6; 7; 8; 9]%N) as Hin by (rewrite !list.elem_of_cons; lia).
  repeat (apply list.elem_of_cons in Hin as [->|Hin]; [reflexivity|]). by apply not_elem_of_nil in Hin.
Qed.

Lemma pretty_go_value x s :
  exists d, bytes (pretty_N_go x s) = d ++ bytes s /\ forallb is_digit d = true /\ digits_value d = Z.of_N x /\
    ((0 < x)%N -> d <> []).
Proof.
  revert s. induction (N.lt_wf_0 x) as [x _ IH]. intros s.
  destruct (N.eq_0_gt_0_cases x) as [->|Hx]; [by exists []|].
  rewrite pretty_N_go_step by done. pose proof (N.mod_lt x 10 ltac:(done)) as Hmod.
  destruct (IH (x `div` 10)%N ltac:(apply N.div_lt; lia) (String (pretty_N_char (x `mod` 10)) s))
    as (d & Heq & HF & Hval & _).
  pose proof (pretty_char_value _ Hmod) as Hc. exists (d ++ [byte_val (pretty_N_char (x `mod` 10))]).
  rewrite Heq. split_and!.
  - simpl. by rewrite <- app_assoc.
  - rewrite forallb_app, HF. simpl. unfold is_digit. rewrite Hc. clear -Hmod.
    revert Hmod. generalize (x `mod` 10)%N. intros m Hm. lia.
  - rewrite digits_value_snoc, Hval, Hc. pose proof (N.div_mod x 10 ltac:(done)) as Heqx.
    revert Heqx. generalize (x `div` 10)%N (x `mod` 10)%N. lia.
  - intros _ Hnil. by apply app_eq_nil in Hnil as [_ ?].
Qed.

Lemma pretty_digits n :
  0 <= n -> exists d, bytes (pretty n) = d /\ d <> [] /\ forallb is_digit d = true /\ digits_value d = n.
Proof.
  intros Hn. destruct n as [|x|x]; [by exists [48]| |lia].
  change (pretty (Z.pos x)) with (pretty_N_go (N.pos x) "").
  destruct (pretty_go_value (N.pos x) "") as (d & Heq & HF & Hval & Hne). rewrite app_nil_r in Heq.
  exists d. split_and!; [done|by apply Hne|done|done].
Qed.

Lemma Atoi_pretty n : 0 <= n <= int64_max -> Atoi (pretty n) = Some n.
Proof.
  intros Hn. destruct (pretty_digits n ltac:(lia)) as (d & Hd & Hne & HF & Hval).
  unfold Atoi. rewrite Hd. destruct d as [|b d]; [done|]. pose proof HF as HF'. simpl in HF'.
  apply andb_true_iff in HF' as [Hb _]. unfold is_digit in Hb.
  replace (b =? 45) with false by lia. replace (b =? 43) with false by lia.
  rewrite HF, Hval, Z.mul_1_l. by rewrite (proj2 (int64_ok_iff n)) by (unfold int64_min; lia).
Qed.

Lemma decode_int64_encoded n v : 0 <= n <= int64_max -> reordered (JInt n) v -> decode_int64 v = Ok n.
Proof. intros Hn. unfold JInt. inversion 1; subst. simpl. by rewrite Atoi_pretty. Qed.

Lemma decode_delays_encoded l v :
  Forall (fun n => 0 <= n <= int64_max) l -> reordered (delays_json l) v -> decode_slice decode_int64 v = Ok l.
Proof.
  intros Hl. destruct l as [|n l]; [by inversion 1; subst|].
  apply (decode_slice_encoded decode_int64 JInt (fun n => 0 <= n <= int64_max)); [|done].
  intros a v'. apply decode_int64_encoded.
Qed.

(** ** The texts of the columns *)

Lemma forallb_perm {A} (f : A -> bool) l1 l2 : l1 ≡ₚ l2 -> forallb f l1 = forallb f l2.
Proof. induction 1; simpl; [done|congruence|by rewrite !andb_assoc, (andb_comm (f x))|congruence]. Qed.

Lemma map_json_forallb {A} (f : string * json -> bool) (value : A -> json) m :
  map_Forall (fun k a => f (k, value a) = true) m ->
  forallb f (put_all (map (fun p => (p.1, value p.2)) (map_to_list m)) []) = true.
Proof.
  intros H. rewrite (forallb_perm f _ _ (map_json_perm value m)). apply forallb_Forall, Forall_fmap.
  rewrite map_Forall_to_list in H. eapply list.Forall_impl; [exact H|]. by intros [k a].
Qed.

Lemma map_json_keys {A} (value : A -> json) (m : gmap string A) :
  NoDup (put_all (map (fun p => (p.1, value p.2)) (map_to_list m)) []).*1.
Proof.
  rewrite map_json_perm, <- list_fmap_compose. apply (NoDup_fst_map_to_list m).
Qed.

(** Text that the column keeps. *)
Definition column_ok (v : json) : bool := jsonb_plain v && well_formed v.

Lemma column_ok_map {A} (value : A -> json) m :
  map_Forall (fun k a => text_ok k = true /\ column_ok (value a) = true) m -> column_ok (map_json value m) = true.
Proof.
  intros H. unfold column_ok, map_json. cbn [jsonb_plain well_formed].
  rewrite bool_decide_eq_true_2 by apply map_json_keys. rewrite !map_json_forallb; [done| |];
    (eapply map_Forall_impl; [exact H|]); intros k a [Hk Ha]; cbn [fst snd]; unfold column_ok in Ha;
    apply andb_true_iff in Ha as [Hp Hw]; unfold text_ok in *; apply andb_true_iff in Hk as [Hk1 Hk2];
    by rewrite ?Hk1, ?Hk2, ?Hp, ?Hw.
Qed.

Lemma column_ok_string s : text_ok s = true -> column_ok (JString s) = true.
Proof.
  intros H. unfold column_ok. cbn [jsonb_plain well_formed]. rewrite H. unfold text_ok in H.
  by apply andb_true_iff in H as [-> _].
Qed.

Lemma column_ok_array {A} (value : A -> json) l :
  Forall (fun a => column_ok (value a) = true) l -> column_ok (JArray (map value l)) = true.
Proof.
  unfold column_ok. cbn [jsonb_plain well_formed]. induction 1 as [|a l Ha _ IH]; [done|]. cbn [map forallb].
  apply andb_true_iff in Ha as [-> ->]. exact IH.
Qed.

Lemma column_ok_int n : 0 <= n <= int64_max -> column_ok (JInt n) = true.
Proof.
  intros Hn. unfold column_ok, JInt. cbn [jsonb_plain well_formed].
  destruct (pretty_digits n ltac:(lia)) as (d & Hd & _ & HF & _).
  rewrite JInt_number, Hd, HF, Atoi_pretty by lia. by rewrite bool_decide_eq_true_2.
Qed.

Section Columns.
Context (jsonb : string -> option string) (Hkeeps : keeps_values jsonb).

(** A value of a column, written, stored and read. *)
Lemma column_text v :
  column_ok v = true -> depth v <= maxNestingDepth ->
  exists s, Marshal v = Ok s /\
    (len s < jsonb_limit -> exists s' v', jsonb s = Some s' /\ Unmarshal s' = Ok v' /\ reordered v v').
Proof.
  intros [Hplain Hwf]%andb_true_iff Hd. exists (of_bytes (encode v)).
  split; [by apply Marshal_well_formed|]. intros Hlen.
  destruct (Hkeeps v (of_bytes (encode v))) as (s' & v' & Hs & Hv & Hr); [|done|done|].
  - unfold payload_is. rewrite bytes_encode. by apply encode_json_text.
  - exists s', v'. split_and!; [done|by apply Unmarshal_text|done].
Qed.

Lemma depth_map {A} (value : A -> json) (m : gmap string A) n :
  0 <= n -> (forall a, depth (value a) <= n) -> depth (map_json value m) <= 1 + n.
Proof.
  intros Hn Hv. unfold map_json. cbn [depth]. apply Z.add_le_mono_l, fold_depth_le; [done|].
  rewrite (map_json_perm value m). apply Forall_fmap, Forall_true. intros p. apply Hv.
Qed.

Lemma depth_array {A} (value : A -> json) l n :
  0 <= n -> (forall a, depth (value a) <= n) -> depth (JArray (map value l)) <= 1 + n.
Proof.
  intros Hn Hv. cbn [depth]. apply Z.add_le_mono_l, fold_depth_le; [done|].
  apply Forall_fmap, Forall_true. intros a. apply Hv.
Qed.

(** A snapshot that PostgreSQL and JSON hold as it is: text that is UTF-8
    without a zero character, delays that are not negative. *)
Definition header_text (h : Header) : Prop :=
  match h with
  | Some m => map_Forall (fun k l => text_ok k = true /\ Forall (fun s => text_ok s = true) l) m
  | None => True
  end.

Record snapshot_text (snapshot : DeliverySnapshot) : Prop := {
  snap_static : header_text (StaticHeaders snapshot);
  snap_secret : map_Forall (fun k s => text_ok k = true /\ text_ok s = true) (SecretHeaders snapshot);
  snap_delays : Forall (fun n => 0 <= n <= int64_max) (Delays (Retry snapshot));
}.

(** The snapshots that [Create] makes for a validated destination: all that is
    left to assume is that the configuration is text. *)
Lemma accepted_snapshot_text net_ParseIP lookupEnv d caller key destinationID payload hash url now taskID :
  valid_destination net_ParseIP lookupEnv d -> header_text (DestStaticHeaders d) ->
  map_Forall (fun k s => text_ok k = true /\ text_ok s = true) (DestSecretHeaders d) ->
  snapshot_text (Snapshot (new_task caller key destinationID payload hash d url now taskID)).
Proof.
  intros Hd Hstatic Hsecret. split; cbn [Snapshot new_task StaticHeaders SecretHeaders Retry]; [done| |].
  - by rewrite cloneMap_id.
  - apply list.Forall_forall. intros n Hn%(vd_delays _ _ _ Hd). pose proof (vd_lifetime _ _ _ Hd).
    unfold int64_max, Hour, Minute, Second, Millisecond, Microsecond, Nanosecond in *. lia.
Qed.

Lemma static_column h :
  header_text h ->
  exists s, Marshal (header_json h) = Ok s /\
    (len s < jsonb_limit -> exists s' v', jsonb s = Some s' /\ Unmarshal s' = Ok v' /\
       decode_map (decode_slice decode_string) v' ∅ = Ok h).
Proof.
  intros Hh. destruct (column_text (header_json h)) as (s & Hs & Hread).
  - destruct h as [m|]; [|done]. apply column_ok_map. eapply map_Forall_impl; [exact Hh|].
    intros k l [Hk Hl]. split; [done|]. apply column_ok_array. eapply list.Forall_impl; [exact Hl|].
    apply column_ok_string.
  - unfold maxNestingDepth. destruct h as [m|]; [|done].
    pose proof (depth_map strings_json m 1) as Hd. unfold header_json. etrans; [apply Hd; [lia|]|lia].
    intros l. pose proof (depth_array JString l 0) as Hl. unfold strings_json. etrans; [by apply Hl|lia].
  - exists s. split; [done|]. intros Hlen. destruct (Hread Hlen) as (s' & v' & Hs' & Hv & Hr).
    exists s', v'. split_and!; [done..|]. destruct h as [m|].
    + apply (decode_map_encoded _ strings_json (fun _ => True)); [|by intros k a _|done].
      intros l v _. apply decode_strings_encoded.
    + by inversion Hr; subst.
Qed.

Lemma secret_column m :
  map_Forall (fun k s => text_ok k = true /\ text_ok s = true) m ->
  exists s, Marshal (map_json JString m) = Ok s /\
    (len s < jsonb_limit -> exists s' v', jsonb s = Some s' /\ Unmarshal s' = Ok v' /\
       decode_map decode_string v' ∅ = Ok (Some m)).
Proof.
  intros Hm. destruct (column_text (map_json JString m)) as (s & Hs & Hread).
  - apply column_ok_map. eapply map_Forall_impl; [exact Hm|]. intros k t [Hk Ht].
    split; [done|]. by apply column_ok_string.
  - pose proof (depth_map JString m 0 ltac:(lia) ltac:(done)). unfold maxNestingDepth. lia.
  - exists s. split; [done|]. intros Hlen. destruct (Hread Hlen) as (s' & v' & Hs' & Hv & Hr).
    exists s', v'. split_and!; [done..|].
    apply (decode_map_encoded _ JString (fun _ => True)); [|by intros k a _|done].
    intros t v _. apply decode_string_encoded.
Qed.

Lemma delays_column l :
  Forall (fun n => 0 <= n <= int64_max) l ->
  exists s, Marshal (delays_json l) = Ok s /\
    (len s < jsonb_limit -> exists s' v', jsonb s = Some s' /\ Unmarshal s' = Ok v' /\
       decode_slice decode_int64 v' = Ok l).
Proof.
  intros Hl. destruct (column_text (delays_json l)) as (s & Hs & Hread).
  - destruct l as [|n l]; [done|]. apply (column_ok_array JInt (n :: l)).
    eapply list.Forall_impl; [exact Hl|]. apply column_ok_int.
  - pose proof (depth_array JInt l 0 ltac:(lia) ltac:(done)). unfold maxNestingDepth.
    destruct l as [|n l]; [done|]. pose proof (depth_array JInt (n :: l) 0 ltac:(lia) ltac:(done)).
    unfold delays_json. lia.
  - exists s. split; [done|]. intros Hlen. destruct (Hread Hlen) as (s' & v' & Hs' & Hv & Hr).
    exists s', v'. split_and!; [done..|]. by apply decode_delays_encoded.
Qed.

(** C18 (roundtrip): a worker delivers what was accepted.  The headers, the
    secret names and the retry delays of a snapshot are written as JSON, are
    kept by PostgreSQL as [JSONB], which may reorder and reformat them, and
    are read back by the claim as they were: no error, nothing lost, nil and
    empty headers told apart. *)
Theorem columns_roundtrip snapshot :
  snapshot_text snapshot ->
  exists c, marshal_columns snapshot = Ok c /\
    (len (col_static c) < jsonb_limit -> len (col_secret c) < jsonb_limit -> len (col_delays c) < jsonb_limit ->
     exists c', stored_columns jsonb c = Some c' /\
       unmarshal_columns c' = Ok (StaticHeaders snapshot, SecretHeaders snapshot, Delays (Retry snapshot))).
Proof.
  intros [Hstatic Hsecret Hdelays].
  destruct (static_column _ Hstatic) as (s1 & H1 & R1). destruct (secret_column _ Hsecret) as (s2 & H2 & R2).
  destruct (delays_column _ Hdelays) as (s3 & H3 & R3).
  exists (mkColumns s1 s2 s3). split; [unfold marshal_columns; by rewrite H1, H2, H3|]. simpl. intros L1 L2 L3.
  destruct (R1 L1) as (t1 & v1 & J1 & U1 & D1). destruct (R2 L2) as (t2 & v2 & J2 & U2 & D2).
  destruct (R3 L3) as (t3 & v3 & J3 & U3 & D3).
  exists (mkColumns t1 t2 t3). split.
  - unfold stored_columns. simpl. by rewrite J1, J2, J3.
  - unfold unmarshal_columns. cbn [col_static col_secret col_delays]. rewrite U1, U2, U3.
    cbn [mbind result_bind]. rewrite D1, D2, D3. done.
Qed.
End Columns.

(** ** Instances *)

Lemma reordered_refl v : reordered v v.
Proof.
  induction v as [| | | |vs IH|ms IH] using json_nested_ind; try (by apply reordered_scalar).
  - apply reordered_array. induction IH as [|v vs Hv _ IH]; by constructor.
  - apply (reordered_object ms ms); [done|]. induction IH as [|m ms Hm _ IH]; [constructor|].
    constructor; [by split|exact IH].
Qed.

Lemma sample_keeps : keeps_values sample_jsonb.
Proof. intros v s Hv _ _. exists s, v. split_and!; [done|done|apply reordered_refl]. Qed.

(** Another order of the members, and the spaces that PostgreSQL prints. *)
Example columns_reordered :
  unmarshal_columns (mkColumns
      (of_bytes (map (fun b => if b =? 39 then 34 else b)
        (bytes "{'X-A': ['2', '3'], 'Content-Type': ['application/json']}")))
      "{}" "[5000000000, 30000000000]")
  = Ok (Some {["Content-Type" := ["application/json"]; "X-A" := ["2"; "3"]]}, ∅, [5000000000; 30000000000]).
Proof. vm_compute. reflexivity. Qed.

Lemma columns_roundtrip_witness :
  exists c, marshal_columns sample_snapshot = Ok c /\
    unmarshal_columns c = Ok (StaticHeaders sample_snapshot, SecretHeaders sample_snapshot,
                              Delays (Retry sample_snapshot)).
Proof.
  destruct (columns_roundtrip sample_jsonb sample_keeps sample_snapshot) as (c & Hc & Hread).
  - split.
    + intros k l Hk. apply lookup_singleton_Some in Hk as [<- <-]. by repeat constructor.
    + intros k t Hk. cbn [SecretHeaders sample_snapshot] in Hk. apply lookup_singleton_Some in Hk as [<- <-]. done.
    + do 2 (constructor; [vm_compute; by split|]). constructor.
  - exists c. split; [exact Hc|]. revert Hread. vm_compute in Hc. injection Hc as <-.
    intros Hread. destruct Hread as (c' & Hs & Hread); [reflexivity..|].
    injection Hs as <-. exact Hread.
Defined.
