(* ===== verification/Process.v ===== *)
(** * One process: its services, wired to one store and one set of counters

    The constructors of the services with their observers
    (intake, delivery, outbox, retry, retention, notification), and the process
    that [RunConfigured] of app/bootstrap.go builds from them: every service
    works on the same store and reports to the same [Metrics].  [ProcessProps.v] says what the exported
    counters mean. *)

From S2P Require Import Prelude GoTime GoStrings GoText Notification Table Schema Store StoreSpec StoreRefine StoreProps Samples Destination Hash Intake Delivery OutboxService Services Sender Observability Rabbit Config Bootstrap HttpApi Json JsonGrammar JsonCanon Payload Router Api.

#[local] Open Scope list_scope.
#[local] Open Scope Z_scope.

(** ** Constructors *)

(** [observer := Observer(noopObserver{})], or the first of [observers] if it
    is not nil. *)
Definition first_observer {O} (noop : O) (observers : list (option O)) : O :=
  match observers with Some observer :: _ => observer | _ => noop end.

Section Constructors.
Context {W : Type}.

(** intake/service.go *)
Definition IntakeObserver : Type := string -> W -> W.
Definition intake_noopObserver : IntakeObserver := fun _ w => w.

Record IntakeService := mkIntakeService {
  intake_repository : IntakeRepository W;
  intake_registry : gmap string Destination;
  intake_now : W -> time * W;
  intake_newID : W -> string * W;
  intake_observer : IntakeObserver;
}.

Definition intake_New repository registry now newID observers : IntakeService :=
  mkIntakeService repository registry now newID (first_observer intake_noopObserver observers).

(** delivery/service.go *)
Definition DeliveryObserver : Type := string -> W -> W.
Definition delivery_noopObserver : DeliveryObserver := fun _ w => w.

Record DeliveryService := mkDeliveryService {
  delivery_repository : DeliveryRepository W;
  delivery_sender : DeliverySender W;
  delivery_limiter : CapacityLimiter W;
  delivery_jitter : W -> option (duration -> duration) * W;
  delivery_now : W -> time * W;
  delivery_newLease : W -> string * W;
  delivery_leaseTTL : duration;
  delivery_observer : DeliveryObserver;
}.

Definition delivery_NewService repository sender limiter jitter now newLease leaseTTL observers
    : DeliveryService :=
  mkDeliveryService repository sender limiter jitter now newLease leaseTTL
    (first_observer delivery_noopObserver observers).

(** outbox/service.go *)
Definition OutboxObserver : Type := string -> W -> W.
Definition outbox_noopObserver : OutboxObserver := fun _ w => w.

Record OutboxService := mkOutboxService {
  outbox_repository : OutboxRepository W;
  outbox_publisher : Publisher W;
  outbox_now : W -> time * W;
  outbox_newToken : W -> string * W;
  outbox_config : OutboxConfig;
  outbox_observer : OutboxObserver;
}.

Definition outbox_NewService repository publisher now newToken config observers : OutboxService :=
  mkOutboxService repository publisher now newToken config (first_observer outbox_noopObserver observers).

(** retry/service.go *)
Definition RetryObserver : Type := ScheduleResult -> W -> W.
Definition retry_noopObserver : RetryObserver := fun _ w => w.

Record RetryConfig := mkRetryConfig { RetryBatchSize : Z; RetryPollInterval : duration }.

Record RetryService := mkRetryService {
  retry_repository : RetryRepository W;
  retry_now : W -> time * W;
  retry_config : RetryConfig;
  retry_observer : RetryObserver;
}.

Definition retry_NewService repository now config observers : RetryService :=
  mkRetryService repository now config (first_observer retry_noopObserver observers).

(** retention/service.go *)
Record RetentionConfig := mkRetentionConfig {
  RetentionPeriod : duration; RetentionBatchSize : Z; RetentionPollInterval : duration }.

Record RetentionService := mkRetentionService {
  retention_repository : RetentionRepository W;
  retention_now : W -> time * W;
  retention_config : RetentionConfig;
}.

Definition retention_NewService repository now config : RetentionService :=
  mkRetentionService repository now config.

(** notification/query.go *)
Record QueryService := mkQueryService { query_repository : QueryRepository W }.
Definition NewQueryService repository : QueryService := mkQueryService repository.

Record ReplayService := mkReplayService {
  replay_repository : QueryRepository W;
  replay_now : W -> time * W;
  replay_newID : W -> string * W;
}.
Definition NewReplayService repository now newID : ReplayService := mkReplayService repository now newID.

(** ** Methods *)

Definition outcome_text (o : intake_outcome) : string :=
  match o with
  | outcome_internal_error => "internal_error"
  | outcome_unknown_destination => "unknown_destination"
  | outcome_invalid_payload => "invalid_payload"
  | outcome_accepted => "accepted"
  | outcome_idempotency_conflict => "idempotency_conflict"
  end.

Context {json : Type} (Decode : string -> result json * string) (Marshal : json -> result string)
        (Sum256 : list Z -> list Z).

(** [Create]: the clock is read and the identifiers are drawn once the request
    has a destination and a digest, the second identifier after the URL was
    printed; the deferred call reports the outcome, also of a panic ([None]). *)
Definition service_Create (service : IntakeService) (caller idempotencyKey destinationID payload : string)
    (w : W) : option (result (Task * bool)) * W :=
  let observe outcome := intake_observer service (outcome_text outcome) in
  match Registry_Get (intake_registry service) destinationID with
  | None => (Some (Err (Sentinel ErrUnknownDestination)), observe outcome_unknown_destination w)
  | Some target =>
    match Hash.RequestHash Decode Marshal Sum256 destinationID payload with
    | Err e => (Some (Err (Wrapped "hash request" e)), observe outcome_invalid_payload w)
    | Ok _ =>
      let '(now, w) := intake_now service w in
      let '(taskID, w) := intake_newID service w in
      match DestURL target with
      | None => (None, observe outcome_internal_error w)
      | Some _ =>
        let '(eventID, w) := intake_newID service w in
        match @Create _ Decode Marshal Sum256 W (intake_repository service) (intake_registry service)
                now taskID eventID caller idempotencyKey destinationID payload w with
        | (Some (outcome, r), w) => (Some r, observe outcome w)
        | (None, w) => (None, observe outcome_internal_error w)
        end
      end
    end
  end.

Definition delivery_Handle (service : DeliveryService) (message : Delivery.Message)
    : W -> option Disposition * W :=
  @Handle W (delivery_repository service) (delivery_sender service) (delivery_limiter service)
    {| env_newLease := delivery_newLease service; env_now := delivery_now service;
       env_jitter := delivery_jitter service; env_ObserveDelivery := delivery_observer service |}
    (delivery_leaseTTL service) message.

Definition outbox_RunOnce (service : OutboxService) : W -> (Z * option error) * W :=
  @RunOnce W (outbox_repository service) (outbox_publisher service)
    {| out_now := outbox_now service; out_newToken := outbox_newToken service;
       out_ObserveOutboxPublish := outbox_observer service |} (outbox_config service).

Definition scheduler_RunOnce (service : RetryService) : M W ScheduleResult :=
  @retry_RunOnce W (retry_repository service)
    {| service_now := retry_now service; service_ObserveSchedule := retry_observer service |}
    (RetryBatchSize (retry_config service)).

Definition cleaner_RunOnce (service : RetentionService) : M W Z :=
  @retention_RunOnce W (retention_repository service)
    {| service_now := retention_now service; service_ObserveSchedule := fun _ w => w |}
    (RetentionPeriod (retention_config service)) (RetentionBatchSize (retention_config service)).

Definition query_Get (service : QueryService) : string -> string -> M W View :=
  @Get W (query_repository service).

Definition replay_Replay (service : ReplayService) (notificationID : string) (w : W) : result () * W :=
  let '(now, w) := replay_now service w in
  let '(newID, w) := replay_newID service w in
  @Replay W (replay_repository service) now newID notificationID w.

(** httpapi/router.go *)
Record Dependencies := mkDependencies {
  dep_Creator : Creator W;
  dep_Querier : Querier W;
  dep_Replayer : Replayer W;
  dep_CallerTokens : gmap string string;
  dep_AdminTokens : gmap string string;
}.

(** The services as what the API depends on.  A nil URL, on which [Create]
    panics, is not in a registry of validated destinations. *)
Definition intake_creator (service : IntakeService) : Creator W := {|
  creator_Create caller key destinationID payload w :=
    match service_Create service caller key destinationID payload w with
    | (Some r, w) => (r, w)
    | (None, w) => (Err (Prelude.Message "panic: nil URL"), w)
    end |}.

Definition query_querier (service : QueryService) : Querier W := {| querier_Get := query_Get service |}.

Definition replay_replayer (service : ReplayService) : Replayer W := {|
  replayer_Replay _ := replay_Replay service |}.
End Constructors.

Arguments IntakeObserver : clear implicits.
Arguments DeliveryObserver : clear implicits.
Arguments OutboxObserver : clear implicits.
Arguments RetryObserver : clear implicits.
Arguments Dependencies : clear implicits.
Arguments IntakeService : clear implicits.
Arguments DeliveryService : clear implicits.
Arguments OutboxService : clear implicits.
Arguments RetryService : clear implicits.
Arguments RetentionService : clear implicits.
Arguments QueryService : clear implicits.
Arguments ReplayService : clear implicits.

(** ** The services of [RunConfigured]

    What surrounds the services: the store as the repository of each of them,
    the sender, the limiter, the broker, the clock, the generator of
    identifiers, and the counters. *)

Record surroundings (W : Type) := mkSurroundings {
  sur_intake : IntakeRepository W;
  sur_queries : QueryRepository W;
  sur_delivery : DeliveryRepository W;
  sur_outbox : OutboxRepository W;
  sur_retry : RetryRepository W;
  sur_retention : RetentionRepository W;
  sur_sender : DeliverySender W;
  sur_limiter : CapacityLimiter W;
  sur_publisher : Publisher W;
  sur_now : W -> time * W;
  sur_newID : W -> string * W;
  sur_jitter : W -> option (duration -> duration) * W;
  sur_report : forall A, (A -> Metrics -> Metrics) -> A -> W -> W;
}.
Arguments sur_intake {W}. Arguments sur_queries {W}. Arguments sur_delivery {W}.
Arguments sur_outbox {W}. Arguments sur_retry {W}. Arguments sur_retention {W}.
Arguments sur_sender {W}. Arguments sur_limiter {W}. Arguments sur_publisher {W}.
Arguments sur_now {W}. Arguments sur_newID {W}. Arguments sur_jitter {W}. Arguments sur_report {W} _ {A}.

Section Wiring.
Context {W : Type} (Sum256 : list Z -> list Z)
        (time_text : time -> string) (range_order : gmap string string -> list (string * string))
        (registry : gmap string Destination) (cfg : Runtime) (sur : surroundings W).

Definition the_intake : IntakeService W :=
  intake_New (sur_intake sur) registry (sur_now sur) (sur_newID sur) [Some (sur_report sur ObserveIntake)].

Definition the_query : QueryService W := NewQueryService (sur_queries sur).

Definition the_replay : ReplayService W :=
  NewReplayService (sur_queries sur) (sur_now sur) (sur_newID sur).

Definition the_outbox : OutboxService W :=
  outbox_NewService (sur_outbox sur) (sur_publisher sur) (sur_now sur) (sur_newID sur)
    (mkOutboxConfig 100 Minute (250 * Millisecond)) [Some (sur_report sur ObserveOutboxPublish)].

Definition the_delivery : DeliveryService W :=
  delivery_NewService (sur_delivery sur) (sur_sender sur) (sur_limiter sur) (sur_jitter sur) (sur_now sur)
    (sur_newID sur) Minute [Some (sur_report sur ObserveDelivery)].

Definition the_retry : RetryService W :=
  retry_NewService (sur_retry sur) (sur_now sur) (mkRetryConfig 100 Second)
    [Some (sur_report sur ObserveSchedule)].

Definition the_retention : RetentionService W :=
  retention_NewService (sur_retention sur) (sur_now sur) (mkRetentionConfig (30 * 24 * Hour) 500 0).

(** [httpapi.NewRouter(httpapi.Dependencies{...})]. *)
Definition the_dependencies : Dependencies W :=
  mkDependencies (intake_creator DecodePayload Marshal Sum256 the_intake) (query_querier the_query)
    (replay_replayer the_replay) (CallerTokens cfg) (AdminTokens cfg).

Definition the_api (method path authorization idempotencyKey body : string)
    : W -> (http_response + mux_answer) * W :=
  @ServeHTTP time_text range_order W (dep_Creator the_dependencies) (dep_Querier the_dependencies)
    (dep_Replayer the_dependencies) (dep_CallerTokens the_dependencies) (dep_AdminTokens the_dependencies)
    method path authorization idempotencyKey body.

(** What the goroutines of the process do, one activity at a time. *)
Inductive activity :=
| DoRequest (method path authorization idempotencyKey body : string)
| DoPublish
| DoHandle (message : Delivery.Message)
| DoSchedule
| DoClean.

Definition perform (act : activity) (w : W) : W :=
  match act with
  | DoRequest method path authorization key body => (the_api method path authorization key body w).2
  | DoPublish => (outbox_RunOnce the_outbox w).2
  | DoHandle message => (delivery_Handle the_delivery message w).2
  | DoSchedule => (scheduler_RunOnce the_retry w).2
  | DoClean => (cleaner_RunOnce the_retention w).2
  end.

End Wiring.

(** ** What a request can change

    A handler changes the world only through its service: what the services
    preserve, every request does. *)

Section Requests.
Context {W : Type} (Sum256 : list Z -> list Z) (time_text : time -> string)
        (range_order : gmap string string -> list (string * string))
        (range_order_perm : forall m, range_order m ≡ₚ map_to_list m)
        (registry : gmap string Destination) (cfg : Runtime) (sur : surroundings W) (I : W -> Prop).

Lemma createHandler_preserves {HC : Creator W} caller r w :
  (forall caller key dest payload, I (creator_Create caller key dest payload w).2) ->
  I w -> I (createHandler DecodeRequest DecodeTrailing caller r w).2.
Proof.
  intros Hcreate Hw. unfold createHandler. case_match; [done|].
  destruct (decodeJSON _ _ _) as [input|e]; [|by destruct (errors_As_MaxBytes e)]. case_match; [done|].
  specialize (Hcreate caller (strings_TrimSpace (req_IdempotencyKey r)) (InDestinationID input) (InPayload input)).
  by destruct (creator_Create _ _ _ _ w) as [[[task dup]|e] w'].
Qed.

Lemma the_api_preserves method path authorization key body w :
  (forall caller key dest payload w, I w ->
     I (service_Create DecodePayload Marshal Sum256 (the_intake registry sur) caller key dest payload w).2) ->
  (forall caller id w, I w -> I (query_Get (the_query sur) caller id w).2) ->
  (forall id w, I w -> I (replay_Replay (the_replay sur) id w).2) ->
  I w ->
  I (the_api Sum256 time_text range_order registry cfg sur method path authorization key body w).2.
Proof.
  intros Hcreate Hget Hreplay Hw. unfold the_api.
  destruct (findHandler method path) as [e| | |] eqn:He; [|by unfold ServeHTTP; rewrite He..].
  rewrite (serve_authenticated _ _ range_order_perm _ _ _ _ _ _ _ _ _ He).
  case_bool_decide; [done|].
  match goal with |- I (let '(resp, w') := ?m in (_, w')).2 => assert (Hm : I m.2); [|by destruct m] end.
  destruct e as [|id|id].
  - apply createHandler_preserves; [|done]. intros caller k dest payload.
    specialize (Hcreate caller k dest payload w Hw).
    cbn [creator_Create dep_Creator the_dependencies intake_creator].
    by destruct (service_Create _ _ _ _ _ _ _ _ w) as [[r|] w'].
  - unfold queryHandler. case_match; [done|]. cbn [querier_Get dep_Querier the_dependencies query_querier].
    match goal with |- context [query_Get _ ?c _ w] => specialize (Hget c id w Hw) end.
    by destruct (query_Get _ _ _ w) as [r w'].
  - unfold replayHandler. cbn [replayer_Replay dep_Replayer the_dependencies replay_replayer].
    specialize (Hreplay id w Hw). by destruct (replay_Replay _ _ w) as [r w'].
Qed.
End Requests.

(** ** The world of a process

    Every interaction with the outside gets the next of a sequence of answers:
    the time, an identifier, what other processes have done to the database
    since, how the connection fails, the result of a request, and so on. *)

Record answer := mkAnswer {
  a_time : time;
  a_id : string;
  a_others : db -> db;
  a_fault : fault;
  a_fault' : fault;
  a_db_now : time;
  a_locked : gset string;
  a_sent : option SendResult;
  a_limit : result ();
  a_jitter : option (duration -> duration);
  a_published : result ();
}.

(** [p_calls] is for the statements below: the database before and after each
    call that this process made of the store. *)
Record proc := mkProc {
  p_db : db;
  p_metrics : Metrics;
  p_calls : list (db * db);
  p_next : nat;
}.

Section Process.
Context (Sum256 : list Z -> list Z) (jsonb : string -> option string)
        (returning_order : list OutboxEvent -> list OutboxEvent)
        (env : nat -> answer).

Definition draw {A} (field : answer -> A) (w : proc) : A * proc :=
  (field (env (p_next w)), mkProc (p_db w) (p_metrics w) (p_calls w) (S (p_next w))).

Definition on_store {A} (call : answer -> M db A) : M proc A := fun w =>
  let a := env (p_next w) in
  let d := a_others a (p_db w) in
  let '(r, d') := call a d in
  (r, mkProc d' (p_metrics w) (p_calls w ++ [(d, d')]) (S (p_next w))).

Definition report {A} (observe : A -> Metrics -> Metrics) (a : A) (w : proc) : proc :=
  mkProc (p_db w) (observe a (p_metrics w)) (p_calls w) (p_next w).

(** [*postgres.Store] as the repository of each service. *)
Definition store_for_intake : IntakeRepository proc :=
  {| repo_CreateOrGet task event :=
       on_store (fun a => CreateOrGet jsonb (a_fault a) (a_fault' a) task event) |}.

Definition store_for_queries : QueryRepository proc :=
  {| GetForCaller caller id := on_store (fun a => PgGetForCaller (a_fault a) caller id);
     ReplayDeadAtomic id now eid := on_store (fun a => PgReplayDeadAtomic (a_fault a) id now eid) |}.

Definition store_for_delivery : DeliveryRepository proc :=
  {| repo_ClaimDelivery id lease until :=
       on_store (fun a => ClaimDelivery (a_fault a) (a_db_now a) id lease until);
     repo_ApplyDeliveryResult id lease attempt :=
       on_store (fun a => ApplyDeliveryResult (a_fault a) id lease attempt) |}.

Definition store_for_outbox : OutboxRepository proc :=
  {| repo_ClaimOutbox now limit token until :=
       on_store (fun a => ClaimOutbox returning_order (a_fault a) (a_locked a) now limit token until);
     repo_MarkPublished eid token at_ := on_store (fun a => MarkPublished (a_fault a) eid token at_) |}.

Definition store_for_retry : RetryRepository proc :=
  {| repo_ScheduleDue now limit :=
       on_store (fun a => ScheduleDue Sum256 (a_fault a) (a_locked a) now limit) |}.

Definition store_for_retention : RetentionRepository proc :=
  {| repo_DeleteTerminalBefore cutoff limit :=
       on_store (fun a => DeleteTerminalBefore (a_fault a) (a_locked a) cutoff limit) |}.

Definition proc_sender : DeliverySender proc := {| sender_Send _ := draw a_sent |}.
Definition proc_limiter : CapacityLimiter proc :=
  {| limiter_Acquire _ _ := draw a_limit; limiter_release _ w := w |}.
Definition proc_publisher : Publisher proc := {| publisher_Publish _ := draw a_published |}.

Definition proc_surroundings : surroundings proc := {|
  sur_intake := store_for_intake; sur_queries := store_for_queries; sur_delivery := store_for_delivery;
  sur_outbox := store_for_outbox; sur_retry := store_for_retry; sur_retention := store_for_retention;
  sur_sender := proc_sender; sur_limiter := proc_limiter; sur_publisher := proc_publisher;
  sur_now := draw a_time; sur_newID := draw a_id; sur_jitter := draw a_jitter;
  sur_report := @report;
|}.

(** A process that has just started on a database. *)
Definition start_process (d : db) : proc := mkProc d NewMetrics [] 0.

Definition run_process (time_text : time -> string)
    (range_order : gmap string string -> list (string * string))
    (registry : gmap string Destination) (cfg : Runtime) (acts : list activity) (d : db) : proc :=
  foldl (fun w act => perform Sum256 time_text range_order registry cfg proc_surroundings act w)
    (start_process d) acts.
End Process.
