(* ===== verification/ProcessProps.v ===== *)
(** * What the counters of a process mean

    Each counter that [Process.v] exports through [Metrics] is compared with
    the changes of rows that the calls of the process made: it never counts
    more than happened, and exactly what happened when no answer of the
    database is lost after a commit. *)

From S2P Require Import Prelude GoTime GoStrings GoText Notification Table Schema Store StoreSpec StoreRefine StoreProps IntakeStoreProps RetryStoreProps Samples Destination Hash Intake Delivery OutboxService Services Sender Observability Config HttpApi Json JsonGrammar JsonCanon Payload Router Api Process.

#[local] Open Scope list_scope.
#[local] Open Scope Z_scope.

(** ** What happened to the rows *)

Section Changed.
Context {R : Type}.
Implicit Types (P : R -> R -> bool) (m : gmap string R).

(** Rows of [m] that are still in [m'] and changed as [P] says. *)
Definition changed P m (m' : gmap string R) : list string :=
  (sql_select (fun k r => match m' !! k with Some r' => P r r' | None => false end) m).*1.

Lemma elem_of_changed P m m' k :
  k ∈ changed P m m' <-> exists r r', m !! k = Some r /\ m' !! k = Some r' /\ P r r' = true.
Proof.
  unfold changed. rewrite list_elem_of_fmap. split.
  - intros ([k' r] & -> & [Hr HP]%elem_of_sql_select). simpl. destruct (m' !! k') as [r'|] eqn:Hr'; [eauto|done].
  - intros (r & r' & Hr & Hr' & HP). exists (k, r). split; [done|]. apply elem_of_sql_select. by rewrite Hr'.
Qed.

Lemma length_changed P m m' l :
  NoDup l -> (forall k, k ∈ changed P m m' <-> k ∈ l) -> length (changed P m m') = length l.
Proof.
  intros Hl Hin. apply Permutation_length, NoDup_Permutation; [apply sql_select_NoDup|done..].
Qed.

Lemma changed_none P m m' :
  (forall k r r', m !! k = Some r -> m' !! k = Some r' -> P r r' = false) ->
  length (changed P m m') = 0%nat.
Proof.
  intros H. apply (length_changed P m m' []); [constructor|]. intros k. rewrite elem_of_changed.
  split; [|by intros ?%not_elem_of_nil]. intros (r & r' & Hr & Hr' & HP). by rewrite (H k r r') in HP.
Qed.

Lemma changed_new P m k r' :
  (forall r, P r r = false) -> m !! k = None -> length (changed P m (<[k := r']> m)) = 0%nat.
Proof.
  intros Hirr Hn. apply changed_none. intros k' r1 r2 Hr1 Hr2. lookup_cases. apply Hirr.
Qed.

Lemma changed_insert P m k r r' :
  (forall r, P r r = false) -> m !! k = Some r ->
  length (changed P m (<[k := r']> m)) = if P r r' then 1%nat else 0%nat.
Proof.
  intros Hirr Hr. destruct (P r r') eqn:HP.
  - apply (length_changed P m _ [k]); [apply NoDup_singleton|]. intros k'.
    rewrite elem_of_changed, list_elem_of_singleton. split.
    + intros (r1 & r2 & Hr1 & Hr2 & HP'). lookup_cases; [done|]. by rewrite Hirr in HP'.
    + intros ->. exists r, r'. by rewrite lookup_insert_eq.
  - apply changed_none. intros k' r1 r2 Hr1 Hr2. lookup_cases; [done|]. apply Hirr.
Qed.
End Changed.

(** The counters whose meaning is a change of rows. *)
Inductive counter := CDead | CScheduled | CRecovered | CDelivered | CRetryable | CConfirmed.

(** What is exported. *)
Definition counted (c : counter) (m : Metrics) : Z :=
  match c with
  | CDead => DeadCounter m
  | CScheduled => RetryScheduled m
  | CRecovered => RecoveredLeasesCounter m
  | CDelivered => default 0 (DeliveryAttempts m !! "delivered"%string)
  | CRetryable => default 0 (DeliveryAttempts m !! "retryable"%string)
  | CConfirmed => default 0 (OutboxPublish m !! "confirmed"%string)
  end.

(** What it stands for. *)
Definition task_change (c : counter) (r r' : task_row) : bool :=
  match c with
  | CDead => negb (has_status StatusDead r) && has_status StatusDead r'
  | CScheduled =>
      (has_status StatusRetryWait r || has_status StatusDelivering r) && has_status StatusPending r'
  | CRecovered => has_status StatusDelivering r && has_status StatusPending r'
  | CDelivered => negb (has_status StatusDelivered r) && has_status StatusDelivered r'
  | CRetryable => negb (has_status StatusRetryWait r) && has_status StatusRetryWait r'
  | CConfirmed => false
  end.

Definition event_change (c : counter) (e e' : event_row) : bool :=
  match c with CConfirmed => null (published_at e) && not_null (published_at e') | _ => false end.

Definition happened (c : counter) (d d' : db) : Z :=
  Z.of_nat (length (changed (task_change c) (tasks d) (tasks d'))) +
  Z.of_nat (length (changed (event_change c) (outbox d) (outbox d'))).

Lemma task_change_irrefl c r : task_change c r r = false.
Proof. destruct c; unfold task_change, has_status; destruct (status r); done. Qed.

Lemma event_change_irrefl c e : event_change c e e = false.
Proof. destruct c; try done. unfold event_change. by destruct (published_at e). Qed.

Lemma tasks_unchanged c m : length (changed (task_change c) m m) = 0%nat.
Proof. apply changed_none. intros k r r' Hr Hr'. simplify_eq. apply task_change_irrefl. Qed.

Lemma events_kept c m m' :
  (forall k e e', m !! k = Some e -> m' !! k = Some e' -> published_at e' = published_at e) ->
  length (changed (event_change c) m m') = 0%nat.
Proof.
  intros H. apply changed_none. intros k e e' He He'. unfold event_change. destruct c; try done.
  rewrite (H k e e' He He'). by destruct (published_at e).
Qed.

Lemma events_unchanged c m : length (changed (event_change c) m m) = 0%nat.
Proof. apply events_kept. intros. by simplify_eq. Qed.

Lemma events_inserted c m k e :
  published_at e = None -> length (changed (event_change c) m (<[k := e]> m)) = 0%nat.
Proof.
  intros Hp. apply changed_none. intros k' e1 e2 He1 He2. lookup_cases; [|apply event_change_irrefl].
  unfold event_change. rewrite Hp. destruct c; try done. apply andb_false_r.
Qed.

Lemma happened_nonneg c d d' : 0 <= happened c d d'.
Proof. unfold happened. lia. Qed.

Lemma happened_same c d : happened c d d = 0.
Proof. unfold happened. by rewrite tasks_unchanged, events_unchanged. Qed.

Lemma happened_task c d id r r' :
  tasks d !! id = Some r ->
  happened c d (set_tasks (<[id := r']> (tasks d)) d) = Z.b2z (task_change c r r').
Proof.
  intros Hr. unfold happened. simpl. rewrite (changed_insert _ _ _ r) by (done || apply task_change_irrefl).
  rewrite events_unchanged. by destruct (task_change c r r').
Qed.

Lemma happened_event c d eid e e' :
  outbox d !! eid = Some e ->
  happened c d (set_outbox (<[eid := e']> (outbox d)) d) = Z.b2z (event_change c e e').
Proof.
  intros He. unfold happened. simpl. rewrite (changed_insert _ _ _ e) by (done || apply event_change_irrefl).
  rewrite tasks_unchanged. by destruct (event_change c e e').
Qed.

(** ** What each call of the store brings about *)

Definition no_gain {A} (_ : result A) (_ : counter) : Z := 0.

Definition gain_of_outcome (o : Outcome) (c : counter) : Z :=
  match o, c with
  | Delivered, CDelivered | Retryable, CRetryable | Permanent, CDead => 1
  | _, _ => 0
  end.

Definition gain_of_result (attempt : AttemptResult) (r : result bool) (c : counter) : Z :=
  match r with Ok true => gain_of_outcome (AttemptOutcome attempt) c | _ => 0 end.

Definition gain_of_mark (r : result bool) (c : counter) : Z :=
  match r, c with Ok true, CConfirmed => 1 | _, _ => 0 end.

Definition gain_of_schedule (r : result ScheduleResult) (c : counter) : Z :=
  match r, c with
  | Ok res, CDead => Dead res
  | Ok res, CScheduled => Scheduled res
  | Ok res, CRecovered => RecoveredLeases res
  | _, _ => 0
  end.

(** A call with answer [r] brings about at least [k r], and nothing else when
    its answer is not lost after the commit. *)
Definition call_gains {A} (call : answer -> M db A) (k : result A -> counter -> Z) : Prop :=
  forall a d, db_inv d ->
    let '(r, d') := call a d in
    db_inv d' /\
    forall c, k r c <= happened c d d' /\ (a_fault a <> FailAfter -> happened c d d' = k r c).

Lemma gains_zero {A} (call : answer -> M db A) :
  (forall a d, db_inv d -> db_inv (call a d).2 /\ forall c, happened c d (call a d).2 = 0) ->
  call_gains call no_gain.
Proof.
  intros H a d Hinv. specialize (H a d Hinv). destruct (call a d) as [r d']. destruct H as [Hd Hz].
  split; [done|]. intros c. rewrite Hz. done.
Qed.

(** A failure is rolled back unless it came after the commit. *)
Lemma atomically_failed {A} f ctx (body : M db A) d e d' :
  atomically f ctx body d = (Err e, d') -> f <> FailAfter -> d' = d.
Proof. unfold atomically. intros H Hf. by destruct f, (body d) as [[a|e'] d1]; simplify_eq. Qed.

Lemma inv_after jsonb Sum256 returning_order c d :
  db_inv d -> call_ok c = true -> db_inv (run_call jsonb Sum256 returning_order c d).
Proof. intros Hinv Hok. eapply store_steps_preserve; [by apply call_refines|done]. Qed.

(** Most calls do not use the parameters of the store. *)
Local Abbreviation inv_any := (inv_after sample_jsonb sample_sum sample_order).

Lemma gains_create jsonb task event :
  fresh_request task event = true ->
  call_gains (fun a => CreateOrGet jsonb (a_fault a) (a_fault' a) task event) no_gain.
Proof.
  intros Hfresh. apply gains_zero. intros a d Hinv.
  split; [by apply (inv_after jsonb sample_sum sample_order (CallCreateOrGet _ _ task event))|]. intros c.
  destruct (CreateOrGet_effect jsonb (a_fault a) (a_fault' a) task event d) as [->|(r & e & Hr & He & ->)];
    [apply happened_same|].
  unfold happened. simpl. by rewrite changed_new, events_inserted by (done || apply task_change_irrefl).
Qed.

Lemma gains_claim id lease until :
  call_gains (fun a => ClaimDelivery (a_fault a) (a_db_now a) id lease until) no_gain.
Proof.
  apply gains_zero. intros a d Hinv.
  split; [by apply (inv_any (CallClaimDelivery (a_fault a) (a_db_now a) id lease until))|]. intros c.
  destruct (ClaimDelivery _ _ _ _ _ d) as [res d'] eqn:H. simpl.
  apply ClaimDelivery_effect in H as [->|(r & Hr & Hst & _ & ->)]; [apply happened_same|].
  rewrite (happened_task _ _ _ r) by done. unfold task_change, has_status. rewrite Hst. by destruct c.
Qed.

Lemma gains_get caller id : call_gains (fun a => PgGetForCaller (a_fault a) caller id) no_gain.
Proof.
  apply gains_zero. intros a d Hinv. assert (Hd : (PgGetForCaller (a_fault a) caller id d).2 = d).
  { unfold PgGetForCaller, statement, atomically, wrapM, texts, mbind, M_bind.
    destruct (forallb text_ok [id; caller]), (a_fault a); simpl; try done.
    destruct (tasks d !! id) as [r|]; [|done]. by case_bool_decide. }
  rewrite Hd. split; [done|]. intros c. apply happened_same.
Qed.

Lemma gains_replay id now eid :
  call_gains (fun a => PgReplayDeadAtomic (a_fault a) id now eid) no_gain.
Proof.
  apply gains_zero. intros a d Hinv.
  split; [by apply (inv_any (CallReplayDeadAtomic (a_fault a) id now eid))|]. intros c.
  destruct (PgReplayDeadAtomic _ _ _ _ d) as [res d'] eqn:H. simpl.
  apply PgReplayDeadAtomic_effect in H as [->|(r & Hr & Hst & _ & _ & He & ->)]; [apply happened_same|].
  unfold happened. simpl. rewrite (changed_insert _ _ _ r) by (done || apply task_change_irrefl).
  rewrite events_inserted by done. unfold task_change, has_status. rewrite Hst. by destruct c.
Qed.

Lemma gains_claim_outbox returning_order now limit token until :
  call_gains (fun a => ClaimOutbox returning_order (a_fault a) (a_locked a) now limit token until) no_gain.
Proof.
  apply gains_zero. intros a d Hinv.
  split; [by apply (inv_after sample_jsonb sample_sum returning_order (CallClaimOutbox (a_fault a) (a_locked a) now limit token until))|]. intros c.
  destruct (ClaimOutbox _ _ _ _ _ _ _ d) as [res d'] eqn:H. simpl.
  apply ClaimOutbox_body in H as [->|(_ & _ & ->)]; [apply happened_same|].
  unfold happened. simpl. rewrite tasks_unchanged, events_kept; [done|].
  intros k e e' He He'. lookup_cases. by case_match.
Qed.

Lemma gains_delete cutoff limit :
  call_gains (fun a => DeleteTerminalBefore (a_fault a) (a_locked a) cutoff limit) no_gain.
Proof.
  apply gains_zero. intros a d Hinv.
  split; [by apply (inv_any (CallDeleteTerminalBefore (a_fault a) (a_locked a) cutoff limit))|]. intros c.
  destruct (DeleteTerminalBefore _ _ _ _ d) as [res d'] eqn:H. simpl.
  apply DeleteTerminalBefore_body in H as [->|(_ & ids & _ & ->)]; [apply happened_same|].
  unfold happened. simpl. rewrite events_kept, changed_none; [done| |].
  - intros k r r' Hr Hr'. lookup_cases. apply task_change_irrefl.
  - intros k e e' He He'. by lookup_cases.
Qed.

(** An error gains nothing that is counted. *)
Lemma failed_gains {A} f ctx (body : M db A) d e d' c :
  statement f ctx body d = (Err e, d') ->
  0 <= happened c d d' /\ (f <> FailAfter -> happened c d d' = 0).
Proof.
  intros H. split; [apply happened_nonneg|]. intros Hf. apply atomically_failed in H as ->; [|done].
  apply happened_same.
Qed.

Lemma gains_apply id lease attempt :
  attempt_ok attempt = true ->
  call_gains (fun a => ApplyDeliveryResult (a_fault a) id lease attempt) (gain_of_result attempt).
Proof.
  intros Hok a d Hinv.
  pose proof (inv_any (CallApplyDeliveryResult (a_fault a) id lease attempt) d Hinv Hok) as Hinv'. simpl in Hinv'.
  destruct (ApplyDeliveryResult _ _ _ _ d) as [[b|e] d'] eqn:H; simpl in Hinv';
    (split; [done|]); intros c; [|by eapply failed_gains].
  pose proof (ApplyDeliveryResult_Ok _ _ _ _ _ _ _ H) as (Hf & Hid & Hlease & Hres). rewrite Hf in *.
  rewrite ApplyDeliveryResult_NoFault in H by done. unfold gain_of_result.
  destruct (tasks d !! id) as [r|] eqn:Hr; [|simplify_eq; by rewrite happened_same].
  destruct (owns_lease lease r) eqn:Hown; [|simplify_eq; by rewrite happened_same].
  destruct (task_row_ok _ _); [|done]. simplify_eq. rewrite (happened_task _ _ _ r) by done.
  unfold owns_lease in Hown. reflect_bools. rewrite has_status_true in *.
  assert (Hg : Z.b2z (task_change c r (set_result attempt r)) = gain_of_outcome (AttemptOutcome attempt) c).
  { unfold task_change, set_result, has_status. by destruct (AttemptOutcome attempt), (status r), c. }
  rewrite Hg. done.
Qed.

Lemma gains_mark eid token at_ :
  call_gains (fun a => MarkPublished (a_fault a) eid token at_) gain_of_mark.
Proof.
  intros a d Hinv.
  pose proof (inv_any (CallMarkPublished (a_fault a) eid token at_) d Hinv eq_refl) as Hinv'. simpl in Hinv'.
  destruct (MarkPublished _ _ _ _ d) as [[b|e] d'] eqn:H; simpl in Hinv';
    (split; [done|]); intros c; [|by eapply failed_gains].
  assert (a_fault a = NoFault) as Hf by (by apply statement_Ok in H as [? _]). rewrite Hf in *.
  rewrite MarkPublished_NoFault in H. destruct (negb _); [done|].
  destruct (outbox d !! eid) as [e|] eqn:He; [|simplify_eq; by rewrite happened_same].
  destruct (holds_claim token e) eqn:Hown; [|simplify_eq; by rewrite happened_same].
  destruct (event_row_ok _ _); [|done]. simplify_eq. rewrite (happened_event _ _ _ e) by done.
  unfold holds_claim in Hown. reflect_bools. unfold event_change.
  match goal with H : published_at e = None |- _ => rewrite H end. by destruct c.
Qed.

(** *** A run of the scheduler *)

(** The row counts of a run, by the rows it took. *)
Definition schedule_gain (now : time) (c : counter) (r : task_row) : bool :=
  task_change c r (scheduled_row now r).

Lemma count_result_gains now rs acc c :
  (forall r, r ∈ rs -> task_due now r = true) ->
  gain_of_schedule (Ok (foldl (count_result now) acc rs)) c
  = gain_of_schedule (Ok acc) c + Z.of_nat (length (filter (fun r => schedule_gain now c r = true) rs)).
Proof.
  revert acc. induction rs as [|r rs IH]; intros acc Hdue; [by rewrite Z.add_0_r|]. cbn [foldl].
  rewrite IH by (intros r' Hr'; apply Hdue; by right). rewrite filter_cons.
  specialize (Hdue r ltac:(left)). apply task_due_status in Hdue.
  assert (Hone : gain_of_schedule (Ok (count_result now acc r)) c
                 = gain_of_schedule (Ok acc) c + Z.b2z (schedule_gain now c r)).
  { unfold schedule_gain, scheduled_row, count_result, task_change, has_status.
    destruct (exhausted now r); destruct Hdue as [-> | ->]; destruct c; simpl; lia. }
  rewrite Hone. destruct (schedule_gain now c r); [rewrite decide_True by done|rewrite decide_False by done];
    cbn [Z.b2z length]; lia.
Qed.

Lemma length_filter_snd {A B} (P : B -> bool) (l : list (A * B)) :
  length (filter (fun kr => P kr.2 = true) l) = length (filter (fun r => P r = true) l.*2).
Proof.
  induction l as [|[k r] l IH]; [done|]. cbn [fmap list_fmap]. rewrite !filter_cons. simpl.
  destruct (P r); simpl; by rewrite IH.
Qed.

Lemma gains_schedule Sum256 now limit :
  call_gains (fun a => ScheduleDue Sum256 (a_fault a) (a_locked a) now limit) gain_of_schedule.
Proof.
  intros a d Hinv.
  pose proof (inv_after sample_jsonb Sum256 sample_order (CallScheduleDue (a_fault a) (a_locked a) now limit) d Hinv eq_refl) as Hinv'. simpl in Hinv'.
  destruct (ScheduleDue _ _ _ _ _ d) as [[acc|e] d'] eqn:H; simpl in Hinv'; (split; [done|]); intros c.
  2:{ split; [apply happened_nonneg|]. intros Hf. apply atomically_failed in H as ->; [|done]. apply happened_same. }
  apply ScheduleDue_Ok in H as (_ & _ & Hacc & Hdone & Hkeep & _ & Hsub & _); [|done].
  set (batch := schedule_candidates (a_locked a) now limit d) in *.
  assert (Hspec : forall id r, (id, r) ∈ batch -> tasks d !! id = Some r /\ task_due now r = true).
  { intros id r Hin. by apply schedule_candidates_spec in Hin as (? & ? & _). }
  assert (Hcount : happened c d d' = gain_of_schedule (Ok acc) c); [|by rewrite Hcount].
  rewrite Hacc, count_result_gains.
  2:{ intros r Hin. apply list_elem_of_fmap in Hin as ([id r'] & -> & Hin). by apply (Hspec id). }
  unfold happened. rewrite events_kept.
  2:{ intros k e e' He He'. pose proof (lookup_weaken _ _ _ _ He Hsub). by simplify_eq. }
  rewrite (length_changed _ _ _ (filter (fun kr => schedule_gain now c kr.2 = true) batch).*1).
  - rewrite length_fmap, length_filter_snd. destruct c; simpl; lia.
  - eapply sublist_NoDup; [apply (sql_first_NoDup limit due_key)|]. apply fmap_sublist, sublist_filter.
  - intros id. rewrite elem_of_changed, list_elem_of_fmap. split.
    + intros (r & r' & Hr & Hr' & HP). destruct (decide (id ∈ batch.*1)) as [Hin|Hout].
      * apply list_elem_of_fmap in Hin as ([k row] & -> & Hin). simpl in *.
        destruct (Hspec _ _ Hin) as [Hrow _]. rewrite (Hdone _ _ Hin) in Hr'. simplify_eq.
        exists (k, r). split; [done|]. by apply list_elem_of_filter.
      * rewrite (Hkeep _ Hout) in Hr'. simplify_eq. by rewrite task_change_irrefl in HP.
    + intros ([k r] & -> & [HP Hin]%list_elem_of_filter). destruct (Hspec _ _ Hin) as [Hrow _].
      exists r, (scheduled_row now r). split_and!; [done|by apply Hdone|done].
Qed.


(** ** The counters of a process *)

Lemma counted_inc label label' m :
  default 0 (inc label m !! label') = default 0 (m !! label') + (if bool_decide (label = label') then 1 else 0).
Proof.
  unfold inc. case_bool_decide as Hl.
  - by rewrite Hl, lookup_insert_eq.
  - rewrite lookup_insert_ne by done. lia.
Qed.

Lemma counted_intake c outcome m : counted c (ObserveIntake outcome m) = counted c m + 0.
Proof. destruct c; simpl; lia. Qed.

Lemma counted_failed c m : counted c (ObserveOutboxPublish "failed" m) = counted c m + 0.
Proof. destruct c; cbn -[inc]; rewrite ?counted_inc; simpl; lia. Qed.

Lemma counted_confirmed c m :
  counted c (ObserveOutboxPublish "confirmed" m) = counted c m + gain_of_mark (Ok true) c.
Proof. destruct c; cbn -[inc]; rewrite ?counted_inc; simpl; lia. Qed.

Lemma counted_delivery c o m :
  counted c (ObserveDelivery (outcome_label o) m) = counted c m + gain_of_outcome o c.
Proof. destruct c, o; cbn -[inc]; rewrite ?counted_inc; simpl; lia. Qed.

Lemma counted_schedule c res m :
  counted c (ObserveSchedule res m) = counted c m + gain_of_schedule (Ok res) c.
Proof. destruct c; simpl; lia. Qed.

Section Counters.
Context (Sum256 : list Z -> list Z) (jsonb : string -> option string)
        (returning_order : list OutboxEvent -> list OutboxEvent)
        (time_text : time -> string) (range_order : gmap string string -> list (string * string))
        (range_order_perm : forall m, range_order m ≡ₚ map_to_list m)
        (registry : gmap string Destination) (cfg : Runtime) (env : nat -> answer).

Local Abbreviation sur := (proc_surroundings Sum256 jsonb returning_order env).

(** No answer of the database is lost after a commit. *)
Definition reliable : Prop := forall n, a_fault (env n) <> FailAfter.

Definition total (c : counter) (calls : list (db * db)) : Z :=
  foldr (fun call acc => happened c call.1 call.2 + acc) 0 calls.

(** The counters, with [k] still to be counted, against what happened. *)
Definition behind (k : counter -> Z) (w : proc) : Prop :=
  db_inv (p_db w) /\
  forall c, counted c (p_metrics w) + k c <= total c (p_calls w) /\
    (reliable -> counted c (p_metrics w) + k c = total c (p_calls w)).

Definition level (w : proc) : Prop := behind (fun _ => 0) w.

Hypothesis Hothers : forall n d, db_inv d -> db_inv (a_others (env n) d).

Lemma total_snoc c calls call : total c (calls ++ [call]) = total c calls + happened c call.1 call.2.
Proof. unfold total. induction calls as [|x calls IH]; simpl in *; [lia|]. rewrite IH. lia. Qed.

Lemma draw_behind {A} (field : answer -> A) k w a w' :
  draw env field w = (a, w') -> behind k w -> behind k w'.
Proof. intros [= _ <-]. done. Qed.

Lemma on_store_behind {A} (call : answer -> M db A) gain w r w' :
  call_gains call gain -> on_store env call w = (r, w') -> level w -> behind (gain r) w'.
Proof.
  intros Hgain Hcall [Hinv Hlevel]. unfold on_store in Hcall.
  specialize (Hgain (env (p_next w)) _ (Hothers (p_next w) _ Hinv)).
  destruct (call _ _) as [r0 d']. destruct Hgain as [Hinv' Hgain]. injection Hcall as <- <-.
  split; [done|]. intros c. simpl. rewrite total_snoc. simpl.
  destruct (Hlevel c) as [Hle Heq], (Hgain c) as [Hk Hk']. split; [lia|].
  intros Hrel. rewrite (Hk' (Hrel _)). specialize (Heq Hrel). lia.
Qed.

Lemma on_store_level {A} (call : answer -> M db A) w r w' :
  call_gains call no_gain -> on_store env call w = (r, w') -> level w -> level w'.
Proof. apply on_store_behind. Qed.

Lemma behind_zero k w : (forall c, k c = 0) -> behind k w -> level w.
Proof.
  intros Hk [Hinv H]. split; [done|]. intros c. destruct (H c) as [Hle Heq]. rewrite Hk in *. done.
Qed.

Lemma report_level {A} (observe : A -> Metrics -> Metrics) a k w :
  (forall c m, counted c (observe a m) = counted c m + k c) -> behind k w -> level (report observe a w).
Proof.
  intros Hobs [Hinv H]. split; [done|]. intros c. simpl. rewrite Hobs, Z.add_0_r. apply H.
Qed.

Lemma draw_level {A} (field : answer -> A) w a w' :
  draw env field w = (a, w') -> level w -> level w'.
Proof. apply draw_behind. Qed.

(** Follow a service through its next draw, or its next call of the store. *)
Local Ltac next_draw Hw a :=
  match type of Hw with
  | level ?w =>
      match goal with
      | |- context [draw env ?f w] =>
          let E := fresh "E" in
          destruct (draw env f w) as [a ?] eqn:E; apply draw_level in E; [|exact Hw];
          clear Hw; rename E into Hw
      end
  end.

Local Ltac next_call_by law Hw gains r :=
  match type of Hw with
  | level ?w =>
      match goal with
      | |- context [on_store env ?call w] =>
          let E := fresh "E" in
          destruct (on_store env call w) as [r ?] eqn:E;
          eapply law in E; [|gains|exact Hw];
          clear Hw; rename E into Hw
      end
  end.

(** A call that is not counted, and one that may be. *)
Local Ltac next_call Hw gains r := next_call_by @on_store_level Hw gains r.
Local Ltac next_counted_call Hw gains r := next_call_by @on_store_behind Hw gains r.

Lemma handle_level message w : level w -> level (delivery_Handle (the_delivery sur) message w).2.
Proof.
  intros Hw. unfold delivery_Handle, Handle. cbn -[draw on_store report attempt_of].
  next_draw Hw lease. next_draw Hw now. next_call Hw ltac:(by apply gains_claim) claimed.
  destruct claimed as [[task|]|e]; [|done|done].
  next_draw Hw acquired. destruct acquired; [|done]. next_draw Hw sent. destruct sent as [result|]; [|done].
  next_draw Hw completedAt.
  assert (Hjitter : level (match ResultOutcome result with Retryable => draw env a_jitter p4 | _ => (None, p4) end).2).
  { destruct (ResultOutcome result); [done| |done]. by apply (draw_level a_jitter p4 _ _ eq_refl). }
  destruct (match ResultOutcome result with Retryable => draw env a_jitter p4 | _ => (None, p4) end) as [jitter w'].
  simpl in Hjitter. clear Hw. rename Hjitter into Hw.
  next_counted_call Hw ltac:(apply gains_apply, attempt_of_ok) applied.
  destruct applied as [[]|e]; simpl.
  - eapply report_level; [|exact Hw]. intros c m. apply counted_delivery.
  - by eapply behind_zero.
  - by eapply behind_zero.
Qed.

Lemma publish_level token events published w :
  level w ->
  level (@publish_loop proc (store_for_outbox returning_order env) (proc_publisher env)
           {| out_now := draw env a_time; out_newToken := draw env a_id;
              out_ObserveOutboxPublish := report ObserveOutboxPublish |} token events published w).2.
Proof.
  revert published w. induction events as [|event events IH]; intros published w Hw; [done|].
  cbn -[draw on_store report]. next_draw Hw answered.
  destruct answered as [[]|e].
  2:{ eapply report_level; [|exact Hw]. intros c m. apply counted_failed. }
  next_draw Hw now. next_counted_call Hw ltac:(apply gains_mark) marked.
  destruct marked as [[]|e].
  - apply IH. eapply report_level; [|exact Hw]. intros c m. apply counted_confirmed.
  - apply IH. eapply behind_zero; [|exact Hw]. by intros [].
  - cbn -[draw on_store report]. eapply report_level; [|eapply behind_zero; [|exact Hw]; by intros []].
    intros c m. apply counted_failed.
Qed.

Lemma create_level caller key dest payload w :
  level w ->
  level (service_Create DecodePayload Marshal Sum256 (the_intake registry sur) caller key dest payload w).2.
Proof.
  assert (Hreport : forall outcome w, level w -> level (report ObserveIntake outcome w)).
  { intros outcome w' Hw. eapply report_level; [|exact Hw]. intros c m. apply counted_intake. }
  intros Hw. unfold service_Create. cbn -[draw on_store report Create RequestHash Registry_Get outcome_text].
  destruct (Registry_Get registry dest) as [target|] eqn:Hreg; [|by apply Hreport].
  destruct (Hash.RequestHash _ _ _ _ _) as [hash|e] eqn:Hhash; [|by apply Hreport].
  next_draw Hw now. next_draw Hw taskID. destruct (DestURL target) as [url|] eqn:Hurl; [|by apply Hreport].
  next_draw Hw eventID.
  unfold Create. rewrite Hreg, Hhash, Hurl. cbn -[draw on_store report outcome_text].
  next_call Hw ltac:(apply gains_create; apply new_request_fresh) existing.
  destruct existing as [[existing|]|e]; [|by apply Hreport..].
  by case_bool_decide; apply Hreport.
Qed.

Lemma get_level caller id w : level w -> level (query_Get (the_query sur) caller id w).2.
Proof.
  intros Hw. unfold query_Get. rewrite Get_result. cbn -[draw on_store report].
  by next_call Hw ltac:(apply gains_get) found.
Qed.

Lemma replay_level id w : level w -> level (replay_Replay (the_replay sur) id w).2.
Proof.
  intros Hw. unfold replay_Replay. cbn -[draw on_store report]. next_draw Hw now. next_draw Hw newID.
  rewrite Replay_result. cbn -[draw on_store report]. by next_call Hw ltac:(apply gains_replay) applied.
Qed.

Lemma request_level method path authorization key body w :
  level w ->
  level (the_api Sum256 time_text range_order registry cfg sur method path authorization key body w).2.
Proof. apply (the_api_preserves _ _ _ range_order_perm); auto using create_level, get_level, replay_level. Qed.

Lemma perform_level act w :
  level w ->
  level (perform Sum256 time_text range_order registry cfg sur act w).
Proof.
  intros Hw. destruct act as [method path authorization key body| |message| |]; cbn [perform].
  - by apply request_level.
  - unfold outbox_RunOnce, RunOnce. cbn -[draw on_store report publish_loop]. next_draw Hw now. next_draw Hw token.
    next_call Hw ltac:(apply gains_claim_outbox) events. destruct events as [events|e]; [|done].
    by apply publish_level.
  - by apply handle_level.
  - unfold scheduler_RunOnce, retry_RunOnce. cbn -[draw on_store report]. next_draw Hw now.
    next_counted_call Hw ltac:(apply gains_schedule) scheduled. destruct scheduled as [res|e]; simpl.
    + eapply report_level; [|exact Hw]. intros c m. apply counted_schedule.
    + eapply behind_zero; [|exact Hw]. by intros [].
  - unfold cleaner_RunOnce, retention_RunOnce, wrapM. cbn -[draw on_store report]. next_draw Hw now.
    by next_call Hw ltac:(apply gains_delete) deleted.
Qed.

(** C19 (invariant): the counters of a process mean what they say.  Whatever the
    services of a process have done, in any order, while other processes
    worked on the same database and calls failed: the exported numbers of dead
    notifications, retries scheduled, leases recovered, deliveries made,
    retryable failures and confirmed events are never more than the rows that
    the calls of this process changed in that way, and they are exactly these
    when no answer of the database was lost after a commit. *)
Theorem counters_sound acts d c :
  db_inv d ->
  let w := run_process Sum256 jsonb returning_order env time_text range_order registry cfg acts d in
  counted c (p_metrics w) <= total c (p_calls w) /\
  (reliable -> counted c (p_metrics w) = total c (p_calls w)).
Proof.
  intros Hinv w.
  assert (Hlevel : level w).
  { assert (H0 : level (start_process d)) by (split; [done|by intros []]).
    subst w. unfold run_process. revert H0. generalize (start_process d).
    induction acts as [|act acts IH]; intros w Hw; [done|]. simpl. by apply IH, perform_level. }
  destruct Hlevel as [_ H]. destruct (H c) as [Hle Heq]. rewrite Z.add_0_r in *. by split.
Qed.
End Counters.

(** ** An instance: one request, published and delivered to an endpoint that
    refuses it *)

Definition sample_answer (n : nat) : answer :=
  mkAnswer (1000 + Z.of_nat n) ("x" +:+ pretty (Z.of_nat n)) id NoFault NoFault (1000 + Z.of_nat n) ∅
    (Some (mkSendResult Permanent 400 "http_4xx" "" None)) (Ok ()) None (Ok ()).


Definition sample_runtime : Runtime :=
  mkRuntime RoleAll "" "" "" "" "" {["t-orders" := "orders"]} {["t-admin" := "ops"]} 0.
Definition sample_activities : list activity :=
  [DoRequest "POST" "/v1/notifications" "Bearer t-orders" "k1" sample_body; DoPublish;
   DoHandle (Delivery.mkMessage "x2" "x1"); DoSchedule;
   DoRequest "GET" "/v1/notifications/x1" "Bearer t-orders" "" ""; DoClean].

Definition sample_run : proc :=
  run_process sample_sum sample_jsonb sample_order sample_answer sample_time_text map_to_list sample_registry
    sample_runtime sample_activities empty_db.

Example sample_run_counters :
  map (fun c => counted c (p_metrics sample_run)) [CDead; CScheduled; CRecovered; CDelivered; CRetryable; CConfirmed]
  = [1; 0; 0; 0; 0; 1].
Proof. vm_compute. reflexivity. Qed.

Lemma counters_sound_witness :
  counted CDead (p_metrics sample_run) = total CDead (p_calls sample_run).
Proof.
  apply (counters_sound sample_sum sample_jsonb sample_order sample_time_text map_to_list
    (fun m => Permutation_refl (map_to_list m)) sample_registry sample_runtime sample_answer
    (fun _ _ Hinv => Hinv) sample_activities empty_db CDead db_inv_empty).
  intros n. discriminate.
Defined.
