(* ===== verification/Participant.v ===== *)
(** * A process as a participant of the system

    [System.v] describes publishers and workers by the steps that they may
    take.  This file closes the gap to the code: the services that [Process.v]
    builds from the constructors of the program run here on the database and
    the queue of the system, with other processes taking steps of their own
    before every call, and whatever they do is a sequence of steps of the
    system: a publication is a run of the client's [Publish], whose channels
    belong to the process, and a delivery that is not acknowledged comes back
    until the queue drops it.  What [System.v] and [Liveness.v] show of
    reachable states holds therefore of every state that processes of this
    program bring about.

    The argument is one of rely and guarantee: a process relies on the others
    taking steps of the system, and guarantees the same. *)

From S2P Require Import Prelude GoTime GoStrings GoText Notification Table Schema Store StoreSpec StoreRefine StoreTypes StoreProps OutboxStoreProps Samples Destination Hash Intake Delivery OutboxService System Services Sender Observability Rabbit Config Bootstrap HttpApi Json JsonGrammar JsonCanon Payload Router Api Process ProcessProps.

#[local] Open Scope list_scope.
#[local] Open Scope Z_scope.

(** ** The world of a participant *)

(** What one interaction finds: the time, an identifier, what the other
    processes have done to the system since the last one, how the database
    connection fails, which rows are locked, the answers of the destination and
    the limiter; for a publication, the answer of the AMQP library, the error
    of the context once it is done, the broker's answer, whether the message
    is in the queue, whether the connection is lost, and what [Publish] then
    does with its two channels; and whether the broker received an
    acknowledgement. *)
Record input := mkInput {
  i_time : time;
  i_id : string;
  i_others : system -> system;
  i_fault : fault;
  i_fault' : fault;
  i_db_now : time;
  i_locked : gset string;
  i_sent : option SendResult;
  i_limit : result ();
  i_jitter : option (duration -> duration);
  i_send : string -> string -> bool -> bool -> Publishing -> option error;
  i_ctx : option error;
  i_answer : Rabbit.answer;
  i_enqueued : bool;
  i_closed : bool;
  i_publication : OutboxMessage -> channels -> result () * channels;
  i_acked : bool;
}.

(** The system, the counters of this process, the number of interactions, the
    delivery that the worker has in hand while the broker has not given it to
    another one, the notification channels of the publisher's client, and
    whether every identifier drawn so far was new. *)
Record participant := mkParticipant {
  t_sys : system;
  t_metrics : Metrics;
  t_next : nat;
  t_holding : option OutboxMessage;
  t_channels : channels;
  t_fresh : bool;
}.

(** No event was created under an identifier that had been used. *)
Definition no_reuse (seen : gset string) (d d' : db) : bool :=
  bool_decide (dom (outbox d') ∖ dom (outbox d) ## seen).

(** One occurrence of a message. *)
Fixpoint remove_one (m : OutboxMessage) (q : list OutboxMessage) : list OutboxMessage :=
  match q with
  | [] => []
  | m' :: q => if decide (m' = m) then q else m' :: remove_one m q
  end.

Section Participant.
Context (jsonb : string -> option string) (Sum256 : list Z -> list Z)
        (returning_order : list OutboxEvent -> list OutboxEvent)
        (env : nat -> input).

(** An answer that involves nobody else. *)
Definition ask {A} (field : input -> A) (w : participant) : A * participant :=
  (field (env (t_next w)), mkParticipant (t_sys w) (t_metrics w) (S (t_next w)) (t_holding w) (t_channels w) (t_fresh w)).

(** The others run. *)
Definition turn (w : participant) : input * participant :=
  let i := env (t_next w) in
  let s := i_others i (t_sys w) in
  (i, mkParticipant s (t_metrics w) (S (t_next w))
        (m ← t_holding w; if bool_decide (m ∈ sys_queue s) then Some m else None) (t_channels w) (t_fresh w)).

Definition set_system (s : system) (fresh : bool) (w : participant) : participant :=
  mkParticipant s (t_metrics w) (t_next w) (t_holding w) (t_channels w) (t_fresh w && fresh).

(** A call of the store. *)
Definition on_system {A} (call : input -> M db A) : M participant A := fun w =>
  let '(i, w) := turn w in
  let s := t_sys w in
  let '(r, d) := call i (sys_db s) in
  (r, set_system (mkSystem d (sys_queue s) (sys_confirmed s) (sys_workers s) (note_events d (sys_seen s)) (sys_mishaps s))
        (no_reuse (sys_seen s) (sys_db s) d) w).

(** The claim of a worker; the system notes which message it was made for. *)
Definition claim_on_system (id lease : string) (until : time) : M participant Claim := fun w =>
  let '(i, w) := turn w in
  let s := t_sys w in
  let '(r, d) := ClaimDelivery (i_fault i) (i_db_now i) id lease until (sys_db s) in
  let answered := match r, t_holding w with
                  | Ok _, Some m => if bool_decide (MsgNotificationID m = id) then [m] else []
                  | _, _ => []
                  end in
  (r, set_system (mkSystem d (sys_queue s) (sys_confirmed s) (answered ++ sys_workers s) (sys_seen s) (sys_mishaps s)) true w).

Definition set_channels (ch : channels) (w : participant) : participant :=
  mkParticipant (t_sys w) (t_metrics w) (t_next w) (t_holding w) ch (t_fresh w).

Definition note_mishap (x : mishaps -> mishaps) (s : system) : system :=
  mkSystem (sys_db s) (sys_queue s) (sys_confirmed s) (sys_workers s) (sys_seen s) (x (sys_mishaps s)).

(** A lost connection closes the channel of the confirmations. *)
Definition lose_connection (lost : bool) (ch : channels) : channels :=
  mkChannels (returns ch) (confirms ch) (confirms_closed ch || lost).

(** A message is in the queue if the broker took it, whatever [Publish] then
    reports.  If [Publish] reports success for one that the broker does not
    have, the message is lost.  A confirmation that [Publish] leaves in its
    channel makes that possible for a later message. *)
Definition publish_on_system (message : OutboxMessage) : M participant () := fun w =>
  let '(i, w) := turn w in
  let s := t_sys w in
  let '(r, ch) := i_publication i message (lose_connection (i_closed i) (t_channels w)) in
  let confirmed := {[MsgEventID message]} ∪ sys_confirmed s in
  let s :=
    if i_enqueued i
    then mkSystem (sys_db s) (message :: sys_queue s) confirmed (sys_workers s) (sys_seen s) (sys_mishaps s)
    else if is_Ok r
    then mkSystem (sys_db s) (sys_queue s) confirmed (sys_workers s) (sys_seen s)
           (note_lost message (sys_mishaps s))
    else s in
  let s := match confirms ch with [] => s | _ => note_mishap (note_abandoned message) s end in
  (r, set_channels ch (set_system s true w)).

Definition count_on {A} (observe : A -> Metrics -> Metrics) (a : A) (w : participant) : participant :=
  mkParticipant (t_sys w) (observe a (t_metrics w)) (t_next w) (t_holding w) (t_channels w) (t_fresh w).

Definition participant_surroundings : surroundings participant := {|
  sur_intake :=
    {| repo_CreateOrGet task event :=
         on_system (fun i => CreateOrGet jsonb (i_fault i) (i_fault' i) task event) |};
  sur_queries :=
    {| GetForCaller caller id := on_system (fun i => PgGetForCaller (i_fault i) caller id);
       ReplayDeadAtomic id now eid := on_system (fun i => PgReplayDeadAtomic (i_fault i) id now eid) |};
  sur_delivery :=
    {| repo_ClaimDelivery := claim_on_system;
       repo_ApplyDeliveryResult id lease attempt :=
         on_system (fun i => ApplyDeliveryResult (i_fault i) id lease attempt) |};
  sur_outbox :=
    {| repo_ClaimOutbox now limit token until :=
         on_system (fun i => ClaimOutbox returning_order (i_fault i) (i_locked i) now limit token until);
       repo_MarkPublished eid token at_ := on_system (fun i => MarkPublished (i_fault i) eid token at_) |};
  sur_retry :=
    {| repo_ScheduleDue now limit :=
         on_system (fun i => ScheduleDue Sum256 (i_fault i) (i_locked i) now limit) |};
  sur_retention :=
    {| repo_DeleteTerminalBefore cutoff limit :=
         on_system (fun i => DeleteTerminalBefore (i_fault i) (i_locked i) cutoff limit) |};
  sur_sender := {| sender_Send _ w := let '(i, w) := turn w in (i_sent i, w) |};
  sur_limiter :=
    {| limiter_Acquire _ _ w := let '(i, w) := turn w in (i_limit i, w); limiter_release _ w := w |};
  sur_publisher := {| publisher_Publish := publish_on_system |};
  sur_now := ask i_time; sur_newID := ask i_id; sur_jitter := ask i_jitter;
  sur_report := @count_on;
|}.

(** ** What a participant does *)

Context (time_text : time -> string) (range_order : gmap string string -> list (string * string))
        (registry : gmap string Destination) (cfg : Runtime).

Local Abbreviation sur := participant_surroundings.

(** The broker delivers a message of the queue. *)
Definition receive (m : OutboxMessage) (w : participant) : participant :=
  let '(_, w) := turn w in
  mkParticipant (t_sys w) (t_metrics w) (t_next w)
    (if bool_decide (m ∈ sys_queue (t_sys w)) then Some m else None) (t_channels w) (t_fresh w).

Definition put_down (w : participant) : participant :=
  mkParticipant (t_sys w) (t_metrics w) (t_next w) None (t_channels w) (t_fresh w).

(** A delivery comes back to the queue, unless that has happened too often: the
    queue then drops the message. *)
Definition return_on_system (m : OutboxMessage) (w : participant) : participant :=
  let s := note_mishap (note_return m) (t_sys w) in
  let s :=
    if bool_decide (delivery_limit < times_returned m (sys_mishaps s))%nat
    then mkSystem (sys_db s) (remove_one m (sys_queue s)) (sys_confirmed s) (sys_workers s) (sys_seen s)
           (note_lost m (sys_mishaps s))
    else s in
  put_down (set_system s true w).

(** [Ack], [Nack] with and without requeueing: the message leaves the queue if
    the broker hears it while the delivery is still the worker's.  A delivery
    that is put back, whose acknowledgement is lost, or whose worker dies of a
    panic ([None]) comes back. *)
Definition settle_on_system (disposition : option Disposition) (w : participant) : participant :=
  let '(i, w) := turn w in
  match t_holding w with
  | None => w
  | Some m =>
      match disposition with
      | None | Some Requeue => return_on_system m w
      | Some Ack | Some Reject =>
          let s := t_sys w in
          if i_acked i
          then put_down (set_system (mkSystem (sys_db s) (remove_one m (sys_queue s)) (sys_confirmed s)
                                       (sys_workers s) (sys_seen s) (sys_mishaps s)) true w)
          else return_on_system m w
      end
  end.

(** The worker's loop, for one delivery. *)
Definition work (m : OutboxMessage) (w : participant) : participant :=
  let w := receive m w in
  match t_holding w with
  | None => w
  | Some _ =>
      let '(disposition, w) :=
        delivery_Handle (the_delivery sur) (Delivery.mkMessage (MsgEventID m) (MsgNotificationID m)) w in
      settle_on_system disposition w
  end.

Definition participate (act : activity) (w : participant) : participant :=
  match act with
  | DoHandle message =>
      work (mkOutboxMessage (MessageEventID message) (MessageNotificationID message)) w
  | _ => perform Sum256 time_text range_order registry cfg sur act w
  end.

Definition join (s : system) : participant := mkParticipant s NewMetrics 0 None idle true.

Definition run_participant (acts : list activity) (s : system) : participant :=
  foldl (fun w act => participate act w) (join s) acts.
End Participant.

(** What a publication finds and does is a run of the client's [Publish], and
    the broker keeps to its contract: what it accepts and does not return is in
    the queue. *)
Definition publishes (to : Topology) (i : input) : Prop :=
  (forall message ch,
     Publish marshal_message (i_send i) to (i_ctx i) message (i_answer i) ch
       (i_publication i message ch).1 (i_publication i message ch).2) /\
  (answer_ack (i_answer i) = true -> answer_return (i_answer i) = None -> i_enqueued i = true).

(** ** What stays true while others run *)

Section Guarantee.
Context (jsonb : string -> option string) (Sum256 : list Z -> list Z)
        (returning_order : list OutboxEvent -> list OutboxEvent)
        (env : nat -> input)
        (time_text : time -> string) (range_order : gmap string string -> list (string * string))
        (registry : gmap string Destination) (cfg : Runtime) (s0 : system).

Local Abbreviation step := (system_step jsonb Sum256 returning_order).
Local Abbreviation reached := (reachable jsonb Sum256 returning_order).
Local Abbreviation sur := (participant_surroundings jsonb Sum256 returning_order env).

Hypothesis (Hreturning : forall l, returning_order l ≡ₚ l)
           (Hrange : forall m, range_order m ≡ₚ map_to_list m)
           (Hothers : forall n s, reached s -> rtc step s (i_others (env n) s))
           (Hpublish : forall n, publishes topology (env n))
           (Hs0 : reached s0).

(** Facts about the system and the delivery in hand that no step undoes, nor
    the loss of the delivery. *)
Class Stable (Q : system -> option OutboxMessage -> Prop) : Prop := {
  stable_step : forall s s' h, reached s -> step s s' -> Q s h -> Q s' h;
  stable_drop : forall s h, Q s h -> Q s None;
}.

Lemma reached_rtc s s' : reached s -> rtc step s s' -> reached s'.
Proof. unfold reachable. intros Hr Hsteps. by etrans. Qed.

Lemma stable_rtc Q `{!Stable Q} s s' h : reached s -> rtc step s s' -> Q s h -> Q s' h.
Proof.
  intros Hr Hsteps. revert Hr. induction Hsteps as [|s s1 s' Hstep _ IH]; [done|]. intros Hr HQ.
  apply IH; [by eapply rtc_r|by eapply stable_step].
Qed.

Definition anything (s : system) (h : option OutboxMessage) : Prop := True.

#[local] Instance stable_anything : Stable anything.
Proof. by split. Qed.

#[local] Instance stable_and Q1 Q2 `{!Stable Q1, !Stable Q2} : Stable (fun s h => Q1 s h /\ Q2 s h).
Proof. split; [intros s s' h ?? []; split; by eapply stable_step|intros s h []; split; by eapply stable_drop]. Qed.

#[local] Instance stable_impl (P : Prop) Q `{!Stable Q} : Stable (fun s h => P -> Q s h).
Proof. split; [intros s s' h ?? HQ HP; eapply stable_step; eauto|intros s h HQ HP; eapply stable_drop; eauto]. Qed.

(** The broker has the message of the event. *)
Definition confirmed (eid : string) (s : system) (h : option OutboxMessage) : Prop := eid ∈ sys_confirmed s.

#[local] Instance stable_confirmed eid : Stable (confirmed eid).
Proof. split; [|done]. intros s s' h _ Hstep. unfold confirmed. destruct Hstep; simpl; set_solver. Qed.

(** The delivery in hand is of this message, or was lost. *)
Definition in_hand (m : OutboxMessage) (s : system) (h : option OutboxMessage) : Prop := h = Some m \/ h = None.

#[local] Instance stable_in_hand m : Stable (in_hand m).
Proof. split; [done|]. intros s h _. by right. Qed.

(** The store has answered the claim for the delivery in hand. *)
Definition answered (s : system) (h : option OutboxMessage) : Prop := forall m, h = Some m -> m ∈ sys_workers s.

#[local] Instance stable_answered : Stable answered.
Proof.
  split; [|done]. intros s s' h _ Hstep HQ m Hm. specialize (HQ m Hm). destruct Hstep; simpl; set_solver.
Qed.

(** The event was seen under its identifier, and belongs to its task. *)
Definition known (event : OutboxEvent) (s : system) (h : option OutboxMessage) : Prop :=
  EventID event ∈ sys_seen s /\
  forall e, outbox (sys_db s) !! EventID event = Some e -> aggregate_id e = AggregateID event.

Lemma step_keeps_event s s' eid e' :
  reached s -> step s s' -> eid ∈ sys_seen s -> outbox (sys_db s') !! eid = Some e' ->
  exists e, outbox (sys_db s) !! eid = Some e /\ aggregate_id e' = aggregate_id e.
Proof.
  intros Hr Hstep Hseen He'. pose proof (reachable_system_inv _ _ _ _ Hr) as Hinv.
  assert (Hkeep : forall c, call_ok c = true ->
    (exists e, outbox (sys_db s) !! eid = Some e) ->
    outbox (run_call jsonb Sum256 returning_order c (sys_db s)) !! eid = Some e' ->
    exists e, outbox (sys_db s) !! eid = Some e /\ aggregate_id e' = aggregate_id e).
  { intros c Hc [e He] Hrun. exists e. split; [done|].
    by destruct (call_keeps_event _ _ _ c _ eid e e' (si_db s Hinv) Hc He Hrun). }
  destruct Hstep as [c Hc Hfresh|eid0 id0 Hin Hid|f eid0 token at_ Hconf|f m db_now lease until r d' Hm Hclaim
    | | | | | ]; simpl in He'; try by eauto.
  - apply (Hkeep c); [by destruct c| |done].
    destruct (old_or_new jsonb Sum256 returning_order _ c _ eid e' Hfresh He') as [He|Hnew]; [done|by destruct Hnew].
  - destruct (MarkPublished f eid0 token at_ (sys_db s)) as [r d'] eqn:H. simpl in He'.
    apply MarkPublished_effect in H as [->|(e & He & _ & _ & _ & ->)]; [by eauto|]. simpl in He'.
    apply lookup_insert_Some in He' as [[<- <-]|[_ He']]; by eauto.
  - apply ClaimDelivery_effect in Hclaim as [->|(r0 & _ & _ & _ & ->)]; by eauto.
Qed.

Lemma step_keeps_seen s s' : step s s' -> sys_seen s ⊆ sys_seen s'.
Proof. intros Hstep. destruct Hstep; simpl; unfold note_events; set_solver. Qed.

#[local] Instance stable_known event : Stable (known event).
Proof.
  split; [|done]. intros s s' h Hr Hstep [Hseen Hagg]. split; [by eapply step_keeps_seen|].
  intros e' He'. destruct (step_keeps_event s s' _ e' Hr Hstep Hseen He') as (e & He & ->). by apply Hagg.
Qed.

#[local] Instance stable_known_all (events : list OutboxEvent) : Stable (fun s h => forall event, event ∈ events -> known event s h).
Proof.
  split; [|done]. intros s s' h Hr Hstep HQ event Hin. eapply (stable_step (Q := known event)); eauto.
Qed.

(** ** The rules of the interactions *)

(** The system has taken steps only, and has noted that this client may take a
    confirmation for that of another message. *)
Definition progressed (w : participant) : Prop :=
  rtc step s0 (t_sys w) /\ (confirms (t_channels w) <> [] -> mis_abandoned (sys_mishaps (t_sys w)) <> []).

Lemma progressed_reached w : progressed w -> reached (t_sys w).
Proof. intros [Hsteps _]. by eapply reached_rtc. Qed.

Lemma abandoned_rtc s s' : rtc step s s' ->
  mis_abandoned (sys_mishaps s) <> [] -> mis_abandoned (sys_mishaps s') <> [].
Proof. induction 1 as [|s s1 s' Hstep _ IH]; [done|]. intros Hs. apply IH. by destruct Hstep. Qed.

Lemma progressed_rtc w w' :
  progressed w -> rtc step (t_sys w) (t_sys w') -> t_channels w' = t_channels w -> progressed w'.
Proof.
  intros [Hsteps Hleft] Hmore Hch. split; [by etrans|]. rewrite Hch. intros Hc.
  by eapply abandoned_rtc; [|apply Hleft].
Qed.

Lemma progressed_step w w' :
  progressed w -> step (t_sys w) (t_sys w') -> t_channels w' = t_channels w -> progressed w'.
Proof. intros Hw Hstep. by apply progressed_rtc, rtc_once. Qed.

(** As long as all identifiers were new, the system has taken steps only, and
    is in a state where [Q] holds. *)
Definition sound (Q : system -> option OutboxMessage -> Prop) (w : participant) : Prop :=
  t_fresh w = true -> progressed w /\ Q (t_sys w) (t_holding w).

Lemma sound_impl (Q1 Q2 : system -> option OutboxMessage -> Prop) w :
  (forall s h, Q1 s h -> Q2 s h) -> sound Q1 w -> sound Q2 w.
Proof. intros HQ H Hf. destruct (H Hf). split; [done|by apply HQ]. Qed.

Lemma sound_anything Q w : sound Q w -> sound anything w.
Proof. by apply sound_impl. Qed.

Lemma ask_sound {A} (field : input -> A) Q w a w' : ask env field w = (a, w') -> sound Q w -> sound Q w'.
Proof. by intros [= _ <-]. Qed.

Lemma count_sound {A} (observe : A -> Metrics -> Metrics) a Q w :
  sound Q w -> sound Q (count_on observe a w).
Proof. done. Qed.

Lemma turn_sound Q `{!Stable Q} w i w' :
  turn env w = (i, w') -> sound Q w ->
  sound (fun s h => Q s h /\ forall m, h = Some m -> m ∈ sys_queue s) w'.
Proof.
  intros [= <- <-] H Hf. destruct (H Hf) as [Hsteps HQ]. cbn [t_sys t_holding].
  pose proof (progressed_reached _ Hsteps) as Hr. pose proof (Hothers (t_next w) _ Hr) as Ho.
  split; [by apply (progressed_rtc w)|]. split.
  - apply (stable_rtc Q _ _ _ Hr Ho). destruct (t_holding w) as [m|]; simpl; [|done].
    case_bool_decide; [done|]. by eapply stable_drop.
  - intros m Hm. destruct (t_holding w) as [m'|]; [|done]. simpl in Hm.
    case_bool_decide; [by simplify_eq|done].
Qed.

(** A call changes the database as one of the calls of [System.v], or not at all. *)
Definition allowed {A} (call : input -> M db A) : Prop :=
  forall i d, snd (call i d) = d \/
    exists c, open_call c = true /\ snd (call i d) = run_call jsonb Sum256 returning_order c d.

Lemma no_reuse_fresh seen d d' : no_reuse seen d d' = true -> fresh_events seen d d'.
Proof.
  unfold no_reuse. intros H%bool_decide_eq_true eid Hnone Hsome Hin.
  apply (H eid); [|done]. apply elem_of_difference. split; [by apply elem_of_dom|].
  intros He%elem_of_dom. rewrite Hnone in He. by destruct He.
Qed.

Lemma system_eta s :
  s = mkSystem (sys_db s) (sys_queue s) (sys_confirmed s) (sys_workers s) (sys_seen s) (sys_mishaps s).
Proof. by destruct s. Qed.

Lemma on_system_step s d :
  reached s ->
  (d = sys_db s \/ exists c, open_call c = true /\ d = run_call jsonb Sum256 returning_order c (sys_db s)) ->
  no_reuse (sys_seen s) (sys_db s) d = true ->
  rtc step s (mkSystem d (sys_queue s) (sys_confirmed s) (sys_workers s) (note_events d (sys_seen s)) (sys_mishaps s)).
Proof.
  intros Hr Hd Hfresh%no_reuse_fresh. destruct Hd as [->|(c & Hc & ->)].
  - rewrite <- note_same by apply (si_seen_events s (reachable_system_inv _ _ _ _ Hr)).
    rewrite <- system_eta. reflexivity.
  - apply rtc_once. by apply sys_call.
Qed.

Lemma on_system_sound {A} (call : input -> M db A) Q `{!Stable Q} w r w' :
  allowed call -> on_system env call w = (r, w') -> sound Q w -> sound Q w'.
Proof.
  intros Hcall Hrun H. unfold on_system in Hrun.
  destruct (turn env w) as [i w1] eqn:Hturn. apply (turn_sound Q) in Hturn; [|done].
  specialize (Hcall i (sys_db (t_sys w1))). destruct (call i _) as [r1 d]. injection Hrun as <- <-.
  intros [Hf1 Hf2]%andb_true_iff. destruct (Hturn Hf1) as [Hsteps [HQ _]].
  pose proof (progressed_reached _ Hsteps) as Hr.
  pose proof (on_system_step _ d Hr Hcall Hf2) as Hstep.
  split; [by apply (progressed_rtc w1)|]. by apply (stable_rtc Q _ _ _ Hr Hstep).
Qed.

Lemma MarkPublished_keys f eid token at_ d k :
  is_Some (outbox (snd (MarkPublished f eid token at_ d)) !! k) -> is_Some (outbox d !! k).
Proof.
  destruct (MarkPublished f eid token at_ d) as [r d'] eqn:H. simpl.
  apply MarkPublished_effect in H as [->|(e & He & _ & _ & _ & ->)]; [done|]. simpl.
  rewrite lookup_insert_is_Some'. intros [<-|?]; eauto.
Qed.

(** Marking an event, whose message the broker has. *)
Lemma mark_sound eid token at_ Q `{!Stable Q} w r w' :
  on_system env (fun i => MarkPublished (i_fault i) eid token at_) w = (r, w') ->
  sound (fun s h => Q s h /\ confirmed eid s h) w -> sound Q w'.
Proof.
  intros Hrun H. unfold on_system in Hrun.
  destruct (turn env w) as [i w1] eqn:Hturn.
  apply (turn_sound (fun s h => Q s h /\ confirmed eid s h)) in Hturn; [|done].
  destruct (MarkPublished _ _ _ _ _) as [r1 d] eqn:Hmark. injection Hrun as <- <-.
  intros [Hf1 _]%andb_true_iff. destruct (Hturn Hf1) as [Hsteps [[HQ Hconf] _]].
  pose proof (progressed_reached _ Hsteps) as Hr. remember (t_sys w1) as s eqn:Hs.
  assert (Hd : d = run_call jsonb Sum256 returning_order (CallMarkPublished (i_fault i) eid token at_) (sys_db s))
    by (simpl; by rewrite Hmark).
  assert (Hseen : note_events d (sys_seen s) = sys_seen s).
  { symmetry. apply note_same. intros k Hk. apply (si_seen_events s (reachable_system_inv _ _ _ _ Hr)).
    eapply MarkPublished_keys. by rewrite Hmark. }
  assert (Hstep : step s (mkSystem d (sys_queue s) (sys_confirmed s) (sys_workers s)
    (note_events d (sys_seen s)) (sys_mishaps s))) by (rewrite Hseen, Hd; by apply sys_mark).
  subst s.
  split; [by apply (progressed_step w1)|by eapply stable_step].
Qed.

Lemma claim_outbox_allowed now limit token until :
  allowed (fun i => ClaimOutbox returning_order (i_fault i) (i_locked i) now limit token until).
Proof. intros i d. right. by exists (CallClaimOutbox (i_fault i) (i_locked i) now limit token until). Qed.

(** The events of a batch are known. *)
Lemma claim_outbox_sound now limit token until w r w' :
  on_system env (fun i => ClaimOutbox returning_order (i_fault i) (i_locked i) now limit token until) w = (r, w') ->
  sound anything w ->
  sound (fun s h => forall event, event ∈ match r with Ok events => events | Err _ => [] end -> known event s h) w'.
Proof.
  intros Hrun H Hf.
  destruct (on_system_sound _ anything _ _ _ (claim_outbox_allowed now limit token until) Hrun H Hf) as [Hsteps _].
  split; [done|]. unfold on_system in Hrun. destruct (turn env w) as [i w1].
  destruct (ClaimOutbox _ _ _ _ _ _ _ _) as [[events|e] d] eqn:Hclaim; injection Hrun as <- <-;
    [|by intros event Hin%not_elem_of_nil].
  intros event Hin. apply (claimed_batch returning_order Hreturning _ _ _ _ _ _ _ _ _ Hclaim) in Hin
    as (id & e & Hid & He & ->).
  apply ClaimOutbox_Ok in Hclaim as (_ & -> & _). unfold known. cbn. rewrite lookup_sql_update, He. split.
  - unfold note_events. apply elem_of_union_r, elem_of_dom. cbn. rewrite lookup_sql_update, He. done.
  - intros e' [= <-]. by destruct (by_ids _ _ _).
Qed.

(** A publication that reports success for a message that the broker does not
    have took a confirmation that was left over. *)
Lemma mistaken_publication to i message ch :
  publishes to i -> i_enqueued i = false -> is_Ok (i_publication i message ch).1 = true -> confirms ch <> [].
Proof.
  intros [Hpub Hbroker] Hnot Hok Hch. specialize (Hpub message ch).
  destruct (i_publication i message ch) as [[[]|e] ch']; [|done]. cbn [fst snd] in Hpub.
  inversion Hpub as [| |body r ch1 Hm Hs Hw]; subst.
  inversion Hw as [r0 ch0 Hwait|r0 ch0 Hwait]; subst; inversion Hwait as [| | | |rest Hc Hr|]; subst.
  - cbn in Hc, Hr. rewrite Hch in Hc. apply app_nil in Hr as [_ Hr]. injection Hc as Hack _.
    rewrite Hbroker in Hnot; [done|done|]. by destruct (answer_return (i_answer i)).
  - by rewrite Hch in Hc.
Qed.

(** A publication: if it reports success, the broker has the message, or has
    lost it. *)
Lemma publish_sound event Q `{!Stable Q} w r w' :
  publish_on_system env (message_of event) w = (r, w') ->
  sound (fun s h => Q s h /\ known event s h) w ->
  sound (fun s h => Q s h /\ (is_Ok r = true -> confirmed (EventID event) s h)) w'.
Proof.
  intros Hrun H. unfold publish_on_system in Hrun.
  destruct (turn env w) as [i w1] eqn:Hturn. assert (Hi : publishes topology i) by (by injection Hturn as <- _).
  apply (turn_sound (fun s h => Q s h /\ known event s h)) in Hturn; [|done].
  pose proof (mistaken_publication topology i (message_of event)
    (lose_connection (i_closed i) (t_channels w1)) Hi) as Hmistake.
  destruct (i_publication _ _ _) as [r1 ch]. cbn [fst] in Hmistake. injection Hrun as <- <-.
  intros [Hf1 _]%andb_true_iff. destruct (Hturn Hf1) as [[Hsteps Hleft] [[HQ Hknown] _]].
  cbn [t_sys set_system set_channels t_holding].
  match goal with |- context [match confirms ch with [] => ?s | _ => _ end] => set (s1 := s) end.
  assert (Hs1 : rtc step (t_sys w1) s1 /\ (is_Ok r1 = true -> EventID event ∈ sys_confirmed s1)).
  { destruct Hknown as [Hseen Hagg]. unfold s1. destruct (i_enqueued i).
    { split; [by apply rtc_once, sys_publish|]. simpl. set_solver. }
    destruct (is_Ok r1); [|done]. split; [|simpl; set_solver].
    apply rtc_once, sys_mistake; [|done|done]. apply Hleft, (Hmistake eq_refl eq_refl). }
  destruct Hs1 as [Hs1 Hconf]. pose proof (reached_rtc _ _ Hs0 Hsteps) as Hr.
  pose proof (reached_rtc _ _ Hr Hs1) as Hr1.
  assert (HQ1 : Q s1 (t_holding w1)) by (by apply (stable_rtc Q _ _ _ Hr Hs1)).
  assert (Hk1 : known event s1 (t_holding w1)) by (by apply (stable_rtc (known event) _ _ _ Hr Hs1)).
  unfold progressed. cbn [t_sys t_channels set_channels set_system]. destruct (confirms ch) as [|b rest].
  { split; [|by split]. split; [by etrans|done]. }
  assert (Hstep : step s1 (note_mishap (note_abandoned (message_of event)) s1)) by (by apply sys_abandon, Hk1).
  split; [split; [etrans; [exact Hsteps|]; by eapply rtc_r|done]|]. split; [by eapply stable_step|exact Hconf].
Qed.

(** The claim for the delivery in hand. *)
Lemma claim_sound m lease until w r w' :
  claim_on_system env (MsgNotificationID m) lease until w = (r, w') ->
  sound (in_hand m) w ->
  sound (fun s h => is_Ok r = true -> answered s h) w'.
Proof.
  intros Hrun H. unfold claim_on_system in Hrun. destruct (turn env w) as [i w1] eqn:Hturn.
  apply (turn_sound (in_hand m)) in Hturn; [|done].
  destruct (ClaimDelivery _ _ _ _ _ _) as [r1 d] eqn:Hclaim. injection Hrun as <- <-.
  intros [Hf1 _]%andb_true_iff. destruct (Hturn Hf1) as [Hsteps [Hm Hq]].
  pose proof (progressed_reached _ Hsteps) as Hr. cbn [t_sys set_system t_holding].
  assert (Hsame : outbox d = outbox (sys_db (t_sys w1))).
  { by apply ClaimDelivery_effect in Hclaim as [->|(r0 & _ & _ & _ & ->)]. }
  assert (Hcall : forall wk, rtc step (t_sys w1) (mkSystem d (sys_queue (t_sys w1)) (sys_confirmed (t_sys w1)) wk (sys_seen (t_sys w1)) (sys_mishaps (t_sys w1)))
    -> progressed (set_system (mkSystem d (sys_queue (t_sys w1)) (sys_confirmed (t_sys w1)) wk (sys_seen (t_sys w1)) (sys_mishaps (t_sys w1))) true w1)).
  { intros wk Hstep. by apply (progressed_rtc w1). }
  assert (Hplain : rtc step (t_sys w1)
    (mkSystem d (sys_queue (t_sys w1)) (sys_confirmed (t_sys w1)) (sys_workers (t_sys w1)) (sys_seen (t_sys w1)) (sys_mishaps (t_sys w1)))).
  { rewrite (note_same d (sys_seen (t_sys w1))) by (intros eid; rewrite Hsame; apply (si_seen_events _ (reachable_system_inv _ _ _ _ Hr))).
    apply on_system_step; [done| |].
    - right. exists (CallClaimDelivery (i_fault i) (i_db_now i) (MsgNotificationID m) lease until).
      split; [done|]. simpl. by rewrite Hclaim.
    - apply bool_decide_eq_true. rewrite Hsame. set_solver. }
  destruct r1 as [c|e]; [|by split; [apply Hcall|done]].
  destruct (t_holding w1) as [m'|] eqn:Hh; [|by split; [apply Hcall|done]].
  destruct Hm as [[= ->]|[=]]. rewrite bool_decide_eq_true_2 by done. split.
  - apply Hcall, rtc_once. eapply sys_claim; [by apply Hq|exact Hclaim].
  - intros _ m' [= <-]. simpl. set_solver.
Qed.

Lemma remove_one_spec m q :
  m ∈ q -> exists before after_, q = before ++ m :: after_ /\ remove_one m q = before ++ after_.
Proof.
  induction q as [|m' q IH]; [by intros ?%not_elem_of_nil|]. intros Hin. cbn [remove_one].
  destruct (decide (m' = m)) as [->|Hne]; [by exists [], q|].
  apply elem_of_cons in Hin as [->|Hin]; [done|]. destruct (IH Hin) as (before & after_ & -> & Hrem).
  exists (m' :: before), after_. by rewrite Hrem.
Qed.

(** A delivery that comes back. *)
Lemma return_sound m w :
  sound (fun s _ => m ∈ sys_queue s) w -> sound anything (return_on_system m w).
Proof.
  intros H [Hf _]%andb_true_iff. destruct (H Hf) as [Hw Hm]. split; [|done].
  apply (progressed_rtc w); [done| |done].
  assert (Hback : step (t_sys w) (note_mishap (note_return m) (t_sys w))) by (by apply sys_return).
  cbn [t_sys put_down set_system return_on_system]. case_bool_decide as Hlimit; [|by apply rtc_once].
  destruct (remove_one_spec m (sys_queue (t_sys w)) Hm) as (before & after_ & Hqueue & Hrem).
  eapply rtc_r; [by apply rtc_once|]. cbn [note_mishap sys_queue]. rewrite Hrem. by apply sys_drop.
Qed.

(** Settling the delivery; an acknowledgement needs the answer of the store. *)
Lemma settle_sound disposition w :
  disposition <> Some Reject ->
  sound (fun s h => disposition = Some Ack -> answered s h) w ->
  sound anything (settle_on_system env disposition w).
Proof.
  intros Hreject H. unfold settle_on_system. destruct (turn env w) as [i w1] eqn:Hturn.
  apply (turn_sound (fun s h => disposition = Some Ack -> answered s h)) in Hturn; [|exact H].
  clear H.
  destruct (t_holding w1) as [m|] eqn:Hh; [|by apply sound_anything in Hturn].
  assert (Hback : sound anything (return_on_system m w1)).
  { apply return_sound. intros Hf. destruct (Hturn Hf) as [Hw [_ Hq]]. split; [done|by apply Hq]. }
  destruct disposition as [[]|]; try done. destruct (i_acked i); [|done].
  intros [Hf1 _]%andb_true_iff. destruct (Hturn Hf1) as [Hw [Ha Hq]]. split; [|done].
  apply (progressed_step w1); [done| |done].
  destruct (remove_one_spec m (sys_queue (t_sys w1)) (Hq m Hh)) as (before & after_ & Hqueue & Hrem).
  cbn [put_down t_sys set_system]. rewrite Hrem. eapply sys_ack; [by apply Ha|exact Hqueue].
Qed.

(** ** The services *)

(** Follow a service through what it asks, and its next call of the store. *)
Local Ltac next_ask Hw a :=
  match type of Hw with
  | sound _ ?w =>
      match goal with
      | |- context [ask env ?f w] =>
          let E := fresh "E" in
          destruct (ask env f w) as [a ?] eqn:E; eapply ask_sound in E; [|exact Hw];
          clear Hw; rename E into Hw
      end
  end.

Local Ltac next_on_system Hw call_allowed r :=
  match type of Hw with
  | sound _ ?w =>
      match goal with
      | |- context [on_system env ?call w] =>
          let E := fresh "E" in
          destruct (on_system env call w) as [r ?] eqn:E;
          eapply (on_system_sound _ anything) in E; [|call_allowed|exact Hw];
          clear Hw; rename E into Hw
      end
  end.

#[local] Arguments ask : simpl never.
#[local] Arguments on_system : simpl never.
#[local] Arguments claim_on_system : simpl never.
#[local] Arguments publish_on_system : simpl never.
#[local] Arguments turn : simpl never.
#[local] Arguments attempt_of : simpl never.

Lemma publish_loop_sound token events published w :
  sound (fun s h => forall event, event ∈ events -> known event s h) w ->
  sound anything (@publish_loop participant (sur_outbox sur) (sur_publisher sur)
    {| out_now := ask env i_time; out_newToken := ask env i_id;
       out_ObserveOutboxPublish := count_on ObserveOutboxPublish |} token events published w).2.
Proof.
  revert published w. induction events as [|event rest IH]; intros published w Hw; [by apply sound_anything in Hw|].
  apply (sound_impl _ (fun s h => (forall event, event ∈ rest -> known event s h) /\ known event s h)) in Hw.
  2:{ intros s h H. split; [intros ev Hev; apply H; by right|apply H; by left]. }
  cbn [publish_loop publisher_Publish sur_publisher participant_surroundings out_now out_ObserveOutboxPublish
    repo_MarkPublished sur_outbox].
  destruct (publish_on_system env (message_of event) w) as [answer w1] eqn:E.
  eapply publish_sound in E; [|apply _|exact Hw]. clear Hw.
  destruct answer as [[]|err]; [|by apply sound_anything in E].
  apply (sound_impl _ (fun s h => (forall event, event ∈ rest -> known event s h) /\ confirmed (EventID event) s h)) in E.
  2:{ intros s h [HQ Hc]. split; [done|by apply Hc]. }
  next_ask E now.
  destruct (on_system env _ _) as [marked w2] eqn:Hmark. eapply mark_sound in Hmark; [|apply _|exact E].
  destruct marked as [[]|err]; [by apply IH|by apply IH|by apply sound_anything in Hmark].
Qed.

Lemma publisher_sound w : sound anything w -> sound anything (outbox_RunOnce (the_outbox sur) w).2.
Proof.
  intros Hw. unfold outbox_RunOnce, RunOnce. cbn. next_ask Hw now. next_ask Hw token.
  destruct (on_system env _ _) as [events w1] eqn:E. eapply claim_outbox_sound in E; [|exact Hw].
  destruct events as [events|e]; [|by apply sound_anything in E]. by apply publish_loop_sound.
Qed.

Lemma apply_allowed id lease attempt :
  attempt_ok attempt = true -> allowed (fun i => ApplyDeliveryResult (i_fault i) id lease attempt).
Proof. intros Hok i d. right. by exists (CallApplyDeliveryResult (i_fault i) id lease attempt). Qed.

(** A delivery never ends in a rejection, and in an acknowledgement only after
    the store has answered the claim. *)
Lemma handle_sound m w r w' :
  delivery_Handle (the_delivery sur) (Delivery.mkMessage (MsgEventID m) (MsgNotificationID m)) w = (r, w') ->
  sound (in_hand m) w ->
  r <> Some Reject /\ sound (fun s h => r = Some Ack -> answered s h) w'.
Proof.
  intros Hrun Hw. unfold delivery_Handle, Handle in Hrun. cbn in Hrun.
  destruct (ask env i_id w) as [lease w1] eqn:E. eapply ask_sound in E; [|exact Hw].
  destruct (ask env i_time w1) as [now w2] eqn:E2. eapply ask_sound in E2; [|exact E]. clear Hw E.
  destruct (claim_on_system env _ _ _ w2) as [claimed w3] eqn:Hclaim. eapply claim_sound in Hclaim; [|exact E2].
  clear E2. destruct claimed as [claim|e]; [|simplify_eq; split; [done|by eapply sound_impl; [|exact Hclaim]]].
  apply (sound_impl _ answered) in Hclaim; [|intros s h H; by apply H].
  destruct claim as [task|]; [|simplify_eq; split; [done|by eapply sound_impl; [|exact Hclaim]]].
  assert (Hturn : forall v i v', turn env v = (i, v') -> sound answered v -> sound answered v').
  { intros v i v' Hv Hs. eapply sound_impl; [|by eapply (turn_sound answered)]. by intros s h [? _]. }
  destruct (turn env w3) as [i3 w4] eqn:E3. apply Hturn in E3; [|done].
  destruct (i_limit i3) as [u|e]; [|simplify_eq; split; [done|by eapply sound_impl; [|exact E3]]].
  destruct (turn env w4) as [i4 w5] eqn:E4. apply Hturn in E4; [|done].
  destruct (i_sent i4) as [result|]; [|simplify_eq; split; [done|by eapply sound_impl; [|exact E4]]].
  destruct (ask env i_time w5) as [completedAt w6] eqn:E5. eapply ask_sound in E5; [|exact E4].
  destruct (match ResultOutcome result with Retryable => ask env i_jitter w6 | _ => (None, w6) end)
    as [jitter w7] eqn:E6.
  assert (Hw7 : sound answered w7).
  { destruct (ResultOutcome result); simplify_eq; try done. by eapply ask_sound. }
  destruct (on_system env _ w7) as [applied w8] eqn:E7.
  eapply (on_system_sound _ answered) in E7; [|apply apply_allowed, attempt_of_ok|exact Hw7].
  destruct applied as [[]|e]; simplify_eq; (split; [done|]); by eapply sound_impl; [|exact E7].
Qed.

Lemma work_sound m w : sound anything w -> sound anything (work jsonb Sum256 returning_order env m w).
Proof.
  intros Hw. unfold work.
  assert (Hreceived : sound (in_hand m) (receive env m w)).
  { unfold receive. destruct (turn env w) as [i w1] eqn:E. eapply (turn_sound anything) in E; [|exact Hw].
    intros Hf. destruct (E Hf) as [Hsteps _]. split; [done|]. unfold in_hand. cbn. case_bool_decide; auto. }
  destruct (t_holding (receive env m w)); [|by apply sound_anything in Hreceived].
  destruct (delivery_Handle _ _ _) as [disposition w'] eqn:Hrun.
  destruct (handle_sound m _ _ _ Hrun Hreceived) as [Hreject H]. by apply settle_sound.
Qed.

Lemma create_sound caller key dest payload w :
  sound anything w ->
  sound anything (service_Create DecodePayload Marshal Sum256 (the_intake registry sur) caller key dest payload w).2.
Proof.
  intros Hw. unfold service_Create. cbn -[Create RequestHash Registry_Get outcome_text].
  destruct (Registry_Get registry dest) as [target|] eqn:Hreg; [|exact Hw].
  destruct (Hash.RequestHash _ _ _ _ _) as [hash|e] eqn:Hhash; [|exact Hw].
  next_ask Hw now. next_ask Hw taskID. destruct (DestURL target) as [url|] eqn:Hurl; [|exact Hw].
  next_ask Hw eventID. unfold Create. rewrite Hreg, Hhash, Hurl. cbn -[outcome_text].
  next_on_system Hw ltac:(idtac) existing.
  - destruct existing as [[existing|]|e]; [|exact Hw..]. by case_bool_decide.
  - intros i d. right. exists (CallCreateOrGet (i_fault i) (i_fault' i)
      (new_task caller key dest payload hash target (URLString url) now taskID) (new_event taskID eventID now)).
    split; [apply new_request_fresh|done].
Qed.

Lemma get_sound caller id w : sound anything w -> sound anything (query_Get (the_query sur) caller id w).2.
Proof.
  intros Hw. unfold query_Get. rewrite Get_result. cbn.
  next_on_system Hw ltac:(intros i d; left; apply read_only_PgGetForCaller) found. exact Hw.
Qed.

Lemma replay_sound id w : sound anything w -> sound anything (replay_Replay (the_replay sur) id w).2.
Proof.
  intros Hw. unfold replay_Replay. cbn. next_ask Hw now. next_ask Hw eventID. rewrite Replay_result. cbn.
  next_on_system Hw ltac:(intros i d; right; by exists (CallReplayDeadAtomic (i_fault i) id now eventID)) applied.
  exact Hw.
Qed.

Lemma schedule_allowed now limit : allowed (fun i => ScheduleDue Sum256 (i_fault i) (i_locked i) now limit).
Proof. intros i d. right. by exists (CallScheduleDue (i_fault i) (i_locked i) now limit). Qed.

Lemma delete_allowed cutoff limit :
  allowed (fun i => DeleteTerminalBefore (i_fault i) (i_locked i) cutoff limit).
Proof. intros i d. right. by exists (CallDeleteTerminalBefore (i_fault i) (i_locked i) cutoff limit). Qed.

Lemma participate_sound act w :
  sound anything w ->
  sound anything (participate jsonb Sum256 returning_order env time_text range_order registry cfg act w).
Proof.
  intros Hw. destruct act as [method path authorization key body| |message| |]; cbn [participate perform].
  - by apply (the_api_preserves _ _ _ Hrange); auto using create_sound, get_sound, replay_sound.
  - by apply publisher_sound.
  - by apply work_sound.
  - unfold scheduler_RunOnce, retry_RunOnce. cbn. next_ask Hw now.
    next_on_system Hw ltac:(apply schedule_allowed) scheduled.
    by destruct scheduled.
  - unfold cleaner_RunOnce, retention_RunOnce, wrapM. cbn -[time_Add]. next_ask Hw now.
    next_on_system Hw ltac:(apply delete_allowed) deleted.
    exact Hw.
Qed.

Lemma run_participant_sound acts :
  sound anything (run_participant jsonb Sum256 returning_order env time_text range_order registry cfg acts s0).
Proof.
  assert (H : sound anything (join s0)) by (intros _; split; [by split|done]).
  unfold run_participant. revert H. generalize (join s0).
  induction acts as [|act acts IH]; intros w Hw; [done|]. by apply IH, participate_sound.
Qed.
End Guarantee.

(** C3 (refinement): the program implements the system.  Let a process do what
    its role makes it do, in any order: answer requests, publish with its
    client ([Publish], with the confirmations of its channel in any order and
    any answer of the broker), handle and settle deliveries, schedule retries,
    delete what is old; let the other processes take steps of the system
    whenever this one calls the database, the broker or a destination; and let
    connections fail, rows be locked and acknowledgements be lost.  The broker
    keeps to its contract: what it accepts and does not return is in the queue,
    until it is acknowledged or has come back too often.  Then, as long as no
    identifier is drawn twice, what the process has done to database and queue
    is a sequence of steps of the system, and the invariant of the database
    holds. *)
Theorem participant_refines jsonb Sum256 returning_order env time_text range_order registry cfg s acts :
  (forall l, returning_order l ≡ₚ l) -> (forall m, range_order m ≡ₚ map_to_list m) ->
  (forall n s, reachable jsonb Sum256 returning_order s ->
     rtc (system_step jsonb Sum256 returning_order) s (i_others (env n) s)) ->
  (forall n, publishes topology (env n)) ->
  reachable jsonb Sum256 returning_order s ->
  let w := run_participant jsonb Sum256 returning_order env time_text range_order registry cfg acts s in
  t_fresh w = true ->
  rtc (system_step jsonb Sum256 returning_order) s (t_sys w) /\ db_inv (sys_db (t_sys w)).
Proof.
  intros Hret Hrange Hothers Hpub Hs w Hfresh.
  destruct (run_participant_sound jsonb Sum256 returning_order env time_text range_order registry cfg s
    Hret Hrange Hothers Hpub Hs acts Hfresh) as [[Hsteps _] _].
  split; [done|]. eapply si_db, reachable_system_inv, reached_rtc; eauto.
Qed.

(** ** An instance: a request, a first publication that the broker cannot route
    and whose confirmation is left over, a second one, a delivery that the
    database failure sends back, another that the destination asks to repeat,
    and the retry *)

(** A client that waits for the answer [a] to its message. *)
Definition prompt_publication (a : Rabbit.answer) (message : OutboxMessage) (ch : channels) : result () * channels :=
  match marshal_message message with
  | Err e => (Err (Wrapped "marshal message" e), ch)
  | Ok _ =>
      let ch := arrive a ch in
      match returns ch, confirms ch with
      | text :: rest, _ => (Err (returned_error text), mkChannels rest (confirms ch) (confirms_closed ch))
      | [], true :: rest => (Ok (), mkChannels [] rest (confirms_closed ch))
      | [], false :: rest => (Err (Sentinel ErrConfirmLost), mkChannels [] rest (confirms_closed ch))
      | [], [] => (Ok (), ch)
      end
  end.

Definition sent (exchange key : string) (mandatory immediate : bool) (p : Publishing) : option error := None.

Lemma prompt_publication_ok ctx a message ch :
  Publish marshal_message sent topology ctx message a ch
    (prompt_publication a message ch).1 (prompt_publication a message ch).2.
Proof.
  unfold prompt_publication. destruct (marshal_message message) as [body|e] eqn:Hm; [|by apply Publish_not_encoded].
  apply (Publish_sent _ _ _ _ _ _ _ body); [done|done|]. apply publish_answered.
  destruct (arrive a ch) as [[|text rest] [|[] rest'] closed] eqn:Ha; cbn;
    try (by apply (await_returned _ (mkChannels _ _ _)));
    try (by apply (await_acked _ (mkChannels _ _ _)));
    try (by apply (await_nacked _ (mkChannels _ _ _))).
  injection Ha as _ Hc _. symmetry in Hc. by apply app_cons_not_nil in Hc.
Qed.

Definition sample_answer_at (n : nat) : Rabbit.answer :=
  Rabbit.mkAnswer (if decide (n < 8)%nat then Some "NO_ROUTE" else None) true.

Definition sample_input (n : nat) : input :=
  mkInput (1000 + Z.of_nat n * Minute) ("x" +:+ pretty (Z.of_nat n)) id
    (if decide (n = 17)%nat then FailBefore else NoFault) NoFault (1000 + Z.of_nat n * Minute) ∅
    (Some (mkSendResult (if decide (n < 40)%nat then Retryable else Delivered) 503 "" "" None)) (Ok ()) None
    sent None (sample_answer_at n) (bool_decide (8 <= n)%nat) false (prompt_publication (sample_answer_at n)) true.

Definition sample_turns : list activity :=
  [DoRequest "POST" "/v1/notifications" "Bearer t-orders" "k1" sample_body; DoPublish; DoPublish;
   DoHandle (Delivery.mkMessage "x2" "x1"); DoHandle (Delivery.mkMessage "x2" "x1"); DoSchedule; DoPublish;
   DoHandle (Delivery.mkMessage (retry_event_id sample_sum "x1" 1) "x1")].

Definition sample_participant : participant :=
  run_participant sample_jsonb sample_sum sample_order sample_input sample_time_text map_to_list sample_registry
    ProcessProps.sample_runtime sample_turns empty_system.

Lemma participant_refines_witness :
  rtc (system_step sample_jsonb sample_sum sample_order) empty_system (t_sys sample_participant) /\
  status <$> tasks (sys_db (t_sys sample_participant)) !! "x1"%string = Some StatusDelivered /\
  sys_queue (t_sys sample_participant) = [] /\
  mis_returned (sys_mishaps (t_sys sample_participant)) = [mkOutboxMessage "x2" "x1"] /\
  confirms (t_channels sample_participant) = [true].
Proof.
  split; [|split_and!; vm_compute; reflexivity].
  apply (participant_refines sample_jsonb sample_sum sample_order sample_input sample_time_text map_to_list
    sample_registry ProcessProps.sample_runtime empty_system sample_turns).
  - intros l. reflexivity.
  - intros m. reflexivity.
  - intros n s _. apply rtc_refl.
  - intros n. split.
    + intros message ch. apply prompt_publication_ok.
    + cbn. unfold sample_answer_at. destruct (decide (n < 8)%nat); [discriminate|].
      intros _ _. apply bool_decide_eq_true. lia.
  - apply rtc_refl.
  - vm_compute. reflexivity.
Defined.
